(* ===== verification/_CoqProject ===== *)
-Q . S2P
Prelude.v
GoBase.v
Db.v
Prog.v
ProgFacts.v
Interfaces.v
Queue.v
Metrics.v
AuditLog.v
Ledger.v
LedgerSpec.v
LedgerWp.v
LedgerFacts.v
LedgerRefine.v
Webhook.v
Worker.v
Adapters.v
Quiet.v
History.v
WebhookWp.v
WorkerWp.v
Auth.v
Http.v
Idempotency.v
Tenants.v
AuthMw.v
Handlers.v
Router.v
Config.v
Process.v
AuthWp.v
Statements.v
HandlerFacts.v
Writes.v
Schema.v
Alone.v
System.v
Order.v
Progress.v
Concrete.v
LedgerProps.v
LedgerSingle.v
WebhookProps.v
IdempotencyWp.v
IdempotencyProps.v
AuthProps.v
HttpProps.v
WorkerProps.v
LivenessProps.v
ReadProps.v
LedgerAnswer.v
AuthAnswer.v
EndpointProps.v
LifecycleProps.v
