(* ===== verification/Prelude.v ===== *)
(** * Transacta: a verification development

    Transacta (src/) is a multi-tenant double-entry ledger behind an HTTP API:
    accounts and transactions in PostgreSQL, a transactional outbox of webhook
    events with a polling delivery worker, idempotency keys with leases, users
    with access and refresh tokens, and an append-only audit trail. This library
    models its Go code and proves what the code keeps true, for one request
    alone and for any number of them interleaved.

    ** The parts of the program and where they are modelled

    - internal/ledger (service.go, repository.go, models.go, events.go, audit.go,
      errors.go): Ledger.v. [ExecuteTransfer], [CreatePendingTransaction],
      [PostPendingTransaction], [FailPendingTransaction], [CreateAccount] and the
      reads are the methods of Service; the [q_...] definitions are the SQL
      statements of the repository. The ledger calls the webhook and audit
      packages only through the interfaces of Interfaces.v ([EventEnqueuer],
      [AuditRecorder]), whose laws Adapters.v proves of the implementations.
    - internal/queue: Queue.v, the job queue over webhook_events and
      dead_letter_events. internal/webhook: Webhook.v, the delivery of one event
      ([ProcessEvent]), the claim of a batch ([processBatch]), backoff, jitter and
      signatures; Worker.v, the loop of [Run] with its ticker, its shutdown and
      the goroutines of a batch, for any number of processes (a [fleet]).
    - internal/middleware/idempotency: Idempotency.v, the store of keys and the
      middleware around a handler.
    - internal/auth: Auth.v, registration, login, rotation of refresh tokens with
      reuse detection, logout, access tokens, permissions.
      internal/middleware/auth: AuthMw.v.
    - internal/tenants, the tenant gate of handlers.go, scripts/create_tenant:
      Tenants.v. internal/audit: AuditLog.v. internal/config: Config.v.
      internal/metrics: Metrics.v, the collectors and their labels.
    - cmd/api/handlers.go: Handlers.v. cmd/api/main.go: Router.v (services, routes
      and middlewares, healthHandler) and Process.v (start-up, exit statuses,
      shutdown). The recovery, logging and metrics middlewares and net/http's
      ResponseWriter: Http.v.
    - migrations: Db.v, one record per row, one finite map per table, and the
      constraints as the checks of the statements that can violate them.
    - Go itself: GoBase.v ([int64] arithmetic on Z with its wrap-around, [error]
      values with errors.Is, JSON values).

    ** How effects are modelled

    A method is a [prog] (Prog.v): a tree of database calls, of questions to the
    environment (clock, random bytes, fresh identifiers, HTTP replies) and of
    observable outputs. [run] executes one program alone, [pool_step] and its
    executable form [pool_exec] interleave any number of programs, statement by
    statement. The environment ([tick]) also injects faults: a call can fail
    before it takes effect, or after it (a lost answer). The database behaves as
    PostgreSQL at READ COMMITTED: a statement sees the committed rows and its own
    transaction's writes; written rows, rows selected FOR UPDATE and the values of
    unique indexes that an INSERT claims stay locked until the transaction ends; a
    statement that needs a locked row waits; SKIP LOCKED skips it; any error
    inside a transaction aborts it. A statement is atomic.

    System.v is the whole program: [system_reached] holds of what any number of
    processes can get to, each with its worker and the requests it serves
    ([Router.app], whole requests with all their middlewares), next to runs of
    the script. It is a [fleet] whose steps are those of the goroutines and of the
    loops, the arrival of requests, and the death of goroutines at any moment,
    which rolls back what they had open. A process dies with all its goroutines;
    the model lets them die one by one, so that every theorem also covers the
    partial cases.

    ProgFacts.v has the program logic: [wp], a rely/guarantee weakest
    precondition ([wp_run] for a lone program, [wp_pool] for a pool), the rules
    for code inside a transaction ([in_tx], [commits], [wp_transaction]), and the
    lemmas that run a program step by step without faults. LedgerWp.v, Quiet.v,
    System.v, WebhookWp.v, WorkerWp.v, IdempotencyWp.v and AuthWp.v apply it to
    the components.

    Statements.v is the catalogue of the statements the program can issue, by
    component ([ledger_stmt], [request_stmt], [program_stmt]), with the proof by
    traversal that the handlers, the worker and the script issue no other. What
    is proved of every statement of the catalogue holds of the whole program:
    Writes.v, what their writes do to stored rows and to the outbox ([evolves] for
    one write, [evolution] for two states, both in History.v); Schema.v, that they
    keep the constraints of the migrations ([well_typed]), whatever transactions
    with other locks commit meanwhile ([sound_merge]).
    HandlerFacts.v is about how handlers answer. System.v carries properties of
    statements to the interleaved program ([database_inv]).

    Alone.v is the counterpart of [wp] for what a program must do: a weakest
    precondition over [run] when no database call fails and identifiers are new
    ([calm], [unused_from]), whose postconditions fix the cause of every error
    ([decided]). LedgerAnswer.v applies it: [refusal] decides from the database
    alone whether a ledger call is to be refused and why, and the service is shown
    to decide in the same way; AuthAnswer.v does so for the authentication service
    ([auth_refusal]).

    Order.v and Progress.v are about waiting for locks. Order.v gives every lock a
    rank and shows that every transaction of the program takes its locks in the
    order of their ranks ([ordered]); Progress.v shows that a pool of ordered
    programs can always go on, following waiting goroutines to one that can move,
    and that any goroutine can be run to its end ([finish]).

    ** What the theorems show

    - The ledger as a refinement (LedgerSpec.v is the abstract machine, LedgerProps.v
      the theorems): any interleaving of calls, and of everything else the processes
      do, is a sequence of atomic effects; a call that reports success made
      exactly its effect, one that fails made none. From it: no overdraft and
      conservation of money while the amounts entered stay below 2^63, the life
      cycle of a transaction, isolation of tenants, completeness of the outbox and
      of the audit trail. LedgerSingle.v: termination and all-or-nothing of a
      single call, what a transfer does to each balance, and the int64 overflows
      that let crafted amounts mint money or overdraw an account. LedgerAnswer.v:
      a call succeeds exactly when there is no reason to refuse it, and a transfer
      in two phases is refused, or moves money, as the direct one.
    - The whole program as an interleaved system. LivenessProps.v: goroutines
      never deadlock; from every state the program reaches, any goroutine can be
      run to its end, and a worker's loop back to where it waits for its next tick.
      LifecycleProps.v: history is never rewritten; append-only tables only grow,
      and the other rows change only along their life cycles; and the database
      keeps its schema, foreign keys, checks and unique indexes.
    - Webhook delivery of one batch or event (WebhookProps.v): no event is claimed
      twice, the outcome of every attempt, exponential backoff and its jitter,
      signatures, and the loss of a claim whose COMMIT answer is lost. In the whole
      program (WorkerProps.v): an event in delivery belongs to one goroutine of one
      process, the life cycle of an event, and the fate of an event whose delivery
      ends without recording an outcome.
    - Idempotency (IdempotencyProps.v): linearizability of claims, disjoint
      leases, fencing of stale completions, replay of the first answer.
    - Sessions (AuthProps.v): linearizability, single use of a refresh token,
      finality of a logout, reuse detection. AuthAnswer.v: a registration, login,
      refresh or logout succeeds exactly when there is no reason to refuse it; who
      registers can log in.
    - HTTP (HttpProps.v): the permission gate of every protected route, and that
      every request is answered and truthfully reported in log and metrics.
      EndpointProps.v: the status of a ledger endpoint tells whether the call took
      effect, and when nothing fails it is decided by the request and the database. ReadProps.v: a created transaction reads back as it was sent, a page
      of the audit log has the latest entries of the tenant, and the key that
      create_tenant prints admits its tenant and only that one. Process.v: what a server that comes up has, and what exit status 0
      means.

    Each theorem with hypotheses is followed by a [_witness] that applies it to
    the sample data and instances of Concrete.v.

    ** Parameters

    Code that is not in src/ is a class: google/uuid ([UuidLib]), error texts of
    the driver ([DriverText]), SHA-256 and HMAC ([Crypto]), the text of JSON
    ([JsonText], [Decoder], [Encoder]), the microsecond timestamps of PostgreSQL
    ([PgTime]), LOWER() ([SqlLower]), bcrypt ([Bcrypt]), JWT ([Jwt]), the
    conversion of out-of-range floats ([FloatConv]), the URL check of net/http
    ([HttpLib]), chi's own answers and promhttp's page ([Chi]), sql.Open of pgx
    ([SqlDriver]). Identifiers drawn
    by gen_random_uuid() and random bytes are the environment's answers: an
    INSERT under a used identifier fails as a primary-key violation.

    ** Bounds, fuel and simplifications

    The only fuel is that of completeWithRetry, which is the code's own limit of
    three attempts; every program tree is finite, so [run] is total ([run_total]).
    Bounds on amounts are hypotheses of the theorems that need them. Not modelled:
    the key-share locks of foreign keys (no row they would protect is ever deleted
    or has its key changed); the order of rows the code does not ask for (GROUP BY,
    RETURNING, equal ORDER BY keys, iteration over a Go map), where one order is
    fixed; the range of the integer column response_code; negative batch sizes;
    context cancellation and chi's Timeout, whose visible effect on the database
    is that of a fault; the NULL that an empty response body is stored as, which
    reads back as the same empty body; Prometheus's sums, of which the [OMetric] outputs of a run
    are the increments; sockets and signals themselves, of which Process.v has the
    consequences.

    This file: the notations' scope, hint databases, tactics, and the lemmas on
    sums, lists and strings that the components share. *)

From stdpp Require Export base numbers list gmap strings sorting fin_maps.
From Stdlib Require Export Lia.

#[export] Set Warnings "-clear-no-such-hyp".

(** Notations of the development live in their own scope. *)
Declare Scope go_scope.
Delimit Scope go_scope with go.

Create HintDb transacta.
Create Rewrite HintDb int64.

(** ** Identifiers and time *)

(** A [uuid.UUID] is sixteen bytes; only equality and order of identifiers
    matter here, so it is the number those bytes spell. *)
Abbreviation uuid := N (only parsing).

(** Instants and durations in nanoseconds. *)
Abbreviation time := Z (only parsing).
Abbreviation duration := Z (only parsing).

(** ** Sums of integers over lists and finite maps *)

Definition sumZ (l : list Z) : Z := foldr Z.add 0%Z l.

Definition map_sumZ `{Countable K} {V} (f : K * V -> Z) (m : gmap K V) : Z :=
  sumZ (f <$> map_to_list m).

(** [whenZ P x] is [x] where [P] holds and nothing elsewhere. *)
Definition whenZ (P : Prop) `{Decision P} (x : Z) : Z :=
  if decide P then x else 0%Z.

(** ** Tactics *)

(** Splits a conjunction of hypotheses or an existential as often as possible. *)
Ltac destr_all :=
  repeat match goal with
    | H : _ /\ _ |- _ => destruct H
    | H : exists _, _ |- _ => destruct H
    | H : _ * _ |- _ => destruct H
    end.

(** Case analysis on the scrutinee of a [match] in a hypothesis. *)
Ltac case_in H :=
  match type of H with
  | context [match ?x with _ => _ end] => let E := fresh "E" in destruct x eqn:E
  end.

(** ** Lemmas on sums *)

Lemma sumZ_app l1 l2 : sumZ (l1 ++ l2) = (sumZ l1 + sumZ l2)%Z.
Proof. induction l1 as [|x l1 IH]; simpl; lia. Qed.

#[export] Instance sumZ_Permutation : Proper (Permutation ==> eq) sumZ.
Proof. induction 1; simpl; lia. Qed.

Lemma sumZ_fmap_ext {A} (f g : A -> Z) (l : list A) :
  (forall x, x ∈ l -> f x = g x) -> sumZ (f <$> l) = sumZ (g <$> l).
Proof.
  induction l as [|x l IH]; intros H; csimpl; [done|].
  rewrite (H x) by set_solver. rewrite IH; [done|]. intros y ?. apply H. set_solver.
Qed.

Lemma sumZ_fmap_add {A} (f g : A -> Z) (l : list A) :
  sumZ ((fun x => f x + g x)%Z <$> l) = (sumZ (f <$> l) + sumZ (g <$> l))%Z.
Proof. induction l as [|x l IH]; csimpl; lia. Qed.

Lemma sumZ_fmap_zero {A} (f : A -> Z) (l : list A) :
  (forall x, x ∈ l -> f x = 0%Z) -> sumZ (f <$> l) = 0%Z.
Proof.
  induction l as [|x l IH]; intros H; csimpl; [done|].
  rewrite (H x) by set_solver. rewrite IH; [lia|]. intros y ?. apply H. set_solver.
Qed.

Lemma sumZ_fmap_nonneg {A} (f : A -> Z) (l : list A) :
  (forall x, x ∈ l -> 0 <= f x)%Z -> (0 <= sumZ (f <$> l))%Z.
Proof.
  induction l as [|x l IH]; intros H; csimpl; [lia|].
  assert (0 <= f x)%Z by (apply H; set_solver).
  assert (0 <= sumZ (f <$> l))%Z by (apply IH; intros; apply H; set_solver). lia.
Qed.

Lemma sumZ_fmap_abs_le {A} (f : A -> Z) (l : list A) :
  (Z.abs (sumZ (f <$> l)) <= sumZ ((fun x => Z.abs (f x)) <$> l))%Z.
Proof. induction l as [|x l IH]; csimpl; lia. Qed.

Lemma sumZ_fmap_le {A} (f g : A -> Z) (l : list A) :
  (forall x, x ∈ l -> f x <= g x)%Z -> (sumZ (f <$> l) <= sumZ (g <$> l))%Z.
Proof.
  induction l as [|x l IH]; intros H; csimpl; [lia|].
  assert (f x <= g x)%Z by (apply H; set_solver).
  assert (sumZ (f <$> l) <= sumZ (g <$> l))%Z by (apply IH; intros; apply H; set_solver). lia.
Qed.

Lemma whenZ_True (P : Prop) `{Decision P} x : P -> whenZ P x = x.
Proof. intros. unfold whenZ. by rewrite decide_True. Qed.

Lemma whenZ_False (P : Prop) `{Decision P} x : ~ P -> whenZ P x = 0%Z.
Proof. intros. unfold whenZ. by rewrite decide_False. Qed.

Lemma whenZ_iff (P Q : Prop) `{Decision P} `{Decision Q} x : (P <-> Q) -> whenZ P x = whenZ Q x.
Proof. intros HPQ. unfold whenZ. by rewrite (decide_ext P Q). Qed.

(** Summing a filtered list is summing the guarded terms. *)
Lemma sumZ_filter {A} (P : A -> Prop) `{!forall x, Decision (P x)} (f : A -> Z) (l : list A) :
  sumZ (f <$> filter P l) = sumZ ((fun x => whenZ (P x) (f x)) <$> l).
Proof.
  induction l as [|x l IH]; [done|].
  rewrite filter_cons. csimpl. rewrite <- IH. unfold whenZ at 1.
  case_decide; csimpl; lia.
Qed.

Section map_sum.
Context `{Countable K} {V : Type}.
Implicit Types (m : gmap K V) (f g : K * V -> Z).

Lemma map_sumZ_empty f : map_sumZ f ∅ = 0%Z.
Proof. unfold map_sumZ. by rewrite map_to_list_empty. Qed.

Lemma map_sumZ_insert f m i x :
  m !! i = None -> map_sumZ f (<[i:=x]> m) = (f (i, x) + map_sumZ f m)%Z.
Proof.
  intros Hi. unfold map_sumZ. by rewrite map_to_list_insert.
Qed.

Lemma map_sumZ_ext f g m :
  (forall i x, m !! i = Some x -> f (i, x) = g (i, x)) -> map_sumZ f m = map_sumZ g m.
Proof.
  intros Hfg. apply sumZ_fmap_ext. intros [i x] Hin.
  apply Hfg. by apply elem_of_map_to_list.
Qed.

Lemma map_sumZ_zero f m :
  (forall i x, m !! i = Some x -> f (i, x) = 0%Z) -> map_sumZ f m = 0%Z.
Proof.
  intros Hf. apply sumZ_fmap_zero. intros [i x] Hin.
  apply Hf. by apply elem_of_map_to_list.
Qed.

Lemma map_sumZ_add f g m :
  map_sumZ (fun p => f p + g p)%Z m = (map_sumZ f m + map_sumZ g m)%Z.
Proof. apply sumZ_fmap_add. Qed.

Lemma map_sumZ_nonneg f m :
  (forall i x, m !! i = Some x -> 0 <= f (i, x))%Z -> (0 <= map_sumZ f m)%Z.
Proof.
  intros Hf. apply sumZ_fmap_nonneg. intros [i x] Hin.
  apply Hf. by apply elem_of_map_to_list.
Qed.
End map_sum.

(** ** Strings *)

Lemma string_app_nil_r (a : string) : a +:+ "" = a.
Proof. induction a as [|c a IH]; [done|]. exact (f_equal (String c) IH). Qed.

Lemma string_app_assoc (a b c : string) : a +:+ (b +:+ c) = (a +:+ b) +:+ c.
Proof. induction a as [|x a IH]; [done|]. exact (f_equal (String x) IH). Qed.

(** ** Sorted and filtered lists *)

Lemma StronglySorted_filter {A} (R : relation A) (P : A -> Prop) `{!forall x, Decision (P x)} l :
  StronglySorted R l -> StronglySorted R (filter P l).
Proof.
  induction 1 as [|x l Hs IH Hx]; [constructor|]. rewrite filter_cons. case_decide; [|done].
  constructor; [done|]. apply Forall_forall. intros y [_ Hy]%list_elem_of_filter.
  rewrite Forall_forall in Hx. by apply Hx.
Qed.

(** Selecting from the rows of a table keeps their keys distinct. *)
Lemma sublist_NoDup_fst {A B} (l k : list (A * B)) : sublist l k -> NoDup k.*1 -> NoDup l.*1.
Proof. intros Hs Hk. eapply sublist_NoDup; [exact Hk|]. by apply fmap_sublist. Qed.

(** What [LIMIT n] drops from a sorted list comes after what it keeps. *)
Lemma take_sorted {A} (R : relation A) n (l : list A) x :
  StronglySorted R l -> x ∈ l ->
  x ∈ take n l \/ length (take n l) = n /\ forall y, y ∈ take n l -> R y x.
Proof.
  intros Hs Hx. rewrite <- (take_drop n l) in Hs, Hx. apply elem_of_app in Hx as [Hx|Hx]; [by left|right].
  split.
  - destruct (decide (n <= length l)%nat); [rewrite length_take; lia|].
    rewrite drop_ge in Hx by lia. by apply not_elem_of_nil in Hx.
  - intros y Hy. by eapply StronglySorted_app_1_elem_of.
Qed.

#[export] Hint Resolve elem_of_map_to_list : transacta.
