(* ===== verification/GoBase.v ===== *)
(** * The part of Go and its standard library that every package uses

    Machine integers ([int64], and the types defined over it), the [error]
    values built with [errors.New] and [fmt.Errorf], the JSON values handed to
    [encoding/json], and the third-party packages the code only calls
    (google/uuid and the text of driver errors), which are parameters. *)

From S2P Require Import Prelude.

(** ** int64 *)

Definition int64_modulus : Z := 2 ^ 64.
Definition int64_min : Z := - 2 ^ 63.
Definition int64_max : Z := 2 ^ 63 - 1.

(** The value of an [int64] expression whose exact value is [z]. *)
Definition wrap64 (z : Z) : Z := (z + 2 ^ 63) mod int64_modulus - 2 ^ 63.

Definition add64 (a b : Z) : Z := wrap64 (a + b).

(** [fits64 z]: an [int64] can hold [z]. [Rows.Scan] of a NUMERIC into an
    [int64] destination fails when this is [false]. *)
Definition fits64 (z : Z) : bool := (int64_min <=? z)%Z && (z <=? int64_max)%Z.

(** ** Errors *)

(** What a database call can report besides an empty result. *)
Inductive sqlerr :=
  | ConnErr                          (* the connection, the server or the context failed *)
  | TxDone                           (* sql.ErrTxDone *)
  | TxAborted                        (* a previous statement of the transaction failed *)
  | UniqueViolation (constraint : string)
  | FkViolation (constraint : string)
  | CheckViolation (constraint : string).

(** An [error]: a value made by [errors.New], identified by its text (the texts
    of this program's sentinel errors are distinct), a [fmt.Errorf] whose [%w]
    verb wraps [e] between two literal texts, a driver error, or a scan error. *)
Inductive goerr :=
  | New (msg : string)
  | Wrap (pre : string) (e : goerr) (post : string)
  | SqlError (e : sqlerr)
  | ScanRange (z : Z).

#[export] Instance sqlerr_eq_dec : EqDecision sqlerr.
Proof. solve_decision. Defined.
#[export] Instance goerr_eq_dec : EqDecision goerr.
Proof. solve_decision. Defined.

(** [errors.Is]: the target itself or anything it wraps. *)
Fixpoint errors_Is (e target : goerr) : bool :=
  bool_decide (e = target) ||
  match e with
  | Wrap _ e' _ => errors_Is e' target
  | _ => false
  end.

(** What is left of an error when every [fmt.Errorf] around it is removed. *)
Fixpoint cause (e : goerr) : goerr :=
  match e with Wrap _ e' _ => cause e' | _ => e end.

(** [sql.ErrNoRows]. *)
Definition ErrNoRows : goerr := New "sql: no rows in result set".

(** ** JSON values *)

(** A value passed to [json.Marshal] and stored in a JSONB column. Struct fields
    keep their order; the keys of a Go map are sorted by the encoder. *)
#[warnings="-register-all"]
Inductive json :=
  | JNull
  | JString (s : string)
  | JNumber (z : Z)
  | JArray (l : list json)
  | JObject (fields : list (string * json)).

(** ** Third-party packages *)

(** google/uuid: the text form of an identifier and its parser. The law is the
    documented round trip of the canonical form. *)
Class UuidLib := {
  uuid_String : uuid -> string;
  uuid_Parse : string -> option uuid;
  uuid_Parse_String : forall u, uuid_Parse (uuid_String u) = Some u
}.

(** The texts of driver errors (jackc/pgx) and of scan errors. *)
Class DriverText := {
  sqlerr_text : sqlerr -> string;
  scan_text : Z -> string
}.

(** crypto/sha256 and crypto/hmac: hex.EncodeToString of the digest. *)
Class Crypto := {
  sha256_hex : string -> string;
  hmac_sha256_hex : string -> string -> string
}.

(** The text of a JSONB value as PostgreSQL returns it. *)
Class JsonText := { json_text : json -> string }.

(** The instant PostgreSQL stores for a [time.Time] parameter (pgx sends whole
    microseconds). *)
Class PgTime := {
  pg_time : time -> time;
  pg_time_mono : forall a b, (a <= b)%Z -> (pg_time a <= pg_time b)%Z;
  pg_time_idem : forall a, pg_time (pg_time a) = pg_time a
}.

(** [LOWER(text)] in the collation of the database. *)
Class SqlLower := { sql_lower : string -> string }.

(** [err.Error()]. *)
Fixpoint Error `{DriverText} (e : goerr) : string :=
  match e with
  | New msg => msg
  | Wrap pre e' post => pre +:+ Error e' +:+ post
  | SqlError s => sqlerr_text s
  | ScanRange z => scan_text z
  end.

(** ** strconv *)

Definition char (n : nat) : string := String (Ascii.ascii_of_nat n) EmptyString.

Definition hex_digit (n : nat) : string := char (if (n <? 10)%nat then 48 + n else 87 + n)%nat.

(** [strconv.Quote], the text of the verb [%q]: quotes, backslashes and control
    characters are escaped; the bytes of other characters are kept, as Go keeps
    those of the printable ones. *)
Definition quote_char (c : Ascii.ascii) : string :=
  let n := Ascii.nat_of_ascii c in
  let escaped (m : nat) := char 92 +:+ char m in
  match n with
  | 34 | 92 => escaped n
  | 7 => escaped 97 | 8 => escaped 98 | 9 => escaped 116 | 10 => escaped 110
  | 11 => escaped 118 | 12 => escaped 102 | 13 => escaped 114
  | _ => if (n <? 32)%nat || (n =? 127)%nat
         then escaped 120 +:+ hex_digit (n / 16) +:+ hex_digit (n mod 16)
         else String c EmptyString
  end.

Fixpoint quote_chars (s : string) : string :=
  match s with
  | EmptyString => EmptyString
  | String c s => quote_char c +:+ quote_chars s
  end.

Definition Quote (s : string) : string := char 34 +:+ quote_chars s +:+ char 34.

(** [strconv.Atoi]: an optional sign, then decimal digits, in the range of int. *)
Fixpoint decimal (acc : Z) (s : string) : option Z :=
  match s with
  | EmptyString => Some acc
  | String c s =>
      let n := Z.of_nat (Ascii.nat_of_ascii c) in
      if (48 <=? n)%Z && (n <=? 57)%Z then decimal (10 * acc + (n - 48)) s else None
  end.

Definition Atoi (s : string) : option Z :=
  let digits (neg : bool) (s : string) :=
    match s with
    | EmptyString => None
    | _ => z ← decimal 0 s;
           let z := (if neg then - z else z)%Z in
           if fits64 z then Some z else None
    end in
  match s with
  | String c rest =>
      if decide (c = Ascii.ascii_of_nat 45) then digits true rest
      else if decide (c = Ascii.ascii_of_nat 43) then digits false rest
      else digits false s
  | EmptyString => None
  end.

Example Quote_ex : Quote ("a" +:+ char 34 +:+ char 1) = char 34 +:+ "a" +:+ char 92 +:+ char 34 +:+ char 92 +:+ "x01" +:+ char 34.
Proof. reflexivity. Qed.

Example Atoi_ex :
  Atoi <$> ["50"; "-7"; "+7"; ""; "-"; "5a"; "9223372036854775807"; "9223372036854775808"] =
  [Some 50%Z; Some (-7)%Z; Some 7%Z; None; None; None; Some int64_max; None].
Proof. reflexivity. Qed.

(** The order in which [sort.Slice] puts identifiers compared by their text. *)
Definition uuid_text_le `{UuidLib} (a b : uuid) : Prop :=
  String.leb (uuid_String a) (uuid_String b) = true.

#[export] Instance uuid_text_le_dec `{UuidLib} : RelDecision uuid_text_le.
Proof. unfold uuid_text_le. solve_decision. Defined.

(** ** Lemmas *)

Section int64.
Local Open Scope Z_scope.

Lemma wrap64_range z : int64_min <= wrap64 z <= int64_max.
Proof.
  unfold wrap64, int64_min, int64_max, int64_modulus.
  pose proof (Z.mod_pos_bound (z + 2 ^ 63) (2 ^ 64)). lia.
Qed.

Lemma wrap64_id z : int64_min <= z <= int64_max -> wrap64 z = z.
Proof.
  unfold wrap64, int64_min, int64_max, int64_modulus. intros Hz.
  rewrite Z.mod_small; lia.
Qed.

(** Two exact values with the same representation differ by a multiple of 2^64. *)
Lemma wrap64_diff z : exists k, wrap64 z = z + k * int64_modulus.
Proof.
  unfold wrap64, int64_modulus.
  exists (- ((z + 2 ^ 63) / 2 ^ 64)).
  pose proof (Z.div_mod (z + 2 ^ 63) (2 ^ 64)). lia.
Qed.

Lemma wrap64_congr a b k : a = b + k * int64_modulus -> wrap64 a = wrap64 b.
Proof.
  intros ->. unfold wrap64.
  replace (b + k * int64_modulus + 2 ^ 63) with (b + 2 ^ 63 + k * int64_modulus) by lia.
  by rewrite Z_mod_plus_full.
Qed.

Lemma add64_wrap_l a b : add64 (wrap64 a) b = add64 a b.
Proof.
  destruct (wrap64_diff a) as [k Hk]. unfold add64.
  apply (wrap64_congr _ _ k). lia.
Qed.

Lemma wrap64_idemp z : wrap64 (wrap64 z) = wrap64 z.
Proof. apply wrap64_id, wrap64_range. Qed.

Lemma wrap64_zero z : wrap64 z = 0 <-> (int64_modulus | z).
Proof.
  split.
  - intros E. destruct (wrap64_diff z) as [k Hk]. exists (- k). lia.
  - intros [k ->]. rewrite (wrap64_congr _ 0 k); [reflexivity|lia].
Qed.

Lemma fits64_spec z : fits64 z = true <-> int64_min <= z <= int64_max.
Proof. unfold fits64. rewrite andb_true_iff, !Z.leb_le. lia. Qed.
End int64.

#[export] Hint Rewrite add64_wrap_l wrap64_idemp : int64.
#[export] Hint Resolve wrap64_range : transacta.

Lemma errors_Is_refl e : errors_Is e e = true.
Proof. destruct e; simpl; by rewrite bool_decide_true. Qed.

(** errors.Is with a sentinel depends on the cause only. *)
Lemma errors_Is_cause e msg : errors_Is (cause e) (New msg) = errors_Is e (New msg).
Proof. by induction e. Qed.

(** A wrapped sentinel is still recognised. *)
Lemma errors_Is_wrap pre e post target :
  errors_Is e target = true -> errors_Is (Wrap pre e post) target = true.
Proof. intros H. simpl. by rewrite H, orb_true_r. Qed.

#[export] Hint Resolve errors_Is_refl errors_Is_wrap : transacta.

Lemma uuid_String_inj `{UuidLib} a b : uuid_String a = uuid_String b -> a = b.
Proof.
  intros E. pose proof (uuid_Parse_String a) as Ha. rewrite E, uuid_Parse_String in Ha. congruence.
Qed.
