(* ===== verification/Db.v ===== *)
(** * The database: tables, rows, locks and row-level writes

    The schema of src/migrations/*.up.sql as a record of finite maps, one per
    table, keyed by the primary key. A statement changes rows only through
    [write]s (full row images), and every row it writes is locked until its
    transaction ends. No statement of the program deletes a row. *)

From S2P Require Import Prelude GoBase.

(** ** Column types *)

(** [transactions.status], chk_tx_status (000002_constraints.up.sql). *)
Inductive txn_status := StatusPending | StatusPosted | StatusFailed.

(** [idempotency_keys.status]. *)
Inductive idem_status := StatusProcessing | StatusCompleted.

(** [webhook_events.status] (package queue's [Status]). *)
Inductive job_status := JobPending | JobProcessing | JobDelivered | JobFailed.

(** [users.status]. *)
Inductive user_status := UserStatusActive | UserStatusDisabled.

(** [refresh_tokens.status]. *)
Inductive token_status := TokenActive | TokenRotated | TokenRevoked.

#[export] Instance txn_status_eq_dec : EqDecision txn_status.
Proof. solve_decision. Defined.
#[export] Instance idem_status_eq_dec : EqDecision idem_status.
Proof. solve_decision. Defined.
#[export] Instance job_status_eq_dec : EqDecision job_status.
Proof. solve_decision. Defined.
#[export] Instance user_status_eq_dec : EqDecision user_status.
Proof. solve_decision. Defined.
#[export] Instance token_status_eq_dec : EqDecision token_status.
Proof. solve_decision. Defined.

(** ** Rows (every column but the primary key) *)

Record tenant_row := TenantRow {
  tn_name : string;
  tn_api_key_hash : string;
  tn_webhook_url : option string;
  tn_webhook_secret : option string
}.

Record account_row := AccountRow {
  ac_tenant_id : uuid;
  ac_name : string;
  ac_created_at : time
}.

Record transaction_row := TransactionRow {
  tr_tenant_id : uuid;
  tr_status : txn_status;
  tr_created_at : time
}.

Record entry_row := EntryRow {
  en_tenant_id : uuid;
  en_transaction_id : uuid;
  en_account_id : uuid;
  en_amount_minor : Z;
  en_created_at : time
}.

Record idempotency_row := IdempotencyRow {
  ik_tenant_id : uuid;
  ik_key : string;
  ik_request_hash : string;
  ik_response_code : option Z;
  ik_response_body : option string;
  ik_status : idem_status;
  ik_created_at : time;
  ik_expires_at : time
}.

Record event_row := EventRow {
  ev_tenant_id : uuid;
  ev_event_type : string;
  ev_payload : json;
  ev_status : job_status;
  ev_attempt_count : Z;
  ev_next_retry_at : time;
  ev_created_at : time;
  ev_last_error : option string
}.

Record dead_letter_row := DeadLetterRow {
  dl_tenant_id : uuid;
  dl_original_event_id : uuid;
  dl_event_type : string;
  dl_payload : json;
  dl_attempt_count : Z;
  dl_last_error : option string;
  dl_failed_at : time
}.

Record audit_row := AuditRow {
  au_tenant_id : uuid;
  au_action : string;
  au_actor_id : string;
  au_payload : json;
  au_created_at : time
}.

Record user_row := UserRow {
  us_tenant_id : uuid;
  us_role_id : uuid;
  us_email : string;
  us_password_hash : string;
  us_status : user_status;
  us_created_at : time
}.

Record refresh_token_row := RefreshTokenRow {
  rt_user_id : uuid;
  rt_tenant_id : uuid;
  rt_token_hash : string;
  rt_status : token_status;
  rt_replaced_by : option uuid;
  rt_created_at : time;
  rt_expires_at : time
}.

(** The seeded tables of 000003_users_auth.up.sql that the program only reads:
    role and permission names by identifier, and the grants. *)
Record rbac_tables := RbacTables {
  roles : gmap uuid string;
  permissions : gmap uuid string;
  role_permissions : list (uuid * uuid)
}.

Record db := Db {
  tenants : gmap uuid tenant_row;
  accounts : gmap uuid account_row;
  transactions : gmap uuid transaction_row;
  entries : gmap uuid entry_row;
  idempotency_keys : gmap uuid idempotency_row;
  webhook_events : gmap uuid event_row;
  dead_letter_events : gmap uuid dead_letter_row;
  audit_log : gmap uuid audit_row;
  users : gmap uuid user_row;
  refresh_tokens : gmap uuid refresh_token_row;
  rbac : rbac_tables
}.

(** The tables a statement can write, and the locks it can take: a row, or a
    value of a unique index. *)
Inductive tbl :=
  | T_tenants
  | T_accounts
  | T_transactions
  | T_entries
  | T_idempotency_keys
  | T_webhook_events
  | T_dead_letter_events
  | T_audit_log
  | T_users
  | T_refresh_tokens.

Inductive lock :=
  | LRow (t : tbl) (i : uuid)
  | LUnique (t : tbl) (scope : uuid) (value : string).

#[export] Instance tbl_eq_dec : EqDecision tbl.
Proof. solve_decision. Defined.
#[export] Instance lock_eq_dec : EqDecision lock.
Proof. solve_decision. Defined.

(** ** Row-level writes *)

Inductive write :=
  | WTenant (i : uuid) (r : tenant_row)
  | WAccount (i : uuid) (r : account_row)
  | WTransaction (i : uuid) (r : transaction_row)
  | WEntry (i : uuid) (r : entry_row)
  | WIdempotency (i : uuid) (r : idempotency_row)
  | WEvent (i : uuid) (r : event_row)
  | WDeadLetter (i : uuid) (r : dead_letter_row)
  | WAudit (i : uuid) (r : audit_row)
  | WUser (i : uuid) (r : user_row)
  | WRefreshToken (i : uuid) (r : refresh_token_row).

Definition set_tenants (f : gmap uuid tenant_row -> gmap uuid tenant_row) (d : db) : db :=
  {| tenants := f (tenants d);
     accounts := accounts d;
     transactions := transactions d;
     entries := entries d;
     idempotency_keys := idempotency_keys d;
     webhook_events := webhook_events d;
     dead_letter_events := dead_letter_events d;
     audit_log := audit_log d;
     users := users d;
     refresh_tokens := refresh_tokens d;
     rbac := rbac d |}.

Definition set_accounts (f : gmap uuid account_row -> gmap uuid account_row) (d : db) : db :=
  {| tenants := tenants d;
     accounts := f (accounts d);
     transactions := transactions d;
     entries := entries d;
     idempotency_keys := idempotency_keys d;
     webhook_events := webhook_events d;
     dead_letter_events := dead_letter_events d;
     audit_log := audit_log d;
     users := users d;
     refresh_tokens := refresh_tokens d;
     rbac := rbac d |}.

Definition set_transactions (f : gmap uuid transaction_row -> gmap uuid transaction_row) (d : db) : db :=
  {| tenants := tenants d;
     accounts := accounts d;
     transactions := f (transactions d);
     entries := entries d;
     idempotency_keys := idempotency_keys d;
     webhook_events := webhook_events d;
     dead_letter_events := dead_letter_events d;
     audit_log := audit_log d;
     users := users d;
     refresh_tokens := refresh_tokens d;
     rbac := rbac d |}.

Definition set_entries (f : gmap uuid entry_row -> gmap uuid entry_row) (d : db) : db :=
  {| tenants := tenants d;
     accounts := accounts d;
     transactions := transactions d;
     entries := f (entries d);
     idempotency_keys := idempotency_keys d;
     webhook_events := webhook_events d;
     dead_letter_events := dead_letter_events d;
     audit_log := audit_log d;
     users := users d;
     refresh_tokens := refresh_tokens d;
     rbac := rbac d |}.

Definition set_idempotency_keys (f : gmap uuid idempotency_row -> gmap uuid idempotency_row) (d : db) : db :=
  {| tenants := tenants d;
     accounts := accounts d;
     transactions := transactions d;
     entries := entries d;
     idempotency_keys := f (idempotency_keys d);
     webhook_events := webhook_events d;
     dead_letter_events := dead_letter_events d;
     audit_log := audit_log d;
     users := users d;
     refresh_tokens := refresh_tokens d;
     rbac := rbac d |}.

Definition set_webhook_events (f : gmap uuid event_row -> gmap uuid event_row) (d : db) : db :=
  {| tenants := tenants d;
     accounts := accounts d;
     transactions := transactions d;
     entries := entries d;
     idempotency_keys := idempotency_keys d;
     webhook_events := f (webhook_events d);
     dead_letter_events := dead_letter_events d;
     audit_log := audit_log d;
     users := users d;
     refresh_tokens := refresh_tokens d;
     rbac := rbac d |}.

Definition set_dead_letter_events (f : gmap uuid dead_letter_row -> gmap uuid dead_letter_row) (d : db) : db :=
  {| tenants := tenants d;
     accounts := accounts d;
     transactions := transactions d;
     entries := entries d;
     idempotency_keys := idempotency_keys d;
     webhook_events := webhook_events d;
     dead_letter_events := f (dead_letter_events d);
     audit_log := audit_log d;
     users := users d;
     refresh_tokens := refresh_tokens d;
     rbac := rbac d |}.

Definition set_audit_log (f : gmap uuid audit_row -> gmap uuid audit_row) (d : db) : db :=
  {| tenants := tenants d;
     accounts := accounts d;
     transactions := transactions d;
     entries := entries d;
     idempotency_keys := idempotency_keys d;
     webhook_events := webhook_events d;
     dead_letter_events := dead_letter_events d;
     audit_log := f (audit_log d);
     users := users d;
     refresh_tokens := refresh_tokens d;
     rbac := rbac d |}.

Definition set_users (f : gmap uuid user_row -> gmap uuid user_row) (d : db) : db :=
  {| tenants := tenants d;
     accounts := accounts d;
     transactions := transactions d;
     entries := entries d;
     idempotency_keys := idempotency_keys d;
     webhook_events := webhook_events d;
     dead_letter_events := dead_letter_events d;
     audit_log := audit_log d;
     users := f (users d);
     refresh_tokens := refresh_tokens d;
     rbac := rbac d |}.

Definition set_refresh_tokens (f : gmap uuid refresh_token_row -> gmap uuid refresh_token_row) (d : db) : db :=
  {| tenants := tenants d;
     accounts := accounts d;
     transactions := transactions d;
     entries := entries d;
     idempotency_keys := idempotency_keys d;
     webhook_events := webhook_events d;
     dead_letter_events := dead_letter_events d;
     audit_log := audit_log d;
     users := users d;
     refresh_tokens := f (refresh_tokens d);
     rbac := rbac d |}.

(** One row image stored in its table. *)
Definition apply_write (w : write) (d : db) : db :=
  match w with
  | WTenant i r => set_tenants (<[i:=r]>) d
  | WAccount i r => set_accounts (<[i:=r]>) d
  | WTransaction i r => set_transactions (<[i:=r]>) d
  | WEntry i r => set_entries (<[i:=r]>) d
  | WIdempotency i r => set_idempotency_keys (<[i:=r]>) d
  | WEvent i r => set_webhook_events (<[i:=r]>) d
  | WDeadLetter i r => set_dead_letter_events (<[i:=r]>) d
  | WAudit i r => set_audit_log (<[i:=r]>) d
  | WUser i r => set_users (<[i:=r]>) d
  | WRefreshToken i r => set_refresh_tokens (<[i:=r]>) d
  end.

(** The writes of a statement or of a transaction, oldest first. *)
Definition apply_writes (ws : list write) (d : db) : db :=
  foldl (fun d w => apply_write w d) d ws.
Arguments apply_writes : simpl never.

(** The row lock that goes with a write. *)
Definition lock_of (w : write) : lock :=
  match w with
  | WTenant i _ => LRow T_tenants i
  | WAccount i _ => LRow T_accounts i
  | WTransaction i _ => LRow T_transactions i
  | WEntry i _ => LRow T_entries i
  | WIdempotency i _ => LRow T_idempotency_keys i
  | WEvent i _ => LRow T_webhook_events i
  | WDeadLetter i _ => LRow T_dead_letter_events i
  | WAudit i _ => LRow T_audit_log i
  | WUser i _ => LRow T_users i
  | WRefreshToken i _ => LRow T_refresh_tokens i
  end.

(** ** What a set of locks protects *)

(** [frame L d d']: the rows locked by [L] are the same in [d] and [d']. *)
Record frame (L : list lock) (d d' : db) : Prop := Frame {
  frame_tenants : forall i, LRow T_tenants i ∈ L -> tenants d' !! i = tenants d !! i;
  frame_accounts : forall i, LRow T_accounts i ∈ L -> accounts d' !! i = accounts d !! i;
  frame_transactions : forall i, LRow T_transactions i ∈ L -> transactions d' !! i = transactions d !! i;
  frame_entries : forall i, LRow T_entries i ∈ L -> entries d' !! i = entries d !! i;
  frame_idempotency_keys : forall i, LRow T_idempotency_keys i ∈ L -> idempotency_keys d' !! i = idempotency_keys d !! i;
  frame_webhook_events : forall i, LRow T_webhook_events i ∈ L -> webhook_events d' !! i = webhook_events d !! i;
  frame_dead_letter_events : forall i, LRow T_dead_letter_events i ∈ L -> dead_letter_events d' !! i = dead_letter_events d !! i;
  frame_audit_log : forall i, LRow T_audit_log i ∈ L -> audit_log d' !! i = audit_log d !! i;
  frame_users : forall i, LRow T_users i ∈ L -> users d' !! i = users d !! i;
  frame_refresh_tokens : forall i, LRow T_refresh_tokens i ∈ L -> refresh_tokens d' !! i = refresh_tokens d !! i;
  frame_rbac : rbac d' = rbac d
}.

(** [absent d l]: the row that [l] locks does not exist. *)
Definition absent (d : db) (l : lock) : Prop :=
  match l with
  | LRow T_tenants i => tenants d !! i = None
  | LRow T_accounts i => accounts d !! i = None
  | LRow T_transactions i => transactions d !! i = None
  | LRow T_entries i => entries d !! i = None
  | LRow T_idempotency_keys i => idempotency_keys d !! i = None
  | LRow T_webhook_events i => webhook_events d !! i = None
  | LRow T_dead_letter_events i => dead_letter_events d !! i = None
  | LRow T_audit_log i => audit_log d !! i = None
  | LRow T_users i => users d !! i = None
  | LRow T_refresh_tokens i => refresh_tokens d !! i = None
  | LUnique _ _ _ => True
  end.

(** [inserts pre ins d]: after the writes [pre], the writes [ins] create rows
    that [d] does not have, none of them twice. *)
Definition inserts (pre ins : list write) (d : db) : Prop :=
  NoDup (lock_of <$> (pre ++ ins)) /\ forall w, w ∈ ins -> absent d (lock_of w).

(** ** Lemmas *)

Lemma apply_writes_app ws1 ws2 d :
  apply_writes (ws1 ++ ws2) d = apply_writes ws2 (apply_writes ws1 d).
Proof. apply foldl_app. Qed.

Lemma apply_writes_nil d : apply_writes [] d = d.
Proof. done. Qed.

Lemma apply_writes_cons w ws d :
  apply_writes (w :: ws) d = apply_writes ws (apply_write w d).
Proof. done. Qed.

Lemma frame_refl L d : frame L d d.
Proof. by split. Qed.

Lemma frame_trans L d1 d2 d3 : frame L d1 d2 -> frame L d2 d3 -> frame L d1 d3.
Proof.
  intros F1 F2. split; intros.
  all: first [ by etransitivity; [eapply F2 | eapply F1]
             | by rewrite (frame_rbac _ _ _ F2), (frame_rbac _ _ _ F1) ].
Qed.

#[export] Instance frame_preorder L : PreOrder (frame L).
Proof. split; [intros ?; apply frame_refl | intros ???; apply frame_trans]. Qed.

Lemma frame_weaken L L' d d' : L' ⊆ L -> frame L d d' -> frame L' d d'.
Proof. intros HL F. split; intros; apply F; auto. Qed.

(** A write leaves every row but its own as it was. *)
Lemma apply_write_frame L w d : lock_of w ∉ L -> frame L d (apply_write w d).
Proof.
  intros Hw. destruct w; simpl in *; split; intros j Hj || idtac; simpl; try done.
  all: rewrite lookup_insert_ne; [done | by intros ->].
Qed.

Lemma apply_writes_frame L ws d :
  (forall w, w ∈ ws -> lock_of w ∉ L) -> frame L d (apply_writes ws d).
Proof.
  revert d. induction ws as [|w ws IH]; intros d Hws; [apply frame_refl|].
  rewrite apply_writes_cons. etransitivity.
  - apply (apply_write_frame L w). apply Hws. set_solver.
  - apply IH. intros w' ?. apply Hws. set_solver.
Qed.

#[export] Hint Resolve frame_refl : transacta.

Lemma absent_frame L d d' l : frame L d d' -> l ∈ L -> absent d l -> absent d' l.
Proof.
  intros F Hl. destruct l as [[] i|]; simpl; try done.
  all: intros Ha; rewrite <- Ha; by apply F.
Qed.

Lemma absent_apply_write w d l :
  absent (apply_write w d) l ->
  (match l with LRow _ _ => l <> lock_of w | _ => True end) /\ absent d l.
Proof.
  destruct w, l as [[] j|]; simpl; try done.
  all: try (rewrite lookup_insert_None; intros [? ?]; split; [congruence|done]).
Qed.

Lemma absent_apply_writes ws d t i :
  absent (apply_writes ws d) (LRow t i) ->
  (LRow t i ∉ (lock_of <$> ws)) /\ absent d (LRow t i).
Proof.
  revert d. induction ws as [|w ws IH]; intros d; [simpl; set_solver|].
  rewrite apply_writes_cons. intros [Hn [Hne Ha]%absent_apply_write]%IH. set_solver.
Qed.

Lemma inserts_nil ws d : NoDup (lock_of <$> ws) -> inserts ws [] d.
Proof. intros H. split; [by rewrite app_nil_r|]. set_solver. Qed.

(** A row that is absent after the writes so far can be inserted next. *)
Lemma inserts_snoc pre ins w d t i :
  lock_of w = LRow t i -> absent (apply_writes (pre ++ ins) d) (LRow t i) ->
  inserts pre ins d -> inserts pre (ins ++ [w]) d.
Proof.
  intros Hw [Hn Ha]%absent_apply_writes [Hnd Hins]. split.
  - rewrite app_assoc, fmap_app. apply NoDup_app. split_and!; [done| |apply NoDup_singleton].
    intros l Hl. simpl. rewrite Hw. set_solver.
  - intros w' [?|?%list_elem_of_singleton]%elem_of_app; [auto|]. subst. by rewrite Hw.
Qed.

Lemma inserts_frame pre ins L d d' :
  (forall w, w ∈ ins -> lock_of w ∈ L) -> frame L d d' -> inserts pre ins d -> inserts pre ins d'.
Proof. intros HL F [Hnd Hins]. split; [done|]. intros w Hw. eapply absent_frame; eauto. Qed.

Lemma inserts_in pre ins d w : inserts pre ins d -> w ∈ ins -> absent d (lock_of w).
Proof. intros [_ H]. apply H. Qed.

Lemma inserts_here pre w ins d : inserts pre (w :: ins) d -> absent d (lock_of w).
Proof. intros H. eapply inserts_in; [exact H|]. apply list_elem_of_here. Qed.
