(* ===== verification/Prog.v ===== *)
(** * Programs that talk to the database, and how they run

    A service method is a [prog]: a tree of database calls and of questions to
    the environment (clock, randomness, network), whose leaves are results. The
    same tree is run alone by [run] (one request at a time) and interleaved with
    any number of others by [pool_step] (goroutines sharing one database).

    The semantics of the database is PostgreSQL's READ COMMITTED level, the one
    every BeginTx of the program asks for: a statement sees the committed rows
    and the writes of its own transaction; the rows it writes, and those it
    selects FOR UPDATE, stay locked until the transaction ends, and a statement
    that needs a row locked by another transaction waits. *)

From S2P Require Import Prelude GoBase Db.

(** ** The environment *)

(** How a database call can go wrong: not at all, before it had an effect, or
    after it (the connection is lost before the answer arrives, so the caller
    sees an error although a commit or an autocommitted statement took place). *)
Inductive fault := NoFault | FailBefore | FailAfter.

(** The answer of an outbound HTTP request. *)
Inductive http_reply :=
  | HttpError (msg : string)
  | HttpStatus (code : Z).

(** What the environment decides at one step. *)
Record tick := Tick {
  tk_fault : fault;
  tk_now : time;                 (* the clock *)
  tk_uuid : uuid;                (* gen_random_uuid() *)
  tk_rand : option string;       (* crypto/rand bytes, None when the read fails *)
  tk_int : option Z;             (* crypto/rand.Int, before reduction; None when it fails *)
  tk_http : http_reply
}.

(** What a step shows to the outside besides its effect on the database. *)
Inductive obs :=
  | OLog (level msg : string)
  | OMetric (name : string) (labels : list (string * string))
  | OHttp (url : string) (headers : list (string * string)) (body : json)
  | OSleep (d : duration).

(** ** Statements *)

(** What a statement reads besides the tables: now(), which is the start of the
    transaction, and the identifier its DEFAULT gen_random_uuid() yields. *)
Record env := Env {
  e_now : time;
  e_uuid : uuid
}.

Record outcome (R : Type) := Outcome {
  oc_locks : list lock;
  oc_res : sqlerr + R;
  oc_writes : list write
}.
Arguments Outcome {_}.
Arguments oc_locks {_}.
Arguments oc_res {_}.
Arguments oc_writes {_}.

(** A statement: given the locks other transactions hold (read only by SKIP
    LOCKED), its environment and the rows it sees, the locks it needs, its
    result and the rows it writes. *)
Definition stmt (R : Type) : Type := list lock -> env -> db -> outcome R.

(** A plain query. *)
Definition select {R} (f : db -> R) : stmt R :=
  fun _ _ d => Outcome [] (inr (f d)) [].

(** The constraints of a statement, each with the error of its violation: the
    first one that does not hold decides; if all hold the outcome is [ok]. *)
Fixpoint guarded {R} (checks : list (bool * sqlerr)) (ok : outcome R) : outcome R :=
  match checks with
  | [] => ok
  | (true, _) :: cs => guarded cs ok
  | (false, e) :: _ => Outcome [] (inl e) []
  end.

(** A primary or foreign key: the row exists. *)
Definition has_row {V} (m : gmap uuid V) (i : uuid) : bool := bool_decide (is_Some (m !! i)).

(** Every written row is locked, whether or not the statement asks for it. *)
Definition needed {R} (o : outcome R) : list lock :=
  oc_locks o ++ (lock_of <$> oc_writes o).

(** Where a statement is sent: straight to the pool of connections (it commits
    by itself), or to the open transaction. *)
Inductive conn := OnDb | OnTx.

(** ** Programs *)

Inductive prog (A : Type) : Type :=
  | Ret (a : A)
  | BeginTx (k : option sqlerr -> prog A)
  | Exec {R : Type} (c : conn) (s : stmt R) (k : sqlerr + R -> prog A)
  | Commit (k : option sqlerr -> prog A)
  | Rollback (k : prog A)
  | Ask {R : Type} (q : tick -> R) (k : R -> prog A)
  | Emit (o : obs) (k : prog A).
Arguments Ret {_}.
Arguments BeginTx {_}.
Arguments Exec {_ _}.
Arguments Commit {_}.
Arguments Rollback {_}.
Arguments Ask {_ _}.
Arguments Emit {_}.

Fixpoint bind {A B} (p : prog A) (f : A -> prog B) : prog B :=
  match p with
  | Ret a => f a
  | BeginTx k => BeginTx (fun r => bind (k r) f)
  | Exec c s k => Exec c s (fun r => bind (k r) f)
  | Commit k => Commit (fun r => bind (k r) f)
  | Rollback k => Rollback (bind k f)
  | Ask q k => Ask q (fun r => bind (k r) f)
  | Emit o k => Emit o (bind k f)
  end.

(** [if err != nil { return err }] after a call. *)
Definition ebind {A B} (p : prog (goerr + A)) (f : A -> prog (goerr + B)) : prog (goerr + B) :=
  bind p (fun r => match r with inl e => Ret (inl e) | inr a => f a end).

(** [x, err := p] with the error inspected by the code that follows. *)
Notation "'let*' x ':=' p 'in' q" := (bind p (fun x => q))
  (at level 10, x pattern, p at level 100, q at level 200) : go_scope.

(** [x, err := p; if err != nil { return err }]. *)
Notation "'let?' x ':=' p 'in' q" := (ebind p (fun x => q))
  (at level 10, x pattern, p at level 100, q at level 200) : go_scope.

(** [fmt.Errorf(pre + "%w", err)] on the error of a call. *)
Definition wrap_err {A} (pre : string) (p : prog (goerr + A)) : prog (goerr + A) :=
  bind p (fun r => Ret (match r with inl e => inl (Wrap pre e "") | inr a => inr a end)).

(** ** database/sql *)

Definition lift_sql {R} (r : sqlerr + R) : goerr + R :=
  match r with inl e => inl (SqlError e) | inr x => inr x end.

(** ExecContext and QueryContext. *)
Definition sql_exec {R} (c : conn) (s : stmt R) : prog (goerr + R) :=
  Exec c s (fun r => Ret (lift_sql r)).

(** QueryRowContext(...).Scan: no row is [sql.ErrNoRows]. *)
Definition sql_row {R} (c : conn) (s : stmt (option R)) : prog (goerr + R) :=
  Exec c s (fun r => Ret (match r with
                          | inl e => inl (SqlError e)
                          | inr None => inl ErrNoRows
                          | inr (Some x) => inr x
                          end)).

Definition sql_begin : prog (goerr + unit) :=
  BeginTx (fun r => Ret (match r with Some e => inl (SqlError e) | None => inr tt end)).

Definition sql_commit : prog (goerr + unit) :=
  Commit (fun r => Ret (match r with Some e => inl (SqlError e) | None => inr tt end)).

(** [defer tx.Rollback()] around the rest of a function: a no-op once the
    transaction is committed. *)
Definition defer_rollback {A} (p : prog A) : prog A :=
  bind p (fun r => Rollback (Ret r)).

Definition emit (o : obs) : prog unit := Emit o (Ret tt).
Definition ask {R} (q : tick -> R) : prog R := Ask q Ret.

(** time.Now() *)
Definition time_Now : prog time := ask tk_now.

(** ** One step *)

(** An open transaction: its writes so far (invisible to others), the locks it
    holds, its start time, and whether a statement failed in it, after which
    PostgreSQL refuses every other statement and has released its locks. *)
Record txst := Txst {
  tx_writes : list write;
  tx_locks : list lock;
  tx_start : time;
  tx_aborted : bool
}.

Definition tx_fresh (now : time) : txst := Txst [] [] now false.
Definition tx_abort (t : txst) : txst := Txst [] [] (tx_start t) true.
Definition tx_extend {R} (t : txst) (o : outcome R) : txst :=
  Txst (tx_writes t ++ oc_writes o) (tx_locks t ++ needed o) (tx_start t) false.

(** A transaction with one more write, and its row lock. *)
Definition tx_add (t : txst) (w : write) : txst :=
  Txst (tx_writes t ++ [w]) (tx_locks t ++ [lock_of w]) (tx_start t) false.

Definition locks_of (tx : option txst) : list lock :=
  match tx with Some t => tx_locks t | None => [] end.

(** What a step makes visible to the others: nothing, or the writes [ws] of a
    transaction (or statement) holding the locks [L]. *)
Inductive eff :=
  | NoEff
  | Eff (L : list lock) (ws : list write).

Definition apply_eff (e : eff) (d : db) : db :=
  match e with NoEff => d | Eff _ ws => apply_writes ws d end.

Definition mk_eff (L : list lock) (ws : list write) : eff :=
  match ws with [] => NoEff | _ => Eff L ws end.

Definition effect_of {R} (o : outcome R) : eff :=
  match oc_res o with inl _ => NoEff | inr _ => mk_eff (needed o) (oc_writes o) end.

(** No lock of [L] is held by another transaction. *)
Definition locks_free (L others : list lock) : bool :=
  forallb (fun l => bool_decide (l ∉ others)) L.

(** A database call, with the locks [others] hold; [None] when it must wait. A
    statement sent outside the thread's own open transaction while it needs a row
    that transaction locked would wait until the request times out. *)
Definition exec_step {R} (others : list lock) (tk : tick) (c : conn) (s : stmt R)
    (tx : option txst) (d : db) : option ((sqlerr + R) * option txst * eff) :=
  match c, tx with
  | OnDb, _ =>
      let o := s others (Env (tk_now tk) (tk_uuid tk)) d in
      if locks_free (needed o) (locks_of tx) then
        match tk_fault tk with
        | FailBefore => Some (inl ConnErr, tx, NoEff)
        | NoFault => if locks_free (needed o) others then Some (oc_res o, tx, effect_of o) else None
        | FailAfter => if locks_free (needed o) others then Some (inl ConnErr, tx, effect_of o) else None
        end
      else Some (inl ConnErr, tx, NoEff)
  | OnTx, None => Some (inl TxDone, None, NoEff)
  | OnTx, Some t =>
      if tx_aborted t then Some (inl TxAborted, tx, NoEff) else
      match tk_fault tk with
      | NoFault =>
          let o := s others (Env (tx_start t) (tk_uuid tk)) (apply_writes (tx_writes t) d) in
          if locks_free (needed o) others then
            match oc_res o with
            | inl e => Some (inl e, Some (tx_abort t), NoEff)
            | inr r => Some (inr r, Some (tx_extend t o), NoEff)
            end
          else None
      | _ => Some (inl ConnErr, Some (tx_abort t), NoEff)
      end
  end.

(** BEGIN. No function of the program begins a second transaction before the
    first has ended; the model reports an error there. *)
Definition begin_step (tk : tick) (tx : option txst) : option sqlerr * option txst :=
  match tx with
  | Some _ => (Some ConnErr, tx)
  | None =>
      match tk_fault tk with
      | NoFault => (None, Some (tx_fresh (tk_now tk)))
      | _ => (Some ConnErr, None)
      end
  end.

(** COMMIT: of an aborted transaction it rolls back and reports an error. *)
Definition commit_step (tk : tick) (tx : option txst) : option sqlerr * option txst * eff :=
  match tx with
  | None => (Some TxDone, None, NoEff)
  | Some t =>
      if tx_aborted t then (Some TxAborted, None, NoEff) else
      match tk_fault tk with
      | NoFault => (None, None, mk_eff (tx_locks t) (tx_writes t))
      | FailBefore => (Some ConnErr, None, NoEff)
      | FailAfter => (Some ConnErr, None, mk_eff (tx_locks t) (tx_writes t))
      end
  end.

(** ** Threads *)

(** A goroutine: the rest of its program, its transaction, and the history of
    what it made visible (the database before and after). *)
Record thread (A : Type) := Thread {
  th_prog : prog A;
  th_tx : option txst;
  th_log : list (db * db)
}.
Arguments Thread {_}.
Arguments th_prog {_}.
Arguments th_tx {_}.
Arguments th_log {_}.

Definition add_log (e : eff) (d : db) (log : list (db * db)) : list (db * db) :=
  match e with NoEff => log | Eff _ _ => log ++ [(d, apply_eff e d)] end.

(** One step of a thread: the thread after it, its effect and what it showed. *)
Definition thread_step {A} (others : list lock) (tk : tick) (th : thread A) (d : db)
    : option (thread A * eff * list obs) :=
  match th_prog th with
  | Ret _ => None
  | BeginTx k =>
      let '(r, tx') := begin_step tk (th_tx th) in
      Some (Thread (k r) tx' (th_log th), NoEff, [])
  | Exec c s k =>
      match exec_step others tk c s (th_tx th) d with
      | None => None
      | Some (r, tx', e) => Some (Thread (k r) tx' (add_log e d (th_log th)), e, [])
      end
  | Commit k =>
      let '(r, tx', e) := commit_step tk (th_tx th) in
      Some (Thread (k r) tx' (add_log e d (th_log th)), e, [])
  | Rollback k => Some (Thread k None (th_log th), NoEff, [])
  | Ask q k => Some (Thread (k (q tk)) (th_tx th) (th_log th), NoEff, [])
  | Emit o k => Some (Thread k (th_tx th) (th_log th), NoEff, [o])
  end.

(** ** One program at a time *)

Record world := World {
  w_db : db;
  w_tx : option txst;
  w_log : list (db * db);
  w_obs : list obs;
  w_pos : nat                    (* how many answers of the environment are used up *)
}.

Definition world_of (d : db) : world := World d None [] [] 0.

(** Runs a program to its end, alone; [orc] gives the environment's answers. *)
Fixpoint run {A} (p : prog A) (orc : nat -> tick) (w : world) : option (A * world) :=
  let tk := orc (w_pos w) in
  let next tx e os := World (apply_eff e (w_db w)) tx (add_log e (w_db w) (w_log w))
                            (w_obs w ++ os) (S (w_pos w)) in
  match p with
  | Ret a => Some (a, w)
  | BeginTx k =>
      let '(r, tx') := begin_step tk (w_tx w) in run (k r) orc (next tx' NoEff [])
  | Exec c s k =>
      match exec_step [] tk c s (w_tx w) (w_db w) with
      | None => None
      | Some (r, tx', e) => run (k r) orc (next tx' e [])
      end
  | Commit k =>
      let '(r, tx', e) := commit_step tk (w_tx w) in run (k r) orc (next tx' e [])
  | Rollback k => run k orc (next None NoEff [])
  | Ask q k => run (k (q tk)) orc (next (w_tx w) NoEff [])
  | Emit o k => run k orc (next (w_tx w) NoEff [o])
  end.

(** ** Any number of programs at once *)

Record pool (A : Type) := Pool {
  p_db : db;
  p_threads : list (thread A);
  p_hist : list (nat * (db * db))  (* every visible change, oldest first, and its thread *)
}.
Arguments Pool {_}.
Arguments p_db {_}.
Arguments p_threads {_}.
Arguments p_hist {_}.

(** The locks held by every thread but the [i]-th. *)
Definition others_locks {A} (ths : list (thread A)) (i : nat) : list lock :=
  concat (imap (fun j th => if decide (j = i) then [] else locks_of (th_tx th)) ths).

Definition add_hist (i : nat) (e : eff) (d : db) (hist : list (nat * (db * db)))
    : list (nat * (db * db)) :=
  match e with NoEff => hist | Eff _ _ => hist ++ [(i, (d, apply_eff e d))] end.

(** The changes made by thread [i]. *)
Definition hist_of (i : nat) (hist : list (nat * (db * db))) : list (db * db) :=
  snd <$> filter (fun p => p.1 = i) hist.

(** The scheduler picks a thread that can move, and the environment's answer. *)
Inductive pool_step {A} (tick_ok : db -> tick -> Prop) : pool A -> pool A -> Prop :=
  | PoolStep d ths hist i th tk th' e os :
      ths !! i = Some th ->
      tick_ok d tk ->
      thread_step (others_locks ths i) tk th d = Some (th', e, os) ->
      pool_step tick_ok (Pool d ths hist)
        (Pool (apply_eff e d) (<[i:=th']> ths) (add_hist i e d hist)).

(** The start: programs that have not begun a transaction. *)
Definition pool_start {A} (d : db) (ps : list (prog A)) : pool A :=
  Pool d ((fun p => Thread p None []) <$> ps) [].

(** An executable scheduler: each element of the schedule moves a thread, with an
    answer of the environment; a thread that waits or has ended stays. *)
Definition pool_move {A} (P : pool A) (i : nat) (tk : tick) : pool A :=
  match p_threads P !! i with
  | None => P
  | Some th =>
      match thread_step (others_locks (p_threads P) i) tk th (p_db P) with
      | None => P
      | Some (th', e, _) =>
          Pool (apply_eff e (p_db P)) (<[i:=th']> (p_threads P)) (add_hist i e (p_db P) (p_hist P))
      end
  end.

Definition pool_exec {A} (P : pool A) (schedule : list (nat * tick)) : pool A :=
  foldl (fun P '(i, tk) => pool_move P i tk) P schedule.

#[export] Hint Unfold ebind wrap_err sql_exec sql_row sql_begin sql_commit : transacta.
