(* ===== verification/ProgFacts.v ===== *)
(** * Reasoning about programs: a rely/guarantee weakest precondition

    [wp p tx log d Q]: from a database [d], whatever the environment answers and
    whatever the other transactions commit between two steps (within the
    [guar]antee and without touching the rows this thread has locked), every
    visible change of [p] is within the guarantee and [p] ends in [Q]. [wp_run]
    applies it to one program alone, [wp_pool] to any interleaving. *)

From S2P Require Import Prelude GoBase Db Prog.

(** [chain d l d']: the changes of [l] lead from [d] to [d']. *)
Fixpoint chain (d : db) (l : list (db * db)) (d' : db) : Prop :=
  match l with
  | [] => d = d'
  | (d1, d2) :: l => d1 = d /\ chain d2 l d'
  end.

(** The writes of an open transaction are among its locks. *)
Definition covered (tx : option txst) : Prop :=
  forall t, tx = Some t -> forall w, w ∈ tx_writes t -> lock_of w ∈ tx_locks t.

(** ** Facts about steps *)

Lemma locks_free_spec L others : locks_free L others = true <-> forall l, l ∈ L -> l ∉ others.
Proof.
  unfold locks_free. rewrite forallb_forall. split.
  - intros H l Hl. specialize (H l). rewrite bool_decide_eq_true in H.
    apply H. by apply list_elem_of_In.
  - intros H l Hl. apply bool_decide_eq_true. apply H. by apply list_elem_of_In.
Qed.

Lemma has_row_false {V} (m : gmap uuid V) i : negb (has_row m i) = true -> m !! i = None.
Proof. unfold has_row. rewrite negb_true_iff, bool_decide_eq_false. apply eq_None_not_Some. Qed.

Lemma has_row_true {V} (m : gmap uuid V) i : has_row m i = true -> is_Some (m !! i).
Proof. apply bool_decide_eq_true. Qed.

(** Alone, nothing waits. *)
Lemma locks_free_nil L : locks_free L [] = true.
Proof. apply locks_free_spec. intros l _. apply not_elem_of_nil. Qed.

(** What an effect may be, for a thread that competes with [others]. *)
Definition eff_wf (others : list lock) (e : eff) : Prop :=
  match e with
  | NoEff => True
  | Eff L ws => (forall l, l ∈ L -> l ∉ others) /\ (forall w, w ∈ ws -> lock_of w ∈ L)
  end.

Lemma needed_covers {R} (o : outcome R) w : w ∈ oc_writes o -> lock_of w ∈ needed o.
Proof. intros Hw. unfold needed. apply elem_of_app. right. by apply list_elem_of_fmap_2. Qed.

Lemma eff_wf_frame L e d : eff_wf L e -> frame L d (apply_eff e d).
Proof.
  destruct e as [|K ws]; [reflexivity|]. intros [HK Hws]. apply apply_writes_frame. intros w Hw Hin.
  by eapply HK; [apply Hws|].
Qed.

Lemma effect_of_wf {R} others (o : outcome R) :
  locks_free (needed o) others = true -> eff_wf others (effect_of o).
Proof.
  rewrite locks_free_spec. intros HF. unfold effect_of, mk_eff.
  destruct (oc_res o), (oc_writes o) as [|w ws] eqn:E; simpl; try done.
  split; [exact HF|]. rewrite <- E. intros w'. apply needed_covers.
Qed.

Lemma exec_step_wf {R} others tk c (s : stmt R) tx d r tx' e :
  exec_step others tk c s tx d = Some (r, tx', e) ->
  (forall l, l ∈ locks_of tx' -> l ∈ locks_of tx \/ l ∉ others) /\
  (covered tx -> covered tx') /\
  eff_wf others e.
Proof.
  unfold exec_step. intros H. destruct c.
  - destruct (locks_free _ (locks_of tx)); [|by simplify_eq; split_and!; [by left|done|]].
    destruct (tk_fault tk); [| |].
    all: try (destruct (locks_free _ others) eqn:HF; [|done]).
    all: simplify_eq; split_and!; [by left|done|].
    all: first [done | by apply effect_of_wf].
  - destruct tx as [t|]; [|simplify_eq; simpl; set_solver].
    destruct (tx_aborted t); [simplify_eq; simpl; by eauto|].
    assert (Hab : forall ab : sqlerr + R, (forall l, l ∈ locks_of (Some (tx_abort t)) -> l ∈ locks_of (Some t) \/ l ∉ others)
              /\ (covered (Some t) -> covered (Some (tx_abort t))) /\ eff_wf others NoEff).
    { intros _. split_and!; [|intros _ t' ? w Hw|done].
      - simpl. set_solver.
      - simplify_eq/=. set_solver. }
    destruct (tk_fault tk); try (simplify_eq; by apply (Hab (inl ConnErr))).
    destruct (locks_free _ others) eqn:HF; [|done]. rewrite locks_free_spec in HF.
    destruct (oc_res _) eqn:Er; simplify_eq; [by apply (Hab (inl ConnErr))|].
    split_and!; [|intros Hc t' ? w Hw|done]; simplify_eq/=.
    + intros l [?|?]%elem_of_app; [by left|right; auto].
    + apply elem_of_app. apply elem_of_app in Hw as [Hw|Hw]; [left; by eapply Hc|right].
      by apply needed_covers.
Qed.

(** A query inside a transaction shows nothing outside. *)
Lemma exec_step_read {R} others tk (s : stmt R) tx d r tx' e :
  exec_step others tk OnTx s tx d = Some (r, tx', e) -> e = NoEff.
Proof. unfold exec_step. intros Hs. repeat case_match; by simplify_eq. Qed.

Lemma commit_step_wf others tk tx r tx' e :
  (forall l, l ∈ locks_of tx -> l ∉ others) -> covered tx ->
  commit_step tk tx = (r, tx', e) -> tx' = None /\ eff_wf others e.
Proof.
  intros Hl Hc. unfold commit_step, mk_eff.
  destruct tx as [t|]; [|by intros ?; simplify_eq].
  destruct (tx_aborted t); [by intros ?; simplify_eq|].
  assert (He : eff_wf others (mk_eff (tx_locks t) (tx_writes t))).
  { unfold mk_eff. destruct (tx_writes t) as [|w ws] eqn:E; [done|]. split; [exact Hl|].
    rewrite <- E. by apply Hc. }
  destruct (tk_fault tk); intros ?; simplify_eq; by split.
Qed.

Lemma begin_step_wf tk tx r tx' :
  begin_step tk tx = (r, tx') ->
  (forall l, l ∈ locks_of tx' -> l ∈ locks_of tx) /\ (covered tx -> covered tx').
Proof.
  unfold begin_step. repeat case_match; intros ?; simplify_eq/=; split; try done;
    try set_solver. intros _ t ? w Hw. simplify_eq/=. set_solver.
Qed.

(** ** Running alone *)

(** An environment that may do anything. *)
Definition any_tick (_ : db) (_ : tick) : Prop := True.

(** An environment in which no database call fails. *)
Definition no_faults (orc : nat -> tick) : Prop := forall n, tk_fault (orc n) = NoFault.

(** A program that runs alone never waits: it always ends. *)
Theorem run_total {A} (p : prog A) orc w : exists r, run p orc w = Some r.
Proof.
  revert w. induction p; intros w; simpl; eauto.
  - destruct (begin_step _ _). eauto.
  - destruct (exec_step _ _ _ _ _ _) as [[[r tx'] e]|] eqn:E; [eauto|exfalso].
    revert E. unfold exec_step. rewrite !locks_free_nil. repeat case_match; try done;
      by rewrite locks_free_nil in *.
  - destruct (commit_step _ _) as [[? ?] ?]. eauto.
Qed.

Lemma chain_app d1 l1 d2 l2 d3 : chain d1 l1 d2 -> chain d2 l2 d3 -> chain d1 (l1 ++ l2) d3.
Proof.
  revert d1. induction l1 as [|[a b] l1 IH]; simpl; [by intros ? ->|].
  intros d1 [-> ?] ?. eauto.
Qed.

Lemma add_log_chain e d log d0 : chain d0 log d -> chain d0 (add_log e d log) (apply_eff e d).
Proof. destruct e; [done|]. simpl. intros H. eapply chain_app; [done|]. by simpl. Qed.

(** The history of a lone run leads from its first database to its last. *)
Lemma run_chain {A} (p : prog A) orc w a w' d0 :
  chain d0 (w_log w) (w_db w) -> run p orc w = Some (a, w') -> chain d0 (w_log w') (w_db w').
Proof.
  revert w. induction p; intros w Hc Hr; simpl in Hr; simplify_eq; try done.
  - destruct (begin_step _ _). eapply H; [|exact Hr]. done.
  - destruct (exec_step _ _ _ _ _ _) as [[[r tx'] e]|]; [|done].
    eapply H; [|exact Hr]. by apply add_log_chain.
  - destruct (commit_step _ _) as [[r tx'] e]. eapply H; [|exact Hr]. by apply add_log_chain.
  - eapply IHp; [|exact Hr]. done.
  - eapply H; [|exact Hr]. done.
  - eapply IHp; [|exact Hr]. done.
Qed.

(** What the first program of a sequence leaves is where the second begins. *)
Lemma run_bind {A B} (p : prog A) (f : A -> prog B) orc w :
  run (bind p f) orc w =
    match run p orc w with Some (a, w') => run (f a) orc w' | None => None end.
Proof.
  revert w. induction p; intros w; simpl; try done.
  - destruct (begin_step _ _). apply H.
  - destruct (exec_step _ _ _ _ _ _) as [[[r tx'] e]|]; [apply H|done].
  - destruct (commit_step _ _) as [[r tx'] e]. apply H.
Qed.

(** *** Running alone, step by step *)

Lemma run_ebind {A B} (p : prog (goerr + A)) (f : A -> prog (goerr + B)) orc w :
  run (ebind p f) orc w =
    match run p orc w with
    | Some (inl e, w') => Some (inl e, w')
    | Some (inr a, w') => run (f a) orc w'
    | None => None
    end.
Proof. unfold ebind. rewrite run_bind. by destruct (run p orc w) as [[[e|a] w']|]. Qed.

Lemma run_wrap_err {A} pre (p : prog (goerr + A)) orc w a w' :
  run p orc w = Some (inr a, w') -> run (wrap_err pre p) orc w = Some (inr a, w').
Proof. intros E. unfold wrap_err. by rewrite run_bind, E. Qed.

(** A step inside a transaction. *)
Definition advance (w : world) (tx : option txst) : world :=
  World (w_db w) tx (w_log w) (w_obs w ++ []) (S (w_pos w)).

Lemma run_defer_rollback {A} (p : prog A) orc w a w' :
  run p orc w = Some (a, w') -> run (defer_rollback p) orc w = Some (a, advance w' None).
Proof. intros E. unfold defer_rollback. by rewrite run_bind, E. Qed.

Lemma run_begin orc w :
  no_faults orc -> w_tx w = None ->
  run sql_begin orc w = Some (inr tt, advance w (Some (tx_fresh (tk_now (orc (w_pos w)))))).
Proof. intros Hf Htx. simpl. unfold begin_step. by rewrite Htx, Hf. Qed.

Lemma run_ask {R A} (q : tick -> R) (f : R -> prog A) orc w :
  run (bind (ask q) f) orc w = run (f (q (orc (w_pos w)))) orc (advance w (w_tx w)).
Proof. done. Qed.

Lemma run_exec_tx {R} (s : stmt R) orc w t r :
  no_faults orc -> w_tx w = Some t -> tx_aborted t = false ->
  let o := s [] (Env (tx_start t) (tk_uuid (orc (w_pos w)))) (apply_writes (tx_writes t) (w_db w)) in
  oc_res o = inr r -> run (sql_exec OnTx s) orc w = Some (inr r, advance w (Some (tx_extend t o))).
Proof. intros Hf Htx Hab o Hr. unfold o in Hr. simpl. by rewrite Htx, Hab, Hf, locks_free_nil, Hr. Qed.

Lemma run_row_tx {R} (s : stmt (option R)) orc w t r :
  no_faults orc -> w_tx w = Some t -> tx_aborted t = false ->
  let o := s [] (Env (tx_start t) (tk_uuid (orc (w_pos w)))) (apply_writes (tx_writes t) (w_db w)) in
  oc_res o = inr (Some r) -> run (sql_row OnTx s) orc w = Some (inr r, advance w (Some (tx_extend t o))).
Proof. intros Hf Htx Hab o Hr. unfold o in Hr. simpl. by rewrite Htx, Hab, Hf, locks_free_nil, Hr. Qed.

Lemma run_commit orc w t :
  no_faults orc -> w_tx w = Some t -> tx_aborted t = false ->
  exists w', run sql_commit orc w = Some (inr tt, w') /\ w_tx w' = None.
Proof. intros Hf Htx Hab. simpl. unfold commit_step. rewrite Htx, Hab, Hf. by eexists. Qed.

(** A query outside transactions changes nothing, and answers or fails. *)
Lemma run_select_db {R} (f : db -> R) orc w :
  w_tx w = None ->
  exists r w', run (sql_exec OnDb (select f)) orc w = Some (r, w') /\
    w_db w' = w_db w /\ w_log w' = w_log w /\ w_tx w' = None /\
    (r = inr (f (w_db w)) \/ exists e, r = inl e).
Proof.
  intros Htx. simpl. rewrite Htx. destruct (tk_fault _); simpl; eexists _, _; (split; [reflexivity|]); eauto 6.
Qed.

(** ** What a program returns and writes, whatever the environment answers *)

(** Every result [p] can return satisfies [P]. *)
Fixpoint leaves {A} (P : A -> Prop) (p : prog A) : Prop :=
  match p with
  | Ret a => P a
  | BeginTx k | Commit k => forall r, leaves P (k r)
  | Exec _ _ k => forall r, leaves P (k r)
  | Rollback k => leaves P k
  | Ask _ k => forall r, leaves P (k r)
  | Emit _ k => leaves P k
  end.

Lemma leaves_any {A} (P : A -> Prop) p : (forall a, P a) -> leaves P p.
Proof. intros HP. induction p; simpl; auto. Qed.

Lemma leaves_mono {A} (P Q : A -> Prop) p : leaves P p -> (forall a, P a -> Q a) -> leaves Q p.
Proof. intros Hp HQ. induction p; simpl in *; auto. Qed.

Lemma leaves_bind {A B} (P : B -> Prop) (p : prog A) (f : A -> prog B) :
  leaves (fun a => leaves P (f a)) p -> leaves P (bind p f).
Proof. induction p; simpl; auto. Qed.

Lemma leaves_run {A} (P : A -> Prop) p orc w a w' : leaves P p -> run p orc w = Some (a, w') -> P a.
Proof.
  revert w. induction p; intros w Hl Hr; simpl in Hl, Hr; simplify_eq; eauto.
  - destruct (begin_step _ _). eauto.
  - destruct (exec_step _ _ _ _ _ _) as [[[r tx'] e]|]; [eauto|done].
  - destruct (commit_step _ _) as [[r tx'] e]. eauto.
Qed.

(** Every write of a statement of [p] is in [W], for the rows the statement sees. *)
Definition stmt_when (W : db -> write -> Prop) {R} (q : stmt R) : Prop :=
  forall others ev d w, w ∈ oc_writes (q others ev d) -> W d w.

(** Every statement of [p] is one of [S]. *)
Fixpoint issues (S : forall R, stmt R -> Prop) {A} (p : prog A) : Prop :=
  match p with
  | Ret _ => True
  | BeginTx k | Commit k => forall r, issues S (k r)
  | Exec _ q k => S _ q /\ forall r, issues S (k r)
  | Rollback k => issues S k
  | Ask _ k => forall r, issues S (k r)
  | Emit _ k => issues S k
  end.

Abbreviation writes_when W := (issues (fun R (q : stmt R) => stmt_when W q)).

(** Whatever the rows are. *)
Abbreviation stmt_writes W := (stmt_when (fun _ => W)).
Abbreviation writes_in W := (writes_when (fun _ => W)).

Lemma issues_bind S {A B} (p : prog A) (f : A -> prog B) :
  issues S p -> (forall a, issues S (f a)) -> issues S (bind p f).
Proof. intros Hp Hf. induction p; simpl in *; destruct_and?; eauto. Qed.

Lemma issues_mono (S S' : forall R, stmt R -> Prop) {A} (p : prog A) :
  (forall R q, S R q -> S' R q) -> issues S p -> issues S' p.
Proof. intros HS. induction p; simpl; eauto. intros [Hq Hk]. eauto. Qed.

Lemma writes_in_mono (W W' : db -> write -> Prop) {A} (p : prog A) :
  (forall d w, W d w -> W' d w) -> writes_when W p -> writes_when W' p.
Proof. intros HW. apply issues_mono. intros R q Hq others ev d w Hw. by eapply HW, Hq. Qed.

(** What a statement with constraints writes, it writes when they hold. *)
Lemma guarded_writes {R} cs (o : outcome R) w :
  w ∈ oc_writes (guarded cs o) -> w ∈ oc_writes o /\ forall b e, (b, e) ∈ cs -> b = true.
Proof.
  induction cs as [|[[] e] cs IH]; simpl; intros Hw; [set_solver| |by apply not_elem_of_nil in Hw].
  destruct (IH Hw) as [? Hc]. split; [done|]. intros b e' [?|?]%elem_of_cons; [by simplify_eq|eauto].
Qed.

(** The open transaction has only such writes. *)
Definition tx_in (W : write -> Prop) (tx : option txst) : Prop :=
  forall t, tx = Some t -> Forall W (tx_writes t).

Definition eff_in (W : write -> Prop) (e : eff) : Prop :=
  match e with NoEff => True | Eff _ ws => Forall W ws end.

Lemma mk_eff_in W L ws : Forall W ws -> eff_in W (mk_eff L ws).
Proof. by destruct ws. Qed.

Lemma exec_step_in W {R} others tk c (q : stmt R) tx d r tx' e :
  exec_step others tk c q tx d = Some (r, tx', e) -> stmt_writes W q -> tx_in W tx -> tx_in W tx' /\ eff_in W e.
Proof.
  intros He Hq Ht. assert (Hw : forall ev d, Forall W (oc_writes (q others ev d)))
    by (intros ev d'; apply Forall_forall; intros w; apply Hq).
  assert (Heff : forall ev d, eff_in W (effect_of (q others ev d))).
  { intros ev d'. unfold effect_of. destruct (oc_res _); [done|]. apply mk_eff_in, Hw. }
  destruct c; simpl in He; [repeat case_match; simplify_eq; split; try done; apply Heff|].
  destruct tx as [t|]; [|by simplify_eq]. specialize (Ht t eq_refl).
  repeat case_match; simplify_eq; split; try done; intros t' E; injection E as <-; simpl; try done.
  apply Forall_app. split; [done|apply Hw].
Qed.

Lemma commit_step_in W tk tx r tx' e :
  commit_step tk tx = (r, tx', e) -> tx_in W tx -> tx_in W tx' /\ eff_in W e.
Proof.
  unfold commit_step. intros He Ht. destruct tx as [t|]; [|by simplify_eq]. specialize (Ht t eq_refl).
  repeat case_match; simplify_eq; split; try done; by apply mk_eff_in.
Qed.

Lemma eff_in_writes W e d : eff_in W e -> exists ws, Forall W ws /\ apply_eff e d = apply_writes ws d.
Proof. destruct e as [|L ws]; intros He; [by exists []|by exists ws]. Qed.

(** *** Writes that stay proper while others work *)

(** [W] depends on the written row only, and a write proper for what a
    transaction sees is proper for the committed rows. *)
Class StableWrites (W : db -> write -> Prop) := {
  sw_frame : forall L d d' w, lock_of w ∈ L -> frame L d d' -> W d w -> W d' w;
  sw_back : forall ws d w, (forall w', w' ∈ ws -> W d w') -> W (apply_writes ws d) w -> W d w
}.

Section stable.
Context (W : db -> write -> Prop) `{!StableWrites W}.

Definition tx_when (tx : option txst) (d : db) : Prop :=
  forall t, tx = Some t -> forall w, w ∈ tx_writes t -> lock_of w ∈ tx_locks t /\ W d w.

Definition eff_when (d : db) (e : eff) : Prop :=
  match e with NoEff => True | Eff _ ws => forall w, w ∈ ws -> W d w end.

Lemma tx_when_frame tx d d' : tx_when tx d -> frame (locks_of tx) d d' -> tx_when tx d'.
Proof. intros Ht Hf t -> w Hw. destruct (Ht t eq_refl w Hw) as [Hl Hd]. split; [done|by eapply sw_frame]. Qed.

Lemma tx_when_empty tx d : (forall t, tx = Some t -> tx_writes t = []) -> tx_when tx d.
Proof. intros Ht t -> w. rewrite (Ht t eq_refl). intros Hw. by apply not_elem_of_nil in Hw. Qed.

Lemma mk_eff_when d L ws : (forall w, w ∈ ws -> W d w) -> eff_when d (mk_eff L ws).
Proof. by destruct ws. Qed.

Lemma exec_step_when {R} others tk c (q : stmt R) tx d r tx' e :
  stmt_when W q -> tx_when tx d -> exec_step others tk c q tx d = Some (r, tx', e) ->
  eff_when d e /\ tx_when tx' (apply_eff e d).
Proof.
  intros Hq Htx Hs. unfold exec_step in Hs. destruct c.
  - set (o := q others (Env (tk_now tk) (tk_uuid tk)) d) in Hs.
    destruct (locks_free (needed o) (locks_of tx)) eqn:Hown; [|by simplify_eq; auto].
    rewrite locks_free_spec in Hown.
    assert (He : eff_when d (effect_of o) /\ tx_when tx (apply_eff (effect_of o) d)).
    { unfold effect_of. destruct (oc_res o); [done|]. split; [apply mk_eff_when, Hq|].
      unfold mk_eff. destruct (oc_writes o) eqn:Ew; [done|]. rewrite <- Ew. simpl.
      eapply tx_when_frame; [done|]. apply apply_writes_frame. intros x Hx Hin.
      eapply Hown; [by apply needed_covers|exact Hin]. }
    repeat case_match; simplify_eq; by auto.
  - destruct tx as [t|]; [|by simplify_eq; auto].
    destruct (tx_aborted t); [by simplify_eq; auto|].
    assert (Hab : tx_when (Some (tx_abort t)) d) by (apply tx_when_empty; by intros t' [= <-]).
    destruct (tk_fault tk); try (simplify_eq; by auto).
    destruct (locks_free _ _); [|done]. destruct (oc_res _); simplify_eq; [by auto|].
    split; [done|]. intros t' [= <-] w'. simpl. intros [Hw|Hw]%elem_of_app.
    + destruct (Htx t eq_refl w' Hw). split; [|done]. apply elem_of_app. by left.
    + split; [apply elem_of_app; right; by apply needed_covers|].
      eapply sw_back; [|by eapply Hq]. intros x Hx. by apply (Htx t).
Qed.

Lemma commit_step_when tk tx d r tx' e :
  tx_when tx d -> commit_step tk tx = (r, tx', e) -> eff_when d e /\ tx' = None.
Proof.
  intros Htx Hc. unfold commit_step in Hc. destruct tx as [t|]; [|by simplify_eq].
  assert (Hm : eff_when d (mk_eff (tx_locks t) (tx_writes t))) by (apply mk_eff_when; intros; by apply (Htx t)).
  repeat case_match; simplify_eq; by auto.
Qed.

Lemma begin_step_when tk tx d r tx' : tx_when tx d -> begin_step tk tx = (r, tx') -> tx_when tx' d.
Proof.
  unfold begin_step. intros Htx Hb. destruct tx as [t|]; [by simplify_eq|].
  destruct (tk_fault tk); simplify_eq; apply tx_when_empty; by intros ? [= <-].
Qed.

(** One step of a thread whose writes are known. *)
Lemma thread_step_when {A} others tk (th th' : thread A) d e os :
  writes_when W (th_prog th) -> tx_when (th_tx th) d ->
  thread_step others tk th d = Some (th', e, os) ->
  writes_when W (th_prog th') /\ tx_when (th_tx th') (apply_eff e d) /\ eff_when d e.
Proof.
  destruct th as [p tx log]. unfold thread_step. simpl. intros Hp Htx Hs.
  destruct p; simpl in Hp; try done.
  - destruct (begin_step tk tx) as [r tx'] eqn:E. simplify_eq/=. split_and!; [done| |done]. by eapply begin_step_when.
  - destruct (exec_step _ _ _ _ _ _) as [[[r tx'] e']|] eqn:E; [|done]. simplify_eq/=.
    destruct Hp as [Hq Hk]. destruct (exec_step_when _ _ _ _ _ _ _ _ _ Hq Htx E). split_and!; [apply Hk|done..].
  - destruct (commit_step _ _) as [[r tx'] e'] eqn:E. simplify_eq/=.
    destruct (commit_step_when _ _ _ _ _ _ Htx E) as [? ->]. split_and!; [done|by intros ?|done].
  - simplify_eq/=. split_and!; [done|by intros ?|done].
  - simplify_eq/=. by split_and!.
  - simplify_eq/=. by split_and!.
Qed.
End stable.

(** A run alone changes the database by writes in [W] only. *)
Lemma writes_in_run W {A} (p : prog A) orc w a w' :
  writes_in W p -> tx_in W (w_tx w) -> run p orc w = Some (a, w') ->
  exists ws, Forall W ws /\ w_db w' = apply_writes ws (w_db w).
Proof.
  assert (Heff : forall e d, eff_in W e ->
    (exists ws, Forall W ws /\ w_db w' = apply_writes ws (apply_eff e d)) ->
    exists ws, Forall W ws /\ w_db w' = apply_writes ws d).
  { intros e d (ws1 & H1 & E1)%(eff_in_writes W e d) (ws & Hws & E). exists (ws1 ++ ws).
    by rewrite Forall_app, apply_writes_app, <- E1. }
  revert w. induction p; intros w Hp Ht Hr; simpl in Hp, Hr; simplify_eq.
  - exists []. by split.
  - destruct (begin_step _ _) as [r tx'] eqn:Eb. refine (H r _ (Hp r) _ Hr). simpl. intros t ->.
    unfold begin_step in Eb. repeat case_match; simplify_eq; eauto.
  - destruct Hp as [Hq Hk]. destruct (exec_step _ _ _ _ _ _) as [[[r tx'] e]|] eqn:Ee; [|done].
    destruct (exec_step_in _ _ _ _ _ _ _ _ _ _ Ee Hq Ht) as [Ht' He].
    apply (Heff e _ He). by refine (H r _ (Hk r) _ Hr).
  - destruct (commit_step _ _) as [[r tx'] e] eqn:Ee. destruct (commit_step_in _ _ _ _ _ _ Ee Ht) as [Ht' He].
    apply (Heff e _ He). by refine (H r _ (Hp r) _ Hr).
  - by refine (IHp _ Hp _ Hr).
  - by refine (H _ _ (Hp _) _ Hr).
  - by refine (IHp _ Hp _ Hr).
Qed.

(** ** The weakest precondition *)

Section wp.
Context (guar : list lock -> db -> db -> Prop) (tick_ok : db -> tick -> Prop).

(** Another transaction, holding other locks than [L], commits. *)
Definition env_step (L : list lock) (d d' : db) : Prop :=
  exists L' ws, (forall l, l ∈ L' -> l ∉ L) /\ (forall w, w ∈ ws -> lock_of w ∈ L') /\
    d' = apply_writes ws d /\ guar L' d d'.

Definition rely (L : list lock) : db -> db -> Prop := rtc (env_step L).

Definition eff_ok (d : db) (e : eff) : Prop :=
  match e with NoEff => True | Eff L ws => guar L d (apply_writes ws d) end.

Fixpoint wp {A} (p : prog A) (tx : option txst) (log : list (db * db)) (d : db)
    (Q : A -> option txst -> list (db * db) -> db -> Prop) : Prop :=
  match p with
  | Ret a => Q a tx log d
  | BeginTx k => forall tk r tx', tick_ok d tk -> begin_step tk tx = (r, tx') ->
      forall d', rely (locks_of tx') d d' -> wp (k r) tx' log d' Q
  | Exec c s k => forall others tk r tx' e, tick_ok d tk ->
      exec_step others tk c s tx d = Some (r, tx', e) ->
      eff_ok d e /\
      forall d', rely (locks_of tx') (apply_eff e d) d' -> wp (k r) tx' (add_log e d log) d' Q
  | Commit k => forall tk r tx' e, tick_ok d tk -> commit_step tk tx = (r, tx', e) ->
      eff_ok d e /\
      forall d', rely (locks_of tx') (apply_eff e d) d' -> wp (k r) tx' (add_log e d log) d' Q
  | Rollback k => forall d', rely [] d d' -> wp k None log d' Q
  | Ask q k => forall tk d', tick_ok d tk -> rely (locks_of tx) d d' -> wp (k (q tk)) tx log d' Q
  | Emit o k => forall d', rely (locks_of tx) d d' -> wp k tx log d' Q
  end.

#[export] Instance rely_preorder L : PreOrder (rely L).
Proof. unfold rely. apply _. Qed.

Lemma rely_refl L d : rely L d d.
Proof. apply rtc_refl. Qed.

(** A thread that holds fewer locks is disturbed by more. *)
Lemma rely_weaken L L' d d' : L' ⊆ L -> rely L d d' -> rely L' d d'.
Proof.
  intros HL. apply (rtc_congruence id). intros ? ? (K & ws & H1 & H2 & H3 & H4).
  exists K, ws. split_and!; [|done..]. intros l Hl HL'. eapply H1; eauto.
Qed.

(** What the others do leaves the locked rows alone. *)
Lemma rely_frame L d d' : rely L d d' -> frame L d d'.
Proof.
  induction 1 as [|d1 d2 d3 (K & ws & H1 & H2 & -> & H4) _ IH]; [reflexivity|].
  etransitivity; [|exact IH]. apply apply_writes_frame. eauto.
Qed.

(** A property every change within the guarantee preserves holds throughout. *)
Lemma rely_stable (P : db -> Prop) L d d' :
  (forall K d1 d2, guar K d1 d2 -> (forall l, l ∈ K -> l ∉ L) -> P d1 -> P d2) ->
  rely L d d' -> P d -> P d'.
Proof.
  intros HP. induction 1 as [|d1 d2 d3 (K & ws & H1 & H2 & -> & H4) _ IH]; eauto.
Qed.

Lemma rely_inv (P : db -> Prop) L d d' :
  (forall K d1 d2, guar K d1 d2 -> P d1 -> P d2) -> rely L d d' -> P d -> P d'.
Proof. intros HP. apply rely_stable. intros K d1 d2 Hg _. by eapply HP. Qed.

Lemma eff_inv (P : db -> Prop) d e :
  (forall K d1 d2, guar K d1 d2 -> P d1 -> P d2) -> eff_ok d e -> P d -> P (apply_eff e d).
Proof. intros HP. destruct e; simpl; [done|]. apply HP. Qed.

(** What every change within the guarantee preserves can be added to a
    postcondition. *)
Lemma wp_inv {A} (P : db -> Prop) (p : prog A) tx log d Q :
  (forall K d1 d2, guar K d1 d2 -> P d1 -> P d2) ->
  wp p tx log d Q -> P d -> wp p tx log d (fun a tx' log' d' => Q a tx' log' d' /\ P d').
Proof.
  intros HP. revert tx log d. induction p; simpl; intros tx log d Hwp HPd; [done|..].
  - intros tk r tx' Htk Hb d' Hr. eapply H; [by eapply Hwp|by eapply rely_inv].
  - intros others tk r tx' e Htk He. destruct (Hwp _ _ _ _ _ Htk He) as [Hok Hk]. split; [done|].
    intros d' Hr. apply H; [by apply Hk|]. eapply rely_inv; [done..|]. by eapply eff_inv.
  - intros tk r tx' e Htk He. destruct (Hwp _ _ _ _ Htk He) as [Hok Hk]. split; [done|].
    intros d' Hr. apply H; [by apply Hk|]. eapply rely_inv; [done..|]. by eapply eff_inv.
  - intros d' Hr. apply IHp; [by apply Hwp|by eapply rely_inv].
  - intros tk d' Htk Hr. apply H; [by apply Hwp|by eapply rely_inv].
  - intros d' Hr. apply IHp; [by apply Hwp|by eapply rely_inv].
Qed.

(** *** Structural rules *)

Lemma wp_mono {A} (p : prog A) tx log d (Q Q' : A -> option txst -> list (db * db) -> db -> Prop) :
  wp p tx log d Q -> (forall a tx log d, Q a tx log d -> Q' a tx log d) -> wp p tx log d Q'.
Proof.
  intros Hwp HQ. revert tx log d Hwp. induction p; simpl; intros tx log d Hwp; eauto.
  - intros others tk r tx' e Ht He. destruct (Hwp _ _ _ _ _ Ht He). eauto.
  - intros tk r tx' e Ht He. destruct (Hwp _ _ _ _ Ht He). eauto.
Qed.

Lemma wp_bind {A B} (p : prog A) (f : A -> prog B) tx log d Q :
  wp p tx log d (fun a tx log d => wp (f a) tx log d Q) -> wp (bind p f) tx log d Q.
Proof.
  revert tx log d. induction p; simpl; intros tx log d Hwp; eauto.
  - intros others tk r tx' e Ht He. destruct (Hwp _ _ _ _ _ Ht He). eauto.
  - intros tk r tx' e Ht He. destruct (Hwp _ _ _ _ Ht He). eauto.
Qed.

Lemma wp_ebind {A B} (p : prog (goerr + A)) (f : A -> prog (goerr + B)) tx log d Q :
  wp p tx log d (fun r tx log d =>
    match r with inl e => Q (inl e) tx log d | inr a => wp (f a) tx log d Q end) ->
  wp (ebind p f) tx log d Q.
Proof.
  intros H. unfold ebind. apply wp_bind. eapply wp_mono; [exact H|].
  intros [e|a] ? ? ?; done.
Qed.

Lemma wp_wrap_err {A} pre (p : prog (goerr + A)) tx log d Q :
  wp p tx log d (fun r tx log d =>
    Q (match r with inl e => inl (Wrap pre e "") | inr a => inr a end) tx log d) ->
  wp (wrap_err pre p) tx log d Q.
Proof. intros H. unfold wrap_err. apply wp_bind. exact H. Qed.

Lemma wp_defer_rollback {A} (p : prog A) tx log d Q :
  wp p tx log d (fun a _ log d => forall d', rely [] d d' -> Q a None log d') ->
  wp (defer_rollback p) tx log d Q.
Proof.
  intros H. unfold defer_rollback. apply wp_bind. eapply wp_mono; [exact H|]. done.
Qed.

(** Nothing is asked of a program: any program will do. *)
Lemma wp_any {A} (p : prog A) tx log d :
  (forall L d1 d2, guar L d1 d2) -> wp p tx log d (fun _ _ _ _ => True).
Proof.
  intros Hg. revert tx log d. induction p; simpl; intros; eauto.
  - split; [|by eauto]. destruct e; simpl; auto.
  - split; [|by eauto]. destruct e; simpl; auto.
Qed.

(** A program of which only the writes are known. *)
Lemma wp_writes_in (W : write -> Prop) {A} (p : prog A) tx log d :
  (forall L ws d, Forall W ws -> guar L d (apply_writes ws d)) ->
  writes_in W p -> tx_in W tx -> wp p tx log d (fun _ _ _ _ => True).
Proof.
  intros Hg. assert (Hok : forall d e, eff_in W e -> eff_ok d e) by (intros d' [|L ws] He; [done|by apply Hg]).
  revert tx log d. induction p; simpl; intros tx log d Hp Ht; [done|..].
  - intros tk r tx' _ Hb d' _. apply H; [apply Hp|]. intros t ->. unfold begin_step in Hb.
    repeat case_match; simplify_eq; eauto.
  - intros others tk r tx' e _ He. destruct Hp as [Hq Hk].
    destruct (exec_step_in _ _ _ _ _ _ _ _ _ _ He Hq Ht) as [Ht' Hin]. eauto.
  - intros tk r tx' e _ He. destruct (commit_step_in _ _ _ _ _ _ He Ht) as [Ht' Hin]. eauto.
  - intros d' _. by apply IHp.
  - intros tk d' _ _. by apply H.
  - intros d' _. by apply IHp.
Qed.

(** *** One program alone *)

Theorem wp_run {A} (p : prog A) orc w a w' Q :
  (forall d n, tick_ok d (orc n)) ->
  wp p (w_tx w) (w_log w) (w_db w) Q -> run p orc w = Some (a, w') ->
  Q a (w_tx w') (w_log w') (w_db w').
Proof.
  intros Htk. revert w. induction p; intros w Hwp Hr; simpl in Hr, Hwp; simplify_eq; try done.
  - destruct (begin_step _ _) as [r tx'] eqn:E. eapply H; [|exact Hr]. simpl.
    eapply Hwp; eauto. reflexivity.
  - destruct (exec_step _ _ _ _ _ _) as [[[r tx'] e]|] eqn:E; [|done].
    eapply H; [|exact Hr]. simpl. eapply Hwp; eauto. reflexivity.
  - destruct (commit_step _ _) as [[r tx'] e] eqn:E.
    eapply H; [|exact Hr]. simpl. eapply Hwp; eauto. reflexivity.
  - eapply IHp; [|exact Hr]. apply Hwp. simpl. reflexivity.
  - eapply H; [|exact Hr]. apply Hwp; [auto|]. simpl. reflexivity.
  - eapply IHp; [|exact Hr]. apply Hwp. simpl. reflexivity.
Qed.

(** *** Any number of programs at once *)

Context {A : Type} (Post : nat -> A -> option txst -> list (db * db) -> db -> Prop).

Record pool_inv (d0 : db) (P : pool A) : Prop := PoolInv {
  pi_wp : forall (i : nat) (th : thread A), p_threads P !! i = Some th ->
    covered (th_tx th) /\
    (forall d', rely (locks_of (th_tx th)) (p_db P) d' ->
      wp (th_prog th) (th_tx th) (th_log th) d' (Post i));
  pi_locks : forall (i j : nat) (thi thj : thread A), i <> j ->
    p_threads P !! i = Some thi -> p_threads P !! j = Some thj ->
    forall l, l ∈ locks_of (th_tx thi) -> l ∉ locks_of (th_tx thj);
  pi_chain : chain d0 (snd <$> p_hist P) (p_db P);
  pi_guar : forall i d d', (i, (d, d')) ∈ p_hist P -> exists L, guar L d d';
  pi_logs : forall (i : nat) (th : thread A), p_threads P !! i = Some th -> th_log th = hist_of i (p_hist P)
}.

Lemma elem_of_others_locks (ths : list (thread A)) i l :
  l ∈ others_locks ths i <->
  exists j th, j <> i /\ ths !! j = Some th /\ l ∈ locks_of (th_tx th).
Proof.
  unfold others_locks. rewrite list_elem_of_In, in_concat. split.
  - intros (x & Hx & Hl). apply list_elem_of_In, elem_of_lookup_imap_1 in Hx as (j & th & -> & Hj).
    apply list_elem_of_In in Hl. case_decide; [set_solver|]. eauto.
  - intros (j & th & Hne & Hj & Hl). eexists. rewrite <- !list_elem_of_In. split; [|exact Hl].
    apply elem_of_lookup_imap. exists j, th. split; [|done]. by case_decide.
Qed.

Lemma thread_step_log {B} others tk (th th' : thread B) d e os :
  thread_step others tk th d = Some (th', e, os) -> th_log th' = add_log e d (th_log th).
Proof. destruct th as [[] tx log]; unfold thread_step; simpl; intros; repeat case_match; by simplify_eq. Qed.

(** What a step of thread [i] gives: its own obligations, and a change the
    other threads expect. *)
Lemma thread_step_inv others tk (th th' : thread A) d e os Q :
  tick_ok d tk -> covered (th_tx th) ->
  (forall l, l ∈ locks_of (th_tx th) -> l ∉ others) ->
  (forall d', rely (locks_of (th_tx th)) d d' -> wp (th_prog th) (th_tx th) (th_log th) d' Q) ->
  thread_step others tk th d = Some (th', e, os) ->
  covered (th_tx th') /\
  (forall l, l ∈ locks_of (th_tx th') -> l ∉ others) /\
  (forall d', rely (locks_of (th_tx th')) (apply_eff e d) d' ->
     wp (th_prog th') (th_tx th') (th_log th') d' Q) /\
  th_log th' = add_log e d (th_log th) /\ eff_wf others e /\ eff_ok d e.
Proof.
  destruct th as [p tx log]. simpl. intros Htk Hcov Hlk Hwp0 Hs.
  assert (Hwp : wp p tx log d Q) by (apply Hwp0; reflexivity). clear Hwp0.
  unfold thread_step in Hs. simpl in Hs. destruct p; simpl in Hwp; [done|simplify_eq/=..].
  - destruct (begin_step tk tx) as [r tx'] eqn:E. simplify_eq/=.
    destruct (begin_step_wf _ _ _ _ E). split_and!; eauto.
  - destruct (exec_step _ _ _ _ _ _) as [[[r tx'] e']|] eqn:E; [|done]. simplify_eq/=.
    destruct (exec_step_wf _ _ _ _ _ _ _ _ _ E) as (Hl & Hc & He).
    destruct (Hwp _ _ _ _ _ Htk E) as [Hok Hk].
    split_and!; eauto. intros l Hin. destruct (Hl l Hin); eauto.
  - destruct (commit_step _ _) as [[r tx'] e'] eqn:E. simplify_eq/=.
    destruct (commit_step_wf others _ _ _ _ _ Hlk Hcov E) as [-> He].
    destruct (Hwp _ _ _ _ Htk E) as [Hok Hk].
    split_and!; eauto; [done|set_solver].
  - split_and!; eauto; [done|set_solver].
  - split_and!; eauto.
  - split_and!; eauto.
Qed.

Lemma add_hist_chain d0 i e d hist :
  chain d0 (snd <$> hist) d -> chain d0 (snd <$> add_hist i e d hist) (apply_eff e d).
Proof.
  destruct e; [done|]. unfold add_hist. rewrite fmap_app. intros H.
  eapply chain_app; [done|]. by simpl.
Qed.

Lemma hist_of_add i j e d hist :
  hist_of j (add_hist i e d hist) =
  if decide (i = j) then add_log e d (hist_of j hist) else hist_of j hist.
Proof.
  unfold hist_of, add_hist, add_log. destruct e; [by case_decide|].
  rewrite filter_app, filter_cons, filter_nil, fmap_app. simpl.
  case_decide; [done|]. by rewrite app_nil_r.
Qed.

Lemma pool_inv_step d0 P P' : pool_inv d0 P -> pool_step tick_ok P P' -> pool_inv d0 P'.
Proof.
  intros [Hwp Hlk Hch Hg Hlog] Hs. destruct Hs as [d ths hist i th tk th' e os Hi Htk Hs].
  simpl in *.
  destruct (Hwp i th Hi) as [Hcov Hwpi].
  assert (Hmine : forall l, l ∈ locks_of (th_tx th) -> l ∉ others_locks ths i).
  { intros l Hl (j & thj & Hne & Hj & Hl')%elem_of_others_locks.
    eapply (Hlk i j); eauto. }
  destruct (thread_step_inv _ _ _ _ _ _ _ (Post i) Htk Hcov Hmine Hwpi Hs)
    as (Hcov' & Hmine' & Hwp' & Hlog' & Hewf & Heok).
  assert (Hother : forall j thj, j <> i -> ths !! j = Some thj ->
            forall l, l ∈ locks_of (th_tx thj) -> l ∈ others_locks ths i).
  { intros j thj Hne Hj l Hl. apply elem_of_others_locks. eauto. }
  assert (Hlook : forall j thj, <[i:=th']> ths !! j = Some thj ->
            (j = i /\ thj = th') \/ (j <> i /\ ths !! j = Some thj)).
  { intros j thj [(-> & -> & _)|(? & ?)]%list_lookup_insert_Some; auto. }
  split; simpl.
  - intros j thj [(-> & ->)|(Hne & Hj)]%Hlook; [by split|].
    destruct (Hwp j thj Hj) as [Hcj Hwj]. split; [done|]. intros d' Hd'. apply Hwj.
    destruct e as [|L ws]; [done|]. eapply rtc_l; [|exact Hd'].
    destruct Hewf as [HL Hws]. exists L, ws. split_and!; [|done..]. intros l HlL Hlj. eapply HL; eauto.
  - intros j k thj thk Hne [(-> & ->)|(? & Hj)]%Hlook [(-> & ->)|(? & Hk)]%Hlook l Hl Hl'; try done;
      first [by eapply Hmine'; eauto | by eapply (Hlk j k); eauto].
  - by apply add_hist_chain.
  - intros j a b Hin. destruct e as [|L ws]; [eauto|].
    unfold add_hist in Hin. apply elem_of_app in Hin as [Hin|Hin]; [eauto|].
    apply list_elem_of_singleton in Hin. simplify_eq. exists L. exact Heok.
  - intros j thj [(-> & ->)|(Hne & Hj)]%Hlook; rewrite hist_of_add.
    + rewrite decide_True by done. rewrite Hlog'. by rewrite (Hlog i th Hi).
    + rewrite decide_False by done. auto.
Qed.

(** What one thread changes, and the locks it holds for it, are apart from the
    locks of another. *)
Lemma pool_step_apart d0 d ths hist i th tk th' e os j thj :
  pool_inv d0 (Pool d ths hist) -> ths !! i = Some th -> tick_ok d tk ->
  thread_step (others_locks ths i) tk th d = Some (th', e, os) ->
  j <> i -> ths !! j = Some thj -> eff_wf (locks_of (th_tx thj)) e.
Proof.
  intros [Hwp Hlk _ _ _] Hi Htk Hs Hne Hj. simpl in *. destruct (Hwp i th Hi) as [Hcov Hwpi].
  assert (Hmine : forall l, l ∈ locks_of (th_tx th) -> l ∉ others_locks ths i).
  { intros l Hl (k & thk & Hk & Hkk & Hl')%elem_of_others_locks. eapply (Hlk i k); eauto. }
  destruct (thread_step_inv _ _ _ _ _ _ _ (Post i) Htk Hcov Hmine Hwpi Hs) as (_ & _ & _ & _ & Hwf & _).
  destruct e as [|L ws]; [done|]. destruct Hwf as [HL Hws]. split; [|done].
  intros l Hl Hin. apply (HL l Hl), elem_of_others_locks. eauto.
Qed.

Lemma pool_step_frame d0 d ths hist i th tk th' e os j thj :
  pool_inv d0 (Pool d ths hist) -> ths !! i = Some th -> tick_ok d tk ->
  thread_step (others_locks ths i) tk th d = Some (th', e, os) ->
  j <> i -> ths !! j = Some thj -> frame (locks_of (th_tx thj)) d (apply_eff e d).
Proof. intros HP Hi Htk Hs Hne Hj. apply eff_wf_frame. by apply (pool_step_apart d0 d ths hist i th tk th' e os j thj). Qed.

Lemma pool_inv_start d0 ps :
  (forall i p, ps !! i = Some p -> forall d, rely [] d0 d -> wp p None [] d (Post i)) ->
  pool_inv d0 (pool_start d0 ps).
Proof.
  intros H. split; simpl; try done.
  - intros i th Hi. rewrite list_lookup_fmap in Hi.
    destruct (ps !! i) eqn:E; simplify_eq/=. split; [done|]. eauto.
  - intros i j thi thj _ Hi _. rewrite list_lookup_fmap in Hi.
    destruct (ps !! i); simplify_eq/=. set_solver.
  - set_solver.
  - intros i th Hi. rewrite list_lookup_fmap in Hi. by destruct (ps !! i); simplify_eq/=.
Qed.

(** Every state an interleaving reaches satisfies the invariant. *)
Theorem wp_pool d0 ps P :
  (forall i p, ps !! i = Some p -> forall d, rely [] d0 d -> wp p None [] d (Post i)) ->
  rtc (pool_step tick_ok) (pool_start d0 ps) P -> pool_inv d0 P.
Proof.
  intros H Hsteps. apply pool_inv_start in H. revert H.
  induction Hsteps as [|P1 P2 P3 Hs _ IH]; [done|]. intros Hinv. apply IH.
  by eapply pool_inv_step.
Qed.

(** A goroutine that ends, and loses its transaction. *)
Lemma pool_inv_end d0 d ths hist i th a :
  pool_inv d0 (Pool d ths hist) -> ths !! i = Some th ->
  (forall d', rely [] d d' -> Post i a None (th_log th) d') ->
  pool_inv d0 (Pool d (<[i := Thread (Ret a) None (th_log th)]> ths) hist).
Proof.
  intros [Hwp Hlk Hch Hg Hlog] Hi Ha. simpl in *.
  assert (Hlook : forall j thj, <[i:=Thread (Ret a) None (th_log th)]> ths !! j = Some thj ->
            (j = i /\ thj = Thread (Ret a) None (th_log th)) \/ (j <> i /\ ths !! j = Some thj)).
  { intros j thj [(-> & -> & _)|(? & ?)]%list_lookup_insert_Some; auto. }
  split; simpl; [| |done|done|].
  - intros j thj [(-> & ->)|(Hne & Hj)]%Hlook; [by split|by apply Hwp].
  - intros j k thj thk Hne [(-> & ->)|(? & Hj)]%Hlook [(-> & ->)|(? & Hk)]%Hlook l Hl; simpl in *;
      first [done | by apply not_elem_of_nil in Hl | apply not_elem_of_nil | by eapply (Hlk j k)].
  - intros j thj [(-> & ->)|(Hne & Hj)]%Hlook; by apply (Hlog _ _ ltac:(eassumption)).
Qed.
End wp.

#[export] Hint Resolve wp_mono rely_frame : transacta.

Lemma hist_of_in i c hist : c ∈ hist_of i hist -> (i, c) ∈ hist.
Proof.
  unfold hist_of. intros ([j x] & -> & Hin)%list_elem_of_fmap.
  apply list_elem_of_filter in Hin as [Hj Hin]. simpl in Hj. by subst.
Qed.

(** Goroutines started later: [Post'] says what is expected of them. *)
Lemma pool_inv_spawn guar tick_ok {A} (Post Post' : nat -> A -> option txst -> list (db * db) -> db -> Prop)
    d0 d ths hist ps :
  pool_inv guar tick_ok Post d0 (Pool d ths hist) ->
  (forall i a tx log d, i < length ths -> Post i a tx log d -> Post' i a tx log d) ->
  (forall i p d', ps !! i = Some p -> rely guar [] d d' ->
     wp guar tick_ok p None [] d' (Post' (length ths + i))) ->
  (forall i c, (i, c) ∈ hist -> i < length ths) ->
  pool_inv guar tick_ok Post' d0 (Pool d (ths ++ ((fun p => Thread p None []) <$> ps)) hist).
Proof.
  intros [Hwp Hlk Hch Hg Hlog] Hold Hnew Hhist. simpl in *.
  assert (Hlook : forall j th, (ths ++ ((fun p => Thread p None []) <$> ps)) !! j = Some th ->
    (j < length ths /\ ths !! j = Some th) \/
    exists k p, j = length ths + k /\ ps !! k = Some p /\ th = Thread p None []).
  { intros j th [Hj|[Hle Hj]]%lookup_app_Some; [left; split; [by eapply lookup_lt_Some|done]|right].
    apply list_lookup_fmap_Some in Hj as (p & -> & Hp). exists (j - length ths), p. split; [lia|done]. }
  split; simpl; [| |done|done|].
  - intros j th [[Hlt Hj]|(k & p & -> & Hp & ->)]%Hlook; simpl.
    + destruct (Hwp j th Hj) as [Hc Hw]. split; [done|]. intros d' Hd'. eapply wp_mono; [by apply Hw|]. eauto.
    + split; [by intros ?|]. eauto.
  - intros j k thj thk Hne [[_ Hj]|(? & ? & _ & _ & ->)]%Hlook [[_ Hk]|(? & ? & _ & _ & ->)]%Hlook l Hl;
      simpl in *; first [by apply not_elem_of_nil in Hl | apply not_elem_of_nil | by eapply (Hlk j k)].
  - intros j th [[_ Hj]|(k & p & -> & _ & ->)]%Hlook; [by apply Hlog|]. simpl. destruct (hist_of _ hist) as [|c l] eqn:E; [done|]. exfalso.
    assert (Hin : (length ths + k, c) ∈ hist) by (apply hist_of_in; rewrite E; left).
    apply Hhist in Hin. lia.
Qed.

(** *** Programs that make at most one change *)

(** Nothing more to ask of the database, the clock or the network. *)
Fixpoint silent {A} (p : prog A) : Prop :=
  match p with Ret _ => True | Rollback k | Emit _ k => silent k | _ => False end.

(** A query outside transactions changes nothing; anything else there, and
    every COMMIT, is the last of the program. *)
Fixpoint once {A} (p : prog A) : Prop :=
  match p with
  | Ret _ => True
  | BeginTx k => forall r, once (k r)
  | Exec c q k => ((c = OnTx \/ stmt_writes (fun _ => False) q) /\ forall r, once (k r)) \/ forall r, silent (k r)
  | Commit k => forall r, silent (k r)
  | Rollback k => once k
  | Ask _ k => forall r, once (k r)
  | Emit _ k => once k
  end.

Lemma silent_once {A} (p : prog A) : silent p -> once p.
Proof. induction p; simpl; auto; done. Qed.

Lemma silent_bind {A B} (p : prog A) (f : A -> prog B) : silent p -> (forall a, silent (f a)) -> silent (bind p f).
Proof. intros Hp Hf. induction p; simpl in *; auto; done. Qed.

Lemma once_bind {A B} (p : prog A) (f : A -> prog B) : once p -> (forall a, silent (f a)) -> once (bind p f).
Proof.
  intros Hp Hf. induction p; simpl in *; auto using silent_once, silent_bind.
  destruct Hp as [[Hc Hk]|Hk]; [left|right]; auto using silent_bind.
Qed.

(** Nothing is made visible: statements of a transaction and queries only. *)
Fixpoint unseen {A} (p : prog A) : Prop :=
  match p with
  | Ret _ => True
  | BeginTx k => forall r, unseen (k r)
  | Exec c q k => (c = OnTx \/ stmt_writes (fun _ => False) q) /\ forall r, unseen (k r)
  | Commit _ => False
  | Rollback k => unseen k
  | Ask _ k => forall r, unseen (k r)
  | Emit _ k => unseen k
  end.

Lemma once_after {A B} (p : prog A) (f : A -> prog B) : unseen p -> (forall a, once (f a)) -> once (bind p f).
Proof. intros Hp Hf. induction p; simpl in *; destruct_and?; auto; try done. Qed.

(** A step of such a program either shows nothing, or leaves nothing to do. *)
Lemma once_step {A} others tk (th th' : thread A) d e os :
  once (th_prog th) -> thread_step others tk th d = Some (th', e, os) ->
  (e = NoEff /\ once (th_prog th')) \/ silent (th_prog th').
Proof.
  destruct th as [p tx log]. unfold thread_step. simpl. intros Hp Hs. destruct p; simpl in Hp; try done.
  - destruct (begin_step tk tx) as [r tx']. simplify_eq/=. auto.
  - destruct (exec_step _ _ _ _ _ _) as [[[r tx'] e']|] eqn:E; [|done]. simplify_eq/=.
    destruct Hp as [[[->|Hq] Hk]|Hk]; [left; split; [by eapply exec_step_read|done]| |by right].
    left. split; [|done]. assert (Hno : forall ev d, effect_of (s others ev d) = NoEff).
    { intros ev d'. unfold effect_of. destruct (oc_res _); [done|].
      destruct (oc_writes _) as [|w ws] eqn:Ew; [done|]. exfalso. apply (Hq others ev d' w). rewrite Ew. left. }
    destruct c; [|by eapply exec_step_read]. simpl in E. repeat case_match; simplify_eq; rewrite ?Hno; done.
  - destruct (commit_step _ _) as [[r tx'] e']. simplify_eq/=. auto.
  - simplify_eq/=. auto.
  - simplify_eq/=. auto.
  - simplify_eq/=. auto.
Qed.

Lemma silent_step {A} others tk (th th' : thread A) d e os :
  silent (th_prog th) -> thread_step others tk th d = Some (th', e, os) -> e = NoEff /\ silent (th_prog th').
Proof.
  destruct th as [p tx log]. unfold thread_step. simpl. intros Hp Hs. destruct p; simpl in Hp; try done; by simplify_eq/=.
Qed.

(** What is expected of the end holds once nothing is left to do. *)
Lemma silent_ends guar tick_ok {A} (p : prog A) tx log d Q :
  silent p -> wp guar tick_ok p tx log d Q -> exists a tx', Q a tx' log d.
Proof.
  revert tx. induction p; simpl; intros tx Hp Hwp; try done; [by eauto|..].
  - eapply IHp; [done|]. apply Hwp, rely_refl.
  - eapply IHp; [done|]. apply Hwp, rely_refl.
Qed.

(** ** database/sql, for error-returning functions *)

(** [err_ok Q log]: the postcondition accepts any error returned with nothing
    made visible since [log]. *)
Definition err_ok {A} (Q : goerr + A -> option txst -> list (db * db) -> db -> Prop)
    (log : list (db * db)) : Prop :=
  forall e tx d, Q (inl e) tx log d.

(** The rows a transaction sees. *)
Definition seen (t : txst) (d : db) : db := apply_writes (tx_writes t) d.

(** The answer to a COMMIT can be lost. *)
Definition lossy (tick_ok : db -> tick -> Prop) : Prop :=
  exists d tk, tick_ok d tk /\ tk_fault tk = FailAfter.

(** What a function that does its work in one transaction returns: an error and
    nothing done (or, when the answer to COMMIT was lost, an unreported [Ok]
    change), or a result and exactly one change, related by [Ok]. *)
Definition tx_result {A} (tick_ok : db -> tick -> Prop) (Ok : A -> db -> db -> Prop)
    (log0 : list (db * db)) (r : goerr + A) (log : list (db * db)) : Prop :=
  match r with
  | inl _ => log = log0 \/
      lossy tick_ok /\ exists a d1 d2, log = log0 ++ [(d1, d2)] /\ Ok a d1 d2
  | inr a => exists d1 d2, log = log0 ++ [(d1, d2)] /\ Ok a d1 d2
  end.

Section sql_rules.
Context {guar : list lock -> db -> db -> Prop} {tick_ok : db -> tick -> Prop}.
Local Abbreviation wp := (wp guar tick_ok).
Local Abbreviation rely := (rely guar).

Lemma wp_exec_tx {R A} (s : stmt R) (k : sqlerr + R -> prog A) t log d Q :
  tx_aborted t = false ->
  (forall e t' d', wp (k (inl e)) (Some t') log d' Q) ->
  (forall others tk r d', tick_ok d tk ->
     let o := s others (Env (tx_start t) (tk_uuid tk)) (seen t d) in
     oc_res o = inr r -> rely (tx_locks t ++ needed o) d d' ->
     wp (k (inr r)) (Some (tx_extend t o)) log d' Q) ->
  wp (Exec OnTx s k) (Some t) log d Q.
Proof.
  intros Hab Herr Hok others tk r tx' e Htk He. simpl in He. rewrite Hab in He.
  destruct (tk_fault tk); simplify_eq/=; try by eauto.
  destruct (locks_free _ _); [|done].
  destruct (oc_res _) eqn:Er; simplify_eq/=; [by eauto|].
  split; [done|]. intros d' Hd'. eapply Hok; eauto.
Qed.

Lemma wp_sql_exec_tx {R} (s : stmt R) t log d Q :
  tx_aborted t = false -> err_ok Q log ->
  (forall others tk r d', tick_ok d tk ->
     let o := s others (Env (tx_start t) (tk_uuid tk)) (seen t d) in
     oc_res o = inr r -> rely (tx_locks t ++ needed o) d d' ->
     Q (inr r) (Some (tx_extend t o)) log d') ->
  wp (sql_exec OnTx s) (Some t) log d Q.
Proof.
  intros Hab He Hok. apply wp_exec_tx; [done| |exact Hok]. intros. apply He.
Qed.

Lemma wp_sql_row_tx {R} (s : stmt (option R)) t log d Q :
  tx_aborted t = false -> err_ok Q log ->
  (forall others tk r d', tick_ok d tk ->
     let o := s others (Env (tx_start t) (tk_uuid tk)) (seen t d) in
     oc_res o = inr (Some r) -> rely (tx_locks t ++ needed o) d d' ->
     Q (inr r) (Some (tx_extend t o)) log d') ->
  wp (sql_row OnTx s) (Some t) log d Q.
Proof.
  intros Hab He Hok. apply wp_exec_tx; [done|intros; apply He|].
  intros others tk [r|] d' Htk o Ho Hd'; [by eapply Hok|apply He].
Qed.

(** A statement outside transactions: it fails, or takes effect, in which case
    its answer may be lost. *)
Lemma wp_exec_db {R A} (s : stmt R) (k : sqlerr + R -> prog A) log d Q :
  (forall d', rely [] d d' -> wp (k (inl ConnErr)) None log d' Q) ->
  (forall others tk, tick_ok d tk ->
     let o := s others (Env (tk_now tk) (tk_uuid tk)) d in
     eff_ok guar d (effect_of o) /\
     forall r d', r = oc_res o \/ r = inl ConnErr -> rely [] (apply_eff (effect_of o) d) d' ->
       wp (k r) None (add_log (effect_of o) d log) d' Q) ->
  wp (Exec OnDb s k) None log d Q.
Proof.
  intros Herr Hok others tk r tx' e Htk He. simpl in He.
  destruct (locks_free _ []); [|simplify_eq; split; [done|by apply Herr]].
  destruct (Hok others tk Htk) as [Hg Hk].
  destruct (tk_fault tk); try (destruct (locks_free _ others); [|done]); simplify_eq;
    (split; [done|]); intros d' Hd'; first [by apply Herr | by apply Hk; [left|] | by apply Hk; [right|]].
Qed.

(** A query outside transactions. *)
Lemma wp_select_db {R A} (f : db -> R) (k : sqlerr + R -> prog A) log d Q :
  (forall d', rely [] d d' -> wp (k (inl ConnErr)) None log d' Q) ->
  (forall d', rely [] d d' -> wp (k (inr (f d))) None log d' Q) ->
  wp (Exec OnDb (select f) k) None log d Q.
Proof.
  intros Herr Hok. apply wp_exec_db; [done|]. intros others tk Htk. split; [done|].
  intros r d' [->| ->]; simpl; [apply Hok|apply Herr].
Qed.

Lemma wp_sql_begin log d Q :
  err_ok Q log ->
  (forall tk d', tick_ok d tk -> rely [] d d' ->
     Q (inr tt) (Some (tx_fresh (tk_now tk))) log d') ->
  wp sql_begin None log d Q.
Proof.
  intros He Hok tk r tx' Htk. unfold begin_step.
  destruct (tk_fault tk); intros ?; simplify_eq/=; eauto.
Qed.

Lemma wp_sql_commit t log d Q :
  tx_aborted t = false -> tx_writes t <> [] ->
  err_ok Q log ->
  guar (tx_locks t) d (seen t d) ->
  (lossy tick_ok -> err_ok Q (log ++ [(d, seen t d)])) ->
  (forall d', rely [] (seen t d) d' -> Q (inr tt) None (log ++ [(d, seen t d)]) d') ->
  wp sql_commit (Some t) log d Q.
Proof.
  intros Hab Hws He Hg Hee Hok tk r tx' e Htk. unfold commit_step. rewrite Hab.
  unfold mk_eff, seen in *. destruct (tx_writes t) as [|w ws] eqn:E; [done|].
  destruct (tk_fault tk) eqn:Ef; intros ?; simplify_eq/=; split; try done; intros d' Hd';
    first [apply He | by apply Hok | apply Hee; by exists d, tk].
Qed.
End sql_rules.

Lemma err_ok_ebind {A B} (Q : goerr + B -> option txst -> list (db * db) -> db -> Prop) log
    (F : A -> option txst -> list (db * db) -> db -> Prop) :
  err_ok Q log ->
  err_ok (fun r tx log d => match r with inl e => Q (inl e) tx log d | inr a => F a tx log d end) log.
Proof. intros H e tx d. apply H. Qed.

Lemma err_ok_wrap {A} (Q : goerr + A -> option txst -> list (db * db) -> db -> Prop) log pre :
  err_ok Q log ->
  err_ok (fun r tx log d =>
    Q (match r with inl e => inl (Wrap pre e "") | inr a => inr a end) tx log d) log.
Proof. intros H e tx d. apply H. Qed.

#[export] Hint Resolve err_ok_ebind err_ok_wrap : transacta.

(** Solves the obligations about errors. *)
Ltac err_tac := solve [ repeat first [ apply err_ok_ebind | apply err_ok_wrap | assumption ] ].

Lemma guarded_ok {R} checks (o : outcome R) r :
  oc_res (guarded checks o) = inr r ->
  guarded checks o = o /\ forall b e, (b, e) ∈ checks -> b = true.
Proof.
  induction checks as [|[[] e] cs IH]; simpl; intros H; [set_solver| |done].
  destruct (IH H) as [-> Hcs]. split; [done|]. intros b e' [?|?]%elem_of_cons; [by simplify_eq|eauto].
Qed.

(** ** Functions that work inside one transaction

    [in_tx p t d Post]: a function called inside the open transaction [t] fails,
    with nothing visible outside, or ends in [Post]. [commits p t d Ok]: the rest
    of a transaction fails, with nothing visible, or commits one change in [Ok]. *)

Section in_tx.
Context (guar : list lock -> db -> db -> Prop) (tick_ok : db -> tick -> Prop).
Local Abbreviation wp := (wp guar tick_ok).
Local Abbreviation rely := (rely guar).

Definition in_tx {A} (p : prog (goerr + A)) (t : txst) (d : db)
    (Post : A -> txst -> db -> Prop) : Prop :=
  forall log Q, err_ok Q log ->
    (forall a t' d', Post a t' d' -> Q (inr a) (Some t') log d') ->
    wp p (Some t) log d Q.

Definition commits {A} (p : prog (goerr + A)) (t : txst) (d : db)
    (Ok : A -> db -> db -> Prop) : Prop :=
  forall log, wp p (Some t) log d (fun r _ log' _ => tx_result tick_ok Ok log r log').

Lemma in_tx_ret {A} (a : A) t d (Post : A -> txst -> db -> Prop) :
  Post a t d -> in_tx (Ret (inr a)) t d Post.
Proof. intros H log Q _ HQ. by apply HQ. Qed.

Lemma in_tx_err {A} e t d (Post : A -> txst -> db -> Prop) : in_tx (Ret (inl e)) t d Post.
Proof. intros log Q He _. apply He. Qed.

Lemma in_tx_mono {A} (p : prog (goerr + A)) t d (P1 P2 : A -> txst -> db -> Prop) :
  in_tx p t d P1 -> (forall a t' d', P1 a t' d' -> P2 a t' d') -> in_tx p t d P2.
Proof. intros H HP log Q He HQ. apply H; eauto. Qed.

Lemma in_tx_ebind {A B} (p : prog (goerr + A)) (f : A -> prog (goerr + B)) t d P1 Post :
  in_tx p t d P1 -> (forall a t' d', P1 a t' d' -> in_tx (f a) t' d' Post) ->
  in_tx (ebind p f) t d Post.
Proof.
  intros H Hf log Q He HQ. apply wp_ebind. apply H; [intros ???; apply He|].
  intros a t' d' Ha. by apply (Hf _ _ _ Ha).
Qed.

(** Like [in_tx_ebind], for code that inspects the error and returns one. *)
Lemma in_tx_bind {A B} (p : prog (goerr + A)) (f : goerr + A -> prog (goerr + B)) t d P1 Post :
  in_tx p t d P1 -> (forall e, exists e', f (inl e) = Ret (inl e')) ->
  (forall a t' d', P1 a t' d' -> in_tx (f (inr a)) t' d' Post) -> in_tx (bind p f) t d Post.
Proof.
  intros H Herr Hf log Q He HQ. apply wp_bind. apply H.
  - intros e tx d'. destruct (Herr e) as [e' ->]. apply He.
  - intros a t' d' Ha. by apply (Hf _ _ _ Ha).
Qed.

(** What every change within the guarantee preserves holds at the end. *)
Lemma in_tx_inv {A} (P : db -> Prop) (p : prog (goerr + A)) t d (Post : A -> txst -> db -> Prop) :
  (forall K d1 d2, guar K d1 d2 -> P d1 -> P d2) -> P d -> in_tx p t d Post ->
  in_tx p t d (fun a t' d' => Post a t' d' /\ P d').
Proof.
  intros HP HPd Hp log Q He HQ.
  eapply wp_mono; [apply (wp_inv _ _ P p (Some t) log d (fun r tx log' d' => log' = log /\
    match r with inl _ => True | inr a => exists t', tx = Some t' /\ Post a t' d' end) HP); [|done]|].
  - apply Hp; [by intros ???|]. intros a t' d' Ha. split; [done|]. by exists t'.
  - intros [e|a] tx log' d' [[-> Hr] HPd']; [apply He|]. destruct Hr as (t' & -> & Ha). by apply HQ.
Qed.

Lemma in_tx_ask {R A} (q : tick -> R) (f : R -> prog (goerr + A)) t d (Post : A -> txst -> db -> Prop) :
  (forall tk d', tick_ok d tk -> rely (tx_locks t) d d' -> in_tx (f (q tk)) t d' Post) ->
  in_tx (bind (ask q) f) t d Post.
Proof. intros H log Q He HQ. simpl. intros tk d' Htk Hr. by apply H. Qed.

Lemma in_tx_wrap {A} pre (p : prog (goerr + A)) t d Post :
  in_tx p t d Post -> in_tx (wrap_err pre p) t d Post.
Proof. intros H log Q He HQ. apply wp_wrap_err. apply H; [intros ???; apply He|eauto]. Qed.

Lemma in_tx_exec {R} (s : stmt R) t d (Post : R -> txst -> db -> Prop) :
  tx_aborted t = false ->
  (forall others tk r d', tick_ok d tk ->
     let o := s others (Env (tx_start t) (tk_uuid tk)) (seen t d) in
     oc_res o = inr r -> rely (tx_locks t ++ needed o) d d' -> Post r (tx_extend t o) d') ->
  in_tx (sql_exec OnTx s) t d Post.
Proof. intros Hab H log Q He HQ. apply wp_sql_exec_tx; [done..|]. cbv zeta in *. eauto. Qed.

Lemma in_tx_row {R} (s : stmt (option R)) t d (Post : R -> txst -> db -> Prop) :
  tx_aborted t = false ->
  (forall others tk r d', tick_ok d tk ->
     let o := s others (Env (tx_start t) (tk_uuid tk)) (seen t d) in
     oc_res o = inr (Some r) -> rely (tx_locks t ++ needed o) d d' ->
     Post r (tx_extend t o) d') ->
  in_tx (sql_row OnTx s) t d Post.
Proof. intros Hab H log Q He HQ. apply wp_sql_row_tx; [done..|]. cbv zeta in *. eauto. Qed.

(** An INSERT of one row: its constraints hold and its row is fresh. *)
Lemma in_tx_guarded {R} (cs : env -> db -> list (bool * sqlerr)) (r : env -> R) (w : env -> write)
    t d (Post : R -> txst -> db -> Prop) :
  tx_aborted t = false ->
  (forall tk d', tick_ok d tk ->
     let ev := Env (tx_start t) (tk_uuid tk) in
     (forall b e, (b, e) ∈ cs ev (seen t d) -> b = true) ->
     rely (tx_locks t ++ [lock_of (w ev)]) d d' -> Post (r ev) (tx_add t (w ev)) d') ->
  in_tx (sql_exec OnTx (fun _ ev d => guarded (cs ev d) (Outcome [] (inr (r ev)) [w ev]))) t d Post.
Proof.
  intros Hab H. apply in_tx_exec; [done|]. intros others tk x d' Htk o Ho.
  destruct (guarded_ok _ _ _ Ho) as [Eo Hc]. unfold o in *. rewrite Eo in Ho |- *.
  simpl in Ho. simplify_eq. intros Hr. by apply H.
Qed.

Lemma in_tx_guarded_row {R} (cs : env -> db -> list (bool * sqlerr)) (r : env -> R)
    (w : env -> write) t d (Post : R -> txst -> db -> Prop) :
  tx_aborted t = false ->
  (forall tk d', tick_ok d tk ->
     let ev := Env (tx_start t) (tk_uuid tk) in
     (forall b e, (b, e) ∈ cs ev (seen t d) -> b = true) ->
     rely (tx_locks t ++ [lock_of (w ev)]) d d' -> Post (r ev) (tx_add t (w ev)) d') ->
  in_tx (sql_row OnTx (fun _ ev d => guarded (cs ev d) (Outcome [] (inr (Some (r ev))) [w ev])))
    t d Post.
Proof.
  intros Hab H. apply in_tx_row; [done|]. intros others tk x d' Htk o Ho.
  destruct (guarded_ok _ _ _ Ho) as [Eo Hc]. unfold o in *. rewrite Eo in Ho |- *.
  simpl in Ho. simplify_eq. intros Hr. by apply H.
Qed.

Lemma commits_err {A} e t d (Ok : A -> db -> db -> Prop) : commits (Ret (inl e)) t d Ok.
Proof. intros log. by left. Qed.

Lemma commits_ebind {A B} (p : prog (goerr + A)) (f : A -> prog (goerr + B)) t d P1 Ok :
  in_tx p t d P1 -> (forall a t' d', P1 a t' d' -> commits (f a) t' d' Ok) ->
  commits (ebind p f) t d Ok.
Proof.
  intros H Hf log. apply wp_ebind. apply H; [intros ???; by left|].
  intros a t' d' Ha. by apply (Hf _ _ _ Ha).
Qed.

Lemma commits_commit {A} pre (a : A) t d (Ok : A -> db -> db -> Prop) :
  tx_aborted t = false -> tx_writes t <> [] -> guar (tx_locks t) d (seen t d) ->
  Ok a d (seen t d) ->
  commits (ebind (wrap_err pre sql_commit) (fun _ => Ret (inr a))) t d Ok.
Proof.
  intros Hab Hws Hg Hok log. apply wp_ebind, wp_wrap_err.
  apply wp_sql_commit; try done; [intros ???; by left|intros ? ???; right; split; [done|]; by eauto 6|].
  intros d' _. simpl. eauto.
Qed.

(** BEGIN; defer ROLLBACK; ... COMMIT *)
Lemma wp_transaction {A} pre (body : prog (goerr + A)) log d (Ok : A -> db -> db -> Prop) :
  (forall now d', rely [] d d' -> commits body (tx_fresh now) d' Ok) ->
  wp (ebind (wrap_err pre sql_begin) (fun _ => defer_rollback body)) None log d
    (fun r tx log' _ => tx = None /\ tx_result tick_ok Ok log r log').
Proof.
  intros H. apply wp_ebind, wp_wrap_err. intros tk r tx' Htk. unfold begin_step.
  destruct (tk_fault tk); intros ? d' Hd'; simplify_eq/=; try (split; [done|by left]).
  apply wp_defer_rollback. eapply wp_mono; [by apply H|]. by intros.
Qed.
End in_tx.

(** ** Histories *)

Lemma chain_split d h1 a b h2 d' :
  chain d (h1 ++ (a, b) :: h2) d' -> chain d h1 a /\ chain b h2 d'.
Proof.
  revert d. induction h1 as [|[x y] h1 IH]; intros d; simpl.
  - by intros [-> ?].
  - intros [-> Hc]. destruct (IH _ Hc). done.
Qed.

(** The order of two changes made by different threads. *)
Lemma hist_order (hist : list (nat * (db * db))) d0 d i j c c' :
  chain d0 (snd <$> hist) d -> i <> j -> (i, c) ∈ hist -> (j, c') ∈ hist ->
  exists h1 h2 h3,
    (chain d0 h1 c.1 /\ chain c.2 h2 c'.1 /\ snd <$> hist = h1 ++ c :: h2 ++ c' :: h3) \/
    (chain d0 h1 c'.1 /\ chain c'.2 h2 c.1 /\ snd <$> hist = h1 ++ c' :: h2 ++ c :: h3).
Proof.
  intros Hc Hne [h1 [r ->]]%list_elem_of_split Hj.
  rewrite fmap_app, fmap_cons in Hc |- *. destruct c as [a b], c' as [a' b']. simpl in *.
  apply elem_of_app in Hj as [Hj|[Hj|Hj]%elem_of_cons]; [|congruence|].
  - apply list_elem_of_split in Hj as (l1 & l2 & ->). rewrite fmap_app, fmap_cons in Hc |- *.
    exists (snd <$> l1), (snd <$> l2), (snd <$> r). right. simpl in *. rewrite <- !app_assoc in Hc |- *.
    simpl in *. apply chain_split in Hc as [H1 H2]. apply chain_split in H2 as [H2 _]. done.
  - apply list_elem_of_split in Hj as (l1 & l2 & ->). rewrite fmap_app, fmap_cons in Hc |- *.
    exists (snd <$> h1), (snd <$> l1), (snd <$> l2). left. simpl in *.
    apply chain_split in Hc as [H1 H2]. apply chain_split in H2 as [H2 _]. done.
Qed.

(** ** The executable scheduler *)

Lemma pool_exec_steps {A} (tick_ok : db -> tick -> Prop) (schedule : list (nat * tick)) (P : pool A) :
  (forall d i tk, (i, tk) ∈ schedule -> tick_ok d tk) ->
  rtc (pool_step tick_ok) P (pool_exec P schedule).
Proof.
  revert P. induction schedule as [|[i tk] schedule IH]; intros P Hok; [done|].
  etransitivity; [|apply IH; intros; eapply Hok; by right].
  unfold pool_move. destruct P as [d ths hist]. simpl. destruct (ths !! i) as [th|] eqn:Ei; [|done].
  destruct (thread_step _ _ _ _) as [[[th' e] os]|] eqn:Es; [|done].
  apply rtc_once. eapply PoolStep; [done| |exact Es]. eapply Hok. left.
Qed.

(** Reading a thread's answer off an executed pool. *)
Definition ends_with {A} (P : pool A) (i : nat) (good : A -> bool) : bool :=
  match p_threads P !! i with
  | Some th => match th_prog th with Ret r => good r | _ => false end
  | None => false
  end.

Lemma ends_with_spec {A} (P : pool A) i good : ends_with P i good = true ->
  exists th r, p_threads P !! i = Some th /\ th_prog th = Ret r /\ good r = true.
Proof.
  unfold ends_with. destruct (p_threads P !! i) as [th|]; [|done].
  destruct (th_prog th) as [r| | | | | |] eqn:E; try done. by exists th, r.
Qed.
