(* ===== verification/Interfaces.v ===== *)
(** * The interfaces between packages

    ledger and auth depend on event delivery and on the audit trail only through
    [EventEnqueuer] and [AuditRecorder] (src/internal/ledger/events.go,
    src/internal/ledger/audit.go, src/internal/auth/audit.go). The classes
    [EventEnqueuerOk] and [AuditRecorderOk] state what an implementation
    promises: theorems about ledger and auth are proved against them, and
    webhook and audit discharge them. *)

From S2P Require Import Prelude GoBase Db Prog ProgFacts.

(** EnqueueEvent(ctx, tx, tenantID, eventType, payload). *)
Record EventEnqueuer := {
  EnqueueEvent : uuid -> string -> json -> prog (goerr + unit)
}.

(** RecordAudit(ctx, tx, tenantID, actorID, action, payload). *)
Record AuditRecorder := {
  RecordAudit : uuid -> string -> string -> json -> prog (goerr + unit)
}.

(** The outbox row of a new event: pending, never attempted, due at once. *)
Definition new_event_row (tenantID : uuid) (eventType : string) (payload : json) (now : time)
    : event_row :=
  EventRow tenantID eventType payload JobPending 0 now now None.

(** Inside an open transaction, enqueuing fails or adds exactly one fresh
    pending outbox row, and nothing else, to the writes of the transaction. *)
Class EventEnqueuerOk (E : EventEnqueuer) : Prop :=
  enqueue_event_ok : forall guar tick_ok tenantID eventType payload t d,
    tx_aborted t = false ->
    in_tx guar tick_ok (EnqueueEvent E tenantID eventType payload) t d (fun _ t' d' =>
      exists i, let w := WEvent i (new_event_row tenantID eventType payload (tx_start t)) in
        webhook_events (seen t d) !! i = None /\ t' = tx_add t w /\
        rely guar (tx_locks t ++ [lock_of w]) d d').

(** Likewise one fresh audit row. *)
Class AuditRecorderOk (R : AuditRecorder) : Prop :=
  record_audit_ok : forall guar tick_ok tenantID actorID action payload t d,
    tx_aborted t = false ->
    in_tx guar tick_ok (RecordAudit R tenantID actorID action payload) t d (fun _ t' d' =>
      exists i, let w := WAudit i (AuditRow tenantID action actorID payload (tx_start t)) in
        audit_log (seen t d) !! i = None /\ t' = tx_add t w /\
        rely guar (tx_locks t ++ [lock_of w]) d d').
