(* ===== verification/Queue.v ===== *)
(** * internal/queue: the PostgreSQL-backed job queue

    The storage mechanics behind the outbox (src/internal/queue). The only
    instance the program builds is the one over webhook_events and
    dead_letter_events, so the statements are about those two tables. *)

From S2P Require Import Prelude GoBase Db Prog.
Local Open Scope go_scope.

(** ** Construction *)

(** validIdentifier: ^[a-z_][a-z0-9_]*$ *)
Definition ident_start (c : Ascii.ascii) : bool :=
  let n := Ascii.nat_of_ascii c in ((97 <=? n) && (n <=? 122) || (n =? 95))%nat.

Definition ident_char (c : Ascii.ascii) : bool :=
  let n := Ascii.nat_of_ascii c in ident_start c || ((48 <=? n) && (n <=? 57))%nat.

Fixpoint all_chars (p : Ascii.ascii -> bool) (s : string) : bool :=
  match s with
  | EmptyString => true
  | String c s => p c && all_chars p s
  end.

Definition validIdentifier (s : string) : bool :=
  match s with
  | EmptyString => false
  | String c s => ident_start c && all_chars ident_char s
  end.

Record Repository := {
  queueTable : string;
  deadLetterTable : string
}.

(** NewRepository; [None] stands for the panic. *)
Definition NewRepository (queueTable deadLetterTable : string) : option Repository :=
  if negb (validIdentifier queueTable) then None
  else if negb (validIdentifier deadLetterTable) then None
  else Some {| queueTable := queueTable; deadLetterTable := deadLetterTable |}.

(** ** Jobs *)

Record Job := {
  job_ID : uuid;
  job_TenantID : uuid;
  job_JobType : string;
  job_Payload : json;
  job_Status : job_status;
  job_AttemptCount : Z;
  job_NextRetryAt : time;
  job_CreatedAt : time;
  job_LastError : option string
}.

Definition ErrJobNotFound : goerr := New "queue: job not found".

(** scanJob, scanJobRow *)
Definition scanJob (p : uuid * event_row) : Job :=
  let '(i, r) := p in
  {| job_ID := i; job_TenantID := ev_tenant_id r; job_JobType := ev_event_type r;
     job_Payload := ev_payload r; job_Status := ev_status r;
     job_AttemptCount := ev_attempt_count r; job_NextRetryAt := ev_next_retry_at r;
     job_CreatedAt := ev_created_at r; job_LastError := ev_last_error r |}.

(** ** Enqueue *)

Definition q_enqueue (tenantID : uuid) (jobType : string) (payload : json)
    : stmt (option (uuid * Z * time * time)) :=
  fun _ ev d =>
    guarded
      [ (negb (has_row (webhook_events d) (e_uuid ev)), UniqueViolation "webhook_events_pkey");
        (has_row (tenants d) tenantID, FkViolation "webhook_events_tenant_id_fkey") ]
      (Outcome [] (inr (Some (e_uuid ev, 0%Z, e_now ev, e_now ev)))
         [WEvent (e_uuid ev)
            (EventRow tenantID jobType payload JobPending 0 (e_now ev) (e_now ev) None)]).

Definition Enqueue (c : conn) (tenantID : uuid) (jobType : string) (payload : json)
    : prog (goerr + Job) :=
  let? (i, attempts, next, created) :=
    wrap_err "queue: enqueue: " (sql_row c (q_enqueue tenantID jobType payload)) in
  Ret (inr {| job_ID := i; job_TenantID := tenantID; job_JobType := jobType;
              job_Payload := payload; job_Status := JobPending; job_AttemptCount := attempts;
              job_NextRetryAt := next; job_CreatedAt := created; job_LastError := None |}).

(** ** ClaimPending *)

Definition next_retry_le (p q : uuid * event_row) : Prop :=
  (ev_next_retry_at p.2 <= ev_next_retry_at q.2)%Z.
#[export] Instance next_retry_le_dec : RelDecision next_retry_le.
Proof. unfold next_retry_le. solve_decision. Defined.

Definition set_status (s : job_status) (r : event_row) : event_row :=
  EventRow (ev_tenant_id r) (ev_event_type r) (ev_payload r) s (ev_attempt_count r)
    (ev_next_retry_at r) (ev_created_at r) (ev_last_error r).

(** The subquery: due pending rows, earliest first, those locked by another
    transaction skipped (SKIP LOCKED), at most [limit] of them. *)
Definition claimable (others : list lock) (now : time) (limit : nat) (d : db)
    : list (uuid * event_row) :=
  take limit
    (filter (fun p => LRow T_webhook_events p.1 ∉ others)
       (merge_sort next_retry_le
          (filter (fun p => ev_status p.2 = JobPending /\ (ev_next_retry_at p.2 <= now)%Z)
             (map_to_list (webhook_events d))))).

Definition q_claim_pending (limit : nat) : stmt (list (uuid * event_row)) :=
  fun others ev d =>
    let rows := (fun p => (p.1, set_status JobProcessing p.2))
                  <$> claimable others (e_now ev) limit d in
    Outcome [] (inr rows) ((fun p => WEvent p.1 p.2) <$> rows).

Definition ClaimPending (limit : nat) : prog (goerr + list Job) :=
  let? rows := wrap_err "queue: claim pending: " (sql_exec OnTx (q_claim_pending limit)) in
  Ret (inr (scanJob <$> rows)).

(** ** Get *)

Definition q_get_job (tenantID jobID : uuid) : stmt (option (uuid * event_row)) :=
  select (fun d =>
    match webhook_events d !! jobID with
    | Some r => if decide (ev_tenant_id r = tenantID) then Some (jobID, r) else None
    | None => None
    end).

Definition Get (c : conn) (tenantID jobID : uuid) : prog (goerr + Job) :=
  let* r := sql_row c (q_get_job tenantID jobID) in
  match r with
  | inl e => if errors_Is e ErrNoRows then Ret (inl ErrJobNotFound)
             else Ret (inl (Wrap "queue: get: " e ""))
  | inr p => Ret (inr (scanJob p))
  end.

(** ** Outcomes of a delivery *)

(** UPDATE ... WHERE id = $1: the row keeps its other columns; no row, no write. *)
Definition update_event (jobID : uuid) (f : event_row -> event_row) (d : db) : list write :=
  match webhook_events d !! jobID with
  | Some r => [WEvent jobID (f r)]
  | None => []
  end.

Definition q_mark_delivered (jobID : uuid) : stmt unit :=
  fun _ _ d => Outcome [] (inr tt) (update_event jobID (set_status JobDelivered) d).

Definition MarkDelivered (c : conn) (jobID : uuid) : prog (goerr + unit) :=
  wrap_err "queue: mark delivered: " (sql_exec c (q_mark_delivered jobID)).

Definition retry_row (attemptCount : Z) (nextRetryAt : time) (lastError : string) (r : event_row)
    : event_row :=
  EventRow (ev_tenant_id r) (ev_event_type r) (ev_payload r) JobPending attemptCount
    nextRetryAt (ev_created_at r) (Some lastError).

Definition q_schedule_retry (jobID : uuid) (attemptCount : Z) (nextRetryAt : time)
    (lastError : string) : stmt unit :=
  fun _ _ d => Outcome [] (inr tt)
    (update_event jobID (retry_row attemptCount nextRetryAt lastError) d).

Definition ScheduleRetry `{PgTime} (c : conn) (jobID : uuid) (attemptCount : Z) (nextRetryAt : time)
    (lastError : string) : prog (goerr + unit) :=
  wrap_err "queue: schedule retry: "
    (sql_exec c (q_schedule_retry jobID attemptCount (pg_time nextRetryAt) lastError)).

Definition q_insert_dead_letter (job : Job) (lastError : string) : stmt unit :=
  fun _ ev d =>
    guarded
      [ (negb (has_row (dead_letter_events d) (e_uuid ev)),
           UniqueViolation "dead_letter_events_pkey");
        (has_row (tenants d) (job_TenantID job), FkViolation "dead_letter_events_tenant_id_fkey") ]
      (Outcome [] (inr tt)
         [WDeadLetter (e_uuid ev)
            (DeadLetterRow (job_TenantID job) (job_ID job) (job_JobType job) (job_Payload job)
               (job_AttemptCount job) (Some lastError) (e_now ev))]).

Definition failed_row (lastError : string) (r : event_row) : event_row :=
  EventRow (ev_tenant_id r) (ev_event_type r) (ev_payload r) JobFailed (ev_attempt_count r)
    (ev_next_retry_at r) (ev_created_at r) (Some lastError).

Definition q_mark_failed (jobID : uuid) (lastError : string) : stmt unit :=
  fun _ _ d => Outcome [] (inr tt) (update_event jobID (failed_row lastError) d).

Definition MoveToDeadLetter (job : Job) (lastError : string) : prog (goerr + unit) :=
  let? _ := wrap_err "queue: insert dead letter job: "
              (sql_exec OnTx (q_insert_dead_letter job lastError)) in
  wrap_err "queue: mark original job failed: "
    (sql_exec OnTx (q_mark_failed (job_ID job) lastError)).
