(* ===== verification/Metrics.v ===== *)
(** * internal/metrics: the Prometheus collectors

    src/internal/metrics/metrics.go: what is measured. A collector is a name with
    its label names; promauto registers each at package init and panics on a name
    that is taken or not valid, and WithLabelValues panics on a wrong number of
    values. *)

From S2P Require Import Prelude GoBase Db Prog.
From S2P Require Import Queue.
Local Open Scope go_scope.

(** prometheus.CounterVec and HistogramVec; a plain Counter has no labels. *)
Inductive collector_kind := Counter | Histogram.

Record collector := Collector {
  col_kind : collector_kind;
  col_Name : string;
  col_Help : string;
  col_labels : list string
}.

Definition HTTPRequestsTotal : collector :=
  Collector Counter "transacta_http_requests_total"
    "Total HTTP requests, labeled by method, route pattern, and status code."
    ["method"; "route"; "status"].

Definition HTTPRequestDuration : collector :=
  Collector Histogram "transacta_http_request_duration_seconds"
    "HTTP request latency in seconds, labeled by method and route pattern."
    ["method"; "route"].

Definition WebhookDeliveredTotal : collector :=
  Collector Counter "transacta_webhook_delivered_total" "Total webhook events successfully delivered." [].

Definition WebhookRetriedTotal : collector :=
  Collector Counter "transacta_webhook_retried_total"
    "Total webhook delivery attempts that failed and were scheduled for retry." [].

Definition WebhookDeadLetteredTotal : collector :=
  Collector Counter "transacta_webhook_dead_lettered_total"
    "Total webhook events that exhausted all retry attempts and were moved to dead_letter_events." [].

Definition WebhookSkippedNoEndpointTotal : collector :=
  Collector Counter "transacta_webhook_skipped_no_endpoint_total"
    "Total webhook events skipped because the tenant has no configured delivery endpoint." [].

(** What promauto registers with the default registry. *)
Definition registered : list collector :=
  [ HTTPRequestsTotal; HTTPRequestDuration; WebhookDeliveredTotal; WebhookRetriedTotal;
    WebhookDeadLetteredTotal; WebhookSkippedNoEndpointTotal ].

(** WithLabelValues; [None] stands for its panic. *)
Definition WithLabelValues (c : collector) (values : list string) : option obs :=
  if decide (length values = length (col_labels c))
  then Some (OMetric (col_Name c) (zip (col_labels c) values)) else None.

(** Inc of a plain counter. *)
Definition Inc (c : collector) : prog unit := emit (OMetric (col_Name c) []).

(** ** Facts *)

(** Package init does not panic: the names are distinct and valid (lower-case
    identifiers), as are the
    label names of each collector. *)
Lemma registration_ok :
  NoDup (col_Name <$> registered) /\
  Forall (fun c => validIdentifier (col_Name c) = true /\ NoDup (col_labels c) /\
    Forall (fun l => validIdentifier l = true) (col_labels c)) registered.
Proof.
  split; [by apply (bool_decide_unpack _); vm_compute|].
  repeat constructor; try (by vm_compute); apply (bool_decide_unpack _); by vm_compute.
Qed.

(** The numbers of labels fit. *)
Lemma requests_labelled method route status :
  WithLabelValues HTTPRequestsTotal [method; route; status] =
    Some (OMetric "transacta_http_requests_total" [("method", method); ("route", route); ("status", status)]%string).
Proof. reflexivity. Qed.

Lemma duration_labelled method route :
  WithLabelValues HTTPRequestDuration [method; route] =
    Some (OMetric "transacta_http_request_duration_seconds" [("method", method); ("route", route)]%string).
Proof. reflexivity. Qed.
