(* ===== verification/AuditLog.v ===== *)
(** * internal/audit: the append-only audit trail (src/internal/audit) *)

From S2P Require Import Prelude GoBase Db Prog Interfaces.
Local Open Scope go_scope.

(** One row of audit_log as the API shows it. *)
Record Entry := {
  aud_ID : uuid;
  aud_TenantID : uuid;
  aud_Action : string;
  aud_ActorID : string;
  aud_Payload : json;
  aud_CreatedAt : time
}.

Definition q_record_audit (tenantID : uuid) (actorID action : string) (payload : json)
    : stmt unit :=
  fun _ ev d =>
    guarded
      [ (negb (has_row (audit_log d) (e_uuid ev)), UniqueViolation "audit_log_pkey");
        (has_row (tenants d) tenantID, FkViolation "audit_log_tenant_id_fkey") ]
      (Outcome [] (inr tt)
         [WAudit (e_uuid ev) (AuditRow tenantID action actorID payload (e_now ev))]).

(** Repository.RecordAudit *)
Definition repo_RecordAudit (tenantID : uuid) (actorID action : string) (payload : json)
    : prog (goerr + unit) :=
  wrap_err "audit: record: " (sql_exec OnTx (q_record_audit tenantID actorID action payload)).

(** audit.Repository as an AuditRecorder. *)
Definition Recorder : AuditRecorder := {| RecordAudit := repo_RecordAudit |}.

Definition created_ge (p q : uuid * audit_row) : Prop :=
  (au_created_at q.2 <= au_created_at p.2)%Z.
#[export] Instance created_ge_dec : RelDecision created_ge.
Proof. unfold created_ge. solve_decision. Defined.

(** WHERE tenant_id = $1 ORDER BY created_at DESC LIMIT $2 *)
Definition q_list (tenantID : uuid) (limit : nat) : stmt (list (uuid * audit_row)) :=
  select (fun d =>
    take limit (merge_sort created_ge
      (filter (fun p => au_tenant_id p.2 = tenantID) (map_to_list (audit_log d))))).

(** The cap List puts on its limit. *)
Definition effective_limit (limit : Z) : Z :=
  if (limit <=? 0)%Z || (200 <? limit)%Z then 200%Z else limit.

Definition scan_entry (p : uuid * audit_row) : Entry :=
  let '(i, r) := p in
  {| aud_ID := i; aud_TenantID := au_tenant_id r; aud_Action := au_action r;
     aud_ActorID := au_actor_id r; aud_Payload := au_payload r;
     aud_CreatedAt := au_created_at r |}.

(** Repository.List *)
Definition List (tenantID : uuid) (limit : Z) : prog (goerr + list Entry) :=
  let? rows := wrap_err "audit: list: "
                 (sql_exec OnDb (q_list tenantID (Z.to_nat (effective_limit limit)))) in
  Ret (inr (scan_entry <$> rows)).
