(* ===== verification/Ledger.v ===== *)
(** * internal/ledger: accounts, transactions, entries

    The transaction engine (src/internal/ledger): the domain types of models.go,
    the repository's statements, and every method of Service. *)

From S2P Require Import Prelude GoBase Db Prog Interfaces.
Local Open Scope go_scope.

(** ** models.go *)

Record Account := {
  acc_ID : uuid;
  acc_TenantID : uuid;
  acc_Name : string;
  acc_CreatedAt : time;
  acc_Balance : Z
}.

Record Transaction := {
  txn_ID : uuid;
  txn_TenantID : uuid;
  txn_Status : txn_status;
  txn_CreatedAt : time
}.

Record Entry := {
  ent_ID : uuid;
  ent_TenantID : uuid;
  ent_TransactionID : uuid;
  ent_AccountID : uuid;
  ent_AmountMinor : Z;
  ent_CreatedAt : time
}.

Record EntryInput := {
  in_AccountID : uuid;
  in_AmountMinor : Z
}.

(** The text of a Status. *)
Definition status_text (s : txn_status) : string :=
  match s with
  | StatusPending => "pending"
  | StatusPosted => "posted"
  | StatusFailed => "failed"
  end.

(** Sum, on Money = int64. *)
Definition Sum (entries : list EntryInput) : Z :=
  foldl (fun total e => add64 total (in_AmountMinor e)) 0%Z entries.

(** ** errors.go *)

Definition ErrUnbalancedEntries : goerr := New "ledger: entries must sum to zero".
Definition ErrEmptyEntries : goerr := New "ledger: transaction requires at least two entries".
Definition ErrZeroAmountEntry : goerr := New "ledger: entry amount must be nonzero".
Definition ErrAccountNotFound : goerr := New "ledger: account not found".
Definition ErrInsufficientFunds : goerr := New "ledger: insufficient funds".
Definition ErrTransactionNotFound : goerr := New "ledger: transaction not found".
Definition ErrTransactionNotPending : goerr := New "ledger: transaction is not pending".
Definition ErrStatusConflict : goerr :=
  New "ledger: status changed concurrently, reload and retry".

(** ** Statements of repository.go *)

(** The join condition [t.id = e.transaction_id AND t.status = 'posted']. *)
Definition is_posted (d : db) (t : uuid) : Prop :=
  tr_status <$> transactions d !! t = Some StatusPosted.

#[export] Instance is_posted_dec d t : Decision (is_posted d t).
Proof. unfold is_posted. solve_decision. Defined.

(** SUM(e.amount_minor) over the posted entries of account [a] (a NUMERIC). *)
Definition posted_sum (d : db) (a : uuid) : Z :=
  map_sumZ (fun p => whenZ (en_account_id p.2 = a /\ is_posted d (en_transaction_id p.2))
                       (en_amount_minor p.2)) (entries d).

Definition q_create_account (tenantID : uuid) (name : string) : stmt (option (uuid * time)) :=
  fun _ ev d =>
    guarded
      [ (negb (has_row (accounts d) (e_uuid ev)), UniqueViolation "accounts_pkey");
        (has_row (tenants d) tenantID, FkViolation "accounts_tenant_id_fkey") ]
      (Outcome [] (inr (Some (e_uuid ev, e_now ev)))
         [WAccount (e_uuid ev) (AccountRow tenantID name (e_now ev))]).

Definition q_get_account (tenantID id : uuid) : stmt (option (uuid * account_row * Z)) :=
  select (fun d =>
    match accounts d !! id with
    | Some r => if decide (ac_tenant_id r = tenantID) then Some (id, r, posted_sum d id) else None
    | None => None
    end).

Definition id_le (p q : uuid * account_row) : Prop := (p.1 <= q.1)%N.
#[export] Instance id_le_dec : RelDecision id_le.
Proof. unfold id_le. solve_decision. Defined.

Definition q_insert_transaction (tenantID : uuid) (status : txn_status)
    : stmt (option (uuid * time)) :=
  fun _ ev d =>
    guarded
      [ (negb (has_row (transactions d) (e_uuid ev)), UniqueViolation "transactions_pkey");
        (has_row (tenants d) tenantID, FkViolation "transactions_tenant_id_fkey") ]
      (Outcome [] (inr (Some (e_uuid ev, e_now ev)))
         [WTransaction (e_uuid ev) (TransactionRow tenantID status (e_now ev))]).

Definition q_insert_entry (tenantID txnID accountID : uuid) (amount : Z)
    : stmt (option (uuid * time)) :=
  fun _ ev d =>
    guarded
      [ (negb (amount =? 0)%Z, CheckViolation "chk_entry_amount_nonzero");
        (negb (has_row (entries d) (e_uuid ev)), UniqueViolation "entries_pkey");
        (has_row (tenants d) tenantID, FkViolation "entries_tenant_id_fkey");
        (has_row (transactions d) txnID, FkViolation "entries_transaction_id_fkey");
        (has_row (accounts d) accountID, FkViolation "entries_account_id_fkey") ]
      (Outcome [] (inr (Some (e_uuid ev, e_now ev)))
         [WEntry (e_uuid ev) (EntryRow tenantID txnID accountID amount (e_now ev))]).

Definition q_get_transaction (tenantID id : uuid) : stmt (option (uuid * transaction_row)) :=
  select (fun d =>
    match transactions d !! id with
    | Some r => if decide (tr_tenant_id r = tenantID) then Some (id, r) else None
    | None => None
    end).

Definition entry_created_le (p q : uuid * entry_row) : Prop :=
  (en_created_at p.2 <= en_created_at q.2)%Z.
#[export] Instance entry_created_le_dec : RelDecision entry_created_le.
Proof. unfold entry_created_le. solve_decision. Defined.

(** ORDER BY created_at: rows of one transaction carry the same created_at, so
    PostgreSQL may return them in any order; this is one of them. *)
Definition q_get_entries (tenantID id : uuid) : stmt (list (uuid * entry_row)) :=
  select (fun d =>
    merge_sort entry_created_le
      (filter (fun p => en_transaction_id p.2 = id /\ en_tenant_id p.2 = tenantID)
         (map_to_list (entries d)))).

(** The guarded UPDATE; its result is RowsAffected(). *)
Definition q_update_status (tenantID id : uuid) (expected new : txn_status) : stmt Z :=
  fun _ _ d =>
    match transactions d !! id with
    | Some r =>
        if decide (tr_tenant_id r = tenantID /\ tr_status r = expected)
        then Outcome [] (inr 1%Z)
               [WTransaction id (TransactionRow (tr_tenant_id r) new (tr_created_at r))]
        else Outcome [] (inr 0%Z) []
    | None => Outcome [] (inr 0%Z) []
    end.

Definition q_get_status (tenantID id : uuid) : stmt (option txn_status) :=
  select (fun d =>
    match transactions d !! id with
    | Some r => if decide (tr_tenant_id r = tenantID) then Some (tr_status r) else None
    | None => None
    end).

(** ** Repository *)

(** Repository.CreateAccount *)
Definition repo_CreateAccount (tenantID : uuid) (name : string) : prog (goerr + Account) :=
  let? (i, created) := wrap_err "ledger: create account: "
                         (sql_row OnTx (q_create_account tenantID name)) in
  Ret (inr {| acc_ID := i; acc_TenantID := tenantID; acc_Name := name;
              acc_CreatedAt := created; acc_Balance := 0 |}).

(** Repository.GetAccount: the balance is scanned into an int64. *)
Definition repo_GetAccount (c : conn) (tenantID id : uuid) : prog (goerr + Account) :=
  let* r := sql_row c (q_get_account tenantID id) in
  match r with
  | inl e => if errors_Is e ErrNoRows then Ret (inl ErrAccountNotFound)
             else Ret (inl (Wrap "ledger: get account: " e ""))
  | inr (i, row, balance) =>
      if fits64 balance
      then Ret (inr {| acc_ID := i; acc_TenantID := ac_tenant_id row; acc_Name := ac_name row;
                       acc_CreatedAt := ac_created_at row; acc_Balance := balance |})
      else Ret (inl (Wrap "ledger: get account: " (ScanRange balance) ""))
  end.

(** Repository.GetTransaction *)
Definition repo_GetTransaction (c : conn) (tenantID id : uuid)
    : prog (goerr + (Transaction * list Entry)) :=
  let* r := sql_row c (q_get_transaction tenantID id) in
  match r with
  | inl e => if errors_Is e ErrNoRows then Ret (inl ErrTransactionNotFound)
             else Ret (inl (Wrap "ledger: get transaction: " e ""))
  | inr (i, row) =>
      let? rows := wrap_err "ledger: get entries: " (sql_exec c (q_get_entries tenantID id)) in
      Ret (inr ({| txn_ID := i; txn_TenantID := tr_tenant_id row; txn_Status := tr_status row;
                   txn_CreatedAt := tr_created_at row |},
                (fun p => {| ent_ID := p.1; ent_TenantID := en_tenant_id p.2;
                             ent_TransactionID := en_transaction_id p.2;
                             ent_AccountID := en_account_id p.2;
                             ent_AmountMinor := en_amount_minor p.2;
                             ent_CreatedAt := en_created_at p.2 |}) <$> rows))
  end.

(** The INSERT loop of InsertTransactionWithEntries. *)
Fixpoint insert_entries (tenantID txnID : uuid) (entries : list EntryInput)
    : prog (goerr + list Entry) :=
  match entries with
  | [] => Ret (inr [])
  | e :: es =>
      let? (i, created) := wrap_err "ledger: insert entry: "
        (sql_row OnTx (q_insert_entry tenantID txnID (in_AccountID e) (in_AmountMinor e))) in
      let? rows := insert_entries tenantID txnID es in
      Ret (inr ({| ent_ID := i; ent_TenantID := tenantID; ent_TransactionID := txnID;
                   ent_AccountID := in_AccountID e; ent_AmountMinor := in_AmountMinor e;
                   ent_CreatedAt := created |} :: rows))
  end.

(** Repository.InsertTransactionWithEntries *)
Definition InsertTransactionWithEntries (tenantID : uuid) (status : txn_status)
    (entries : list EntryInput) : prog (goerr + (Transaction * list Entry)) :=
  let? (i, created) := wrap_err "ledger: insert transaction: "
                         (sql_row OnTx (q_insert_transaction tenantID status)) in
  let? rows := insert_entries tenantID i entries in
  Ret (inr ({| txn_ID := i; txn_TenantID := tenantID; txn_Status := status;
               txn_CreatedAt := created |}, rows)).

(** Repository.UpdateTransactionStatusGuarded. The Go variable [status] is the
    empty string when the second query fails, hence [None] below. *)
Definition UpdateTransactionStatusGuarded (tenantID id : uuid) (expectedStatus newStatus : txn_status)
    : prog (goerr + unit) :=
  let? n := wrap_err "ledger: update transaction status: "
              (sql_exec OnTx (q_update_status tenantID id expectedStatus newStatus)) in
  if decide (n = 0%Z) then
    let* check := sql_row OnTx (q_get_status tenantID id) in
    let not_found := match check with inl e => errors_Is e ErrNoRows | inr _ => false end in
    let status := match check with inl _ => None | inr s => Some s end in
    if not_found then Ret (inl ErrTransactionNotFound)
    else if decide (status <> Some expectedStatus) then
      if decide (expectedStatus = StatusPending) then Ret (inl ErrTransactionNotPending)
      else Ret (inl ErrStatusConflict)
    else Ret (inl ErrStatusConflict)
  else Ret (inr tt).

(** ** service.go *)

(** What NewService and its options configure; [None] is a nil interface. *)
Record Service := {
  svc_events : option EventEnqueuer;
  svc_audit : option AuditRecorder
}.

Record TransferRequest := {
  req_TenantID : uuid;
  req_Entries : list EntryInput;
  req_ActorID : string
}.

(** The option functions and NewService. *)
Definition Option : Type := Service -> Service.
Definition WithEventEnqueuer (e : EventEnqueuer) : Option :=
  fun s => {| svc_events := Some e; svc_audit := svc_audit s |}.
Definition WithAuditRecorder (a : AuditRecorder) : Option :=
  fun s => {| svc_events := svc_events s; svc_audit := Some a |}.
Definition NewService (opts : list Option) : Service :=
  foldl (fun s opt => opt s) {| svc_events := None; svc_audit := None |} opts.

(** validateEntries; [None] is a nil error. *)
Definition validateEntries (entries : list EntryInput) : option goerr :=
  if decide (length entries < 2)%nat then Some ErrEmptyEntries
  else if existsb (fun e => in_AmountMinor e =? 0)%Z entries then Some ErrZeroAmountEntry
  else if negb (Sum entries =? 0)%Z then Some ErrUnbalancedEntries
  else None.

(** uniqueAccountIDs: [seen] is the Go map, [ids] the slice. *)
Definition uniqueAccountIDs (entries : list EntryInput) : list uuid :=
  snd (foldl (fun '(seen, ids) e =>
         if decide (in_AccountID e ∈ seen) then (seen, ids)
         else ({[in_AccountID e]} ∪ seen, ids ++ [in_AccountID e]))
       ((∅ : gset uuid), []) entries).

(** The [projected] map: the balances read, then every leg added in int64. A key
    the map lacks reads as zero. *)
Definition project (balances : gmap uuid Z) (legs : list (uuid * Z)) : gmap uuid Z :=
  foldl (fun m '(a, amount) => <[a := add64 (default 0%Z (m !! a)) amount]> m) balances legs.

(** The first account [for id, bal := range projected] finds negative (Go's map
    order is unspecified; any negative account will do for the error). *)
Definition first_negative (projected : gmap uuid Z) : option uuid :=
  fst <$> head (filter (fun p => (p.2 < 0)%Z) (map_to_list projected)).

Definition input_legs (entries : list EntryInput) : list (uuid * Z) :=
  (fun e => (in_AccountID e, in_AmountMinor e)) <$> entries.
Definition entry_legs (entries : list Entry) : list (uuid * Z) :=
  (fun e => (ent_AccountID e, ent_AmountMinor e)) <$> entries.

(** Audit action and event vocabulary (audit.go, events.go). *)
Definition AuditAccountCreated := "account.created"%string.
Definition AuditTransactionTransferred := "transaction.transferred"%string.
Definition AuditTransactionPendingCreated := "transaction.pending_created"%string.
Definition AuditTransactionPosted := "transaction.posted"%string.
Definition AuditTransactionFailed := "transaction.failed"%string.
Definition EventTransactionPosted := "transaction.posted"%string.
Definition EventTransactionPending := "transaction.pending"%string.
Definition EventTransactionFailed := "transaction.failed"%string.

Section Service.
Context `{UuidLib}.

(** SELECT ... FROM accounts WHERE id = ANY($1) AND tenant_id = $2 ORDER BY id
    FOR UPDATE: the selected rows stay locked. *)
Definition q_lock_accounts (idStrings : list string) (tenantID : uuid)
    : stmt (list (uuid * account_row)) :=
  fun _ _ d =>
    let rows := merge_sort id_le
      (filter (fun p => uuid_String p.1 ∈ idStrings /\ ac_tenant_id p.2 = tenantID)
         (map_to_list (accounts d))) in
    Outcome ((fun p => LRow T_accounts p.1) <$> rows) (inr rows) [].

(** SELECT e.account_id, COALESCE(SUM(e.amount_minor), 0) ... GROUP BY
    e.account_id: one row per account with a posted entry. *)
Definition posted_accounts (d : db) : gset uuid :=
  list_to_set ((fun p => en_account_id p.2) <$>
    filter (fun p => is_posted d (en_transaction_id p.2)) (map_to_list (entries d))).

Definition q_sum_balances (idStrings : list string) : stmt (list (uuid * Z)) :=
  select (fun d =>
    (fun a => (a, posted_sum d a)) <$>
      filter (fun a => uuid_String a ∈ idStrings) (elements (posted_accounts d))).

Definition uuidsToStrings (ids : list uuid) : list string := uuid_String <$> ids.

(** The scan loop over the balance rows. *)
Fixpoint scan_sums (rows : list (uuid * Z)) (out : gmap uuid Account)
    : goerr + gmap uuid Account :=
  match rows with
  | [] => inr out
  | (accID, sum) :: rows =>
      if fits64 sum then
        scan_sums rows
          (alter (fun a => {| acc_ID := acc_ID a; acc_TenantID := acc_TenantID a;
                              acc_Name := acc_Name a; acc_CreatedAt := acc_CreatedAt a;
                              acc_Balance := sum |}) accID out)
      else inl (Wrap "ledger: scan balance sum: " (ScanRange sum) "")
  end.

Definition account_of_row (p : uuid * account_row) : Account :=
  {| acc_ID := p.1; acc_TenantID := ac_tenant_id p.2; acc_Name := ac_name p.2;
     acc_CreatedAt := ac_created_at p.2; acc_Balance := 0 |}.

(** Repository.LockAccountsForUpdate *)
Definition LockAccountsForUpdate (tenantID : uuid) (ids : list uuid)
    : prog (goerr + gmap uuid Account) :=
  match ids with
  | [] => Ret (inr ∅)
  | _ =>
      let sorted := merge_sort uuid_text_le ids in
      let idStrings := uuidsToStrings sorted in
      let? rows := wrap_err "ledger: lock accounts: "
                     (sql_exec OnTx (q_lock_accounts idStrings tenantID)) in
      let out : gmap uuid Account :=
        list_to_map ((fun p => (p.1, account_of_row p)) <$> rows) in
      match head (filter (fun i => out !! i = None) sorted) with
      | Some i => Ret (inl (Wrap "" ErrAccountNotFound (": " +:+ uuid_String i)))
      | None =>
          let? sums := wrap_err "ledger: sum balances: "
                         (sql_exec OnTx (q_sum_balances idStrings)) in
          Ret (scan_sums sums out)
      end
  end.

(** *** Events and audit payloads *)

Definition transactionEventJSON (txn : Transaction) : json :=
  JObject [("transaction_id", JString (uuid_String (txn_ID txn)));
           ("status", JString (status_text (txn_Status txn)))].

(** The keys of a map[string]any are encoded in sorted order. *)
Definition transferAuditPayload (txn : Transaction) (entries : list EntryInput) : json :=
  JObject [("entries", JArray ((fun e =>
              JObject [("account_id", JString (uuid_String (in_AccountID e)));
                       ("amount_minor", JNumber (in_AmountMinor e))]) <$> entries));
           ("status", JString (status_text (txn_Status txn)));
           ("transaction_id", JString (uuid_String (txn_ID txn)))].

Definition statusChangeAuditPayload (txn : Transaction) : json :=
  JObject [("status", JString (status_text (txn_Status txn)));
           ("transaction_id", JString (uuid_String (txn_ID txn)))].

Definition emitEvent (s : Service) (tenantID : uuid) (eventType : string) (txn : Transaction)
    : prog (goerr + unit) :=
  match svc_events s with
  | None => Ret (inr tt)
  | Some e => wrap_err "ledger: enqueue event: "
                (EnqueueEvent e tenantID eventType (transactionEventJSON txn))
  end.

Definition recordAudit (s : Service) (tenantID : uuid) (actorID action : string) (payload : json)
    : prog (goerr + unit) :=
  match svc_audit s with
  | None => Ret (inr tt)
  | Some a => RecordAudit a tenantID actorID action payload
  end.

(** *** The use cases *)

Definition ExecuteTransfer (s : Service) (req : TransferRequest)
    : prog (goerr + (Transaction * list Entry)) :=
  match validateEntries (req_Entries req) with
  | Some e => Ret (inl e)
  | None =>
      let? _ := wrap_err "ledger: begin tx: " sql_begin in
      defer_rollback (
        let accountIDs := uniqueAccountIDs (req_Entries req) in
        let? accounts := LockAccountsForUpdate (req_TenantID req) accountIDs in
        let projected := project (acc_Balance <$> accounts) (input_legs (req_Entries req)) in
        match first_negative projected with
        | Some i => Ret (inl (Wrap "" ErrInsufficientFunds (": account " +:+ uuid_String i)))
        | None =>
            let? (txn, entries) :=
              InsertTransactionWithEntries (req_TenantID req) StatusPosted (req_Entries req) in
            let? _ := emitEvent s (req_TenantID req) EventTransactionPosted txn in
            let? _ := wrap_err "ledger: record audit: "
              (recordAudit s (req_TenantID req) (req_ActorID req) AuditTransactionTransferred
                 (transferAuditPayload txn (req_Entries req))) in
            let? _ := wrap_err "ledger: commit transfer: " sql_commit in
            Ret (inr (txn, entries))
        end)
  end.

Definition CreatePendingTransaction (s : Service) (req : TransferRequest)
    : prog (goerr + (Transaction * list Entry)) :=
  match validateEntries (req_Entries req) with
  | Some e => Ret (inl e)
  | None =>
      let? _ := wrap_err "ledger: begin tx: " sql_begin in
      defer_rollback (
        let? (txn, entries) :=
          InsertTransactionWithEntries (req_TenantID req) StatusPending (req_Entries req) in
        let? _ := emitEvent s (req_TenantID req) EventTransactionPending txn in
        let? _ := wrap_err "ledger: record audit: "
          (recordAudit s (req_TenantID req) (req_ActorID req) AuditTransactionPendingCreated
             (transferAuditPayload txn (req_Entries req))) in
        let? _ := wrap_err "ledger: commit pending transaction: " sql_commit in
        Ret (inr (txn, entries)))
  end.

(** [txn.Status = status] *)
Definition with_status (txn : Transaction) (st : txn_status) : Transaction :=
  {| txn_ID := txn_ID txn; txn_TenantID := txn_TenantID txn; txn_Status := st;
     txn_CreatedAt := txn_CreatedAt txn |}.

Definition PostPendingTransaction (s : Service) (tenantID id : uuid) (actorID : string)
    : prog (goerr + Transaction) :=
  let? _ := wrap_err "ledger: begin tx: " sql_begin in
  defer_rollback (
    let? (txn, entries) := repo_GetTransaction OnTx tenantID id in
    if decide (txn_Status txn <> StatusPending) then Ret (inl ErrTransactionNotPending) else
    let accountIDs := ent_AccountID <$> entries in
    let? accounts := LockAccountsForUpdate tenantID accountIDs in
    let projected := project (acc_Balance <$> accounts) (entry_legs entries) in
    match first_negative projected with
    | Some i => Ret (inl (Wrap "" ErrInsufficientFunds (": account " +:+ uuid_String i)))
    | None =>
        let? _ := UpdateTransactionStatusGuarded tenantID (txn_ID txn) StatusPending StatusPosted in
        let txn := with_status txn StatusPosted in
        let? _ := emitEvent s tenantID EventTransactionPosted txn in
        let? _ := wrap_err "ledger: record audit: "
          (recordAudit s tenantID actorID AuditTransactionPosted
             (statusChangeAuditPayload txn)) in
        let? _ := wrap_err "ledger: commit post: " sql_commit in
        Ret (inr txn)
    end).

Definition FailPendingTransaction (s : Service) (tenantID id : uuid) (actorID : string)
    : prog (goerr + Transaction) :=
  let? _ := wrap_err "ledger: begin tx: " sql_begin in
  defer_rollback (
    let? (txn, entries) := repo_GetTransaction OnTx tenantID id in
    if decide (txn_Status txn <> StatusPending) then Ret (inl ErrTransactionNotPending) else
    let? _ := UpdateTransactionStatusGuarded tenantID (txn_ID txn) StatusPending StatusFailed in
    let txn := with_status txn StatusFailed in
    let? _ := emitEvent s tenantID EventTransactionFailed txn in
    let? _ := wrap_err "ledger: record audit: "
      (recordAudit s tenantID actorID AuditTransactionFailed (statusChangeAuditPayload txn)) in
    let? _ := wrap_err "ledger: commit fail: " sql_commit in
    Ret (inr txn)).

Definition CreateAccount (s : Service) (tenantID : uuid) (name actorID : string)
    : prog (goerr + Account) :=
  let? _ := wrap_err "ledger: begin tx: " sql_begin in
  defer_rollback (
    let? account := repo_CreateAccount tenantID name in
    let? _ := wrap_err "ledger: record audit: "
      (recordAudit s tenantID actorID AuditAccountCreated
         (JObject [("account_id", JString (uuid_String (acc_ID account)));
                   ("name", JString (acc_Name account))])) in
    let? _ := wrap_err "ledger: commit create account: " sql_commit in
    Ret (inr account)).

(** The read-only passthroughs. *)
Definition GetTransaction (tenantID id : uuid) : prog (goerr + (Transaction * list Entry)) :=
  repo_GetTransaction OnDb tenantID id.
Definition GetAccount (tenantID id : uuid) : prog (goerr + Account) :=
  repo_GetAccount OnDb tenantID id.
End Service.
