(* ===== verification/LedgerSpec.v ===== *)
(** * What the ledger promises: the atomic effect of each operation

    Each use case of ledger.Service is specified by the single change it makes
    to the database at its commit: [transfer_effect], [pending_effect],
    [post_effect], [fail_effect], [account_effect]. [ledger_step] is their union,
    the abstract machine that every interleaving of requests refines
    (LedgerWp.v). The lemmas compute what each effect does to the balances. *)

From S2P Require Import Prelude GoBase Db Prog ProgFacts Interfaces Ledger.
Local Open Scope Z_scope.

(** ** Abstract views of the tables *)

(** The total of the legs on account [a]. *)
Definition net (a : uuid) (legs : list (uuid * Z)) : Z :=
  sumZ ((fun l => whenZ (l.1 = a) l.2) <$> legs).

(** The total of the stored entries of transaction [t] on account [a]. *)
Definition net_of (d : db) (t a : uuid) : Z :=
  map_sumZ (fun p => whenZ (en_transaction_id p.2 = t /\ en_account_id p.2 = a)
                       (en_amount_minor p.2)) (entries d).

(** The tables of the ledger are the same. *)
Definition same_ledger (d d' : db) : Prop :=
  accounts d' = accounts d /\ transactions d' = transactions d /\ entries d' = entries d.

(** Outbox rows keep their identity and payload; audit rows never change. *)
Definition outbox_kept (d d' : db) : Prop :=
  forall i e, webhook_events d !! i = Some e -> exists e', webhook_events d' !! i = Some e' /\
    ev_tenant_id e' = ev_tenant_id e /\ ev_event_type e' = ev_event_type e /\
    ev_payload e' = ev_payload e /\ ev_created_at e' = ev_created_at e.

Definition audit_kept (d d' : db) : Prop := audit_log d ⊆ audit_log d'.

(** What the other packages do: the ledger's tables stay as they are, and the
    outbox and the audit trail only grow or, for an event, change its delivery
    state. *)
Definition other_effect (d d' : db) : Prop :=
  same_ledger d d' /\ outbox_kept d d' /\ audit_kept d d'.

(** The foreign keys of entries, and the entries of a transaction belong to its
    tenant. *)
Definition ledger_wf (d : db) : Prop :=
  forall e r, entries d !! e = Some r ->
    is_Some (accounts d !! en_account_id r) /\
    exists t, transactions d !! en_transaction_id r = Some t /\ tr_tenant_id t = en_tenant_id r.

(** A debit or credit of account [a] that leaves [wrap64 total] is covered: the
    account exists for the tenant, its balance can be read, and the int64 total
    is not negative. *)
Definition funded (d : db) (tenantID a : uuid) (change : Z) : Prop :=
  (exists row, accounts d !! a = Some row /\ ac_tenant_id row = tenantID) /\
  int64_min <= posted_sum d a <= int64_max /\
  0 <= wrap64 (posted_sum d a + change).

(** ** Effects *)

(** The writes that go with a state change: its event and its audit row, each
    if configured. *)
Definition side_writes (s : Service) (tenantID : uuid) (eventType : string) (event : json)
    (actorID action : string) (payload : json) (now : time) (ws : list write) : Prop :=
  exists i j,
    ws = (if svc_events s is Some _ then [WEvent i (new_event_row tenantID eventType event now)] else []) ++
         (if svc_audit s is Some _ then [WAudit j (AuditRow tenantID action actorID payload now)] else []).

Definition entry_write (r : Entry) : write :=
  WEntry (ent_ID r) (EntryRow (ent_TenantID r) (ent_TransactionID r) (ent_AccountID r)
                       (ent_AmountMinor r) (ent_CreatedAt r)).

(** The rows returned for the legs of a request. *)
Definition row_for (tenantID t : uuid) (e : EntryInput) (r : Entry) : Prop :=
  ent_TenantID r = tenantID /\ ent_TransactionID r = t /\
  ent_AccountID r = in_AccountID e /\ ent_AmountMinor r = in_AmountMinor e.

Section effects.
Context `{UuidLib} (s : Service).

(** A transaction with its entries is stored under fresh identifiers, along
    with its event and audit rows; nothing else changes. *)
Definition created (req : TransferRequest) (status : txn_status) (eventType action : string)
    (txn : Transaction) (rows : list Entry) (d d' : db) : Prop :=
  txn_TenantID txn = req_TenantID req /\ txn_Status txn = status /\
  Forall2 (row_for (req_TenantID req) (txn_ID txn)) (req_Entries req) rows /\
  exists side now,
    side_writes s (req_TenantID req) eventType (transactionEventJSON txn)
      (req_ActorID req) action (transferAuditPayload txn (req_Entries req)) now side /\
    let ws := WTransaction (txn_ID txn) (TransactionRow (req_TenantID req) status (txn_CreatedAt txn))
              :: (entry_write <$> rows) ++ side in
    inserts [] ws d /\ d' = apply_writes ws d.

Definition transfer_effect (req : TransferRequest) (txn : Transaction) (rows : list Entry)
    (d d' : db) : Prop :=
  validateEntries (req_Entries req) = None /\
  (forall e, e ∈ req_Entries req ->
     funded d (req_TenantID req) (in_AccountID e) (net (in_AccountID e) (input_legs (req_Entries req)))) /\
  created req StatusPosted EventTransactionPosted AuditTransactionTransferred txn rows d d'.

Definition pending_effect (req : TransferRequest) (txn : Transaction) (rows : list Entry)
    (d d' : db) : Prop :=
  validateEntries (req_Entries req) = None /\
  (forall e, e ∈ req_Entries req -> is_Some (accounts d !! in_AccountID e)) /\
  created req StatusPending EventTransactionPending AuditTransactionPendingCreated txn rows d d'.

(** Transaction [id] of the tenant leaves the pending state. *)
Definition resolved (tenantID id : uuid) (actorID : string) (status : txn_status)
    (eventType action : string) (txn : Transaction) (d d' : db) : Prop :=
  txn_ID txn = id /\ txn_TenantID txn = tenantID /\ txn_Status txn = status /\
  transactions d !! id = Some (TransactionRow tenantID StatusPending (txn_CreatedAt txn)) /\
  exists side now,
    side_writes s tenantID eventType (transactionEventJSON txn) actorID action
      (statusChangeAuditPayload txn) now side /\
    let w := WTransaction id (TransactionRow tenantID status (txn_CreatedAt txn)) in
    inserts [w] side d /\ d' = apply_writes (w :: side) d.

Definition post_effect (tenantID id : uuid) (actorID : string) (txn : Transaction)
    (d d' : db) : Prop :=
  (forall e r, entries d !! e = Some r -> en_transaction_id r = id ->
     funded d tenantID (en_account_id r) (net_of d id (en_account_id r))) /\
  resolved tenantID id actorID StatusPosted EventTransactionPosted AuditTransactionPosted txn d d'.

Definition fail_effect (tenantID id : uuid) (actorID : string) (txn : Transaction)
    (d d' : db) : Prop :=
  resolved tenantID id actorID StatusFailed EventTransactionFailed AuditTransactionFailed txn d d'.

(** A fresh account with no balance; only the audit trail is told. *)
Definition account_effect (tenantID : uuid) (name actorID : string) (acc : Account)
    (d d' : db) : Prop :=
  acc_TenantID acc = tenantID /\ acc_Name acc = name /\ acc_Balance acc = 0 /\
  exists j now,
    let ws := WAccount (acc_ID acc) (AccountRow tenantID name (acc_CreatedAt acc)) ::
      (if svc_audit s is Some _ then
         [WAudit j (AuditRow tenantID AuditAccountCreated actorID
            (JObject [("account_id", JString (uuid_String (acc_ID acc))); ("name", JString name)]) now)]
       else []) in
    inserts [] ws d /\ d' = apply_writes ws d.

(** The abstract machine; [L] are the locks held at the commit. *)
Inductive ledger_step (L : list lock) (d d' : db) : Prop :=
  | LTransfer req txn rows :
      transfer_effect req txn rows d d' ->
      (forall e, e ∈ req_Entries req -> LRow T_accounts (in_AccountID e) ∈ L) ->
      ledger_step L d d'
  | LPending req txn rows : pending_effect req txn rows d d' -> ledger_step L d d'
  | LPost tenantID id actorID txn :
      post_effect tenantID id actorID txn d d' ->
      (forall e r, entries d !! e = Some r -> en_transaction_id r = id ->
         LRow T_accounts (en_account_id r) ∈ L) ->
      ledger_step L d d'
  | LFail tenantID id actorID txn : fail_effect tenantID id actorID txn d d' -> ledger_step L d d'
  | LAccount tenantID name actorID acc :
      account_effect tenantID name actorID acc d d' -> ledger_step L d d'
  | LOther : other_effect d d' -> ledger_step L d d'.
End effects.

(** ** Lemmas: the tables after the writes of an effect *)

Definition is_side (w : write) : Prop :=
  match w with WAccount _ _ | WTransaction _ _ | WEntry _ _ => False | _ => True end.

Lemma same_ledger_refl d : same_ledger d d.
Proof. done. Qed.

Lemma same_ledger_trans d1 d2 d3 : same_ledger d1 d2 -> same_ledger d2 d3 -> same_ledger d1 d3.
Proof. intros (E1 & E2 & E3) (F1 & F2 & F3). split_and!; congruence. Qed.

Lemma apply_side ws d : Forall is_side ws -> same_ledger d (apply_writes ws d).
Proof.
  intros Hws. revert d. induction Hws as [|w ws Hw _ IH]; intros d; [done|].
  rewrite apply_writes_cons. eapply same_ledger_trans; [|apply IH]. by destruct w.
Qed.

Lemma side_writes_side s tn et ev ac an pl now ws :
  side_writes s tn et ev ac an pl now ws -> Forall is_side ws.
Proof. intros (i & j & ->). destruct (svc_events s), (svc_audit s); repeat constructor. Qed.

(** The balance of an account is determined by the tables of the ledger. *)
Lemma posted_sum_same d d' a : same_ledger d d' -> posted_sum d' a = posted_sum d a.
Proof.
  intros (_ & Et & Ee). unfold posted_sum. rewrite Ee. apply map_sumZ_ext.
  intros i r _. apply whenZ_iff. unfold is_posted. by rewrite Et.
Qed.

Lemma net_of_same d d' t a : same_ledger d d' -> net_of d' t a = net_of d t a.
Proof. intros (_ & _ & Ee). unfold net_of. by rewrite Ee. Qed.

#[export] Hint Resolve same_ledger_refl apply_side side_writes_side : transacta.

(** Storing a new transaction moves no money: no entry refers to it yet. *)
Lemma posted_sum_new_transaction d t row a :
  (forall e r, entries d !! e = Some r -> en_transaction_id r <> t) ->
  posted_sum (apply_write (WTransaction t row) d) a = posted_sum d a.
Proof.
  intros Hno. unfold posted_sum. simpl. apply map_sumZ_ext. intros e r Hr. simpl.
  apply whenZ_iff. unfold is_posted. simpl. rewrite lookup_insert_ne; [done|].
  intros ->. by eapply Hno.
Qed.

(** Storing a new entry adds its amount to its account, if it is posted. *)
Lemma posted_sum_new_entry d e r a :
  entries d !! e = None ->
  posted_sum (apply_write (WEntry e r) d) a =
  posted_sum d a + whenZ (en_account_id r = a /\ is_posted d (en_transaction_id r)) (en_amount_minor r).
Proof.
  intros He. unfold posted_sum. simpl. rewrite map_sumZ_insert by done. simpl.
  rewrite Z.add_comm. f_equal.
Qed.

(** What storing the entry rows of a transaction does to the tables. *)
Definition entry_row_of (r : Entry) : entry_row :=
  EntryRow (ent_TenantID r) (ent_TransactionID r) (ent_AccountID r) (ent_AmountMinor r)
    (ent_CreatedAt r).

Record entries_stored (rows : list Entry) (d d' : db) : Prop := EntriesStored {
  es_accounts : accounts d' = accounts d;
  es_transactions : transactions d' = transactions d;
  es_posted_sum : forall a, posted_sum d' a = posted_sum d a +
    sumZ ((fun r => whenZ (ent_AccountID r = a /\ is_posted d (ent_TransactionID r))
                      (ent_AmountMinor r)) <$> rows);
  es_sum : forall f : entry_row -> Z, map_sumZ (fun p => f p.2) (entries d') =
    map_sumZ (fun p => f p.2) (entries d) + sumZ ((fun r => f (entry_row_of r)) <$> rows);
  es_old : forall e r, entries d !! e = Some r -> entries d' !! e = Some r;
  es_rows : forall r, r ∈ rows -> entries d' !! ent_ID r = Some (entry_row_of r);
  es_inv : forall e r, entries d' !! e = Some r ->
    entries d !! e = Some r \/ exists x, x ∈ rows /\ e = ent_ID x /\ r = entry_row_of x
}.

Lemma apply_entries rows d :
  NoDup (ent_ID <$> rows) -> (forall r, r ∈ rows -> entries d !! ent_ID r = None) ->
  entries_stored rows d (apply_writes (entry_write <$> rows) d).
Proof.
  revert d. induction rows as [|x rows IH]; intros d Hnd Hfresh.
  { change (apply_writes (entry_write <$> []) d) with d.
    split; intros; csimpl; try done; try lia; [by apply not_elem_of_nil in H|by left]. }
  rewrite fmap_cons in Hnd. apply NoDup_cons in Hnd as [Hx Hnd].
  assert (Hdx : entries d !! ent_ID x = None) by (apply Hfresh; set_solver).
  set (d1 := apply_write (entry_write x) d).
  destruct (IH d1) as [Ha Ht Hp Hn Ho Hr Hi]; [done| |].
  { intros r Hr. simpl. rewrite lookup_insert_ne; [apply Hfresh; set_solver|].
    intros E. apply Hx. rewrite E. by apply list_elem_of_fmap_2. }
  split.
  - done.
  - done.
  - intros a. csimpl. rewrite apply_writes_cons, Hp. unfold d1, entry_write at 1.
    rewrite posted_sum_new_entry by done. simpl.
    rewrite <- Z.add_assoc. f_equal.
  - intros f. csimpl. rewrite apply_writes_cons, Hn. unfold d1, entry_write at 1. simpl.
    rewrite map_sumZ_insert by done. simpl. unfold entry_row_of at 2. lia.
  - intros e r He. apply Ho. simpl. rewrite lookup_insert_ne; [done|]. congruence.
  - intros r [->|Hin]%elem_of_cons; [|auto]. apply Ho. simpl. by rewrite lookup_insert_eq.
  - intros e r [He|(y & ? & ?)]%Hi; [|right; set_solver].
    simpl in He. apply lookup_insert_Some in He as [[<- <-]|[? ?]]; [|by left].
    right. exists x. set_solver.
Qed.

Lemma es_net_of rows d d' : entries_stored rows d d' -> forall t a,
  net_of d' t a = net_of d t a +
    sumZ ((fun r => whenZ (ent_TransactionID r = t /\ ent_AccountID r = a)
                      (ent_AmountMinor r)) <$> rows).
Proof.
  intros Hs t a.
  pose (f (r : entry_row) := whenZ (en_transaction_id r = t /\ en_account_id r = a) (en_amount_minor r)).
  exact (es_sum _ _ _ Hs f).
Qed.

Lemma net_app a l1 l2 : net a (l1 ++ l2) = net a l1 + net a l2.
Proof. unfold net. by rewrite fmap_app, sumZ_app. Qed.

(** The rows of a request carry exactly its legs. *)
Lemma rows_net tn t es rows a :
  Forall2 (row_for tn t) es rows ->
  sumZ ((fun r => whenZ (ent_TransactionID r = t /\ ent_AccountID r = a) (ent_AmountMinor r)) <$> rows) =
  net a (input_legs es).
Proof.
  unfold net, input_legs. induction 1 as [|e r es rows (Hr1 & Hr2 & Hr3 & Hr4) _ IH]; [done|].
  csimpl. rewrite IH, Hr4.
  rewrite (whenZ_iff (ent_TransactionID r = t /\ ent_AccountID r = a) (in_AccountID e = a)); [done|].
  split; [intros [? ?]|intros ?]; subst; auto.
Qed.

(** What [created] does, for a well-formed database. *)
Record created_facts (req : TransferRequest) (status : txn_status) (txn : Transaction)
    (rows : list Entry) (d d' : db) : Prop := CreatedFacts {
  cf_accounts : accounts d' = accounts d;
  cf_new : transactions d !! txn_ID txn = None;
  cf_transactions : transactions d' =
    <[txn_ID txn := TransactionRow (req_TenantID req) status (txn_CreatedAt txn)]> (transactions d);
  cf_posted_sum : forall a, posted_sum d' a = posted_sum d a +
    (if decide (status = StatusPosted) then net a (input_legs (req_Entries req)) else 0);
  cf_sum : forall f : entry_row -> Z, map_sumZ (fun p => f p.2) (entries d') =
    map_sumZ (fun p => f p.2) (entries d) + sumZ ((fun r => f (entry_row_of r)) <$> rows);
  cf_net_of_new : forall a, net_of d' (txn_ID txn) a = net a (input_legs (req_Entries req));
  cf_net_of_old : forall t a, t <> txn_ID txn -> net_of d' t a = net_of d t a;
  cf_entries_old : forall e r, entries d !! e = Some r -> entries d' !! e = Some r;
  cf_entries_new : forall r, r ∈ rows -> entries d' !! ent_ID r = Some (entry_row_of r);
  cf_entries_inv : forall e r, entries d' !! e = Some r ->
    entries d !! e = Some r \/ exists x, x ∈ rows /\ e = ent_ID x /\ r = entry_row_of x
}.

Lemma wf_no_entry d t :
  ledger_wf d -> transactions d !! t = None ->
  forall e r, entries d !! e = Some r -> en_transaction_id r <> t.
Proof. intros Hwf Ht e r He <-. destruct (Hwf e r He) as (_ & ? & ? & _). congruence. Qed.

Lemma net_of_unused d t a :
  (forall e r, entries d !! e = Some r -> en_transaction_id r <> t) -> net_of d t a = 0.
Proof.
  intros Hno. apply map_sumZ_zero. intros e r He. apply whenZ_False.
  intros [? _]. by eapply Hno.
Qed.

Lemma fmap_lock_entry (rows : list Entry) :
  lock_of <$> (entry_write <$> rows) = (fun r => LRow T_entries (ent_ID r)) <$> rows.
Proof. by rewrite <- list_fmap_compose. Qed.

Lemma inserts_entries pre rows side d :
  inserts [] (pre :: (entry_write <$> rows) ++ side) d ->
  NoDup (ent_ID <$> rows) /\ forall r, r ∈ rows -> entries d !! ent_ID r = None.
Proof.
  intros [Hnd Hab]. simpl in Hnd. split.
  - apply NoDup_cons_1_2 in Hnd. rewrite fmap_app in Hnd. apply NoDup_app in Hnd as [Hnd _].
    rewrite fmap_lock_entry in Hnd.
    rewrite (list_fmap_compose ent_ID (LRow T_entries)) in Hnd. by eapply NoDup_fmap_1.
  - intros r Hr. apply (Hab (entry_write r)).
    apply elem_of_cons. right. apply elem_of_app. left. by apply list_elem_of_fmap_2.
Qed.

Lemma rows_txn tn t es rows :
  Forall2 (row_for tn t) es rows -> forall r, r ∈ rows ->
  ent_TransactionID r = t /\ ent_TenantID r = tn /\
  exists e, e ∈ es /\ ent_AccountID r = in_AccountID e /\ ent_AmountMinor r = in_AmountMinor e.
Proof.
  induction 1 as [|e r es rows (Hr1 & Hr2 & Hr3 & Hr4) _ IH]; intros x; [set_solver|].
  intros [->|Hx]%elem_of_cons; [|destruct (IH x Hx) as (? & ? & e' & ? & ?)]; split_and!; auto; set_solver.
Qed.

Lemma created_spec `{UuidLib} s req status et ac txn rows d d' :
  ledger_wf d -> created s req status et ac txn rows d d' ->
  created_facts req status txn rows d d'.
Proof.
  intros Hwf (Htn & Hst & Hrows & side & now & Hside & Hins & ->).
  assert (Hnew : transactions d !! txn_ID txn = None)
    by exact (inserts_here _ _ _ _ Hins).
  destruct (inserts_entries _ _ _ _ Hins) as [Hnd Hfresh].
  set (row := TransactionRow (req_TenantID req) status (txn_CreatedAt txn)) in *.
  set (d1 := apply_write (WTransaction (txn_ID txn) row) d).
  pose proof (apply_entries rows d1 Hnd Hfresh) as Hes. pose proof (es_net_of _ _ _ Hes) as Hn.
  destruct Hes as [Ha Ht Hp Hsum Ho Hr Hi].
  rewrite apply_writes_cons, apply_writes_app. fold d1.
  set (d2 := apply_writes (entry_write <$> rows) d1) in *.
  pose proof (apply_side side d2 (side_writes_side _ _ _ _ _ _ _ _ _ Hside)) as Hsame.
  pose proof Hsame as (Sa & St & Se).
  pose proof (wf_no_entry _ _ Hwf Hnew) as Hno.
  pose proof (rows_txn _ _ _ _ Hrows) as Htxn.
  assert (Hpost : is_posted d1 (txn_ID txn) <-> status = StatusPosted).
  { unfold is_posted. simpl. rewrite lookup_insert_eq. simpl. split; congruence. }
  split; rewrite ?Sa, ?St, ?Se; try done.
  - intros a. rewrite (posted_sum_same d2), Hp by done. unfold d1 at 1.
    rewrite posted_sum_new_transaction by done. f_equal.
    rewrite <- (rows_net _ _ _ _ a Hrows). case_decide as Hd.
    + apply sumZ_fmap_ext. intros r [Er _]%Htxn. apply whenZ_iff. rewrite Er, Hpost. tauto.
    + apply sumZ_fmap_zero. intros r [Er _]%Htxn. apply whenZ_False. rewrite Er, Hpost. tauto.
  - intros a. rewrite (net_of_same d2), Hn, (rows_net _ _ _ _ a Hrows) by done.
    rewrite (net_of_unused d1) by done. lia.
  - intros t a Hne. rewrite (net_of_same d2), Hn by done.
    rewrite sumZ_fmap_zero; [unfold net_of; simpl; lia|].
    intros r [Er _]%Htxn. apply whenZ_False. intros [? _]. congruence.
Qed.

(** What [resolved] does. *)
Record resolved_facts (tenantID id : uuid) (status : txn_status) (txn : Transaction) (d d' : db)
    : Prop := ResolvedFacts {
  rf_accounts : accounts d' = accounts d;
  rf_entries : entries d' = entries d;
  rf_old : transactions d !! id = Some (TransactionRow tenantID StatusPending (txn_CreatedAt txn));
  rf_transactions : transactions d' =
    <[id := TransactionRow tenantID status (txn_CreatedAt txn)]> (transactions d);
  rf_posted_sum : forall a, posted_sum d' a = posted_sum d a +
    (if decide (status = StatusPosted) then net_of d id a else 0);
  rf_net_of : forall t a, net_of d' t a = net_of d t a
}.

Lemma posted_sum_resolve d id tn created status a :
  transactions d !! id = Some (TransactionRow tn StatusPending created) ->
  posted_sum (apply_write (WTransaction id (TransactionRow tn status created)) d) a =
  posted_sum d a + (if decide (status = StatusPosted) then net_of d id a else 0).
Proof.
  intros Hid. set (d' := apply_write _ d).
  assert (Hid' : is_posted d' id <-> status = StatusPosted).
  { unfold is_posted, d'. simpl. rewrite lookup_insert_eq. simpl. split; congruence. }
  assert (Hold : ~ is_posted d id) by (unfold is_posted; rewrite Hid; done).
  assert (Hne : forall t, t <> id -> is_posted d' t <-> is_posted d t).
  { intros t ?. unfold is_posted, d'. simpl. by rewrite lookup_insert_ne. }
  case_decide as Hs; unfold posted_sum at 1 2; simpl.
  - unfold net_of. rewrite <- map_sumZ_add. apply map_sumZ_ext. intros e r _. simpl.
    unfold whenZ. destruct (decide (en_transaction_id r = id)) as [E|E].
    + rewrite E. repeat case_decide; first [lia | tauto].
    + specialize (Hne _ E). repeat case_decide; first [lia | tauto].
  - rewrite Z.add_0_r. apply map_sumZ_ext. intros e r _. apply whenZ_iff. simpl.
    destruct (decide (en_transaction_id r = id)) as [E|E]; [rewrite E; tauto|].
    by rewrite (Hne _ E).
Qed.

Lemma resolved_spec `{UuidLib} s tn id an st et ac txn d d' :
  resolved s tn id an st et ac txn d d' -> resolved_facts tn id st txn d d'.
Proof.
  intros (_ & _ & _ & Hold & side & now & Hside & _ & ->). rewrite apply_writes_cons.
  set (w := WTransaction _ _).
  pose proof (apply_side side (apply_write w d) (side_writes_side _ _ _ _ _ _ _ _ _ Hside)) as Hsame.
  pose proof Hsame as (Sa & St & Se).
  split; rewrite ?Sa, ?St, ?Se; try done.
  - intros a. rewrite (posted_sum_same (apply_write w d)) by done. by apply posted_sum_resolve.
  - intros t a. by rewrite (net_of_same (apply_write w d)).
Qed.

(** What [account_effect] does. *)
Lemma account_spec `{UuidLib} s tn name an acc d d' :
  account_effect s tn name an acc d d' ->
  accounts d !! acc_ID acc = None /\
  accounts d' = <[acc_ID acc := AccountRow tn name (acc_CreatedAt acc)]> (accounts d) /\
  transactions d' = transactions d /\ entries d' = entries d.
Proof.
  intros (_ & _ & _ & j & now & Hins & ->). pose proof (inserts_here _ _ _ _ Hins) as Hab.
  rewrite apply_writes_cons. by destruct (svc_audit s).
Qed.

(** ** What every step of the abstract machine preserves *)

Section steps.
Context `{UuidLib} (s : Service) (L : list lock).

(** Accounts are never removed or changed. *)
Lemma step_accounts d d' a row :
  ledger_wf d -> ledger_step s L d d' -> accounts d !! a = Some row -> accounts d' !! a = Some row.
Proof.
  intros Hwf Hs Ha. destruct Hs as [req txn rows (_ & _ & Hc) _|req txn rows (_ & _ & Hc)
    |tn id an txn [_ Hr] _|tn id an txn Hr|tn name an acc He|[(-> & _) _]]; [..|done].
  - apply created_spec in Hc; [|done]. by rewrite (cf_accounts _ _ _ _ _ _ Hc).
  - apply created_spec in Hc; [|done]. by rewrite (cf_accounts _ _ _ _ _ _ Hc).
  - apply resolved_spec in Hr. by rewrite (rf_accounts _ _ _ _ _ _ Hr).
  - apply resolved_spec in Hr. by rewrite (rf_accounts _ _ _ _ _ _ Hr).
  - apply account_spec in He as (Hn & -> & _). rewrite lookup_insert_ne; [done|]. congruence.
Qed.

Lemma created_wf req status et ac txn rows d d' :
  ledger_wf d -> created s req status et ac txn rows d d' ->
  (forall e, e ∈ req_Entries req -> is_Some (accounts d !! in_AccountID e)) -> ledger_wf d'.
Proof.
  intros Hwf Hc Hacc. pose proof (created_spec _ _ _ _ _ _ _ _ _ Hwf Hc) as Hf.
  destruct Hc as (_ & _ & Hrows & _). pose proof (rows_txn _ _ _ _ Hrows) as Htx.
  destruct Hf as [Ha Hn Ht _ _ _ _ _ _ Hi]. intros e r [Her|(x & Hx & -> & ->)]%Hi; rewrite Ha, Ht.
  - destruct (Hwf e r Her) as (? & t & Hr & ?). split; [done|]. exists t. split; [|done].
    rewrite lookup_insert_ne; [done|]. congruence.
  - simpl. destruct (Htx x Hx) as (-> & -> & e' & He' & -> & _). split; [auto|].
    eexists. by rewrite lookup_insert_eq.
Qed.

Lemma resolved_wf tn id an st et ac txn d d' :
  ledger_wf d -> resolved s tn id an st et ac txn d d' -> ledger_wf d'.
Proof.
  intros Hwf [Ha He Ho Ht _ _]%resolved_spec. intros e r. rewrite Ha, He, Ht. intros Her.
  destruct (Hwf e r Her) as (? & t & Hr & ?). split; [done|].
  destruct (decide (en_transaction_id r = id)) as [E|Hne].
  - rewrite E in Hr |- *. rewrite lookup_insert_eq. eexists. split; [done|]. by simplify_eq/=.
  - rewrite lookup_insert_ne by congruence. eauto.
Qed.

(** The foreign keys stay satisfied. *)
Lemma step_wf d d' : ledger_step s L d d' -> ledger_wf d -> ledger_wf d'.
Proof.
  intros Hs Hwf. destruct Hs as [req txn rows (_ & Hf & Hc) _|req txn rows (_ & Hf & Hc)
    |tn id an txn [_ Hr] _|tn id an txn Hr|tn name an acc He|[(Ea & Et & Ee) _]].
  - eapply created_wf; eauto. intros e He. destruct (Hf e He) as ((? & ? & _) & _). eauto.
  - eapply created_wf; eauto.
  - eapply resolved_wf; eauto.
  - eapply resolved_wf; eauto.
  - apply account_spec in He as (Hn & Ea & Et & Ee). intros e r. rewrite Ea, Et, Ee. intros Her.
    destruct (Hwf e r Her) as ([row Hrow] & ?). split; [|done].
    rewrite lookup_insert_ne; [by eauto|]. congruence.
  - intros e r. rewrite Ea, Et, Ee. apply Hwf.
Qed.
End steps.

(** Rows that are only inserted do not disturb the rows that exist. *)
Lemma inserts_kept pre ins d :
  (forall w, w ∈ pre -> match w with WTransaction _ _ => True | _ => False end) ->
  inserts pre ins d -> outbox_kept d (apply_writes (pre ++ ins) d) /\ audit_kept d (apply_writes (pre ++ ins) d).
Proof.
  intros Hpre Hi.
  assert (HF : forall t i, t <> T_transactions -> ~ absent d (LRow t i) ->
    frame [LRow t i] d (apply_writes (pre ++ ins) d)).
  { intros t i Ht Hex. apply apply_writes_frame. intros w [Hw|Hw]%elem_of_app Hl.
    - apply Hpre in Hw. apply list_elem_of_singleton in Hl. destruct w; try done. simplify_eq/=.
    - apply list_elem_of_singleton in Hl. apply Hex. rewrite <- Hl. by eapply inserts_in. }
  split.
  - intros i e He. exists e. split; [|done]. rewrite <- He.
    eapply frame_webhook_events; [apply (HF T_webhook_events i); [done|simpl; congruence]|left].
  - apply map_subseteq_spec. intros i r Hr. rewrite <- Hr.
    eapply frame_audit_log; [apply (HF T_audit_log i); [done|simpl; congruence]|left].
Qed.

Lemma other_effect_refl d : other_effect d d.
Proof. split; [done|]. split; [intros i e He; by exists e|apply map_subseteq_po]. Qed.

Section stability.
Context `{UuidLib} (s : Service) (L : list lock).

(** A transaction whose tables entries did not move money onto [a] keeps the
    balance of [a]: the balance of an account no lock in [L] protects is not
    touched. *)
Lemma step_balance d d' a :
  ledger_wf d -> ledger_step s L d d' -> LRow T_accounts a ∉ L ->
  posted_sum d' a = posted_sum d a.
Proof.
  intros Hwf Hs Ha. destruct Hs as [req txn rows (_ & _ & Hc) HL|req txn rows (_ & _ & Hc)
    |tn id an txn [_ Hr] HL|tn id an txn Hr|tn name an acc He|[Hsame _]].
  - apply created_spec in Hc; [|done]. rewrite (cf_posted_sum _ _ _ _ _ _ Hc).
    rewrite decide_True by done. unfold net. rewrite sumZ_fmap_zero; [lia|].
    intros l Hl. unfold input_legs in Hl. apply list_elem_of_fmap in Hl as (e & -> & He).
    apply whenZ_False. simpl. intros <-. by apply Ha, HL.
  - apply created_spec in Hc; [|done]. rewrite (cf_posted_sum _ _ _ _ _ _ Hc).
    rewrite decide_False by done. lia.
  - apply resolved_spec in Hr. rewrite (rf_posted_sum _ _ _ _ _ _ Hr).
    rewrite decide_True by done. unfold net_of. rewrite map_sumZ_zero; [lia|].
    intros e r Her. apply whenZ_False. simpl. intros [? <-]. by eapply Ha, HL.
  - apply resolved_spec in Hr. rewrite (rf_posted_sum _ _ _ _ _ _ Hr).
    rewrite decide_False by done. lia.
  - apply account_spec in He as (_ & _ & Et & Ee). unfold posted_sum. rewrite Ee.
    apply map_sumZ_ext. intros e r _. apply whenZ_iff. unfold is_posted. by rewrite Et.
  - by apply posted_sum_same.
Qed.

(** The entries of an existing transaction never change. *)
Lemma step_entries d d' t row :
  ledger_wf d -> ledger_step s L d d' -> transactions d !! t = Some row ->
  (forall e r, en_transaction_id r = t -> entries d' !! e = Some r <-> entries d !! e = Some r) /\
  (forall a, net_of d' t a = net_of d t a) /\
  exists row', transactions d' !! t = Some row'.
Proof.
  intros Hwf Hs Ht.
  assert (Hcr : forall req st et ac txn rows, created s req st et ac txn rows d d' ->
    (forall e r, en_transaction_id r = t -> entries d' !! e = Some r <-> entries d !! e = Some r) /\
    (forall a, net_of d' t a = net_of d t a) /\ exists row', transactions d' !! t = Some row').
  { intros req st et ac txn rows Hc. pose proof Hc as (_ & _ & Hrows & _).
    apply created_spec in Hc; [|done]. destruct Hc as [_ Hn Htr _ _ _ Hno Hold _ Hinv].
    assert (Hne : t <> txn_ID txn) by congruence. split_and!.
    - intros e r Er. split; [|apply Hold]. intros [?|(x & Hx & -> & ->)]%Hinv; [done|].
      destruct (rows_txn _ _ _ _ Hrows x Hx) as (E & _). simpl in Er. congruence.
    - intros a. by apply Hno.
    - exists row. rewrite Htr, lookup_insert_ne; done. }
  destruct Hs as [req txn rows (_ & _ & Hc) _|req txn rows (_ & _ & Hc)
    |tn id an txn [_ Hr] _|tn id an txn Hr|tn name an acc He|[(_ & Et & Ee) _]]; eauto.
  1, 2: apply resolved_spec in Hr as [_ He _ Htr _ Hn]; split_and!;
    [intros; by rewrite He|done|rewrite Htr];
    destruct (decide (id = t)) as [->|]; [rewrite lookup_insert_eq|rewrite lookup_insert_ne]; eauto.
  - apply account_spec in He as (_ & _ & Et & Ee). unfold net_of. rewrite Et, Ee. eauto.
  - unfold net_of. rewrite Et, Ee. eauto.
Qed.

(** A transaction's status moves from pending to posted or failed, once. *)
Lemma step_status d d' t row :
  ledger_wf d -> ledger_step s L d d' -> transactions d !! t = Some row ->
  transactions d' !! t = Some row \/
  (tr_status row = StatusPending /\
   exists st, st <> StatusPending /\
     transactions d' !! t = Some (TransactionRow (tr_tenant_id row) st (tr_created_at row))).
Proof.
  intros Hwf Hs Ht.
  destruct Hs as [req txn rows (_ & _ & Hc) _|req txn rows (_ & _ & Hc)
    |tn id an txn [_ Hr] _|tn id an txn Hr|tn name an acc He|[(_ & -> & _) _]]; [..|by left].
  1, 2: left; apply created_spec in Hc as [_ Hn Htr _ _ _ _ _ _ _]; [|done];
    rewrite Htr, lookup_insert_ne; [done|congruence].
  1, 2: apply resolved_spec in Hr as [_ _ Ho Htr _ _]; rewrite Htr;
    (destruct (decide (id = t)) as [->|Hne]; [right|left; by rewrite lookup_insert_ne]);
    rewrite lookup_insert_eq; rewrite Ht in Ho; injection Ho as ->; (split; [done|eexists; split; [|reflexivity]; done]).
  left. apply account_spec in He as (_ & _ & -> & _). done.
Qed.

(** The outbox and the audit trail only grow. *)
Lemma step_kept d d' : ledger_step s L d d' -> outbox_kept d d' /\ audit_kept d d'.
Proof.
  assert (Hc : forall req st et ac txn rows, created s req st et ac txn rows d d' ->
    outbox_kept d d' /\ audit_kept d d').
  { intros req st et ac txn rows (_ & _ & _ & side & now & _ & Hi & ->).
    eapply (inserts_kept []); [set_solver|done]. }
  assert (Hr : forall tn id an st et ac txn, resolved s tn id an st et ac txn d d' ->
    outbox_kept d d' /\ audit_kept d d').
  { intros tn id an st et ac txn (_ & _ & _ & _ & side & now & _ & Hi & ->).
    eapply (inserts_kept [_]); [|done]. intros w Hw%list_elem_of_singleton. by subst. }
  intros [req txn rows (_ & _ & ?) _|req txn rows (_ & _ & ?)|tn id an txn [_ ?] _|tn id an txn ?
    |tn name an acc (_ & _ & _ & j & now & Hi & ->)|[_ ?]]; eauto.
  eapply (inserts_kept []); [set_solver|done].
Qed.
End stability.
