(* ===== verification/LedgerWp.v ===== *)
(** * The ledger's operations implement their effects

    The proofs, in the logic of ProgFacts.v, that each use case of Ledger.v makes
    at most one visible change, the one LedgerSpec.v specifies, whatever the
    other transactions of the program commit meanwhile. *)

From S2P Require Import Prelude GoBase Db Prog ProgFacts Interfaces Ledger LedgerSpec.
Local Open Scope Z_scope.

(** ** Lists and maps of the int64 arithmetic *)

Lemma Sum_wrap es : Sum es = wrap64 (sumZ (in_AmountMinor <$> es)).
Proof.
  unfold Sum. transitivity (wrap64 (0 + sumZ (in_AmountMinor <$> es))); [|done].
  change 0 with (wrap64 0) at 1. generalize 0.
  induction es as [|e es IH]; intros z; csimpl; [by rewrite Z.add_0_r|].
  rewrite add64_wrap_l. unfold add64. rewrite IH. f_equal. lia.
Qed.

Lemma uniqueAccountIDs_spec es :
  NoDup (uniqueAccountIDs es) /\
  forall a, a ∈ uniqueAccountIDs es <-> exists e, e ∈ es /\ in_AccountID e = a.
Proof.
  unfold uniqueAccountIDs.
  set (f := fun '(seen, ids) e => _).
  enough (H : forall (seen : gset uuid) (ids : list uuid), (forall a, a ∈ seen <-> a ∈ ids) -> NoDup ids ->
    let ids' := (foldl f (seen, ids) es).2 in
    NoDup ids' /\ forall a, a ∈ ids' <-> a ∈ ids \/ exists e, e ∈ es /\ in_AccountID e = a).
  { destruct (H ∅ []) as [H1 H2]; [set_solver|constructor|]. split; [done|]. set_solver. }
  induction es as [|e es IH]; intros seen ids Hs Hnd; csimpl.
  { split; [done|]. set_solver. }
  destruct (decide (in_AccountID e ∈ seen)) as [Hin|Hin].
  - destruct (IH seen ids Hs Hnd) as [H1 H2]. split; [done|]. intros a. rewrite H2.
    apply Hs in Hin. set_solver.
  - destruct (IH ({[in_AccountID e]} ∪ seen) (ids ++ [in_AccountID e])) as [H1 H2].
    + set_solver.
    + apply NoDup_app. split_and!; [done| |apply NoDup_singleton]. set_solver.
    + split; [done|]. intros a. rewrite H2. set_solver.
Qed.

Lemma net_cons a l legs : net a (l :: legs) = whenZ (l.1 = a) l.2 + net a legs.
Proof. done. Qed.

(** The projected balance of an account with a leg. *)
Lemma project_spec balances legs a :
  a ∈ legs.*1 ->
  project balances legs !! a = Some (wrap64 (default 0 (balances !! a) + net a legs)).
Proof.
  unfold project. set (f := fun m '(a, amount) => _).
  assert (Hd : forall legs m, (m !! a = None -> a ∈ legs.*1) ->
    (foldl f m legs) !! a =
      if decide (a ∈ legs.*1) then Some (wrap64 (default 0 (m !! a) + net a legs)) else m !! a).
  { clear. induction legs as [|[b x] legs IH]; intros m Hm; [done|]. csimpl.
    rewrite net_cons. simpl. rewrite IH.
    - destruct (decide (b = a)) as [->|Hne].
      + rewrite lookup_insert_eq, (decide_True (P := a ∈ a :: _)) by set_solver. simpl.
        rewrite whenZ_True by done. case_decide as Hin.
        * f_equal. unfold add64. rewrite (Z.add_comm (wrap64 _)).
          rewrite (Z.add_comm (net a legs)). unfold net at 1. fold (net a legs).
          transitivity (add64 (wrap64 (default 0 (m !! a) + x)) (net a legs)); [done|].
          rewrite add64_wrap_l. unfold add64. f_equal. lia.
        * f_equal. unfold add64. f_equal.
          assert (net a legs = 0) as ->; [|lia].
          apply sumZ_fmap_zero. intros l Hl. apply whenZ_False. intros <-. apply Hin.
          by apply list_elem_of_fmap_2.
      + rewrite lookup_insert_ne by done. rewrite whenZ_False by done.
        rewrite (decide_ext (a ∈ legs.*1) (a ∈ b :: legs.*1)) by set_solver. done.
    - destruct (decide (b = a)) as [->|Hne]; [by rewrite lookup_insert_eq|].
      rewrite lookup_insert_ne by done. intros Hn. specialize (Hm Hn). set_solver. }
  intros Ha. rewrite Hd by done. by rewrite decide_True.
Qed.

Lemma first_negative_None m :
  first_negative m = None <-> forall a b, m !! a = Some b -> 0 <= b.
Proof.
  unfold first_negative. split.
  - intros Hn a b Hab. destruct (decide (b < 0)) as [Hlt|]; [exfalso|lia].
    apply elem_of_map_to_list in Hab.
    assert (Hin : (a, b) ∈ filter (fun p => p.2 < 0) (map_to_list m))
      by by apply list_elem_of_filter.
    destruct (filter _ _); [by apply not_elem_of_nil in Hin|done].
  - intros H. destruct (filter _ _) as [|[a b] l] eqn:E; [done|exfalso].
    assert (Hin : (a, b) ∈ filter (fun p => p.2 < 0) (map_to_list m)) by (rewrite E; left).
    apply list_elem_of_filter in Hin as [Hb Hin%elem_of_map_to_list]. apply H in Hin. simpl in Hb. lia.
Qed.

(** Scanning the balance rows: each listed account gets its sum, all in range. *)
Lemma scan_sums_spec rows out m :
  NoDup rows.*1 -> scan_sums rows out = inr m ->
  forall a acc, m !! a = Some acc ->
    exists acc0, out !! a = Some acc0 /\
      ((a ∉ rows.*1 /\ acc = acc0) \/
       ((a, acc_Balance acc) ∈ rows /\ int64_min <= acc_Balance acc <= int64_max)).
Proof.
  revert out. induction rows as [|[b sum] rows IH]; intros out Hnd Hs a acc Ha; csimpl in *.
  { simplify_eq. exists acc. split; [done|]. left. split; [apply not_elem_of_nil|done]. }
  apply NoDup_cons in Hnd as [Hb Hnd]. destruct (fits64 sum) eqn:Hf; [|done].
  apply fits64_spec in Hf.
  destruct (IH _ Hnd Hs a acc Ha) as (acc0 & H0 & Hcase).
  destruct (decide (b = a)) as [->|Hne].
  - rewrite lookup_alter_eq in H0. destruct (out !! a) as [acc1|] eqn:E; [|done]. simplify_eq/=.
    exists acc1. split; [done|]. right. destruct Hcase as [[_ ->]|[Hin _]]; simpl.
    + split; [left|done].
    + exfalso. apply Hb. apply list_elem_of_fmap. by exists (a, acc_Balance acc).
  - rewrite lookup_alter_ne in H0 by done. exists acc0. split; [done|].
    destruct Hcase as [[Hn ->]|[Hin ?]]; [left|right]; (split; [|done]); set_solver.
Qed.

Lemma scan_sums_dom rows out m a acc0 :
  scan_sums rows out = inr m -> out !! a = Some acc0 -> exists acc, m !! a = Some acc.
Proof.
  revert out acc0. induction rows as [|[b sum] rows IH]; intros out acc0 Hs Ha; simpl in Hs.
  { simplify_eq. eauto. }
  destruct (fits64 sum); [|done]. destruct (decide (b = a)) as [->|Hne].
  - eapply (IH _ _ Hs). rewrite lookup_alter_eq, Ha. done.
  - eapply (IH _ _ Hs). rewrite lookup_alter_ne by done. exact Ha.
Qed.

(** ** The state of an open transaction *)

Definition not_account (w : write) : Prop :=
  match w with WAccount _ _ => False | _ => True end.

Lemma accounts_seen ws d : Forall not_account ws -> accounts (apply_writes ws d) = accounts d.
Proof.
  intros H. revert d. induction H as [|w ws Hw _ IH]; intros d; [done|].
  rewrite apply_writes_cons, IH. by destruct w.
Qed.

Section ledger.
Context `{UuidLib} (s : Service) (tick_ok : db -> tick -> Prop).
Local Abbreviation guar := (ledger_step s).
Local Abbreviation in_tx := (in_tx guar tick_ok).
Local Abbreviation commits := (commits guar tick_ok).
Local Abbreviation rely := (rely guar).

(** [tx_ok pre ins t d]: the transaction has written [pre] and then the new rows
    [ins], all of them locked and still absent from the committed database. *)
Record tx_ok (pre ins : list write) (t : txst) (d : db) : Prop := TxOk {
  to_live : tx_aborted t = false;
  to_writes : tx_writes t = pre ++ ins;
  to_locked : forall w, w ∈ pre ++ ins -> lock_of w ∈ tx_locks t;
  to_inserts : inserts pre ins d;
  to_wf : ledger_wf d
}.

(** The transaction went on from [t], [d] to [t'], [d']: it kept its locks. *)
Record later (t : txst) (d : db) (t' : txst) (d' : db) : Prop := Later {
  lt_locks : tx_locks t ⊆ tx_locks t';
  lt_start : tx_start t' = tx_start t;
  lt_rely : rely (tx_locks t) d d'
}.

Lemma later_refl t d : later t d t d.
Proof. by split. Qed.

Lemma later_trans t1 d1 t2 d2 t3 d3 : later t1 d1 t2 d2 -> later t2 d2 t3 d3 -> later t1 d1 t3 d3.
Proof.
  intros [? ? ?] [? ? ?]. split; [set_solver|congruence|].
  etransitivity; [done|]. by eapply rely_weaken.
Qed.

Lemma later_extend {R} t (o : outcome R) d d' :
  rely (tx_locks t ++ needed o) d d' -> later t d (tx_extend t o) d'.
Proof. intros Hr. split; simpl; [set_solver|done|]. eapply rely_weaken; [|done]. set_solver. Qed.

(** *** What the other transactions leave alone *)

Lemma rely_wf L d d' : rely L d d' -> ledger_wf d -> ledger_wf d'.
Proof. apply rely_stable. intros K d1 d2 Hs _. by eapply step_wf. Qed.

Lemma rely_stable_wf (P : db -> Prop) L d d' :
  (forall K d1 d2, guar K d1 d2 -> (forall l, l ∈ K -> l ∉ L) -> ledger_wf d1 -> P d1 -> P d2) ->
  rely L d d' -> ledger_wf d -> P d -> P d'.
Proof.
  intros HP Hr Hwf H0. apply (rely_stable guar (fun d => ledger_wf d /\ P d) L d d'); [|done..].
  intros K d1 d2 Hs HK [? ?]. split; [by eapply step_wf|eauto].
Qed.

Lemma rely_account L d d' a row :
  rely L d d' -> ledger_wf d -> accounts d !! a = Some row -> accounts d' !! a = Some row.
Proof.
  apply (rely_stable_wf (fun d => accounts d !! a = Some row)).
  intros K d1 d2 Hs _ ? ?. by eapply step_accounts.
Qed.

Lemma rely_balance L d d' a :
  rely L d d' -> ledger_wf d -> LRow T_accounts a ∈ L -> posted_sum d' a = posted_sum d a.
Proof.
  intros Hr Hwf Ha. apply (rely_stable_wf (fun x => posted_sum x a = posted_sum d a) L d d'); [|done..].
  intros K d1 d2 Hs HK Hwf1 <-. eapply step_balance; [done..|]. intros ?. by eapply HK.
Qed.

(** The entries of an existing transaction. *)
Definition same_txn (t : uuid) (d d' : db) : Prop :=
  (forall e r, en_transaction_id r = t -> entries d' !! e = Some r <-> entries d !! e = Some r) /\
  (forall a, net_of d' t a = net_of d t a) /\
  exists row row', transactions d !! t = Some row /\ transactions d' !! t = Some row' /\
    tr_tenant_id row' = tr_tenant_id row /\ tr_created_at row' = tr_created_at row.

Lemma step_same_txn K d d' t row :
  ledger_wf d -> guar K d d' -> transactions d !! t = Some row -> same_txn t d d'.
Proof.
  intros Hwf Hs Ht. destruct (step_entries _ _ _ _ _ _ Hwf Hs Ht) as (He & Hn & _).
  split_and!; [done..|]. destruct (step_status _ _ _ _ _ _ Hwf Hs Ht) as [?|(_ & st & _ & ?)]; by eauto 8.
Qed.

Lemma rely_same_txn L d d' t row :
  rely L d d' -> ledger_wf d -> transactions d !! t = Some row -> same_txn t d d'.
Proof.
  intros Hr Hwf Ht. apply (rely_stable_wf (same_txn t d) L d d'); [|done..|].
  - intros K d1 d2 Hs _ Hwf1 (He & Hn & r & r1 & ? & Hr1 & ? & ?).
    destruct (step_same_txn _ _ _ _ _ Hwf1 Hs Hr1) as (He' & Hn' & r1' & r2 & ? & ? & ? & ?).
    simplify_eq. split_and!.
    + intros e x Ex. rewrite He', He; done.
    + intros a. by rewrite Hn'.
    + eexists _, r2. split_and!; first [done | congruence].
  - split_and!; [done..|]. by exists row, row.
Qed.

Lemma tx_ok_later pre ins t d d' :
  tx_ok pre ins t d -> rely (tx_locks t) d d' -> tx_ok pre ins t d'.
Proof.
  intros [? ? Hl ? ?] Hr. split; [done..| |by eapply rely_wf].
  eapply inserts_frame; [|by eapply rely_frame|done]. set_solver.
Qed.

(** A statement that inserts one row extends the transaction. *)
Lemma tx_ok_add pre ins t d d' w tb i :
  tx_ok pre ins t d -> lock_of w = LRow tb i -> absent (seen t d) (LRow tb i) ->
  rely (tx_locks t ++ [lock_of w]) d d' -> tx_ok pre (ins ++ [w]) (tx_add t w) d'.
Proof.
  intros [Hl Hw Hk Hi Hf] Ew Hab Hr. split; simpl.
  - done.
  - by rewrite Hw, app_assoc.
  - rewrite app_assoc. intros w' [Hin|Hin%list_elem_of_singleton]%elem_of_app; [|subst; set_solver].
    apply elem_of_app. left. auto.
  - eapply inserts_frame; [|by eapply rely_frame|].
    + intros w' [Hin|Hin%list_elem_of_singleton]%elem_of_app; [|subst; set_solver].
      apply elem_of_app. left. set_solver.
    + eapply inserts_snoc; [done| |done]. unfold seen in Hab. by rewrite Hw in Hab.
  - by eapply rely_wf.
Qed.

Lemma later_add t w d d' : rely (tx_locks t ++ [lock_of w]) d d' -> later t d (tx_add t w) d'.
Proof. intros Hr. split; simpl; [set_solver|done|]. eapply rely_weaken; [|done]. set_solver. Qed.

(** *** The statements that insert *)

Lemma insert_transaction_in_tx tn st pre ins t d :
  tx_ok pre ins t d ->
  in_tx (sql_row OnTx (q_insert_transaction tn st)) t d (fun r t' d' =>
    tx_ok pre (ins ++ [WTransaction r.1 (TransactionRow tn st r.2)]) t' d' /\ later t d t' d').
Proof.
  intros Hok. refine (in_tx_guarded_row _ _ _ _ _ _ _ _ _ _); [apply Hok|].
  intros tk d' Htk ev Hc Hr. split; [|by apply later_add].
  eapply tx_ok_add; [done|reflexivity| |exact Hr]. apply has_row_false. eapply Hc. left.
Qed.

Lemma insert_entry_in_tx tn x a amt pre ins t d :
  tx_ok pre ins t d -> Forall not_account (pre ++ ins) ->
  in_tx (sql_row OnTx (q_insert_entry tn x a amt)) t d (fun r t' d' =>
    tx_ok pre (ins ++ [WEntry r.1 (EntryRow tn x a amt r.2)]) t' d' /\ later t d t' d' /\
    is_Some (accounts d' !! a)).
Proof.
  intros Hok Hna. refine (in_tx_guarded_row _ _ _ _ _ _ _ _ _ _); [apply Hok|].
  intros tk d' Htk ev Hc Hr. split_and!; [|by apply later_add|].
  - eapply tx_ok_add; [done|reflexivity| |exact Hr]. apply has_row_false. eapply Hc. right. left.
  - assert (Ha : is_Some (accounts (seen t d) !! a)) by (apply has_row_true; eapply Hc; do 4 right; left).
    unfold seen in Ha. rewrite (to_writes _ _ _ _ Hok), accounts_seen in Ha by done.
    destruct Ha as [row Ha]. exists row. eapply rely_account; [done|apply Hok|done].
Qed.

Lemma insert_entries_in_tx tn x es pre ins t d :
  tx_ok pre ins t d -> Forall not_account (pre ++ ins) ->
  in_tx (insert_entries tn x es) t d (fun rows t' d' =>
    tx_ok pre (ins ++ (entry_write <$> rows)) t' d' /\ later t d t' d' /\
    Forall2 (row_for tn x) es rows /\
    forall e, e ∈ es -> is_Some (accounts d' !! in_AccountID e)).
Proof.
  revert ins t d. induction es as [|e es IH]; intros ins t d Hok Hna; cbn [insert_entries].
  { apply in_tx_ret. csimpl. rewrite app_nil_r. split_and!; [done|apply later_refl|done|set_solver]. }
  eapply in_tx_ebind; [by apply in_tx_wrap, insert_entry_in_tx|].
  intros [i created] t1 d1 (Hok1 & Hl1 & Ha1). simpl.
  eapply in_tx_ebind; [apply IH; [done|]|].
  { rewrite app_assoc. apply Forall_app. split; [done|]. by constructor. }
  intros rows t2 d2 (Hok2 & Hl2 & Hrows & Hacc). apply in_tx_ret. split_and!.
  - rewrite <- app_assoc in Hok2. exact Hok2.
  - by eapply later_trans.
  - by constructor.
  - intros e' [->|?]%elem_of_cons; [|auto]. destruct Ha1 as [row Ha1].
    exists row. eapply rely_account; [apply Hl2|apply Hok1|done].
Qed.

Lemma InsertTransactionWithEntries_in_tx tn st es t d :
  tx_ok [] [] t d ->
  in_tx (InsertTransactionWithEntries tn st es) t d (fun r t' d' =>
    tx_ok [] (WTransaction (txn_ID r.1) (TransactionRow tn st (txn_CreatedAt r.1))
              :: (entry_write <$> r.2)) t' d' /\ later t d t' d' /\
    txn_TenantID r.1 = tn /\ txn_Status r.1 = st /\
    Forall2 (row_for tn (txn_ID r.1)) es r.2 /\
    forall e, e ∈ es -> is_Some (accounts d' !! in_AccountID e)).
Proof.
  intros Hok. unfold InsertTransactionWithEntries.
  eapply in_tx_ebind; [by apply in_tx_wrap, insert_transaction_in_tx|].
  intros [i created] t1 d1 [Hok1 Hl1]. simpl in *.
  eapply in_tx_ebind; [apply insert_entries_in_tx; [exact Hok1|by repeat constructor]|].
  intros rows t2 d2 (Hok2 & Hl2 & Hrows & Hacc). apply in_tx_ret. simpl.
  split_and!; try done. by eapply later_trans.
Qed.

(** *** LockAccountsForUpdate *)

Lemma in_id_strings a ids : uuid_String a ∈ uuidsToStrings (merge_sort uuid_text_le ids) <-> a ∈ ids.
Proof.
  unfold uuidsToStrings. rewrite list_elem_of_fmap. split.
  - intros (b & E%uuid_String_inj & Hb). subst. by rewrite merge_sort_Permutation in Hb.
  - intros Ha. exists a. split; [done|]. by rewrite merge_sort_Permutation.
Qed.

Lemma no_posted_entry d a : a ∉ posted_accounts d -> posted_sum d a = 0.
Proof.
  intros Hn. apply map_sumZ_zero. intros e r He. apply whenZ_False. simpl. intros [<- Hp].
  apply Hn. unfold posted_accounts. apply elem_of_list_to_set, list_elem_of_fmap.
  exists (e, r). split; [done|]. apply list_elem_of_filter. split; [done|].
  by apply elem_of_map_to_list.
Qed.

(** The first statement: the accounts of the tenant, locked. *)
Lemma lock_rows_spec ids tn d rows :
  rows = merge_sort id_le
    (filter (fun p => uuid_String p.1 ∈ uuidsToStrings (merge_sort uuid_text_le ids) /\
                      ac_tenant_id p.2 = tn) (map_to_list (accounts d))) ->
  forall a acc, (list_to_map ((fun p => (p.1, account_of_row p)) <$> rows) : gmap uuid Account) !! a
                  = Some acc ->
  acc_Balance acc = 0 /\ exists row, (a, row) ∈ rows /\ accounts d !! a = Some row /\ ac_tenant_id row = tn.
Proof.
  intros -> a acc Ha%elem_of_list_to_map_2. apply list_elem_of_fmap in Ha as ([b row] & E & Hin).
  simplify_eq/=. split; [done|]. exists row. split; [done|].
  rewrite merge_sort_Permutation, list_elem_of_filter in Hin. destruct Hin as [[_ ?] Hin].
  by apply elem_of_map_to_list in Hin.
Qed.

(** The second statement and its scan: the balance of each of them. *)
Lemma sum_rows_spec ids d (out m : gmap uuid Account) a acc0 :
  scan_sums ((fun a => (a, posted_sum d a)) <$>
    filter (fun a => uuid_String a ∈ uuidsToStrings (merge_sort uuid_text_le ids))
      (elements (posted_accounts d))) out = inr m ->
  a ∈ ids -> out !! a = Some acc0 -> acc_Balance acc0 = 0 ->
  exists acc, m !! a = Some acc /\ acc_Balance acc = posted_sum d a /\
    int64_min <= posted_sum d a <= int64_max.
Proof.
  set (rows := _ <$> _). intros Hs Ha H0 Hz.
  assert (Hkeys : rows.*1 = filter (fun a => uuid_String a ∈ uuidsToStrings (merge_sort uuid_text_le ids))
      (elements (posted_accounts d))).
  { unfold rows. rewrite <- list_fmap_compose. apply list_fmap_id. }
  assert (Hnd : NoDup rows.*1) by (rewrite Hkeys; apply NoDup_filter, NoDup_elements).
  destruct (scan_sums_dom _ _ _ _ _ Hs H0) as [acc Hacc]. exists acc. split; [done|].
  destruct (scan_sums_spec _ _ _ Hnd Hs a acc Hacc) as (acc1 & E1 & [[Hn ->]|[Hin Hr]]).
  - simplify_eq. rewrite no_posted_entry; [by unfold int64_min, int64_max|].
    intros Hp. apply Hn. rewrite Hkeys. apply list_elem_of_filter. split; [by apply in_id_strings|].
    by apply elem_of_elements.
  - unfold rows in Hin. apply list_elem_of_fmap in Hin as (b & E & _). simplify_eq. by split; [|congruence].
Qed.

Definition locked_account (tn a : uuid) (m : gmap uuid Account) (t : txst) (d : db) : Prop :=
  LRow T_accounts a ∈ tx_locks t /\
  (exists row, accounts d !! a = Some row /\ ac_tenant_id row = tn) /\
  exists acc, m !! a = Some acc /\ acc_Balance acc = posted_sum d a /\
    int64_min <= posted_sum d a <= int64_max.

Lemma locked_account_later tn a m t d t' d' :
  ledger_wf d -> later t d t' d' -> locked_account tn a m t d -> locked_account tn a m t' d'.
Proof.
  intros Hwf [Hl _ Hr] (Hin & (row & Hrow & Ht) & acc & Hm & Hb & Hrange). split_and!.
  - by apply Hl.
  - exists row. split; [by eapply rely_account|done].
  - exists acc. rewrite (rely_balance _ _ _ _ Hr) by done. done.
Qed.

Lemma lock_statement_in_tx tn strs t d :
  tx_ok [] [] t d ->
  in_tx (sql_exec OnTx (q_lock_accounts strs tn)) t d (fun rows t' d' =>
    tx_ok [] [] t' d' /\ later t d t' d' /\
    rows = merge_sort id_le (filter (fun p => uuid_String p.1 ∈ strs /\ ac_tenant_id p.2 = tn)
                               (map_to_list (accounts d))) /\
    forall p, p ∈ rows -> LRow T_accounts p.1 ∈ tx_locks t').
Proof.
  intros Hok. apply in_tx_exec; [apply Hok|]. intros others tk rows d1 Htk o Ho Hr.
  assert (Hseen : seen t d = d) by (unfold seen; by rewrite (to_writes _ _ _ _ Hok)).
  pose proof (later_extend _ _ _ _ Hr) as Hl. unfold o, q_lock_accounts in *. rewrite Hseen in *.
  simpl in Ho. injection Ho as <-. split_and!; [|done..|].
  - destruct Hok as [? Hw ? [? ?] ?]. split; simpl; [done|by rewrite Hw|set_solver| |by eapply rely_wf].
    split; [done|set_solver].
  - intros p Hp. simpl. apply elem_of_app. right. apply elem_of_app. left. simpl.
    by apply (list_elem_of_fmap_2 (fun q => LRow T_accounts q.1)).
Qed.

Lemma sum_statement_in_tx strs t d :
  tx_ok [] [] t d ->
  in_tx (sql_exec OnTx (q_sum_balances strs)) t d (fun sums t' d' =>
    tx_ok [] [] t' d' /\ later t d t' d' /\
    sums = (fun a => (a, posted_sum d a)) <$>
             filter (fun a => uuid_String a ∈ strs) (elements (posted_accounts d))).
Proof.
  intros Hok. apply in_tx_exec; [apply Hok|]. intros others tk rows d1 Htk o Ho Hr.
  assert (Hseen : seen t d = d) by (unfold seen; by rewrite (to_writes _ _ _ _ Hok)).
  pose proof (later_extend _ _ _ _ Hr) as Hl. unfold o, q_sum_balances, select in *.
  rewrite Hseen in *. simpl in Ho. injection Ho as <-. split_and!; [|done..].
  destruct Hok as [? Hw ? [? ?] ?]. split; simpl; [done|by rewrite Hw|set_solver| |by eapply rely_wf].
  split; [done|set_solver].
Qed.

Lemma LockAccountsForUpdate_in_tx tn ids t d :
  tx_ok [] [] t d ->
  in_tx (LockAccountsForUpdate tn ids) t d (fun m t' d' =>
    tx_ok [] [] t' d' /\ later t d t' d' /\ forall a, a ∈ ids -> locked_account tn a m t' d').
Proof.
  intros Hok. unfold LockAccountsForUpdate. destruct ids as [|i0 ids0].
  { apply in_tx_ret. split_and!; [done|apply later_refl|set_solver]. }
  set (ids := i0 :: ids0).
  eapply in_tx_ebind; [by apply in_tx_wrap, lock_statement_in_tx|].
  intros rows t1 d1 (Hok1 & Hl1 & Hrows & Hlk).
  set (out := list_to_map _). destruct (head _) as [i|] eqn:Eh; [apply in_tx_err|].
  assert (Hall : forall a, a ∈ ids -> is_Some (out !! a)).
  { intros a Ha. apply not_eq_None_Some. intros Hn. apply head_None in Eh.
    assert (Hin : a ∈ filter (fun i => out !! i = None) (merge_sort uuid_text_le ids)).
    { apply list_elem_of_filter. by rewrite merge_sort_Permutation. }
    rewrite Eh in Hin. by apply not_elem_of_nil in Hin. }
  eapply in_tx_ebind; [by apply in_tx_wrap, sum_statement_in_tx|].
  intros sums t2 d2 (Hok2 & Hl2 & Hsums).
  destruct (scan_sums sums out) as [e|m] eqn:Es; [apply in_tx_err|]. apply in_tx_ret.
  split_and!; [done|by eapply later_trans|]. intros a Ha.
  eapply locked_account_later; [apply Hok1|exact Hl2|].
  destruct (Hall a Ha) as [acc Hacc].
  destruct (lock_rows_spec _ _ _ _ Hrows a acc Hacc) as (Hz & row & Hin & Hrow & Htn).
  split_and!.
  - apply (Hlk _ Hin).
  - exists row. split; [|done]. eapply rely_account; [apply Hl1|apply Hok|done].
  - subst sums. eapply sum_rows_spec; eauto.
Qed.

(** *** Reading a transaction, and moving its status *)

Lemma tx_ok_read {R} (q : outcome R) t d d' :
  tx_ok [] [] t d -> oc_writes q = [] -> rely (tx_locks t ++ needed q) d d' ->
  tx_ok [] [] (tx_extend t q) d' /\ later t d (tx_extend t q) d'.
Proof.
  intros [? Hw ? [? ?] ?] Hq Hr. split; [|by apply later_extend].
  split; simpl; [done|by rewrite Hw, Hq|set_solver| |by eapply rely_wf]. split; [done|set_solver].
Qed.

(** [loaded tn id txn ents d]: what GetTransaction returned still describes
    transaction [id] of the tenant, its status aside. *)
Record loaded (tn id : uuid) (txn : Transaction) (ents : list Entry) (d : db) : Prop := Loaded {
  ld_id : txn_ID txn = id;
  ld_tenant : txn_TenantID txn = tn;
  ld_row : exists st, transactions d !! id = Some (TransactionRow tn st (txn_CreatedAt txn));
  ld_accounts : forall e r, entries d !! e = Some r -> en_transaction_id r = id ->
    en_account_id r ∈ (ent_AccountID <$> ents);
  ld_net : forall a, net a (entry_legs ents) = net_of d id a
}.

Lemma loaded_rely L tn id txn ents d d' :
  ledger_wf d -> rely L d d' -> loaded tn id txn ents d -> loaded tn id txn ents d'.
Proof.
  intros Hwf Hr [Hi Ht [st Hrow] Ha Hn].
  destruct (rely_same_txn _ _ _ _ _ Hr Hwf Hrow) as (He & Hn' & row & [tn' st' c'] & ? & Hrow' & E1 & E2).
  simplify_eq/=. split; [done..| | |].
  - by exists st'.
  - intros e r Her Et. apply (Ha e); [|done]. by apply He.
  - intros a. by rewrite Hn'.
Qed.

Lemma entries_net tn id d a :
  (forall e r, entries d !! e = Some r -> en_transaction_id r = id -> en_tenant_id r = tn) ->
  sumZ ((fun p => whenZ (en_account_id p.2 = a) (en_amount_minor p.2)) <$>
    merge_sort entry_created_le
      (filter (fun p => en_transaction_id p.2 = id /\ en_tenant_id p.2 = tn) (map_to_list (entries d)))) =
  net_of d id a.
Proof.
  intros Htn. rewrite merge_sort_Permutation, sumZ_filter. unfold net_of, map_sumZ.
  apply sumZ_fmap_ext. intros [e r] He%elem_of_map_to_list. simpl.
  specialize (Htn e r He). unfold whenZ. repeat case_decide; by naive_solver.
Qed.

Lemma GetTransaction_in_tx tn id t d :
  tx_ok [] [] t d ->
  in_tx (repo_GetTransaction OnTx tn id) t d (fun r t' d' =>
    tx_ok [] [] t' d' /\ later t d t' d' /\ loaded tn id r.1 r.2 d').
Proof.
  intros Hok log Q He HQ. unfold repo_GetTransaction. apply wp_bind.
  apply wp_sql_row_tx; [apply Hok|intros e ??; by case_match; apply He|].
  intros others tk [i row] d1 Htk o Ho Hr.
  assert (Hseen : seen t d = d) by (unfold seen; by rewrite (to_writes _ _ _ _ Hok)).
  destruct (tx_ok_read o _ _ _ Hok eq_refl Hr) as [Hok1 Hl1].
  unfold o, q_get_transaction, select in Ho. rewrite Hseen in Ho. simpl in Ho.
  destruct (transactions d !! id) as [row0|] eqn:Erow; [|done].
  destruct (decide (tr_tenant_id row0 = tn)) as [<-|]; [|done]. injection Ho as <- <-.
  set (t1 := tx_extend t o) in *. clearbody t1. clear o Hr.
  destruct (rely_same_txn _ _ _ _ _ (lt_rely _ _ _ _ Hl1) (to_wf _ _ _ _ Hok) Erow)
    as (_ & _ & row1 & row2 & E1 & Hrow2 & Et2 & Ec2). rewrite Erow in E1. injection E1 as ->.
  apply wp_ebind, wp_wrap_err, wp_sql_exec_tx; [apply Hok1|intros ???; apply He|].
  intros others2 tk2 rows d2 Htk2 o Ho2 Hr2.
  assert (Hseen1 : seen t1 d1 = d1) by (unfold seen; by rewrite (to_writes _ _ _ _ Hok1)).
  destruct (tx_ok_read o _ _ _ Hok1 eq_refl Hr2) as [Hok2 Hl2].
  unfold o, q_get_entries, select in Ho2. rewrite Hseen1 in Ho2. simpl in Ho2. injection Ho2 as <-.
  simpl. apply HQ. split_and!; [done|by eapply later_trans|].
  eapply loaded_rely; [apply Hok1|apply Hl2|].
  assert (Htn : forall e r, entries d1 !! e = Some r -> en_transaction_id r = id ->
            en_tenant_id r = tr_tenant_id row1).
  { intros e r Her <-. destruct (to_wf _ _ _ _ Hok1 e r Her) as (_ & t2 & Hx & <-). congruence. }
  split; simpl; [done..| | |].
  - destruct row2; simplify_eq/=. eauto.
  - intros e r Her Ex. rewrite <- list_fmap_compose. apply list_elem_of_fmap.
    exists (e, r). split; [done|]. rewrite merge_sort_Permutation, list_elem_of_filter.
    split; [by eauto|]. by apply elem_of_map_to_list.
  - intros a. rewrite <- (entries_net _ _ _ _ Htn). unfold net, entry_legs.
    by rewrite <- !list_fmap_compose.
Qed.

Lemma UpdateTransactionStatusGuarded_in_tx tn id new t d :
  tx_ok [] [] t d ->
  in_tx (UpdateTransactionStatusGuarded tn id StatusPending new) t d (fun _ t' d' => exists c,
    tx_ok [WTransaction id (TransactionRow tn new c)] [] t' d' /\ later t d t' d' /\
    transactions d' !! id = Some (TransactionRow tn StatusPending c)).
Proof.
  intros Hok. unfold UpdateTransactionStatusGuarded.
  assert (Hseen : seen t d = d) by (unfold seen; by rewrite (to_writes _ _ _ _ Hok)).
  eapply (in_tx_ebind _ _ _ _ _ _ (fun n t' d' => n = 0%Z \/ exists c, n = 1%Z /\
    tx_ok [WTransaction id (TransactionRow tn new c)] [] t' d' /\ later t d t' d' /\
    transactions d' !! id = Some (TransactionRow tn StatusPending c))).
  - apply in_tx_wrap, in_tx_exec; [apply Hok|]. intros others tk n d' Htk o Ho Hr.
    pose proof (later_extend _ _ _ _ Hr) as Hl.
    unfold o, q_update_status in *. rewrite Hseen in *.
    destruct (transactions d !! id) as [row|] eqn:Erow; [|injection Ho as <-; by left].
    destruct (decide _) as [[<- Est]|]; [|injection Ho as <-; by left].
    simpl in Ho. injection Ho as <-. right. exists (tr_created_at row). split_and!; [done| |done|].
    + destruct Hok as [? Hw ? [? ?] ?]. split; simpl; [done|by rewrite Hw| | |by eapply rely_wf].
      * intros w Hin%list_elem_of_singleton. rewrite Hin. apply elem_of_app. right. left.
      * apply inserts_nil. apply NoDup_singleton.
    + rewrite (frame_transactions _ _ _ (rely_frame _ _ _ _ Hr)) by (apply elem_of_app; right; left).
      rewrite Erow. destruct row; simpl in *. by subst.
  - intros n t1 d1 Hn. destruct (decide (n = 0%Z)) as [->|Hne].
    + intros log Q He _. apply wp_bind. intros others tk r tx' e _ Hs.
      pose proof (exec_step_read _ _ _ _ _ _ _ _ Hs) as ->.
      split; [done|]. intros d2 _. simpl. repeat case_match; apply He.
    + destruct Hn as [?|(c & _ & ?)]; [done|]. apply in_tx_ret. eauto.
Qed.

(** *** Events and audit rows *)

Context (events_ok : forall e, svc_events s = Some e -> EventEnqueuerOk e).
Context (audit_ok : forall a, svc_audit s = Some a -> AuditRecorderOk a).

Lemma emitEvent_in_tx tn et txn pre ins t d :
  tx_ok pre ins t d ->
  in_tx (emitEvent s tn et txn) t d (fun _ t' d' => exists i,
    tx_ok pre (ins ++ (if svc_events s is Some _
       then [WEvent i (new_event_row tn et (transactionEventJSON txn) (tx_start t))] else [])) t' d' /\
    later t d t' d').
Proof.
  intros Hok. unfold emitEvent. destruct (svc_events s) as [ev|] eqn:E in |- *.
  - apply in_tx_wrap. eapply in_tx_mono; [apply (events_ok _ E)|]; [apply Hok|].
    intros _ t' d' (i & Hi & -> & Hr). exists i.
    split; [by eapply tx_ok_add|by eapply later_add].
  - apply in_tx_ret. exists 0%N. rewrite app_nil_r. split; [done|apply later_refl].
Qed.

Lemma recordAudit_in_tx tn actor action payload pre ins t d :
  tx_ok pre ins t d ->
  in_tx (recordAudit s tn actor action payload) t d (fun _ t' d' => exists j,
    tx_ok pre (ins ++ (if svc_audit s is Some _
       then [WAudit j (AuditRow tn action actor payload (tx_start t))] else [])) t' d' /\
    later t d t' d').
Proof.
  intros Hok. unfold recordAudit. destruct (svc_audit s) as [au|] eqn:E in |- *.
  - eapply in_tx_mono; [apply (audit_ok _ E)|]; [apply Hok|].
    intros _ t' d' (i & Hi & -> & Hr). exists i.
    split; [by eapply tx_ok_add|by eapply later_add].
  - apply in_tx_ret. exists 0%N. rewrite app_nil_r. split; [done|apply later_refl].
Qed.
(** *** The use cases *)

Lemma tx_ok_fresh now d : ledger_wf d -> tx_ok [] [] (tx_fresh now) d.
Proof. intros Hwf. split; try done; [set_solver|]. split; [constructor|set_solver]. Qed.

Lemma funded_of_locked tn a m t d legs :
  locked_account tn a m t d -> first_negative (project (acc_Balance <$> m) legs) = None ->
  a ∈ legs.*1 -> funded d tn a (net a legs).
Proof.
  intros (_ & Hrow & acc & Hm & Hb & Hr) Hn Ha. split_and!; [done|apply Hr..|].
  rewrite first_negative_None in Hn. apply (Hn a).
  rewrite project_spec by done. rewrite lookup_fmap, Hm. simpl. by rewrite Hb.
Qed.

Lemma funded_locked_later tn a t d t' d' change :
  LRow T_accounts a ∈ tx_locks t -> ledger_wf d -> later t d t' d' -> funded d tn a change ->
  funded d' tn a change.
Proof.
  intros Hin Hwf [_ _ Hr] ((row & Hrow & Htn) & Hb). unfold funded.
  rewrite (rely_balance _ _ _ _ Hr) by done. split; [|done].
  exists row. split; [by eapply rely_account|done].
Qed.

Lemma tx_ok_writes ins t d : tx_ok [] ins t d -> seen t d = apply_writes ins d.
Proof. intros Hok. unfold seen. by rewrite (to_writes _ _ _ _ Hok). Qed.

(** The end of a transaction that created [txn] with [rows]: event, audit
    row, COMMIT. *)
Lemma finish_created req st et ac pre1 pre2 txn rows t d (Eff : Transaction -> list Entry -> db -> db -> Prop) :
  tx_ok [] (WTransaction (txn_ID txn) (TransactionRow (req_TenantID req) st (txn_CreatedAt txn))
            :: (entry_write <$> rows)) t d ->
  txn_TenantID txn = req_TenantID req -> txn_Status txn = st ->
  Forall2 (row_for (req_TenantID req) (txn_ID txn)) (req_Entries req) rows ->
  (forall t' d' dc, later t d t' d' -> created s req st et ac txn rows d' dc ->
     Eff txn rows d' dc /\ guar (tx_locks t') d' dc) ->
  commits (ebind (emitEvent s (req_TenantID req) et txn) (fun _ =>
    ebind (wrap_err pre1 (recordAudit s (req_TenantID req) (req_ActorID req) ac
                            (transferAuditPayload txn (req_Entries req)))) (fun _ =>
    ebind (wrap_err pre2 sql_commit) (fun _ => Ret (inr (txn, rows)))))) t d
    (fun a => Eff a.1 a.2).
Proof.
  intros Hok Htn Hst Hrows HE.
  eapply commits_ebind; [by apply emitEvent_in_tx|]. intros _ t1 d1 (i & Hok1 & Hl1).
  eapply commits_ebind; [by apply in_tx_wrap, recordAudit_in_tx|]. intros _ t2 d2 (j & Hok2 & Hl2).
  rewrite (lt_start _ _ _ _ Hl1) in Hok2.
  assert (Hc : created s req st et ac txn rows d2 (seen t2 d2)).
  { split_and!; try done. eexists _, (tx_start t). split; [by exists i, j|].
    rewrite (tx_ok_writes _ _ _ Hok2). pose proof (to_inserts _ _ _ _ Hok2) as Hins.
    rewrite <- app_assoc in Hins |- *. exact (conj Hins eq_refl). }
  destruct (HE t2 d2 _ (later_trans _ _ _ _ _ _ Hl1 Hl2) Hc) as [HEff Hg].
  apply commits_commit; [apply Hok2| |done|done].
  rewrite (to_writes _ _ _ _ Hok2). done.
Qed.

Lemma ExecuteTransfer_wp req log d :
  ledger_wf d ->
  wp guar tick_ok (ExecuteTransfer s req) None log d (fun r tx log' _ =>
    tx = None /\ tx_result tick_ok (fun a => transfer_effect s req a.1 a.2) log r log').
Proof.
  intros Hwf. unfold ExecuteTransfer. destruct (validateEntries _) eqn:Ev; [by split; [|left]|].
  apply wp_transaction. intros now d0 Hr0.
  pose proof (tx_ok_fresh now _ (rely_wf _ _ _ Hr0 Hwf)) as Hok0.
  eapply commits_ebind; [by apply LockAccountsForUpdate_in_tx|]. intros m t1 d1 (Hok1 & _ & Hlk).
  destruct (first_negative _) as [i|] eqn:En; [apply commits_err|].
  eapply commits_ebind; [by apply InsertTransactionWithEntries_in_tx|].
  intros [txn rows] t2 d2 (Hok2 & Hl2 & Htn & Hst & Hrows & _).
  apply (finish_created req StatusPosted _ _ _ _ txn rows t2 d2 (transfer_effect s req)); try done.
  intros t3 d3 dc Hl3 Hc.
  pose proof (later_trans _ _ _ _ _ _ Hl2 Hl3) as Hl.
  assert (Hmine : forall e, e ∈ req_Entries req -> LRow T_accounts (in_AccountID e) ∈ tx_locks t1 /\
    funded d1 (req_TenantID req) (in_AccountID e) (net (in_AccountID e) (input_legs (req_Entries req)))).
  { intros e He. assert (Ha : locked_account (req_TenantID req) (in_AccountID e) m t1 d1).
    { apply Hlk. apply uniqueAccountIDs_spec. eauto. }
    split; [apply Ha|]. eapply funded_of_locked; [done..|].
    unfold input_legs. rewrite <- list_fmap_compose. apply list_elem_of_fmap. eauto. }
  assert (Heff : transfer_effect s req txn rows d3 dc).
  { split_and!; [done| |done]. intros e He. destruct (Hmine e He) as [Hin Hf].
    eapply funded_locked_later; [exact Hin|apply Hok1|exact Hl|done]. }
  split; [done|]. eapply LTransfer; [done|].
  intros e He. apply Hl. by apply Hmine.
Qed.

Lemma CreatePendingTransaction_wp req log d :
  ledger_wf d ->
  wp guar tick_ok (CreatePendingTransaction s req) None log d (fun r tx log' _ =>
    tx = None /\ tx_result tick_ok (fun a => pending_effect s req a.1 a.2) log r log').
Proof.
  intros Hwf. unfold CreatePendingTransaction. destruct (validateEntries _) eqn:Ev; [by split; [|left]|].
  apply wp_transaction. intros now d0 Hr0.
  pose proof (tx_ok_fresh now _ (rely_wf _ _ _ Hr0 Hwf)) as Hok0.
  eapply commits_ebind; [by apply InsertTransactionWithEntries_in_tx|].
  intros [txn rows] t2 d2 (Hok2 & Hl2 & Htn & Hst & Hrows & Hacc).
  apply (finish_created req StatusPending _ _ _ _ txn rows t2 d2 (pending_effect s req)); try done.
  intros t3 d3 dc Hl3 Hc.
  assert (Heff : pending_effect s req txn rows d3 dc).
  { split_and!; [done| |done]. intros e He. destruct (Hacc e He) as [row Hrow].
    exists row. eapply rely_account; [apply Hl3|apply Hok2|done]. }
  split; [done|]. by eapply LPending.
Qed.

(** The end of a transaction that resolved [id]. *)
Lemma finish_resolved tn id actor st et ac pre1 pre2 txn c t d (Eff : Transaction -> db -> db -> Prop) :
  tx_ok [WTransaction id (TransactionRow tn st c)] [] t d ->
  transactions d !! id = Some (TransactionRow tn StatusPending c) ->
  txn_ID txn = id -> txn_TenantID txn = tn -> txn_CreatedAt txn = c -> txn_Status txn = st ->
  (forall t' d' dc, later t d t' d' -> resolved s tn id actor st et ac txn d' dc ->
     Eff txn d' dc /\ guar (tx_locks t') d' dc) ->
  commits (ebind (emitEvent s tn et txn) (fun _ =>
    ebind (wrap_err pre1 (recordAudit s tn actor ac (statusChangeAuditPayload txn))) (fun _ =>
    ebind (wrap_err pre2 sql_commit) (fun _ => Ret (inr txn))))) t d Eff.
Proof.
  intros Hok Hrow Hid Htn Hc Hst HE.
  eapply commits_ebind; [by apply emitEvent_in_tx|]. intros _ t1 d1 (i & Hok1 & Hl1).
  eapply commits_ebind; [by apply in_tx_wrap, recordAudit_in_tx|]. intros _ t2 d2 (j & Hok2 & Hl2).
  rewrite (lt_start _ _ _ _ Hl1) in Hok2.
  pose proof (later_trans _ _ _ _ _ _ Hl1 Hl2) as Hl.
  assert (Hrow2 : transactions d2 !! id = Some (TransactionRow tn StatusPending c)).
  { rewrite (frame_transactions _ _ _ (rely_frame _ _ _ _ (lt_rely _ _ _ _ Hl))); [done|].
    apply (to_locked _ _ _ _ Hok (WTransaction id (TransactionRow tn st c))). left. }
  assert (Hres : resolved s tn id actor st et ac txn d2 (seen t2 d2)).
  { split_and!; try done; [by rewrite Hc|]. eexists _, (tx_start t). split; [by exists i, j|].
    unfold seen. rewrite (to_writes _ _ _ _ Hok2), Hc. exact (conj (to_inserts _ _ _ _ Hok2) eq_refl). }
  destruct (HE t2 d2 _ Hl Hres) as [HEff Hg].
  apply commits_commit; [apply Hok2| |done|done].
  rewrite (to_writes _ _ _ _ Hok2). done.
Qed.

Lemma loaded_created_at tn id txn ents d tn' st c :
  loaded tn id txn ents d -> transactions d !! id = Some (TransactionRow tn' st c) -> txn_CreatedAt txn = c.
Proof. intros [_ _ [st' Hrow] _ _] Hrow'. congruence. Qed.

Lemma PostPendingTransaction_wp tn id actor log d :
  ledger_wf d ->
  wp guar tick_ok (PostPendingTransaction s tn id actor) None log d (fun r tx log' _ =>
    tx = None /\ tx_result tick_ok (post_effect s tn id actor) log r log').
Proof.
  intros Hwf. unfold PostPendingTransaction. apply wp_transaction. intros now d0 Hr0.
  pose proof (tx_ok_fresh now _ (rely_wf _ _ _ Hr0 Hwf)) as Hok0.
  eapply commits_ebind; [by apply GetTransaction_in_tx|]. intros [txn ents] t1 d1 (Hok1 & _ & Hld).
  simpl in Hld. destruct (decide _); [apply commits_err|].
  eapply commits_ebind; [by apply LockAccountsForUpdate_in_tx|]. intros m t2 d2 (Hok2 & Hl2 & Hlk).
  destruct (first_negative _) as [i|] eqn:En; [apply commits_err|].
  rewrite (ld_id _ _ _ _ _ Hld).
  eapply commits_ebind; [by apply UpdateTransactionStatusGuarded_in_tx|].
  intros _ t3 d3 (c & Hok3 & Hl3 & Hrow3).
  pose proof (loaded_rely _ _ _ _ _ _ _ (to_wf _ _ _ _ Hok1) (lt_rely _ _ _ _ Hl2) Hld) as Hld2.
  pose proof (loaded_rely _ _ _ _ _ _ _ (to_wf _ _ _ _ Hok2) (lt_rely _ _ _ _ Hl3) Hld2) as Hld3.
  eapply (finish_resolved tn id actor StatusPosted _ _ _ _ (with_status txn StatusPosted) c t3 d3
            (post_effect s tn id actor)); try done; [apply Hld|apply Hld| |].
  { simpl. by eapply loaded_created_at. }
  intros t4 d4 dc Hl4 Hres. pose proof (later_trans _ _ _ _ _ _ Hl3 Hl4) as Hl.
  pose proof (loaded_rely _ _ _ _ _ _ _ (to_wf _ _ _ _ Hok3) (lt_rely _ _ _ _ Hl4) Hld3) as Hld4.
  assert (Hmine : forall e r, entries d4 !! e = Some r -> en_transaction_id r = id ->
    LRow T_accounts (en_account_id r) ∈ tx_locks t2 /\
    funded d2 tn (en_account_id r) (net (en_account_id r) (entry_legs ents))).
  { intros e r Her Eid. pose proof (ld_accounts _ _ _ _ _ Hld4 e r Her Eid) as Ha.
    split; [by apply Hlk|]. eapply funded_of_locked; [by apply Hlk|done|].
    unfold entry_legs. rewrite <- list_fmap_compose. exact Ha. }
  assert (Heff : post_effect s tn id actor (with_status txn StatusPosted) d4 dc).
  { split; [|done]. intros e r Her Eid. destruct (Hmine e r Her Eid) as [Hin Hf].
    rewrite <- (ld_net _ _ _ _ _ Hld4).
    eapply funded_locked_later; [exact Hin|apply Hok2|exact Hl|done]. }
  split; [done|]. eapply LPost; [done|]. intros e r Her Eid. apply Hl. by eapply Hmine.
Qed.

Lemma FailPendingTransaction_wp tn id actor log d :
  ledger_wf d ->
  wp guar tick_ok (FailPendingTransaction s tn id actor) None log d (fun r tx log' _ =>
    tx = None /\ tx_result tick_ok (fail_effect s tn id actor) log r log').
Proof.
  intros Hwf. unfold FailPendingTransaction. apply wp_transaction. intros now d0 Hr0.
  pose proof (tx_ok_fresh now _ (rely_wf _ _ _ Hr0 Hwf)) as Hok0.
  eapply commits_ebind; [by apply GetTransaction_in_tx|]. intros [txn ents] t1 d1 (Hok1 & _ & Hld).
  simpl in Hld. destruct (decide _); [apply commits_err|].
  rewrite (ld_id _ _ _ _ _ Hld).
  eapply commits_ebind; [by apply UpdateTransactionStatusGuarded_in_tx|].
  intros _ t3 d3 (c & Hok3 & Hl3 & Hrow3).
  pose proof (loaded_rely _ _ _ _ _ _ _ (to_wf _ _ _ _ Hok1) (lt_rely _ _ _ _ Hl3) Hld) as Hld3.
  eapply (finish_resolved tn id actor StatusFailed _ _ _ _ (with_status txn StatusFailed) c t3 d3
            (fail_effect s tn id actor)); try done; [apply Hld|apply Hld| |].
  { simpl. by eapply loaded_created_at. }
  intros t4 d4 dc _ Hres. split; [done|]. by eapply LFail.
Qed.

Lemma CreateAccount_wp tn name actor log d :
  ledger_wf d ->
  wp guar tick_ok (CreateAccount s tn name actor) None log d (fun r tx log' _ =>
    tx = None /\ tx_result tick_ok (account_effect s tn name actor) log r log').
Proof.
  intros Hwf. unfold CreateAccount. apply wp_transaction. intros now d0 Hr0.
  pose proof (tx_ok_fresh now _ (rely_wf _ _ _ Hr0 Hwf)) as Hok0.
  eapply commits_ebind.
  { unfold repo_CreateAccount. eapply in_tx_ebind.
    - apply in_tx_wrap. refine (in_tx_guarded_row _ _ _ _ _ _ _ (fun r t' d' =>
        tx_ok [] [WAccount r.1 (AccountRow tn name r.2)] t' d') _ _); [done|].
      intros tk d' Htk ev Hc Hr. eapply (tx_ok_add [] []); [done|reflexivity| |exact Hr].
      apply has_row_false. eapply Hc. left.
    - intros [i created] t1 d1 Hok1. apply in_tx_ret.
      exact (conj Hok1 (conj eq_refl (conj eq_refl eq_refl)) :
        (fun acc t1 d1 => tx_ok [] [WAccount (acc_ID acc) (AccountRow tn name (acc_CreatedAt acc))] t1 d1 /\
           acc_TenantID acc = tn /\ acc_Name acc = name /\ acc_Balance acc = 0)
          {| acc_ID := i; acc_TenantID := tn; acc_Name := name; acc_CreatedAt := created;
             acc_Balance := 0 |} t1 d1). }
  intros acc t1 d1 (Hok1 & Htn & Hn & Hb).
  eapply commits_ebind; [by apply in_tx_wrap, recordAudit_in_tx|]. intros _ t2 d2 (j & Hok2 & Hl2).
  assert (Heff : account_effect s tn name actor acc d2 (seen t2 d2)).
  { rewrite Hn in Hok2. split_and!; try done. exists j, (tx_start t1).
    rewrite (tx_ok_writes _ _ _ Hok2). exact (conj (to_inserts _ _ _ _ Hok2) eq_refl). }
  apply commits_commit; [apply Hok2| | |done].
  - rewrite (to_writes _ _ _ _ Hok2). done.
  - by eapply LAccount.
Qed.
End ledger.
