(* ===== verification/LedgerFacts.v ===== *)
(** * Invariants of the ledger's abstract machine

    What holds along every sequence of [ledger_step]s, however long: money is
    conserved, funded accounts stay funded, a transaction leaves the pending
    state once, entries are immutable, posted entries stay within one tenant, and
    every state change is announced in the outbox and in the audit trail. *)

From S2P Require Import Prelude GoBase Db Prog ProgFacts Interfaces Ledger LedgerSpec LedgerWp.
Local Open Scope Z_scope.

(** ** Definitions *)

Section reach.
Context `{UuidLib} (s : Service).

Definition ledger_reach : db -> db -> Prop := rtc (fun a b => exists L, ledger_step s L a b).
End reach.

(** Every amount ever entered, added up, fits an [int64]. *)
Definition volume (d : db) : Z := map_sumZ (fun p => Z.abs (en_amount_minor p.2)) (entries d).
Definition bounded (d : db) : Prop := volume d <= int64_max.

(** The total of the entries of a transaction, exactly. *)
Definition txn_total (d : db) (t : uuid) : Z :=
  map_sumZ (fun p => whenZ (en_transaction_id p.2 = t) (en_amount_minor p.2)) (entries d).

(** Each stored transaction sums to zero, modulo 2^64. *)
Definition balanced (d : db) : Prop :=
  forall t, is_Some (transactions d !! t) -> wrap64 (txn_total d t) = 0.

(** The sum of all balances, as GetAccount computes them. *)
Definition supply (d : db) : Z := map_sumZ (fun p => posted_sum d p.1) (accounts d).

(** The accounts of a posted transaction belong to its tenant. *)
Definition isolated (d : db) : Prop :=
  forall e r t, entries d !! e = Some r -> transactions d !! en_transaction_id r = Some t ->
    tr_status t = StatusPosted ->
    exists acc, accounts d !! en_account_id r = Some acc /\ ac_tenant_id acc = tr_tenant_id t.

(** What tells the outside about a transaction in its present state. *)
Definition event_of_status (st : txn_status) : string :=
  match st with
  | StatusPending => EventTransactionPending
  | StatusPosted => EventTransactionPosted
  | StatusFailed => EventTransactionFailed
  end.

Definition audit_of_status (st : txn_status) (action : string) : Prop :=
  match st with
  | StatusPending => action = AuditTransactionPendingCreated
  | StatusPosted => action = AuditTransactionTransferred \/ action = AuditTransactionPosted
  | StatusFailed => action = AuditTransactionFailed
  end.

Definition announced `{UuidLib} (d : db) : Prop :=
  forall t row, transactions d !! t = Some row ->
    exists i e, webhook_events d !! i = Some e /\ ev_tenant_id e = tr_tenant_id row /\
      ev_event_type e = event_of_status (tr_status row) /\
      ev_payload e = JObject [("transaction_id", JString (uuid_String t));
                              ("status", JString (status_text (tr_status row)))].

Definition audited `{UuidLib} (d : db) : Prop :=
  forall t row, transactions d !! t = Some row ->
    exists j a, audit_log d !! j = Some a /\ au_tenant_id a = tr_tenant_id row /\
      audit_of_status (tr_status row) (au_action a) /\
      exists rest pre, au_payload a =
        JObject (pre ++ [("status", JString (status_text (tr_status row)));
                         ("transaction_id", JString (uuid_String t))] ++ rest).

(** ** More sums *)

Lemma sumZ_submseteq (l k : list Z) :
  l ⊆+ k -> (forall x, x ∈ k -> 0 <= x) -> sumZ l <= sumZ k.
Proof.
  intros [r Hr]%submseteq_Permutation Hk. rewrite Hr, sumZ_app.
  assert (0 <= sumZ r); [|lia].
  rewrite <- (list_fmap_id r). apply sumZ_fmap_nonneg. intros x Hx. apply Hk. rewrite Hr. apply elem_of_app. by right.
Qed.

Lemma map_sumZ_mono `{Countable K} {V} (f : K * V -> Z) (m m' : gmap K V) :
  m ⊆ m' -> (forall i x, m' !! i = Some x -> 0 <= f (i, x)) -> map_sumZ f m <= map_sumZ f m'.
Proof.
  intros Hm Hf. unfold map_sumZ. apply sumZ_submseteq.
  - apply fmap_submseteq. by apply map_to_list_submseteq.
  - intros x ([i v] & -> & Hin)%list_elem_of_fmap. apply Hf. by apply elem_of_map_to_list.
Qed.

Lemma map_sumZ_abs `{Countable K} {V} (f g : K * V -> Z) (m : gmap K V) :
  (forall i x, m !! i = Some x -> Z.abs (f (i, x)) <= g (i, x)) -> Z.abs (map_sumZ f m) <= map_sumZ g m.
Proof.
  intros Hf. unfold map_sumZ. etransitivity; [apply sumZ_fmap_abs_le|].
  apply sumZ_fmap_le. intros [i x] Hin. apply Hf. by apply elem_of_map_to_list.
Qed.

(** The term of one key. *)
Lemma map_sumZ_single `{Countable K} {V} (f : K * V -> Z) (m : gmap K V) i x :
  m !! i = Some x -> map_sumZ (fun p => whenZ (p.1 = i) (f p)) m = f (i, x).
Proof.
  intros Hi. rewrite <- (insert_delete_id m i x Hi), map_sumZ_insert by apply lookup_delete_eq.
  simpl. rewrite whenZ_True by done. rewrite map_sumZ_zero; [lia|].
  intros j y Hj. apply whenZ_False. simpl. intros ->. by rewrite lookup_delete_eq in Hj.
Qed.

Lemma sumZ_swap {A B} (f : A -> B -> Z) (l : list A) (k : list B) :
  sumZ ((fun x => sumZ (f x <$> k)) <$> l) = sumZ ((fun y => sumZ ((fun x => f x y) <$> l)) <$> k).
Proof.
  induction l as [|x l IH]; csimpl.
  - symmetry. by apply sumZ_fmap_zero.
  - rewrite IH, <- sumZ_fmap_add. done.
Qed.

Lemma map_sumZ_all_zero `{Countable K} {V} (f : K * V -> Z) (m : gmap K V) :
  (forall i x, m !! i = Some x -> 0 <= f (i, x)) -> map_sumZ f m <= 0 ->
  forall i x, m !! i = Some x -> f (i, x) = 0.
Proof.
  intros Hf Hs i x Hi. rewrite <- (insert_delete_id m i x Hi), map_sumZ_insert in Hs by apply lookup_delete_eq.
  pose proof (Hf i x Hi). enough (0 <= map_sumZ f (delete i m)) by lia.
  apply map_sumZ_nonneg. intros j y [_ Hj]%lookup_delete_Some. eauto.
Qed.

Lemma map_sumZ_nonzero `{Countable K} {V} (f : K * V -> Z) (m : gmap K V) :
  map_sumZ f m <> 0 -> exists i x, m !! i = Some x /\ f (i, x) <> 0.
Proof.
  intros Hn. enough (exists p, p ∈ map_to_list m /\ f p <> 0) as ([i x] & Hp%elem_of_map_to_list & ?) by eauto.
  unfold map_sumZ in Hn. induction (map_to_list m) as [|p l IH]; csimpl in *; [done|].
  destruct (decide (f p = 0)) as [E|]; [|exists p; split; [left|done]].
  destruct IH as (q & ? & ?); [lia|]. exists q. split; [by right|done].
Qed.

Lemma wrap64_small z : Z.abs z <= int64_max -> wrap64 z = z.
Proof. intros Hz. apply wrap64_id. unfold int64_max, int64_min in *. lia. Qed.

(** ** One step *)

Section step.
Context `{UuidLib} (s : Service).

(** The entries a step leaves are those it found, or those of a transaction it
    created. *)
Lemma step_entries_kept L d d' :
  ledger_wf d -> ledger_step s L d d' -> entries d ⊆ entries d'.
Proof.
  intros Hwf Hs. apply map_subseteq_spec. intros e r He.
  destruct (Hwf e r He) as (_ & t & Ht & _).
  destruct (step_entries _ _ _ _ _ _ Hwf Hs Ht) as (Hsame & _). by apply Hsame.
Qed.

Lemma posted_sum_bound d a : Z.abs (posted_sum d a) <= volume d.
Proof.
  apply map_sumZ_abs. intros e r _. simpl. unfold whenZ. case_decide; lia.
Qed.

Lemma txn_total_bound d t : Z.abs (txn_total d t) <= volume d.
Proof. apply map_sumZ_abs. intros e r _. simpl. unfold whenZ. case_decide; lia. Qed.

Lemma volume_mono d d' : entries d ⊆ entries d' -> volume d <= volume d'.
Proof. intros Hs. apply map_sumZ_mono; [done|]. intros i x _. simpl. lia. Qed.

Lemma bounded_mono d d' : entries d ⊆ entries d' -> bounded d' -> bounded d.
Proof. unfold bounded. intros Hs%volume_mono ?. lia. Qed.

(** *** Balances *)

Lemma net_not_in a legs : a ∉ legs.*1 -> net a legs = 0.
Proof.
  intros Ha. apply sumZ_fmap_zero. intros l Hl. apply whenZ_False. intros <-. apply Ha.
  by apply list_elem_of_fmap_2.
Qed.

Lemma input_accounts es a : a ∈ (input_legs es).*1 -> exists e, e ∈ es /\ in_AccountID e = a.
Proof.
  unfold input_legs. rewrite <- list_fmap_compose. intros (e & -> & He)%list_elem_of_fmap. eauto.
Qed.

(** A balance that decreases is covered. *)
Lemma step_covered L d d' a :
  ledger_wf d -> bounded d' -> ledger_step s L d d' ->
  posted_sum d' a = posted_sum d a \/ 0 <= posted_sum d' a.
Proof.
  intros Hwf Hb Hs.
  assert (Hw : wrap64 (posted_sum d' a) = posted_sum d' a).
  { apply wrap64_small. etransitivity; [apply posted_sum_bound|exact Hb]. }
  destruct Hs as [req txn rows (_ & Hf & Hc) _|req txn rows (_ & _ & Hc)
    |tn id an txn [Hf Hr] _|tn id an txn Hr|tn name an acc He|[Hsame _]].
  - apply created_spec in Hc; [|done]. rewrite <- Hw. revert Hw.
    rewrite (cf_posted_sum _ _ _ _ _ _ Hc), decide_True by done.
    destruct (decide (a ∈ (input_legs (req_Entries req)).*1)) as [(e & He & <-)%input_accounts|Hn].
    + intros _. right. by apply Hf.
    + intros ->. left. rewrite (net_not_in _ _ Hn). lia.
  - apply created_spec in Hc; [|done]. left.
    rewrite (cf_posted_sum _ _ _ _ _ _ Hc), decide_False by done. lia.
  - apply resolved_spec in Hr. rewrite <- Hw. revert Hw.
    rewrite (rf_posted_sum _ _ _ _ _ _ Hr), decide_True by done.
    destruct (decide (net_of d id a = 0)) as [->|Hn]; [intros ->; left; lia|].
    apply map_sumZ_nonzero in Hn as (e & r & He & Hn). unfold whenZ in Hn. simpl in Hn.
    destruct (decide _) as [[Ei <-]|]; [|done]. intros _. right. by eapply Hf.
  - apply resolved_spec in Hr. left.
    rewrite (rf_posted_sum _ _ _ _ _ _ Hr), decide_False by done. lia.
  - apply account_spec in He as (_ & _ & Et & Ee). left. unfold posted_sum. rewrite Ee.
    apply map_sumZ_ext. intros e r _. apply whenZ_iff. unfold is_posted. by rewrite Et.
  - left. by apply posted_sum_same.
Qed.
(** *** Conservation of money *)

Lemma validateEntries_None es :
  validateEntries es = None <->
  (2 <= length es)%nat /\ (forall e, e ∈ es -> in_AmountMinor e <> 0) /\
  (int64_modulus | sumZ (in_AmountMinor <$> es)).
Proof.
  rewrite <- wrap64_zero, <- Sum_wrap. unfold validateEntries.
  assert (Hz : existsb (fun e => in_AmountMinor e =? 0) es = false <->
               forall e, e ∈ es -> in_AmountMinor e <> 0).
  { rewrite <- not_true_iff_false, existsb_exists. setoid_rewrite Z.eqb_eq.
    setoid_rewrite <- list_elem_of_In. naive_solver. }
  rewrite <- Hz. case_decide; [split; [done|lia]|].
  destruct (existsb _ _); [split; [done|intros (_ & ? & _); done]|].
  destruct (Sum es =? 0) eqn:E; simpl; [rewrite Z.eqb_eq in E|rewrite Z.eqb_neq in E];
    (split; [try done|try tauto]). intros _. split_and!; [lia|done..].
Qed.

Lemma rows_amounts tn t es rows (f : Z -> Z) :
  Forall2 (row_for tn t) es rows ->
  sumZ ((fun r => f (ent_AmountMinor r)) <$> rows) = sumZ ((fun e => f (in_AmountMinor e)) <$> es).
Proof. induction 1 as [|e r es rows (_ & _ & _ & E) _ IH]; csimpl; [done|]. by rewrite E, IH. Qed.

Lemma created_txn_total req st et ac txn rows d d' t :
  ledger_wf d -> created s req st et ac txn rows d d' ->
  txn_total d' t = if decide (t = txn_ID txn) then sumZ (in_AmountMinor <$> req_Entries req)
                   else txn_total d t.
Proof.
  intros Hwf Hc. pose proof Hc as (_ & _ & Hrows & _). apply created_spec in Hc; [|done].
  pose (f (r : entry_row) := whenZ (en_transaction_id r = t) (en_amount_minor r)).
  change (txn_total d' t) with (map_sumZ (fun p => f p.2) (entries d')).
  rewrite (cf_sum _ _ _ _ _ _ Hc). pose proof (rows_txn _ _ _ _ Hrows) as Htx. case_decide as Ht.
  - rewrite map_sumZ_zero.
    + rewrite Z.add_0_l. transitivity (sumZ ((fun r => id (ent_AmountMinor r)) <$> rows)); [|by rewrite (rows_amounts _ _ _ _ id Hrows)].
      apply sumZ_fmap_ext.
      intros r Hr. unfold f. simpl. apply whenZ_True. rewrite Ht. by apply Htx.
    + intros e r He. apply whenZ_False. rewrite Ht. simpl.
      by eapply wf_no_entry; [|apply Hc|].
  - rewrite (sumZ_fmap_zero _ rows); [unfold f, txn_total; lia|].
    intros r Hr. apply whenZ_False. simpl. destruct (Htx r Hr) as [-> _]. congruence.
Qed.

Lemma valid_total req :
  validateEntries (req_Entries req) = None -> (int64_modulus | sumZ (in_AmountMinor <$> req_Entries req)).
Proof. by intros (_ & _ & ?)%validateEntries_None. Qed.

Lemma created_balanced req st et ac txn rows d d' :
  ledger_wf d -> validateEntries (req_Entries req) = None -> created s req st et ac txn rows d d' ->
  balanced d -> balanced d'.
Proof.
  intros Hwf Hv Hc Hb t Ht. rewrite (created_txn_total _ _ _ _ _ _ _ _ t Hwf Hc).
  case_decide as E; [by apply wrap64_zero, valid_total|]. apply Hb.
  apply created_spec in Hc; [|done]. rewrite (cf_transactions _ _ _ _ _ _ Hc) in Ht.
  by rewrite lookup_insert_ne in Ht.
Qed.

Lemma txn_total_same d d' t : entries d' = entries d -> txn_total d' t = txn_total d t.
Proof. unfold txn_total. by intros ->. Qed.

Lemma resolved_balanced tn id an st et ac txn d d' :
  resolved s tn id an st et ac txn d d' -> balanced d -> balanced d'.
Proof.
  intros Hr%resolved_spec Hb t Ht. rewrite (txn_total_same d) by apply Hr. apply Hb.
  rewrite (rf_transactions _ _ _ _ _ _ Hr) in Ht.
  destruct (decide (id = t)) as [<-|]; [rewrite (rf_old _ _ _ _ _ _ Hr); eauto|].
  by rewrite lookup_insert_ne in Ht.
Qed.

(** Every stored transaction stays balanced. *)
Lemma step_balanced L d d' : ledger_wf d -> ledger_step s L d d' -> balanced d -> balanced d'.
Proof.
  intros Hwf Hs Hb. destruct Hs as [req txn rows (Hv & _ & Hc) _|req txn rows (Hv & _ & Hc)
    |tn id an txn [_ Hr] _|tn id an txn Hr|tn name an acc He|[(_ & Et & Ee) _]].
  1, 2: by eapply created_balanced.
  1, 2: by eapply resolved_balanced.
  - apply account_spec in He as (_ & _ & Et & Ee). intros t. rewrite Et.
    rewrite (txn_total_same d) by done. apply Hb.
  - intros t. rewrite Et. rewrite (txn_total_same d) by done. apply Hb.
Qed.

(** The sum of the posted amounts, entry by entry. *)
Definition posted_total (d : db) : Z :=
  map_sumZ (fun p => whenZ (is_posted d (en_transaction_id p.2)) (en_amount_minor p.2)) (entries d).

Lemma supply_total d : ledger_wf d -> supply d = posted_total d.
Proof.
  intros Hwf. unfold supply, posted_total, posted_sum, map_sumZ. rewrite sumZ_swap.
  apply sumZ_fmap_ext. intros [e r] He%elem_of_map_to_list. simpl.
  destruct (Hwf e r He) as [[acc Hacc] _].
  rewrite <- (map_sumZ_single (fun _ => whenZ (is_posted d (en_transaction_id r)) (en_amount_minor r))
                (accounts d) (en_account_id r) acc Hacc).
  unfold map_sumZ. apply sumZ_fmap_ext. intros [a row] _. simpl. unfold whenZ.
  repeat case_decide; naive_solver.
Qed.

Lemma posted_total_same d d' :
  transactions d' = transactions d -> entries d' = entries d -> posted_total d' = posted_total d.
Proof.
  intros Et Ee. unfold posted_total. rewrite Ee. apply map_sumZ_ext. intros e r _.
  apply whenZ_iff. unfold is_posted. by rewrite Et.
Qed.

Lemma created_posted_total req st et ac txn rows d d' :
  ledger_wf d -> created s req st et ac txn rows d d' ->
  posted_total d' = posted_total d +
    (if decide (st = StatusPosted) then sumZ (in_AmountMinor <$> req_Entries req) else 0).
Proof.
  intros Hwf Hc. pose proof Hc as (_ & _ & Hrows & _). apply created_spec in Hc; [|done].
  pose proof (rows_txn _ _ _ _ Hrows) as Htx.
  pose (f (r : entry_row) := whenZ (is_posted d' (en_transaction_id r)) (en_amount_minor r)).
  change (posted_total d') with (map_sumZ (fun p => f p.2) (entries d')).
  rewrite (cf_sum _ _ _ _ _ _ Hc). unfold is_posted in f.
  assert (Hnew : tr_status <$> transactions d' !! txn_ID txn = Some st).
  { by rewrite (cf_transactions _ _ _ _ _ _ Hc), lookup_insert_eq. }
  f_equal.
  - apply map_sumZ_ext. intros e r He. apply whenZ_iff. unfold is_posted.
    rewrite (cf_transactions _ _ _ _ _ _ Hc), lookup_insert_ne; [done|].
    intros E. by eapply wf_no_entry; [|apply Hc|exact He|].
  - case_decide as Hst.
    + transitivity (sumZ ((fun r => id (ent_AmountMinor r)) <$> rows)); [|by rewrite (rows_amounts _ _ _ _ id Hrows)].
      apply sumZ_fmap_ext. intros r Hr.
      apply whenZ_True. simpl. destruct (Htx r Hr) as [-> _]. by rewrite Hnew, Hst.
    + apply sumZ_fmap_zero. intros r Hr. apply whenZ_False. simpl.
      destruct (Htx r Hr) as [-> _]. rewrite Hnew. congruence.
Qed.

Lemma resolved_posted_total tn id an st et ac txn d d' :
  resolved s tn id an st et ac txn d d' ->
  posted_total d' = posted_total d + (if decide (st = StatusPosted) then txn_total d id else 0).
Proof.
  intros Hr%resolved_spec. unfold posted_total at 1. rewrite (rf_entries _ _ _ _ _ _ Hr).
  assert (Hnew : is_posted d' id <-> st = StatusPosted).
  { unfold is_posted. rewrite (rf_transactions _ _ _ _ _ _ Hr), lookup_insert_eq. simpl. split; congruence. }
  assert (Hold : ~ is_posted d id) by (unfold is_posted; by rewrite (rf_old _ _ _ _ _ _ Hr)).
  assert (Hne : forall t, t <> id -> is_posted d' t <-> is_posted d t).
  { intros t ?. unfold is_posted. rewrite (rf_transactions _ _ _ _ _ _ Hr). by rewrite lookup_insert_ne. }
  transitivity (map_sumZ (fun p => whenZ (is_posted d (en_transaction_id p.2)) (en_amount_minor p.2) +
    (if decide (st = StatusPosted) then whenZ (en_transaction_id p.2 = id) (en_amount_minor p.2) else 0))
    (entries d)).
  - apply map_sumZ_ext. intros e r _. simpl.
    destruct (decide (en_transaction_id r = id)) as [->|E].
    + unfold whenZ. repeat case_decide; first [lia | tauto].
    + specialize (Hne _ E). unfold whenZ. repeat case_decide; first [lia | tauto].
  - rewrite map_sumZ_add. unfold posted_total, txn_total. f_equal. case_decide; [done|].
    by apply map_sumZ_zero.
Qed.

Lemma step_posted_total L d d' :
  ledger_wf d -> balanced d -> ledger_step s L d d' -> (int64_modulus | posted_total d' - posted_total d).
Proof.
  intros Hwf Hb Hs.
  assert (Hz : (int64_modulus | 0)) by apply Z.divide_0_r.
  destruct Hs as [req txn rows (Hv & _ & Hc) _|req txn rows (Hv & _ & Hc)
    |tn id an txn [_ Hr] _|tn id an txn Hr|tn name an acc He|[(_ & Et & Ee) _]].
  - rewrite (created_posted_total _ _ _ _ _ _ _ _ Hwf Hc), decide_True, Z.add_simpl_l by done.
    by apply valid_total.
  - rewrite (created_posted_total _ _ _ _ _ _ _ _ Hwf Hc), decide_False, Z.add_simpl_l by done. done.
  - rewrite (resolved_posted_total _ _ _ _ _ _ _ _ _ Hr), decide_True, Z.add_simpl_l by done.
    apply wrap64_zero, Hb. apply resolved_spec in Hr. rewrite (rf_old _ _ _ _ _ _ Hr). eauto.
  - rewrite (resolved_posted_total _ _ _ _ _ _ _ _ _ Hr), decide_False, Z.add_simpl_l by done. done.
  - apply account_spec in He as (_ & _ & Et & Ee).
    rewrite (posted_total_same d), Z.sub_diag by done. done.
  - rewrite (posted_total_same d), Z.sub_diag by done. done.
Qed.
(** *** Tenants *)

Lemma created_isolated req st et ac txn rows d d' :
  ledger_wf d -> created s req st et ac txn rows d d' ->
  (st = StatusPosted -> forall e, e ∈ req_Entries req ->
     exists acc, accounts d !! in_AccountID e = Some acc /\ ac_tenant_id acc = req_TenantID req) ->
  isolated d -> isolated d'.
Proof.
  intros Hwf Hc Hacc Hi e r t. pose proof Hc as (_ & _ & Hrows & _).
  apply created_spec in Hc; [|done].
  rewrite (cf_transactions _ _ _ _ _ _ Hc), (cf_accounts _ _ _ _ _ _ Hc).
  intros [He|(x & Hx & -> & ->)]%(cf_entries_inv _ _ _ _ _ _ Hc).
  - rewrite lookup_insert_ne; [by eapply Hi|]. intros E. by eapply wf_no_entry; [|apply Hc|exact He|].
  - destruct (rows_txn _ _ _ _ Hrows x Hx) as (Et & _ & e' & He' & Ea & _). simpl. rewrite Et, Ea.
    rewrite lookup_insert_eq. intros [= <-] Hst. by apply Hacc.
Qed.

Lemma resolved_isolated tn id an st et ac txn d d' :
  resolved s tn id an st et ac txn d d' ->
  (st = StatusPosted -> forall e r, entries d !! e = Some r -> en_transaction_id r = id ->
     exists acc, accounts d !! en_account_id r = Some acc /\ ac_tenant_id acc = tn) ->
  isolated d -> isolated d'.
Proof.
  intros Hr%resolved_spec Hacc Hi e r t.
  rewrite (rf_transactions _ _ _ _ _ _ Hr), (rf_accounts _ _ _ _ _ _ Hr), (rf_entries _ _ _ _ _ _ Hr).
  intros He. destruct (decide (id = en_transaction_id r)) as [E|E].
  - rewrite <- E, lookup_insert_eq. intros [= <-] Hst. by eapply Hacc.
  - rewrite lookup_insert_ne by done. by eapply Hi.
Qed.

(** Posted money never crosses from one tenant to another. *)
Lemma step_isolated L d d' : ledger_wf d -> ledger_step s L d d' -> isolated d -> isolated d'.
Proof.
  intros Hwf Hs Hi.
  destruct Hs as [req txn rows (_ & Hf & Hc) _|req txn rows (_ & _ & Hc)
    |tn id an txn [Hf Hr] _|tn id an txn Hr|tn name an acc He|[(Ea & Et & Ee) _]].
  - eapply created_isolated; eauto. intros _ e He. by apply Hf.
  - by eapply created_isolated; eauto.
  - eapply resolved_isolated; eauto. intros _ e r He Ei. by eapply Hf.
  - by eapply resolved_isolated; eauto.
  - apply account_spec in He as (Hn & Ea & Et & Ee). intros e r t. rewrite Ea, Et, Ee.
    intros He Ht Hst. destruct (Hi e r t He Ht Hst) as (row & Hrow & ?). exists row. split; [|done].
    rewrite lookup_insert_ne; [done|]. congruence.
  - intros e r t. rewrite Ea, Et, Ee. apply Hi.
Qed.

(** *** Outbox and audit trail *)

Lemma side_event tn et ev an ac pl now ws d :
  side_writes s tn et ev an ac pl now ws -> svc_events s <> None ->
  exists i, webhook_events (apply_writes ws d) !! i = Some (new_event_row tn et ev now).
Proof.
  intros (i & j & ->) Hs. exists i. destruct (svc_events s); [|done].
  unfold apply_writes. destruct (svc_audit s); simpl; by rewrite lookup_insert_eq.
Qed.

Lemma side_audit tn et ev an ac pl now ws d :
  side_writes s tn et ev an ac pl now ws -> svc_audit s <> None ->
  exists j, audit_log (apply_writes ws d) !! j = Some (AuditRow tn ac an pl now).
Proof.
  intros (i & j & ->) Hs. exists j. destruct (svc_audit s); [|done].
  unfold apply_writes. destruct (svc_events s); simpl; by rewrite lookup_insert_eq.
Qed.

(** [d'] was reached by writing, last, the event and the audit row of the
    present state [row] of transaction [t]. *)
Definition told (d' : db) (t : uuid) (row : transaction_row) : Prop :=
  exists tn et an ac pl now txn side dm,
    side_writes s tn et (transactionEventJSON txn) an ac pl now side /\ d' = apply_writes side dm /\
    txn_ID txn = t /\ txn_Status txn = tr_status row /\ tn = tr_tenant_id row /\
    et = event_of_status (tr_status row) /\ audit_of_status (tr_status row) ac /\
    ((exists es, pl = transferAuditPayload txn es) \/ pl = statusChangeAuditPayload txn).

Lemma step_tells L d d' :
  ledger_wf d -> ledger_step s L d d' ->
  forall t row, transactions d' !! t = Some row -> transactions d !! t = Some row \/ told d' t row.
Proof.
  intros Hwf Hs t row Ht.
  assert (Hc : forall req st et ac txn rows, et = event_of_status st -> audit_of_status st ac ->
    created s req st et ac txn rows d d' -> transactions d !! t = Some row \/ told d' t row);
    [|assert (Hr : forall tn id an st et ac txn, et = event_of_status st -> audit_of_status st ac ->
        resolved s tn id an st et ac txn d d' -> transactions d !! t = Some row \/ told d' t row)].
  - intros req st et ac txn rows Het Hac Hc. pose proof Hc as (Htn & Hst & _ & side & now & Hside & _ & Ed).
    apply created_spec in Hc; [|done]. rewrite (cf_transactions _ _ _ _ _ _ Hc) in Ht.
    apply lookup_insert_Some in Ht as [[Eid <-]|[_ ?]]; [right|by left]. simpl.
    rewrite app_comm_cons, apply_writes_app in Ed.
    eexists _, _, _, _, _, _, _, _, _. split_and!; eauto.
  - intros tn id an st et ac txn Het Hac Hr. pose proof Hr as (Hid & Htn & Hst & _ & side & now & Hside & _ & Ed).
    apply resolved_spec in Hr. rewrite (rf_transactions _ _ _ _ _ _ Hr) in Ht.
    apply lookup_insert_Some in Ht as [[Eid <-]|[_ ?]]; [right|by left]. simpl.
    rewrite apply_writes_cons in Ed.
    eexists _, _, _, _, _, _, txn, _, _. split_and!; eauto. congruence.
  - destruct Hs as [req txn rows (_ & _ & Hx) _|req txn rows (_ & _ & Hx)|tn id an txn [_ Hx] _
      |tn id an txn Hx|tn name an acc He|[(_ & Et & _) _]].
    + eapply Hc; [| |exact Hx]; simpl; auto.
    + eapply Hc; [| |exact Hx]; simpl; auto.
    + eapply Hr; [| |exact Hx]; simpl; auto.
    + eapply Hr; [| |exact Hx]; simpl; auto.
    + apply account_spec in He as (_ & _ & Et & _). left. by rewrite <- Et.
    + left. by rewrite <- Et.
Qed.

Lemma step_announced L d d' :
  svc_events s <> None -> ledger_wf d -> ledger_step s L d d' -> announced d -> announced d'.
Proof.
  intros Hev Hwf Hs Ha t row Ht. destruct (step_kept _ _ _ _ Hs) as [Hk _].
  destruct (step_tells _ _ _ Hwf Hs t row Ht)
    as [Hold|(tn & et & an & ac & pl & now & txn & side & dm & Hside & -> & Hid & Hst & Htn & Het & _)].
  - destruct (Ha t row Hold) as (i & e & He & H1 & H2 & H3).
    destruct (Hk i e He) as (e' & He' & E1 & E2 & E3 & _). exists i, e'. split_and!; congruence.
  - destruct (side_event _ _ _ _ _ _ _ _ dm Hside Hev) as [i Hi]. eexists i, _. split; [exact Hi|].
    simpl. unfold transactionEventJSON. by rewrite Hid, Hst.
Qed.

Lemma step_audited L d d' :
  svc_audit s <> None -> ledger_wf d -> ledger_step s L d d' -> audited d -> audited d'.
Proof.
  intros Hau Hwf Hs Ha t row Ht. destruct (step_kept _ _ _ _ Hs) as [_ Hk].
  destruct (step_tells _ _ _ Hwf Hs t row Ht)
    as [Hold|(tn & et & an & ac & pl & now & txn & side & dm & Hside & -> & Hid & Hst & Htn & _ & Hac & Hpl)].
  - destruct (Ha t row Hold) as (j & a & Hj & ?). exists j, a. split; [|done].
    by eapply lookup_weaken.
  - destruct (side_audit _ _ _ _ _ _ _ _ dm Hside Hau) as [j Hj]. eexists j, _. split; [exact Hj|].
    simpl. split_and!; [done..|]. exists [].
    destruct Hpl as [[es ->] | ->]; [eexists [_]|exists []]; unfold transferAuditPayload, statusChangeAuditPayload;
      rewrite Hid, Hst; done.
Qed.
End step.

(** ** Every sequence of steps *)

Section reached.
Context `{UuidLib} (s : Service).
Local Abbreviation ledger_reach := (ledger_reach s).

Lemma reach_invariant (P : db -> Prop) d d' :
  (forall L a b, ledger_wf a -> ledger_step s L a b -> P a -> P b) ->
  ledger_reach d d' -> ledger_wf d -> P d -> P d'.
Proof.
  intros HP. induction 1 as [|a b c [L Hs] _ IH]; [done|]. intros Hwf Ha.
  apply IH; [by eapply step_wf|by eapply HP].
Qed.

Lemma reach_wf d d' : ledger_reach d d' -> ledger_wf d -> ledger_wf d'.
Proof. intros Hr Hwf. apply (reach_invariant ledger_wf d d'); [|done..]. intros. by eapply step_wf. Qed.

Lemma reach_entries d d' : ledger_reach d d' -> ledger_wf d -> entries d ⊆ entries d'.
Proof.
  intros Hr Hwf. apply (reach_invariant (fun x => entries d ⊆ entries x) d d'); [|done..].
  intros L a b Hwa Hs Ha. etransitivity; [done|]. by eapply step_entries_kept.
Qed.

Lemma reach_accounts d d' a row :
  ledger_reach d d' -> ledger_wf d -> accounts d !! a = Some row -> accounts d' !! a = Some row.
Proof.
  intros Hr Hwf. apply (reach_invariant (fun x => accounts x !! a = Some row) d d'); [|done..].
  intros. by eapply step_accounts.
Qed.

Lemma reach_nonneg d d' a :
  ledger_reach d d' -> ledger_wf d -> bounded d' -> 0 <= posted_sum d a -> 0 <= posted_sum d' a.
Proof.
  intros Hr. induction Hr as [|x y z [L Hs] Hr IH]; [done|]. intros Hwf Hb Ha.
  assert (Hwy : ledger_wf y) by by eapply step_wf.
  apply IH; [done..|].
  assert (Hby : bounded y) by (eapply bounded_mono; [by apply reach_entries|done]).
  destruct (step_covered _ _ _ _ a Hwf Hby Hs); lia.
Qed.

Lemma reach_balanced d d' : ledger_reach d d' -> ledger_wf d -> balanced d -> balanced d'.
Proof. apply (reach_invariant balanced). intros L a b Hwf Hs. by eapply step_balanced. Qed.

Lemma reach_supply d d' :
  ledger_reach d d' -> ledger_wf d -> balanced d -> (int64_modulus | supply d' - supply d).
Proof.
  intros Hr Hwf Hb. rewrite (supply_total d Hwf), (supply_total d' (reach_wf _ _ Hr Hwf)).
  induction Hr as [|x y z [L Hs] Hr IH]; [rewrite Z.sub_diag; apply Z.divide_0_r|].
  assert (Hwy : ledger_wf y) by by eapply step_wf.
  replace (posted_total z - posted_total x) with
    ((posted_total z - posted_total y) + (posted_total y - posted_total x)) by lia.
  apply Z.divide_add_r; [|by eapply step_posted_total].
  apply IH; [done|by apply (step_balanced s L x y)].
Qed.

Lemma posted_total_bound d : Z.abs (posted_total d) <= volume d.
Proof. apply map_sumZ_abs. intros e r _. simpl. unfold whenZ. case_decide; lia. Qed.

Lemma reach_supply_exact d d' :
  ledger_reach d d' -> ledger_wf d -> balanced d -> bounded d' -> supply d' = supply d.
Proof.
  intros Hr Hwf Hb Hbd. destruct (reach_supply _ _ Hr Hwf Hb) as [k Hk].
  pose proof (bounded_mono _ _ (reach_entries _ _ Hr Hwf) Hbd) as Hbd0.
  pose proof (reach_wf _ _ Hr Hwf) as Hwf'.
  pose proof (posted_total_bound d). pose proof (posted_total_bound d').
  rewrite <- supply_total in * by done.
  unfold bounded, int64_max, int64_modulus in *. nia.
Qed.

(** With no money to begin with there never is any. *)
Lemma reach_unfunded d d' a row :
  ledger_reach d d' -> ledger_wf d -> balanced d -> bounded d' ->
  (forall b, 0 <= posted_sum d b) -> supply d = 0 ->
  accounts d' !! a = Some row -> posted_sum d' a = 0.
Proof.
  intros Hr Hwf Hb Hbd Hnn Hz Ha.
  pose proof (reach_supply_exact _ _ Hr Hwf Hb Hbd) as Hs. rewrite Hz in Hs.
  apply (map_sumZ_all_zero (fun p => posted_sum d' p.1) (accounts d')) with (i := a) (x := row); [|unfold supply in Hs; lia|done].
  intros b rb _. simpl. eapply reach_nonneg; eauto.
Qed.

(** The life of a stored transaction. *)
Lemma reach_transaction d d' t row :
  ledger_reach d d' -> ledger_wf d -> transactions d !! t = Some row ->
  transactions d' !! t = Some row \/
  (tr_status row = StatusPending /\ exists st, st <> StatusPending /\
     transactions d' !! t = Some (TransactionRow (tr_tenant_id row) st (tr_created_at row))).
Proof.
  intros Hr Hwf Ht.
  apply (reach_invariant (fun x => transactions x !! t = Some row \/
    (tr_status row = StatusPending /\ exists st, st <> StatusPending /\
       transactions x !! t = Some (TransactionRow (tr_tenant_id row) st (tr_created_at row)))) d d');
    [|done|done|by left].
  intros L a b Hwa Hs [Ha|(Hp & st & Hst & Ha)].
  - by eapply step_status.
  - right. split; [done|]. exists st. split; [done|].
    destruct (step_status _ _ _ _ _ _ Hwa Hs Ha) as [?|[? _]]; [done|]. simpl in *. congruence.
Qed.

(** The entries of a stored transaction. *)
Lemma reach_txn_entries d d' t row e r :
  ledger_reach d d' -> ledger_wf d -> transactions d !! t = Some row -> en_transaction_id r = t ->
  (entries d' !! e = Some r <-> entries d !! e = Some r).
Proof.
  intros Hr Hwf Ht Er. revert row Ht. induction Hr as [|x y z [L Hs] Hr IH]; intros row Ht; [done|].
  destruct (step_entries _ _ _ _ _ _ Hwf Hs Ht) as (Hsame & _ & row' & Ht').
  rewrite (IH (step_wf _ _ _ _ Hs Hwf) row' Ht'). by apply Hsame.
Qed.

Lemma reach_isolated d d' : ledger_reach d d' -> ledger_wf d -> isolated d -> isolated d'.
Proof. apply (reach_invariant isolated). intros L a b Hwf Hs. by eapply step_isolated. Qed.

Lemma reach_announced d d' :
  svc_events s <> None -> ledger_reach d d' -> ledger_wf d -> announced d -> announced d'.
Proof. intros Hs. apply (reach_invariant announced). intros. by eapply step_announced. Qed.

Lemma reach_audited d d' :
  svc_audit s <> None -> ledger_reach d d' -> ledger_wf d -> audited d -> audited d'.
Proof. intros Hs. apply (reach_invariant audited). intros. by eapply step_audited. Qed.

Lemma reach_audit_log d d' : ledger_reach d d' -> audit_log d ⊆ audit_log d'.
Proof.
  induction 1 as [|x y z [L Hs] _ IH]; [done|]. etransitivity; [|exact IH].
  by eapply step_kept.
Qed.

(** A transaction is resolved at most once. *)
Lemma resolved_once d1 d1' d2 d2' tn1 tn2 id an1 an2 st1 st2 et1 et2 ac1 ac2 txn1 txn2 :
  ledger_wf d1 ->
  resolved s tn1 id an1 st1 et1 ac1 txn1 d1 d1' -> st1 <> StatusPending ->
  ledger_reach d1' d2 -> resolved s tn2 id an2 st2 et2 ac2 txn2 d2 d2' -> False.
Proof.
  intros Hwf Hr1 Hst Hr Hr2. pose proof (resolved_wf _ _ _ _ _ _ _ _ _ _ Hwf Hr1) as Hwf1.
  apply resolved_spec in Hr1. apply resolved_spec in Hr2.
  pose proof (rf_old _ _ _ _ _ _ Hr2) as H2.
  assert (H1 : transactions d1' !! id = Some (TransactionRow tn1 st1 (txn_CreatedAt txn1)))
    by by rewrite (rf_transactions _ _ _ _ _ _ Hr1), lookup_insert_eq.
  destruct (reach_transaction _ _ id _ Hr Hwf1 H1) as [E|[E _]]; [congruence|by simpl in E].
Qed.
End reached.
