(* ===== verification/LedgerRefine.v ===== *)
(** * Any number of ledger requests at once

    The calls clients make on ledger.Service, the programs they run, and what
    each reply promises about the changes its thread made. *)

From S2P Require Import Prelude GoBase Db Prog ProgFacts Interfaces Ledger LedgerSpec LedgerWp.
From S2P Require Import LedgerFacts.
Local Open Scope go_scope.

(** ** Calls *)

Inductive call :=
  | Transfer (req : TransferRequest)
  | CreatePending (req : TransferRequest)
  | PostPending (tenantID id : uuid) (actorID : string)
  | FailPending (tenantID id : uuid) (actorID : string)
  | NewAccount (tenantID : uuid) (name actorID : string).

Inductive reply :=
  | RTransaction (r : goerr + (Transaction * list Entry))
  | RResolved (r : goerr + Transaction)
  | RAccount (r : goerr + Account).

Section calls.
Context `{UuidLib} (s : Service).

Definition call_prog (c : call) : prog reply :=
  match c with
  | Transfer req => let* r := ExecuteTransfer s req in Ret (RTransaction r)
  | CreatePending req => let* r := CreatePendingTransaction s req in Ret (RTransaction r)
  | PostPending tn id an => let* r := PostPendingTransaction s tn id an in Ret (RResolved r)
  | FailPending tn id an => let* r := FailPendingTransaction s tn id an in Ret (RResolved r)
  | NewAccount tn n an => let* r := CreateAccount s tn n an in Ret (RAccount r)
  end.

(** What a finished call did: its reply against the changes it made visible. *)
Definition call_result (tick_ok : db -> tick -> Prop) (c : call) (r : reply) (log : list (db * db)) : Prop :=
  match c, r with
  | Transfer req, RTransaction x => tx_result tick_ok (fun a => transfer_effect s req a.1 a.2) [] x log
  | CreatePending req, RTransaction x => tx_result tick_ok (fun a => pending_effect s req a.1 a.2) [] x log
  | PostPending tn id an, RResolved x => tx_result tick_ok (post_effect s tn id an) [] x log
  | FailPending tn id an, RResolved x => tx_result tick_ok (fail_effect s tn id an) [] x log
  | NewAccount tn n an, RAccount x => tx_result tick_ok (account_effect s tn n an) [] x log
  | _, _ => False
  end.
End calls.

(** ** Lemmas *)

(** A history whose changes are steps is a path of the abstract machine. *)
Lemma chain_reach `{UuidLib} s d hs d' :
  chain d hs d' -> (forall a b, (a, b) ∈ hs -> exists L, ledger_step s L a b) -> ledger_reach s d d'.
Proof.
  revert d. induction hs as [|[a b] hs IH]; intros d Hc Hs; simpl in Hc.
  - subst. apply rtc_refl.
  - destruct Hc as [-> Hc]. eapply rtc_l; [apply Hs; left|].
    apply IH; [done|]. intros x y ?. apply Hs. by right.
Qed.

Section pool.
Context `{UuidLib} (s : Service) (tick_ok : db -> tick -> Prop).
Context (events_ok : forall e, svc_events s = Some e -> EventEnqueuerOk e).
Context (audit_ok : forall a, svc_audit s = Some a -> AuditRecorderOk a).

Lemma call_wp c d :
  ledger_wf d ->
  wp (ledger_step s) tick_ok (call_prog s c) None [] d (fun r tx log _ => tx = None /\ call_result s tick_ok c r log).
Proof.
  intros Hwf. destruct c; cbn [call_prog]; apply wp_bind; (eapply wp_mono;
    [|intros a tx log d' Ha; exact Ha]).
  - by apply ExecuteTransfer_wp.
  - by apply CreatePendingTransaction_wp.
  - by apply PostPendingTransaction_wp.
  - by apply FailPendingTransaction_wp.
  - by apply CreateAccount_wp.
Qed.

Lemma calls_inv d0 calls P :
  ledger_wf d0 -> rtc (pool_step tick_ok) (pool_start d0 (call_prog s <$> calls)) P ->
  pool_inv (ledger_step s)tick_ok (fun i r tx log _ => tx = None /\
    forall c, calls !! i = Some c -> call_result s tick_ok c r log) d0 P.
Proof.
  intros Hwf. apply wp_pool. intros i p Hp d Hr.
  rewrite list_lookup_fmap in Hp. destruct (calls !! i) as [c|] eqn:Ei; [|done]. simplify_eq/=.
  eapply wp_mono; [apply call_wp; by eapply rely_wf|].
  intros r tx log d' [-> Hc]. split; [done|]. intros c' ?. by simplify_eq.
Qed.
End pool.
