(* ===== verification/Webhook.v ===== *)
(** * internal/webhook: signed delivery of outbox events

    src/internal/webhook: the adapters over the job queue (repository.go), one
    delivery with its retry decision (service.go), the signature (signer.go) and
    the claim of a batch (worker.go). The goroutines that processBatch starts are
    separate programs: [processBatch] ends with the events it claimed, and each
    is then handled by a [ProcessEvent]. Worker.v starts them and waits for them. *)

From stdpp Require Import pretty.
From S2P Require Import Prelude GoBase Db Prog Interfaces Queue Metrics.
Local Open Scope go_scope.

(** ** models.go, errors.go *)

Record Event := {
  evt_ID : uuid;
  evt_TenantID : uuid;
  evt_EventType : string;
  evt_Payload : json;
  evt_Status : job_status;
  evt_AttemptCount : Z;
  evt_NextRetryAt : time;
  evt_CreatedAt : time;
  evt_LastError : option string
}.

Definition ErrEventNotFound : goerr := New "webhook: event not found".
Definition ErrNoEndpointConfigured : goerr :=
  New "webhook: tenant has no webhook endpoint configured".
Definition ErrDeliveryFailed : goerr := New "webhook: delivery attempt failed".
Definition ErrMaxAttemptsExceeded : goerr := New "webhook: maximum delivery attempts exceeded".

(** ** repository.go *)

Definition eventFromJob (job : Job) : Event :=
  {| evt_ID := job_ID job; evt_TenantID := job_TenantID job; evt_EventType := job_JobType job;
     evt_Payload := job_Payload job; evt_Status := job_Status job;
     evt_AttemptCount := job_AttemptCount job; evt_NextRetryAt := job_NextRetryAt job;
     evt_CreatedAt := job_CreatedAt job; evt_LastError := job_LastError job |}.

Definition jobFromEvent (ev : Event) : Job :=
  {| job_ID := evt_ID ev; job_TenantID := evt_TenantID ev; job_JobType := evt_EventType ev;
     job_Payload := evt_Payload ev; job_Status := evt_Status ev;
     job_AttemptCount := evt_AttemptCount ev; job_NextRetryAt := evt_NextRetryAt ev;
     job_CreatedAt := evt_CreatedAt ev; job_LastError := evt_LastError ev |}.

(** Repository.Enqueue *)
Definition repo_Enqueue (c : conn) (tenantID : uuid) (eventType : string) (payload : json)
    : prog (goerr + Event) :=
  let? job := wrap_err "webhook: enqueue: " (Enqueue c tenantID eventType payload) in
  Ret (inr (eventFromJob job)).

(** Repository.EnqueueEvent *)
Definition repo_EnqueueEvent (tenantID : uuid) (eventType : string) (payload : json)
    : prog (goerr + unit) :=
  let? _ := repo_Enqueue OnTx tenantID eventType payload in Ret (inr tt).

(** webhook.Repository as ledger's EventEnqueuer. *)
Definition Enqueuer : EventEnqueuer := {| EnqueueEvent := repo_EnqueueEvent |}.

(** Repository.ClaimPendingEvents *)
Definition ClaimPendingEvents (limit : nat) : prog (goerr + list Event) :=
  let? jobs := wrap_err "webhook: claim pending events: " (ClaimPending limit) in
  Ret (inr (eventFromJob <$> jobs)).

(** Repository.GetEvent *)
Definition GetEvent (c : conn) (tenantID eventID : uuid) : prog (goerr + Event) :=
  let* r := Get c tenantID eventID in
  match r with
  | inl e => if errors_Is e ErrJobNotFound then Ret (inl ErrEventNotFound)
             else Ret (inl (Wrap "webhook: get event: " e ""))
  | inr job => Ret (inr (eventFromJob job))
  end.

Definition repo_MarkDelivered (c : conn) (eventID : uuid) : prog (goerr + unit) :=
  wrap_err "webhook: mark delivered: " (MarkDelivered c eventID).

Definition repo_ScheduleRetry `{PgTime} (c : conn) (eventID : uuid) (attemptCount : Z) (nextRetryAt : time)
    (lastError : string) : prog (goerr + unit) :=
  wrap_err "webhook: schedule retry: " (ScheduleRetry c eventID attemptCount nextRetryAt lastError).

Definition repo_MoveToDeadLetter (ev : Event) (lastError : string) : prog (goerr + unit) :=
  wrap_err "webhook: move to dead letter: " (MoveToDeadLetter (jobFromEvent ev) lastError).

Definition q_webhook_config (tenantID : uuid) : stmt (option (option string * option string)) :=
  select (fun d => (fun r => (tn_webhook_url r, tn_webhook_secret r)) <$> tenants d !! tenantID).

(** Repository.GetTenantWebhookConfig: a NULL secret reads as the empty string. *)
Definition GetTenantWebhookConfig (c : conn) (tenantID : uuid) : prog (goerr + (string * string)) :=
  let? (url, secret) := wrap_err "webhook: get tenant webhook config: "
                          (sql_row c (q_webhook_config tenantID)) in
  match url with
  | None => Ret (inl ErrNoEndpointConfigured)
  | Some u => if decide (u = ""%string) then Ret (inl ErrNoEndpointConfigured)
              else Ret (inr (u, default ""%string secret))
  end.

(** ** service.go: backoff *)

(** [float64(z)]: z to 53 significant bits, ties to even. *)
Definition float64_of_int (z : Z) : Z :=
  let a := Z.abs z in
  let shift := (Z.log2 a - 52)%Z in
  if (shift <=? 0)%Z then z else
  let q := Z.shiftr a shift in
  let rest := (a - Z.shiftl q shift)%Z in
  let half := Z.shiftl 1 (shift - 1) in
  let q' := if (rest <? half)%Z then q
            else if (half <? rest)%Z then (q + 1)%Z
            else if Z.even q then q else (q + 1)%Z in
  (Z.sgn z * Z.shiftl q' shift)%Z.

(** The conversion of a float64 out of the range of int64 is left to the
    implementation by the Go specification: the supported platforms give the
    smallest int64, or the nearest one. *)
Class FloatConv := {
  float_to_int_out : Z -> Z;
  float_to_int_out_spec : forall z, fits64 z = false ->
    float_to_int_out z = int64_min \/
    float_to_int_out z = (if (z <? 0)%Z then int64_min else int64_max)
}.

(** net/http: the error of http.NewRequestWithContext for a URL, if any. *)
Class HttpLib := { NewRequest_error : string -> option string }.

(** [time.Duration(float64(base) * math.Pow(2, float64(attempt-1)))]: powers of
    two are exact, so the product is too; a product beyond the largest float64 is
    out of range all the same. *)
Definition scaled_backoff `{FloatConv} (base : duration) (attempt : Z) : Z :=
  let e := wrap64 (attempt - 1) in
  let f := float64_of_int base in
  let p := if (0 <=? e)%Z then (f * 2 ^ e)%Z else Z.quot f (2 ^ (- e)) in
  if fits64 p then p else float_to_int_out p.

(** jitter: a number in [d - d/5, d + d/5), or [d] when crypto/rand fails;
    [None] is the panic of rand.Int for a bound of zero. *)
Definition jitter (d : duration) (draw : option Z) : option duration :=
  if (d <=? 0)%Z then Some 0%Z else
  let spread := (d / 5)%Z in
  if (2 * spread <=? 0)%Z then None else
  match draw with
  | None => Some d
  | Some n => Some (d - spread + n mod (2 * spread))%Z
  end.

Record Service := {
  svc_maxAttempts : Z;
  svc_baseBackoff : duration;
  svc_maxBackoff : duration
}.

Definition second : duration := 1000000000%Z.
Definition DefaultMaxAttempts : Z := 5.
Definition DefaultBaseBackoff : duration := (30 * second)%Z.
Definition DefaultMaxBackoff : duration := (3600 * second)%Z.

Definition Option : Type := Service -> Service.
Definition WithMaxAttempts (n : Z) : Option :=
  fun s => {| svc_maxAttempts := n; svc_baseBackoff := svc_baseBackoff s;
              svc_maxBackoff := svc_maxBackoff s |}.
Definition WithBaseBackoff (d : duration) : Option :=
  fun s => {| svc_maxAttempts := svc_maxAttempts s; svc_baseBackoff := d;
              svc_maxBackoff := svc_maxBackoff s |}.
Definition WithMaxBackoff (d : duration) : Option :=
  fun s => {| svc_maxAttempts := svc_maxAttempts s; svc_baseBackoff := svc_baseBackoff s;
              svc_maxBackoff := d |}.

(** NewService: the defaults, then the options in order. *)
Definition NewService (opts : list Option) : Service :=
  foldl (fun s opt => opt s)
    {| svc_maxAttempts := DefaultMaxAttempts; svc_baseBackoff := DefaultBaseBackoff;
       svc_maxBackoff := DefaultMaxBackoff |} opts.

(** The backoff before jitter. *)
Definition clipped_backoff `{FloatConv} (s : Service) (attempt : Z) : duration :=
  let backoff := scaled_backoff (svc_baseBackoff s) attempt in
  if (svc_maxBackoff s <? backoff)%Z || (backoff <=? 0)%Z then svc_maxBackoff s else backoff.

Definition backoffForAttempt `{FloatConv} (s : Service) (attempt : Z) (draw : option Z)
    : option duration :=
  jitter (clipped_backoff s attempt) draw.

(** ** signer.go *)

(** time.Time.Unix() *)
Definition unix (t : time) : Z := (t / second)%Z.

Definition signed_content (timestamp : time) (payload : string) : string :=
  (pretty (unix timestamp) +:+ "." +:+ payload)%string.

Definition SignPayload `{Crypto} (secret : string) (timestamp : time) (payload : string) : string :=
  hmac_sha256_hex secret (signed_content timestamp payload).

(** hmac.Equal is equality of the bytes. *)
Definition VerifySignature `{Crypto} (secret : string) (timestamp : time) (payload signature : string)
    : bool :=
  bool_decide (SignPayload secret timestamp payload = signature).

(** ** service.go: delivery *)

Section Service.
Context `{DriverText, Crypto, PgTime, JsonText, FloatConv, HttpLib}.

(** deliver: one attempt; anything outside 2xx is a failure. *)
Definition deliver (ev : Event) : prog (goerr + unit) :=
  let? (url, secret) := GetTenantWebhookConfig OnDb (evt_TenantID ev) in
  let* timestamp := time_Now in
  let signature := SignPayload secret timestamp (json_text (evt_Payload ev)) in
  match NewRequest_error url with
  | Some msg => Ret (inl (Wrap "webhook: build request: " (New msg) ""))
  | None =>
      let* _ := emit (OHttp url
        [("Content-Type", "application/json");
         ("X-Transacta-Event-Type", evt_EventType ev);
         ("X-Transacta-Timestamp", pretty (unix timestamp));
         ("X-Transacta-Signature", "sha256=" +:+ signature)]%string (evt_Payload ev)) in
      let* reply := ask tk_http in
      match reply with
      | HttpError msg => Ret (inl (Wrap "" ErrDeliveryFailed (": " +:+ msg)))
      | HttpStatus code =>
          if (code <? 200)%Z || (300 <=? code)%Z
          then Ret (inl (Wrap "" ErrDeliveryFailed (": received status " +:+ pretty code)))
          else Ret (inr tt)
      end
  end.

(** How a goroutine ends. *)
Inductive ended := Returned | Panicked.

(** [if err := ...; err != nil { logger.Error(msg) }] *)
Definition log_failure (msg : string) (p : prog (goerr + unit)) : prog ended :=
  let* r := p in
  match r with
  | inl _ => let* _ := emit (OLog "ERROR" msg) in Ret Returned
  | inr _ => Ret Returned
  end.

(** The dead-letter transition, in its own transaction. *)
Definition dead_letter (ev : Event) (attempt : Z) (lastError : string) : prog ended :=
  let* tx := sql_begin in
  match tx with
  | inl _ => let* _ := emit (OLog "ERROR" "webhook: begin tx for dead-letter") in Ret Returned
  | inr _ =>
      defer_rollback (
        let ev := {| evt_ID := evt_ID ev; evt_TenantID := evt_TenantID ev;
                     evt_EventType := evt_EventType ev; evt_Payload := evt_Payload ev;
                     evt_Status := evt_Status ev; evt_AttemptCount := attempt;
                     evt_NextRetryAt := evt_NextRetryAt ev; evt_CreatedAt := evt_CreatedAt ev;
                     evt_LastError := evt_LastError ev |} in
        let* moved := repo_MoveToDeadLetter ev lastError in
        match moved with
        | inl _ => let* _ := emit (OLog "ERROR" "webhook: move to dead letter failed") in Ret Returned
        | inr _ =>
            let* committed := sql_commit in
            match committed with
            | inl _ =>
                let* _ := emit (OLog "ERROR" "webhook: commit dead-letter transition") in Ret Returned
            | inr _ =>
                let* _ := emit (OLog "WARN"
                  "webhook: event exhausted all attempts, moved to dead letter") in
                Ret Returned
            end
        end)
  end.

Definition ProcessEvent (s : Service) (ev : Event) : prog ended :=
  let* deliverErr := deliver ev in
  let attempt := add64 (evt_AttemptCount ev) 1 in
  match deliverErr with
  | inr _ =>
      let* _ := Inc WebhookDeliveredTotal in
      log_failure "webhook: failed to mark event delivered" (repo_MarkDelivered OnDb (evt_ID ev))
  | inl e =>
      if errors_Is e ErrNoEndpointConfigured then
        let* _ := Inc WebhookSkippedNoEndpointTotal in
        let* _ := emit (OLog "WARN" "webhook: no endpoint configured, skipping") in
        let* now := time_Now in
        log_failure "webhook: failed to reset unconfigured event to pending"
          (repo_ScheduleRetry OnDb (evt_ID ev) (evt_AttemptCount ev)
             (now + svc_baseBackoff s)%Z (Error e))
      else if (svc_maxAttempts s <=? attempt)%Z then
        let* _ := Inc WebhookDeadLetteredTotal in
        dead_letter ev attempt (Error e)
      else
        let* _ := Inc WebhookRetriedTotal in
        let* now := time_Now in
        let* draw := ask tk_int in
        match backoffForAttempt s attempt draw with
        | None => Ret Panicked
        | Some backoff =>
            log_failure "webhook: schedule retry failed"
              (repo_ScheduleRetry OnDb (evt_ID ev) attempt (now + backoff)%Z (Error e))
        end
  end.
End Service.

(** ** worker.go *)

Definition DefaultBatchSize : nat := 20.
Definition DefaultPollInterval : duration := (5 * second)%Z.

(** processBatch up to the start of its goroutines: the events they are for. *)
Definition processBatch (batchSize : nat) : prog (list Event) :=
  let* tx := sql_begin in
  match tx with
  | inl _ => let* _ := emit (OLog "ERROR" "webhook worker: begin claim tx") in Ret []
  | inr _ =>
      let* claimed := ClaimPendingEvents batchSize in
      match claimed with
      | inl _ =>
          let* _ := emit (OLog "ERROR" "webhook worker: claim pending events") in
          Rollback (Ret [])
      | inr events =>
          let* committed := sql_commit in
          match committed with
          | inl _ => let* _ := emit (OLog "ERROR" "webhook worker: commit claim tx") in Ret []
          | inr _ =>
              match events with
              | [] => Ret []
              | _ => let* _ := emit (OLog "INFO" "webhook worker: claimed batch") in Ret events
              end
          end
      end
  end.
