(* ===== verification/Worker.v ===== *)
(** * internal/webhook/worker.go: the polling loop of any number of processes

    A process runs one [Worker]: its loop waits for a tick or for shutdown,
    claims a batch ([Webhook.processBatch]), delivers every claimed event in a
    goroutine of its own and waits for them all. A [fleet] is any number of such
    processes with whatever else they run (the requests they serve): one pool of
    goroutines over one database, the task each was started for, and where each
    worker's loop stands. A process may be killed at any moment, which PostgreSQL
    sees as the loss of its connections: open transactions are rolled back. *)

From S2P Require Import Prelude GoBase Db Prog Interfaces Queue Webhook.
Local Open Scope go_scope.

(** ** Construction *)

(** The repository is the database, the logger the observations of a run. *)
Record Worker := {
  wk_svc : Service;
  wk_batchSize : nat;
  wk_pollInterval : duration
}.

Definition WorkerOption : Type := Worker -> Worker.
Definition WithBatchSize (n : nat) : WorkerOption :=
  fun w => {| wk_svc := wk_svc w; wk_batchSize := n; wk_pollInterval := wk_pollInterval w |}.
Definition WithPollInterval (d : duration) : WorkerOption :=
  fun w => {| wk_svc := wk_svc w; wk_batchSize := wk_batchSize w; wk_pollInterval := d |}.

(** NewWorker: the defaults, then the options in order. *)
Definition NewWorker (svc : Service) (opts : list WorkerOption) : Worker :=
  foldl (fun w opt => opt w)
    {| wk_svc := svc; wk_batchSize := DefaultBatchSize; wk_pollInterval := DefaultPollInterval |} opts.

(** ** Goroutines *)

Section fleet.
Context `{DriverText, Crypto, PgTime, JsonText, FloatConv, HttpLib}.
Context {G : Type} (guest : G -> prog unit).

Inductive task :=
  | Poll (w : Worker)
  | Deliver (s : Service) (ev : Event)
  | Guest (g : G).

(** How a goroutine ended. *)
Inductive task_result := Polled (evs : list Event) | Ended (e : ended) | Served | Killed.

Definition task_prog (t : task) : prog task_result :=
  match t with
  | Poll w => let* evs := processBatch (wk_batchSize w) in Ret (Polled evs)
  | Deliver s ev => let* e := ProcessEvent s ev in Ret (Ended e)
  | Guest g => let* _ := guest g in Ret Served
  end.

(** Where the loop of Run stands: at its select, in processBatch before and
    after its goroutines are started (named by their positions in the pool),
    returned, or gone with its process. *)
Inductive loop := Selecting | Polling (i : nat) | Delivering (gs : list nat) | Stopped | Crashed.

Record fleet := Fleet {
  fl_pool : pool task_result;
  fl_tasks : list task;          (* what each goroutine of the pool was started for *)
  fl_workers : list (Worker * loop)
}.

Definition fleet_start (d : db) : fleet := Fleet (pool_start d []) [] [].

Definition fl_db (F : fleet) : db := p_db (fl_pool F).
Definition fl_threads (F : fleet) : list (thread task_result) := p_threads (fl_pool F).
Definition fl_hist (F : fleet) : list (nat * (db * db)) := p_hist (fl_pool F).

Definition goroutine (t : task) : thread task_result := Thread (task_prog t) None [].

(** [go f()], for each task of [ts]. *)
Definition spawn (ts : list task) (F : fleet) : fleet :=
  Fleet (Pool (fl_db F) (fl_threads F ++ (goroutine <$> ts)) (fl_hist F)) (fl_tasks F ++ ts) (fl_workers F).

Definition set_loop (k : nat) (w : Worker) (l : loop) (F : fleet) : fleet :=
  Fleet (fl_pool F) (fl_tasks F) (<[k := (w, l)]> (fl_workers F)).

Definition set_pool (P : pool task_result) (F : fleet) : fleet := Fleet P (fl_tasks F) (fl_workers F).

Definition result_of (F : fleet) (i : nat) : option task_result :=
  match fl_threads F !! i with
  | Some th => match th_prog th with Ret r => Some r | _ => None end
  | None => None
  end.

Definition is_returned (r : option task_result) : bool :=
  match r with Some (Ended Returned) => true | _ => false end.

(** A panic that nobody recovers, or a signal, ends the process. *)
Definition is_fatal (r : option task_result) : bool :=
  match r with Some (Ended Panicked) | Some Killed => true | _ => false end.

(** ** Run *)

(** The start of Run: time.NewTicker panics for an interval that is not positive. *)
Definition Run (w : Worker) (F : fleet) : fleet :=
  Fleet (fl_pool F) (fl_tasks F)
    (fl_workers F ++ [(w, if (wk_pollInterval w <=? 0)%Z then Crashed else Selecting)]).

(** [case <-ticker.C]: processBatch begins. *)
Definition on_tick (k : nat) (F : fleet) : option fleet :=
  match fl_workers F !! k with
  | Some (w, Selecting) => Some (set_loop k w (Polling (length (fl_threads F))) (spawn [Poll w] F))
  | _ => None
  end.

(** [case <-ctx.Done()] *)
Definition on_done (k : nat) (F : fleet) : option fleet :=
  match fl_workers F !! k with
  | Some (w, Selecting) => Some (set_loop k w Stopped F)
  | _ => None
  end.

(** The rest of processBatch: a goroutine per claimed event, then wg.Wait(). *)
Definition proceed (k : nat) (F : fleet) : option fleet :=
  match fl_workers F !! k with
  | Some (w, Polling i) =>
      match result_of F i with
      | Some (Polled []) => Some (set_loop k w Selecting F)
      | Some (Polled evs) =>
          Some (set_loop k w (Delivering (seq (length (fl_threads F)) (length evs)))
                  (spawn (Deliver (wk_svc w) <$> evs) F))
      | r => if is_fatal r then Some (set_loop k w Crashed F) else None
      end
  | Some (w, Delivering gs) =>
      if existsb (fun i => is_fatal (result_of F i)) gs then Some (set_loop k w Crashed F)
      else if forallb (fun i => is_returned (result_of F i)) gs then Some (set_loop k w Selecting F)
      else None
  | _ => None
  end.

(** ** Steps *)

(** A goroutine moves. *)
Definition move (i : nat) (tk : tick) (F : fleet) : option fleet :=
  match fl_threads F !! i with
  | None => None
  | Some th =>
      match thread_step (others_locks (fl_threads F) i) tk th (fl_db F) with
      | None => None
      | Some (th', e, _) =>
          Some (set_pool (Pool (apply_eff e (fl_db F)) (<[i:=th']> (fl_threads F))
                            (add_hist i e (fl_db F) (fl_hist F))) F)
      end
  end.

(** A goroutine goes with its process. *)
Definition kill (i : nat) (F : fleet) : option fleet :=
  match fl_threads F !! i with
  | None => None
  | Some th =>
      Some (set_pool (Pool (fl_db F) (<[i:=Thread (Ret Killed) None (th_log th)]> (fl_threads F))
                        (fl_hist F)) F)
  end.

Inductive command :=
  | Start (w : Worker)
  | TimerFires (k : nat)
  | Cancelled (k : nat)
  | Proceed (k : nat)
  | Move (i : nat) (tk : tick)
  | Kill (i : nat)
  | Arrive (g : G).

Definition perform (c : command) (F : fleet) : option fleet :=
  match c with
  | Start w => Some (Run w F)
  | TimerFires k => on_tick k F
  | Cancelled k => on_done k F
  | Proceed k => proceed k F
  | Move i tk => move i tk F
  | Kill i => kill i F
  | Arrive g => Some (spawn [Guest g] F)
  end.

(** What the environment may answer. *)
Definition allowed (tick_ok : db -> tick -> Prop) (c : command) (F : fleet) : Prop :=
  match c with Move _ tk => tick_ok (fl_db F) tk | _ => True end.

Inductive fleet_step (tick_ok : db -> tick -> Prop) (F F' : fleet) : Prop :=
  | FleetStep c : allowed tick_ok c F -> perform c F = Some F' -> fleet_step tick_ok F F'.

(** An executable schedule; a command that is not possible is skipped. *)
Definition fleet_exec (F : fleet) (cs : list command) : fleet :=
  foldl (fun F c => default F (perform c F)) F cs.
End fleet.

Arguments Guest {_}.
Arguments Poll {_}.
Arguments Deliver {_}.
Arguments task : clear implicits.
Arguments fleet : clear implicits.
Arguments command : clear implicits.
Arguments Start {_}.
Arguments TimerFires {_}.
Arguments Cancelled {_}.
Arguments Proceed {_}.
Arguments Move {_}.
Arguments Kill {_}.
Arguments Arrive {_}.
