(* ===== verification/Adapters.v ===== *)
(** * The implementations of the ledger's interfaces

    webhook.Repository is an [EventEnqueuer] and audit.Repository an
    [AuditRecorder]: they keep the promises of Interfaces.v. Stored events: no
    write removes one, and [outbox_write]s leave every one as it is. *)

From S2P Require Import Prelude GoBase Db Prog ProgFacts Interfaces Queue AuditLog Webhook.

#[export] Instance Enqueuer_ok : EventEnqueuerOk Enqueuer.
Proof.
  intros guar tick_ok tn et pl t d Hab. unfold Enqueuer, EnqueueEvent, repo_EnqueueEvent, repo_Enqueue.
  pose (new := fun (_ : unit) t' d' =>
      exists i, let w := WEvent i (new_event_row tn et pl (tx_start t)) in
        webhook_events (seen t d) !! i = None /\ t' = tx_add t w /\
        rely guar (tx_locks t ++ [lock_of w]) d d').
  eapply (in_tx_ebind _ _ _ _ _ _ (fun _ => new tt)).
  - eapply (in_tx_ebind _ _ _ _ _ _ (fun _ => new tt)).
    + apply in_tx_wrap. unfold Enqueue. eapply (in_tx_ebind _ _ _ _ _ _ (fun _ => new tt)).
      * apply in_tx_wrap. refine (in_tx_guarded_row _ _ _ _ _ _ _ _ _ _); [done|].
        intros tk d' _ ev Hc Hr. exists (e_uuid ev). split_and!; [|done|done].
        apply has_row_false. eapply Hc. left.
      * intros [[[i att] next] created] t' d' Hn. by apply in_tx_ret.
    + intros job t' d' Hn. by apply in_tx_ret.
  - intros ev t' d' Hn. by apply in_tx_ret.
Qed.

#[export] Instance Recorder_ok : AuditRecorderOk Recorder.
Proof.
  intros guar tick_ok tn actor action pl t d Hab. unfold Recorder, RecordAudit, repo_RecordAudit.
  apply in_tx_wrap. refine (in_tx_guarded _ _ _ _ _ _ _ _ _ _); [done|].
  intros tk d' _ ev Hc Hr. exists (e_uuid ev). split_and!; [|done|done].
  apply has_row_false. eapply Hc. left.
Qed.

(** ** Stored events *)

Lemma event_kept ws d i : is_Some (webhook_events d !! i) -> is_Some (webhook_events (apply_writes ws d) !! i).
Proof.
  revert d. induction ws as [|w ws IH]; intros d Hi; [done|]. rewrite apply_writes_cons. apply IH.
  destruct w; try done. simpl. destruct (decide (i0 = i)) as [->|]; [rewrite lookup_insert_eq; by eexists|].
  by rewrite lookup_insert_ne.
Qed.

(** The outbox only grows. *)
Definition outbox_write (d : db) (w : write) : Prop :=
  match w with WEvent i _ => webhook_events d !! i = None | _ => True end.

#[export] Instance outbox_stable : StableWrites outbox_write.
Proof.
  split.
  - intros L d d' [] Hl F; simpl in *; try done. by rewrite (frame_webhook_events _ _ _ F).
  - intros ws d [] _; simpl; try done. intros Hn. destruct (webhook_events d !! i) eqn:E; [|done].
    assert (Hs : is_Some (webhook_events d !! i)) by by eexists.
    destruct (event_kept ws d i Hs). congruence.
Qed.

Lemma outbox_grows ws d i r :
  (forall w, w ∈ ws -> outbox_write d w) -> webhook_events d !! i = Some r ->
  webhook_events (apply_writes ws d) !! i = Some r.
Proof.
  intros Hws Hr. rewrite <- Hr. assert (Hne : forall w, w ∈ ws -> lock_of w <> LRow T_webhook_events i).
  { intros w Hw. apply Hws in Hw. destruct w; try done. simpl in *. intros [= ->]. congruence. }
  apply (frame_webhook_events [LRow T_webhook_events i]); [|left].
  apply apply_writes_frame. intros w Hw Hin%list_elem_of_singleton. by apply (Hne w Hw).
Qed.
