(* ===== verification/Quiet.v ===== *)
(** * Programs that leave the ledger alone

    A statement is quiet when it writes no account, transaction or entry, keeps
    the identity and payload of the outbox rows it updates, and adds audit rows
    only under fresh identifiers. A program made of quiet statements changes the
    database by [other_effect]s, so it can run next to the ledger's use cases. *)

From S2P Require Import Prelude GoBase Db Prog ProgFacts Interfaces Ledger LedgerSpec.

(** ** Definitions *)

Definition same_event (e e' : event_row) : Prop :=
  ev_tenant_id e' = ev_tenant_id e /\ ev_event_type e' = ev_event_type e /\
  ev_payload e' = ev_payload e /\ ev_created_at e' = ev_created_at e.

(** A write that is harmless to the ledger, for a database [d]. *)
Definition quiet_write (d : db) (w : write) : Prop :=
  match w with
  | WAccount _ _ | WTransaction _ _ | WEntry _ _ => False
  | WEvent i e' => forall e, webhook_events d !! i = Some e -> same_event e e'
  | WAudit i _ => audit_log d !! i = None
  | _ => True
  end.

Abbreviation quiet_stmt := (stmt_when quiet_write).

(** [quiet b p b']: [p] consists of quiet statements; started without an open
    transaction unless [b], it ends without one unless [b']. *)
Fixpoint quiet {A} (b : bool) (p : prog A) (b' : bool) : Prop :=
  match p with
  | Ret _ => b = true -> b' = true
  | BeginTx k => quiet true (k None) b' /\ forall e, quiet b (k (Some e)) b'
  | Exec _ q k => quiet_stmt q /\ forall r, quiet b (k r) b'
  | Commit k => forall r, quiet false (k r) b'
  | Rollback k => quiet false k b'
  | Ask q k => forall r, quiet b (k r) b'
  | Emit _ k => quiet b k b'
  end.

(** ** Lemmas *)

Lemma same_event_trans e1 e2 e3 : same_event e1 e2 -> same_event e2 e3 -> same_event e1 e3.
Proof. unfold same_event. intuition congruence. Qed.

Lemma quiet_apply ws d0 d :
  other_effect d0 d -> (forall w, w ∈ ws -> quiet_write d0 w) -> other_effect d0 (apply_writes ws d).
Proof.
  revert d. induction ws as [|w ws IH]; intros d Hd Hws; [done|].
  rewrite apply_writes_cons. apply IH; [|intros; apply Hws; by right].
  assert (Hw : quiet_write d0 w) by (apply Hws; left). clear IH Hws.
  destruct Hd as ((Ea & Et & Ee) & Ho & Hau).
  destruct w as [| | | | |i e'| |i r| |]; try done; split_and!; simpl; try done.
  - intros j e He. simpl. destruct (decide (j = i)) as [->|Hne].
    + exists e'. rewrite lookup_insert_eq. split; [done|]. by apply Hw.
    + rewrite lookup_insert_ne by done. by apply Ho.
  - unfold audit_kept in *. simpl. apply map_subseteq_spec. intros j a Ha.
    rewrite lookup_insert_ne; [by eapply lookup_weaken|]. simpl in Hw. congruence.
Qed.

Lemma quiet_effect ws d : (forall w, w ∈ ws -> quiet_write d w) -> other_effect d (apply_writes ws d).
Proof. intros H. apply quiet_apply; [apply other_effect_refl|done]. Qed.

(** Quiet for what a transaction sees is quiet for what is committed. *)
Lemma quiet_write_back d d' w : other_effect d d' -> quiet_write d' w -> quiet_write d w.
Proof.
  intros (_ & Ho & Hau). destruct w; simpl; try done.
  - intros H e He. destruct (Ho i e He) as (e' & He' & Hs). eapply same_event_trans; [exact Hs|by apply H].
  - intros H. destruct (audit_log d !! i) eqn:E; [|done].
    exfalso. unfold audit_kept in Hau. rewrite (lookup_weaken _ _ _ _ E Hau) in H. done.
Qed.

Lemma quiet_write_frame L d d' w : lock_of w ∈ L -> frame L d d' -> quiet_write d w -> quiet_write d' w.
Proof.
  intros Hin F. destruct w; simpl in *; try done.
  - by rewrite (frame_webhook_events _ _ _ F).
  - by rewrite (frame_audit_log _ _ _ F).
Qed.

Lemma quiet_weaken {A} (p : prog A) b b1 b2 :
  (b1 = true -> b2 = true) -> quiet b p b1 -> quiet b p b2.
Proof.
  intros Hb. revert b. induction p; simpl; intros b; [auto|intros [? ?]; split; eauto|intros [? ?]; split; eauto|eauto..].
Qed.

Lemma quiet_closed {A} (p : prog A) b b' : quiet true p b' -> quiet b p b'.
Proof.
  revert b. induction p; simpl; intros b; [auto|intros [? ?]; split; eauto|intros [? ?]; split; eauto|eauto..].
Qed.

Lemma quiet_bind {A B} (p : prog A) (f : A -> prog B) b b1 b2 :
  quiet b p b1 -> (forall a, quiet b1 (f a) b2) -> quiet b (bind p f) b2.
Proof.
  intros Hp Hf. revert b Hp.
  induction p; simpl; intros b; [|intros [? ?]; split; eauto|intros [? ?]; split; eauto|eauto..].
  intros Hb. specialize (Hf a). destruct b, b1; try done; [by specialize (Hb eq_refl)|].
  by apply quiet_closed.
Qed.

Lemma quiet_ebind {A B} (p : prog (goerr + A)) (f : A -> prog (goerr + B)) b b1 b2 :
  quiet b p b1 -> (b1 = true -> b2 = true) -> (forall a, quiet b1 (f a) b2) -> quiet b (ebind p f) b2.
Proof. intros Hp Hb Hf. eapply quiet_bind; [done|]. intros [|]; [exact Hb|apply Hf]. Qed.

Lemma quiet_wrap {A} pre (p : prog (goerr + A)) b b' : quiet b p b' -> quiet b (wrap_err pre p) b'.
Proof. intros Hp. eapply quiet_bind; [done|]. intros [|]; simpl; auto. Qed.

Lemma quiet_exec {R} c (q : stmt R) b : quiet_stmt q -> quiet b (sql_exec c q) b.
Proof. intros Hq. split; [done|]. intros [|]; simpl; auto. Qed.

Lemma quiet_row {R} c (q : stmt (option R)) b : quiet_stmt q -> quiet b (sql_row c q) b.
Proof. intros Hq. split; [done|]. intros [|[|]]; simpl; auto. Qed.

Lemma quiet_begin b : quiet b sql_begin true.
Proof. simpl. split; auto. Qed.

Lemma quiet_commit b b' : quiet b sql_commit b'.
Proof. simpl. intros [|]; simpl; discriminate. Qed.

Lemma quiet_defer {A} (p : prog A) b b1 b2 : quiet b p b1 -> quiet b (defer_rollback p) b2.
Proof. intros Hp. eapply quiet_bind; [done|]. intros a. simpl. discriminate. Qed.

(** BEGIN; defer ROLLBACK; ... *)
Lemma quiet_transaction {A} pre (body : prog (goerr + A)) b2 :
  quiet true body true -> quiet false (ebind (wrap_err pre sql_begin) (fun _ => defer_rollback body)) b2.
Proof.
  intros Hb. unfold ebind, wrap_err. simpl. split; [|intros; discriminate]. by eapply quiet_defer.
Qed.

Lemma quiet_emit o b : quiet b (emit o) b.
Proof. simpl. auto. Qed.

Lemma quiet_ask {R} (q : tick -> R) b : quiet b (ask q) b.
Proof. simpl. auto. Qed.

Lemma quiet_ret {A} (a : A) b : quiet b (Ret a) b.
Proof. simpl. auto. Qed.

Lemma quiet_select {R} (f : db -> R) : quiet_stmt (select f).
Proof. intros others ev d w Hw. simpl in Hw. by apply not_elem_of_nil in Hw. Qed.

#[export] Hint Resolve quiet_wrap quiet_exec quiet_row quiet_begin quiet_commit
  quiet_transaction quiet_emit quiet_ask quiet_ret quiet_select : transacta.

(** ** A quiet program respects the abstract machine of the ledger *)

#[export] Instance quiet_stable : StableWrites quiet_write.
Proof.
  split; [exact quiet_write_frame|]. intros ws d w Hws. by apply quiet_write_back, quiet_effect.
Qed.

Abbreviation quiet_tx := (tx_when quiet_write).

Section quiet.
Context `{UuidLib} (s : Service) (tick_ok : db -> tick -> Prop).

Lemma quiet_tx_rely tx d d' :
  quiet_tx tx d -> rely (ledger_step s) (locks_of tx) d d' -> quiet_tx tx d'.
Proof. intros Hq Hr. eapply tx_when_frame; [apply _|done|by eapply rely_frame]. Qed.

Lemma eff_quiet d e : eff_when quiet_write d e -> eff_ok (ledger_step s) d e.
Proof. destruct e; [done|]. intros Hq. by apply LOther, quiet_effect. Qed.

Lemma quiet_wp {A} (p : prog A) b b' tx log d :
  quiet b p b' -> quiet_tx tx d -> (b = false -> tx = None) ->
  wp (ledger_step s) tick_ok p tx log d (fun _ tx' _ d' => quiet_tx tx' d' /\ (b' = false -> tx' = None)).
Proof.
  revert b tx log d. induction p; simpl; intros b tx log d Hq Htx Hb.
  - split; [done|]. destruct b, b'; naive_solver.
  - intros tk r tx' _ Hs d' Hr.
    assert (Htx' : quiet_tx tx' d') by (eapply quiet_tx_rely; [by eapply begin_step_when|done]).
    destruct r as [e|]; [|by eapply H0; [apply Hq|..]].
    eapply H0; [apply Hq|done|]. intros Eb. specialize (Hb Eb). subst tx. unfold begin_step in Hs.
    destruct (tk_fault tk); by simplify_eq.
  - destruct Hq as [Hqs Hqk]. intros others tk r tx' e _ He.
    destruct (exec_step_when _ _ _ _ _ _ _ _ _ _ Hqs Htx He) as [Hok Htx'].
    split; [by apply eff_quiet|]. intros d' Hr. eapply H0; [apply Hqk|by eapply quiet_tx_rely|].
    intros Eb. specialize (Hb Eb). subst tx. unfold exec_step in He. repeat case_match; by simplify_eq.
  - intros tk r tx' e _ Hc. destruct (commit_step_when _ _ _ _ _ _ _ Htx Hc) as [He ->].
    split; [by apply eff_quiet|]. intros d' _. eapply H0; [apply Hq|by intros ?|done].
  - intros d' _. eapply IHp; [done|by intros ?|done].
  - intros tk d' _ Hr. eapply H0; [apply Hq|by eapply quiet_tx_rely|done].
  - intros d' Hr. eapply IHp; [done|by eapply quiet_tx_rely|done].
Qed.
End quiet.
