(* ===== verification/History.v ===== *)
(** * How stored rows may change

    Most tables are append-only; the others change only along the life cycle of
    their rows. [evolves] says so of one write, [evolution] of two states of the
    database; LifecycleProps.v shows that the whole program keeps to it. *)

From S2P Require Import Prelude GoBase Db Prog ProgFacts Quiet.

(** ** The life cycles *)

(** Only a pending transaction changes, and only its status. *)
Definition txn_evolves (r r' : transaction_row) : Prop :=
  r' = r \/ tr_tenant_id r' = tr_tenant_id r /\ tr_created_at r' = tr_created_at r /\ tr_status r = StatusPending.

(** A refresh token keeps its identity, and once it is rotated or revoked it
    stays as it is. *)
Definition token_evolves (r r' : refresh_token_row) : Prop :=
  r' = r \/
  (rt_user_id r' = rt_user_id r /\ rt_tenant_id r' = rt_tenant_id r /\ rt_token_hash r' = rt_token_hash r /\
   rt_created_at r' = rt_created_at r /\ rt_expires_at r' = rt_expires_at r) /\
  rt_status r = TokenActive /\ rt_status r' <> TokenActive.

(** An idempotency key is completed by the claim that holds it, or taken over by
    a claim that is later than its expiry. *)
Definition key_step (r r' : idempotency_row) : Prop :=
  (ik_tenant_id r' = ik_tenant_id r /\ ik_key r' = ik_key r) /\
  (ik_created_at r' = ik_created_at r /\ ik_request_hash r' = ik_request_hash r /\ ik_status r' = StatusCompleted \/
   (ik_expires_at r < ik_created_at r')%Z /\ ik_status r' = StatusProcessing).

Definition key_evolves : idempotency_row -> idempotency_row -> Prop := rtc key_step.

(** ** Writes *)

(** Row [i] is stored as [x]: it is new, or goes on as [R] allows. *)
Definition stores {V} (R : V -> V -> Prop) (m : gmap uuid V) (i : uuid) (x : V) : Prop :=
  forall r, m !! i = Some r -> R r x.

Definition evolves (d : db) (w : write) : Prop :=
  match w with
  | WTenant i r => stores eq (tenants d) i r
  | WAccount i r => stores eq (accounts d) i r
  | WTransaction i r => stores txn_evolves (transactions d) i r
  | WEntry i r => stores eq (entries d) i r
  | WIdempotency i r => stores key_evolves (idempotency_keys d) i r
  | WEvent i r => stores same_event (webhook_events d) i r
  | WDeadLetter i r => stores eq (dead_letter_events d) i r
  | WAudit i r => stores eq (audit_log d) i r
  | WUser i r => stores eq (users d) i r
  | WRefreshToken i r => stores token_evolves (refresh_tokens d) i r
  end.

(** ** States *)

Definition grows {V} (R : V -> V -> Prop) (m m' : gmap uuid V) : Prop :=
  forall i r, m !! i = Some r -> exists r', m' !! i = Some r' /\ R r r'.

Record evolution (d d' : db) : Prop := Evolution {
  evo_tenants : grows eq (tenants d) (tenants d');
  evo_accounts : grows eq (accounts d) (accounts d');
  evo_transactions : grows txn_evolves (transactions d) (transactions d');
  evo_entries : grows eq (entries d) (entries d');
  evo_idempotency_keys : grows key_evolves (idempotency_keys d) (idempotency_keys d');
  evo_webhook_events : grows same_event (webhook_events d) (webhook_events d');
  evo_dead_letter_events : grows eq (dead_letter_events d) (dead_letter_events d');
  evo_audit_log : grows eq (audit_log d) (audit_log d');
  evo_users : grows eq (users d) (users d');
  evo_refresh_tokens : grows token_evolves (refresh_tokens d) (refresh_tokens d');
  evo_rbac : rbac d' = rbac d
}.

(** ** Lemmas *)

#[export] Instance txn_evolves_preorder : PreOrder txn_evolves.
Proof.
  split; [by left|]. intros r1 r2 r3 [->|(?&?&?)]; [done|]. intros [->|(?&?&?)]; right; [done|].
  split_and!; congruence.
Qed.

#[export] Instance token_evolves_preorder : PreOrder token_evolves.
Proof.
  split; [by left|]. intros r1 r2 r3 [->|((?&?&?&?&?)&Ha&Hna)]; [done|].
  intros [->|(_&Ha'&_)]; [right|congruence]. by split_and!.
Qed.

#[export] Instance same_event_preorder : PreOrder same_event.
Proof. split; [intros ?; by split_and!|]. intros r1 r2 r3. apply same_event_trans. Qed.

#[export] Instance key_evolves_preorder : PreOrder key_evolves.
Proof. unfold key_evolves. apply _. Qed.

Lemma grows_refl {V} (R : V -> V -> Prop) `{!PreOrder R} m : grows R m m.
Proof. intros i r Hr. exists r. by split. Qed.

Lemma grows_trans {V} (R : V -> V -> Prop) `{!PreOrder R} m1 m2 m3 : grows R m1 m2 -> grows R m2 m3 -> grows R m1 m3.
Proof.
  intros H1 H2 i r Hr. destruct (H1 i r Hr) as (r2 & Hr2 & HR). destruct (H2 i r2 Hr2) as (r3 & Hr3 & HR').
  exists r3. split; [done|]. by transitivity r2.
Qed.

#[export] Instance evolution_preorder : PreOrder evolution.
Proof.
  split.
  - intros d. split; try apply grows_refl; try apply _. done.
  - intros d1 d2 d3 [] []. split; [try (eapply grows_trans; eauto with typeclass_instances)..|congruence].
Qed.

Lemma grows_insert {V} (R : V -> V -> Prop) m m' i x : grows R m m' -> stores R m i x -> grows R m (<[i:=x]> m').
Proof.
  intros Hg Hs j r Hr. destruct (decide (i = j)) as [->|Hne].
  - exists x. rewrite lookup_insert_eq. auto.
  - rewrite lookup_insert_ne by done. by apply Hg.
Qed.

Lemma evolution_write d0 d w : evolution d0 d -> evolves d0 w -> evolution d0 (apply_write w d).
Proof. intros [] Hw. destruct w; split; simpl in *; try done; by apply grows_insert. Qed.

Lemma evolution_writes ws d : (forall w, w ∈ ws -> evolves d w) -> evolution d (apply_writes ws d).
Proof.
  intros Hws. assert (H0 : evolution d d) by reflexivity. revert H0. generalize d at 2 4 as d1.
  induction ws as [|w ws IH]; intros d1 H1; [done|]. rewrite apply_writes_cons.
  apply IH; [intros w' Hw'; apply Hws; by right|]. apply evolution_write; [done|]. apply Hws. left.
Qed.

Lemma stores_back {V} (R : V -> V -> Prop) `{!PreOrder R} m m' i x : grows R m m' -> stores R m' i x -> stores R m i x.
Proof. intros Hg Hs r Hr. destruct (Hg i r Hr) as (r' & Hr' & HR). transitivity r'; [done|by apply Hs]. Qed.

#[export] Instance evolves_stable : StableWrites evolves.
Proof.
  split.
  - intros L d d' w Hl F. destruct F. destruct w; simpl in *; unfold stores; intros Hs x Hx; apply Hs;
      first [by rewrite <- frame_tenants | by rewrite <- frame_accounts | by rewrite <- frame_transactions
            | by rewrite <- frame_entries | by rewrite <- frame_idempotency_keys | by rewrite <- frame_webhook_events
            | by rewrite <- frame_dead_letter_events | by rewrite <- frame_audit_log | by rewrite <- frame_users
            | by rewrite <- frame_refresh_tokens].
  - intros ws d w Hws%evolution_writes. destruct Hws. destruct w; simpl; by apply stores_back; try apply _.
Qed.

(** A new row. *)
Lemma evolves_absent d w : absent d (lock_of w) -> evolves d w.
Proof. destruct w; simpl; intros Ha x Hx; congruence. Qed.
