(* ===== verification/WebhookWp.v ===== *)
(** * What the webhook worker does under concurrency

    The changes a delivery and a claim can make ([delivery_effect],
    [claim_effect]), and that [ProcessEvent] and [processBatch] make at most one
    of them whatever else runs. *)

From S2P Require Import Prelude GoBase Db Prog ProgFacts Interfaces Queue Webhook Adapters.
Local Open Scope Z_scope.

(** ** The abstract transitions *)

(** The status columns of event [i] replaced. *)
Definition event_set (i : uuid) (f : event_row -> event_row) (r : event_row) (d : db) : db :=
  set_webhook_events (<[i:=f r]>) d.

Section delivery.
Context `{DriverText, Crypto, PgTime, JsonText, FloatConv, HttpLib}.

(** The outcomes of one delivery of [ev] to an endpoint that gives one of
    [answers]. *)
Inductive delivery_effect (s : Service) (ev : Event) (answers : http_reply -> Prop) : db -> db -> Prop :=
  | EventDelivered code r d :
      answers (HttpStatus code) -> 200 <= code < 300 ->
      webhook_events d !! evt_ID ev = Some r ->
      delivery_effect s ev answers d (event_set (evt_ID ev) (set_status JobDelivered) r d)
  | EventSkipped now err r d :
      webhook_events d !! evt_ID ev = Some r ->
      delivery_effect s ev answers d (event_set (evt_ID ev)
        (retry_row (evt_AttemptCount ev) (pg_time (now + svc_baseBackoff s)) err) r d)
  | EventRetried now draw backoff err r d :
      let attempt := add64 (evt_AttemptCount ev) 1 in
      attempt < svc_maxAttempts s ->
      backoffForAttempt s attempt draw = Some backoff ->
      webhook_events d !! evt_ID ev = Some r ->
      delivery_effect s ev answers d (event_set (evt_ID ev)
        (retry_row attempt (pg_time (now + backoff)) err) r d)
  | EventDeadLettered j now err r d :
      let attempt := add64 (evt_AttemptCount ev) 1 in
      svc_maxAttempts s <= attempt ->
      dead_letter_events d !! j = None ->
      webhook_events d !! evt_ID ev = Some r ->
      delivery_effect s ev answers d (event_set (evt_ID ev) (failed_row err) r
        (set_dead_letter_events (<[j := DeadLetterRow (evt_TenantID ev) (evt_ID ev)
           (evt_EventType ev) (evt_Payload ev) attempt (Some err) now]>) d)).

(** ** Rows are never deleted *)

Lemma rely_event_kept guar L d d' i :
  rely guar L d d' -> is_Some (webhook_events d !! i) -> is_Some (webhook_events d' !! i).
Proof. induction 1 as [|d1 d2 d3 (K & ws & _ & _ & -> & _) _ IH]; [done|]. intros Hi. by apply IH, event_kept. Qed.

(** ** One delivery *)

Section any_others.
Context (guar : list lock -> db -> db -> Prop) (Hguar : forall L d1 d2, guar L d1 d2).
Context (tick_ok : db -> tick -> Prop) (answers : http_reply -> Prop).
Context (Hanswers : forall d tk, tick_ok d tk -> answers (tk_http tk)).
Local Abbreviation wp := (wp guar tick_ok).
Context (s : Service) (ev : Event).

(** Nothing done yet, and the event still exists. *)
Definition idle (log0 : list (db * db)) (tx : option txst) (log : list (db * db)) (d : db) : Prop :=
  tx = None /\ log = log0 /\ is_Some (webhook_events d !! evt_ID ev).

(** At most one change made, one of the outcomes. *)
Definition settled (log0 : list (db * db)) (tx : option txst) (log : list (db * db)) : Prop :=
  tx = None /\ (log = log0 \/ exists d1 d2, log = log0 ++ [(d1, d2)] /\ delivery_effect s ev answers d1 d2).

Lemma idle_settled log0 tx log d : idle log0 tx log d -> settled log0 tx log.
Proof. intros (-> & -> & _). by split; [|left]. Qed.

Lemma deliver_wp log d :
  is_Some (webhook_events d !! evt_ID ev) ->
  wp (deliver ev) None log d (fun r tx log' d' => idle log tx log' d' /\
    (r = inr tt -> exists code, answers (HttpStatus code) /\ 200 <= code < 300)).
Proof.
  intros Hd. unfold deliver, GetTenantWebhookConfig.
  cbn [ebind wrap_err sql_row bind]. apply wp_select_db.
  { intros d1 Hr1. simpl. split; [|done]. split_and!; [done|done|by eapply rely_event_kept]. }
  intros d1 Hr1. pose proof (rely_event_kept _ _ _ _ _ Hr1 Hd) as Hd1. clear Hr1 Hd.
  destruct (tenants d !! evt_TenantID ev) as [t|]; simpl; [|done].
  destruct (tn_webhook_url t) as [u|]; [|done]. case_decide; [done|]. simpl.
  intros tk d2 _ Hr2. destruct (NewRequest_error u); simpl.
  { split; [|done]. split_and!; [done|done|by eapply rely_event_kept]. }
  intros d3 Hr3 tk' d4 Htk Hr4.
  assert (Hd4 : is_Some (webhook_events d4 !! evt_ID ev)) by (do 3 (eapply rely_event_kept; [done|]); done).
  apply Hanswers in Htk. destruct (tk_http tk') as [msg|code]; simpl; [done|].
  destruct ((code <? 200) || (300 <=? code)) eqn:Ec; simpl; [done|].
  split; [done|]. intros _. exists code. split; [done|]. lia.
Qed.

(** An UPDATE of the event's row outside transactions. *)
Lemma update_event_wp f msg pre1 pre2 log d :
  (forall r d', webhook_events d' !! evt_ID ev = Some r ->
    delivery_effect s ev answers d' (event_set (evt_ID ev) f r d')) ->
  is_Some (webhook_events d !! evt_ID ev) ->
  wp (log_failure msg (wrap_err pre1 (wrap_err pre2 (sql_exec OnDb
        (fun _ _ d => Outcome [] (inr tt) (update_event (evt_ID ev) f d)))))) None log d
    (fun r tx log' _ => r = Returned /\ settled log tx log').
Proof.
  intros Hf [r Hr]. unfold log_failure. cbn [wrap_err sql_exec bind]. apply wp_exec_db.
  { intros d' _. simpl. intros _ _. split; [done|]. by split; [|left]. }
  intros others tk Htk. simpl. unfold effect_of, update_event. simpl. rewrite Hr. simpl.
  split; [by apply Hguar|]. intros x d' Hx _.
  assert (Hs : settled log None (log ++ [(d, event_set (evt_ID ev) f r d)])).
  { split; [done|]. right. exists d, (event_set (evt_ID ev) f r d). split; [done|]. by apply Hf. }
  destruct Hx as [->| ->]; simpl; [done|]. intros _ _. done.
Qed.

Lemma MoveToDeadLetter_in_tx attempt err now d :
  let ev' := {| evt_ID := evt_ID ev; evt_TenantID := evt_TenantID ev;
                evt_EventType := evt_EventType ev; evt_Payload := evt_Payload ev;
                evt_Status := evt_Status ev; evt_AttemptCount := attempt;
                evt_NextRetryAt := evt_NextRetryAt ev; evt_CreatedAt := evt_CreatedAt ev;
                evt_LastError := evt_LastError ev |} in
  is_Some (webhook_events d !! evt_ID ev) ->
  in_tx guar tick_ok (repo_MoveToDeadLetter ev' err) (tx_fresh now) d (fun _ t d' =>
    exists j r, dead_letter_events d' !! j = None /\ webhook_events d' !! evt_ID ev = Some r /\
      tx_aborted t = false /\
      tx_writes t = [WDeadLetter j (DeadLetterRow (evt_TenantID ev) (evt_ID ev) (evt_EventType ev)
                       (evt_Payload ev) attempt (Some err) now); WEvent (evt_ID ev) (failed_row err r)]).
Proof.
  intros ev' Hev. apply in_tx_wrap. eapply (in_tx_ebind _ _ _ _ _ _ (fun _ t1 d1 =>
    exists j, let w := WDeadLetter j (DeadLetterRow (evt_TenantID ev) (evt_ID ev) (evt_EventType ev)
        (evt_Payload ev) attempt (Some err) now) in
      dead_letter_events d1 !! j = None /\ is_Some (webhook_events d1 !! evt_ID ev) /\
      t1 = tx_add (tx_fresh now) w)).
  - apply in_tx_wrap. refine (in_tx_guarded _ _ _ _ _ _ _ _ _ _); [done|].
    intros tk d1 _ e Hc Hr. exists (e_uuid e). split_and!; [|by eapply rely_event_kept|done].
    rewrite (frame_dead_letter_events _ _ _ (rely_frame _ _ _ _ Hr)) by set_solver.
    by apply has_row_false, (Hc _ (UniqueViolation "dead_letter_events_pkey")), list_elem_of_here.
  - intros _ t1 d1 (j & Hj & [r Hr] & ->). apply in_tx_wrap, in_tx_exec; [done|].
    assert (Hu : forall f w, update_event (evt_ID ev) f (seen (tx_add (tx_fresh now) (WDeadLetter j w)) d1)
      = [WEvent (evt_ID ev) (f r)]) by (intros f w; unfold update_event; simpl; by rewrite Hr).
    intros others tk u d2 _. unfold q_mark_failed, needed. simpl. rewrite Hu. intros _ Hrely.
    pose proof (rely_frame _ _ _ _ Hrely) as Hfr. exists j, r. split_and!; [| |done|done].
    + rewrite (frame_dead_letter_events _ _ _ Hfr) by set_solver. done.
    + rewrite (frame_webhook_events _ _ _ Hfr); [done|]. right. left.
Qed.

Lemma dead_letter_wp err log d :
  let attempt := add64 (evt_AttemptCount ev) 1 in
  svc_maxAttempts s <= attempt ->
  is_Some (webhook_events d !! evt_ID ev) ->
  wp (dead_letter ev attempt err) None log d (fun r tx log' _ => r = Returned /\ settled log tx log').
Proof.
  intros attempt Hmax Hd. unfold dead_letter. cbn [sql_begin bind]. intros tk r tx' _ Hb d1 Hr1.
  assert (Hd1 : is_Some (webhook_events d1 !! evt_ID ev)) by by eapply rely_event_kept.
  unfold begin_step in Hb. destruct (tk_fault tk); simplify_eq; cbn [bind];
    try (simpl; intros; by split; [|split; [|left]]).
  apply wp_defer_rollback. cbv zeta. apply wp_bind. apply MoveToDeadLetter_in_tx; [done| |].
  { intros e tx d2. simpl. intros _ _ _ _. split; [done|]. by split; [|left]. }
  intros _ t d2 (j & r & Hj & Hr & Hab & Hws) tk' r' tx' e' _ Hc. revert Hc. unfold commit_step.
  rewrite Hab, Hws. simpl. intros Hc.
  assert (Hs : settled log None (log ++ [(d2, apply_writes (tx_writes t) d2)])).
  { split; [done|]. right. eexists d2, _. split; [done|]. rewrite Hws. by apply EventDeadLettered. }
  rewrite Hws in Hs.
  destruct (tk_fault tk'); simplify_eq/=; (split; [by try apply Hguar|]); intros; simpl; intros;
    (split; [done|]); first [done | by split; [|left]].
Qed.

Local Abbreviation panics_only_in_backoff r :=
  (r = Panicked -> exists draw, backoffForAttempt s (add64 (evt_AttemptCount ev) 1) draw = None).

Lemma returned (p : prog ended) log0 d :
  wp p None log0 d (fun r tx log' _ => r = Returned /\ settled log0 tx log') ->
  wp p None log0 d (fun r tx log' _ => settled log0 tx log' /\ panics_only_in_backoff r).
Proof. intros Hp. eapply wp_mono; [exact Hp|]. by intros r tx log' d' [-> ?]. Qed.

(** Whatever else runs, a delivery makes at most one change, which is one of
    its outcomes; it panics only in the computation of the backoff. *)
Lemma ProcessEvent_wp log d :
  is_Some (webhook_events d !! evt_ID ev) ->
  wp (ProcessEvent s ev) None log d (fun r tx log' _ => settled log tx log' /\ panics_only_in_backoff r).
Proof.
  intros Hd. unfold ProcessEvent. apply wp_bind. eapply wp_mono; [by apply deliver_wp|].
  intros [e|[]] tx log' d1 [(-> & -> & Hd1) Hok]; cbv zeta.
  - destruct (errors_Is e ErrNoEndpointConfigured); [|destruct (Z.leb_spec (svc_maxAttempts s) (add64 (evt_AttemptCount ev) 1))].
    + cbn [bind emit time_Now ask]. intros d2 Hr2 d3 Hr3 tk d4 _ Hr4. apply returned.
      refine (update_event_wp (retry_row _ _ _) _ _ _ _ _ _ _); [by constructor|].
      do 3 (eapply rely_event_kept; [done|]). done.
    + cbn [bind emit]. intros d2 Hr2. apply returned, dead_letter_wp; [done|by eapply rely_event_kept].
    + cbn [bind emit time_Now ask]. intros d2 Hr2 tk d3 _ Hr3 tk' d4 _ Hr4.
      destruct (backoffForAttempt _ _ _) as [b|] eqn:Eb.
      * apply returned. refine (update_event_wp (retry_row _ _ _) _ _ _ _ _ _ _).
        { intros r d' Hr. by eapply EventRetried. }
        do 3 (eapply rely_event_kept; [done|]). done.
      * simpl. split; [by split; [|left]|]. by eexists.
  - cbn [bind emit]. intros d2 Hr2. apply returned. destruct (Hok eq_refl) as (code & Hreply & Hcode).
    refine (update_event_wp (set_status JobDelivered) _ _ _ _ _ _ _); [|by eapply rely_event_kept].
    intros r d' Hr. by eapply EventDelivered.
Qed.
End any_others.
End delivery.

(** ** Claims *)

(** The rows a claim takes: at most [limit] due pending rows that nobody holds,
    and no due row nobody holds is passed over for a later one. *)
Lemma claimable_spec others now limit d :
  let rows := claimable others now limit d in
  NoDup rows.*1 /\ (length rows <= limit)%nat /\
  (forall i r, (i, r) ∈ rows -> webhook_events d !! i = Some r /\ ev_status r = JobPending /\
     ev_next_retry_at r <= now /\ LRow T_webhook_events i ∉ others) /\
  (forall i r, webhook_events d !! i = Some r -> ev_status r = JobPending ->
     ev_next_retry_at r <= now -> LRow T_webhook_events i ∉ others ->
     (i, r) ∈ rows \/ length rows = limit /\ forall p, p ∈ rows -> ev_next_retry_at p.2 <= ev_next_retry_at r).
Proof.
  unfold claimable.
  set (due := filter (fun p : uuid * event_row => ev_status p.2 = JobPending /\ ev_next_retry_at p.2 <= now)
                (map_to_list (webhook_events d))).
  set (free := filter (fun p : uuid * event_row => LRow T_webhook_events p.1 ∉ others) (merge_sort next_retry_le due)).
  assert (Hfree : forall i r, (i, r) ∈ free <-> webhook_events d !! i = Some r /\ ev_status r = JobPending /\
     ev_next_retry_at r <= now /\ LRow T_webhook_events i ∉ others).
  { intros i r. unfold free. rewrite list_elem_of_filter, merge_sort_Permutation. unfold due.
    rewrite list_elem_of_filter, elem_of_map_to_list. simpl. tauto. }
  assert (Hsorted : StronglySorted next_retry_le free).
  { apply StronglySorted_filter, StronglySorted_merge_sort; intros p q; unfold next_retry_le; [|lia].
    intros r. lia. }
  assert (Hnd : NoDup free.*1).
  { eapply sublist_NoDup_fst; [apply sublist_filter|]. rewrite merge_sort_Permutation.
    eapply sublist_NoDup_fst; [apply sublist_filter|]. apply NoDup_fst_map_to_list. }
  split_and!.
  - eapply sublist_NoDup_fst; [apply sublist_take|done].
  - rewrite length_take. lia.
  - intros i r Hin. apply Hfree. eapply elem_of_sublist; [exact Hin|apply sublist_take].
  - intros i r H1 H2 H3 H4. by apply (take_sorted next_retry_le); [|apply Hfree].
Qed.

(** The images of the events a claim stores. *)
Lemma events_written (rows : list (uuid * event_row)) d i :
  NoDup rows.*1 ->
  (forall r, (i, r) ∈ rows -> webhook_events (apply_writes ((fun p => WEvent p.1 p.2) <$> rows) d) !! i = Some r) /\
  (i ∉ rows.*1 -> webhook_events (apply_writes ((fun p => WEvent p.1 p.2) <$> rows) d) !! i = webhook_events d !! i).
Proof.
  revert d. induction rows as [|[j r'] rows IH]; intros d; [set_solver|]. rewrite fmap_cons, NoDup_cons.
  intros [Hj Hnd]. rewrite fmap_cons, apply_writes_cons. cbn [fst snd] in *. destruct (IH (apply_write (WEvent j r') d) Hnd) as [IH1 IH2].
  split.
  - intros r [E|Hin]%elem_of_cons; [|by apply IH1]. simplify_eq. rewrite IH2 by done. simpl.
    by rewrite lookup_insert_eq.
  - intros [Hne Hi]%not_elem_of_cons. rewrite IH2 by done. simpl.
    by rewrite lookup_insert_ne.
Qed.

(** A claim turns pending events into processing ones and does nothing else to
    the queue. *)
Definition claim_step (d d' : db) : Prop :=
  forall i, webhook_events d' !! i = webhook_events d !! i \/
    exists r, webhook_events d !! i = Some r /\ ev_status r = JobPending /\
      webhook_events d' !! i = Some (set_status JobProcessing r).

(** The claim whose result is [evs]. *)
Record claim_effect (limit : nat) (evs : list Event) (d d' : db) : Prop := ClaimEffect {
  ce_nodup : NoDup (evt_ID <$> evs);
  ce_length : (length evs <= limit)%nat;
  ce_claimed : forall ev, ev ∈ evs -> exists r, webhook_events d !! evt_ID ev = Some r /\
    ev_status r = JobPending /\ webhook_events d' !! evt_ID ev = Some (set_status JobProcessing r) /\
    ev = eventFromJob (scanJob (evt_ID ev, set_status JobProcessing r));
  ce_others : forall i, i ∉ (evt_ID <$> evs) -> webhook_events d' !! i = webhook_events d !! i
}.

Lemma claim_effect_step limit evs d d' : claim_effect limit evs d d' -> claim_step d d'.
Proof.
  intros [_ _ Hc Ho] i. destruct (decide (i ∈ (evt_ID <$> evs))) as [Hi|Hi]; [right|by left; apply Ho].
  apply list_elem_of_fmap in Hi as (ev & -> & Hev). destruct (Hc ev Hev) as (r & ? & ? & ? & _). eauto.
Qed.

Section claim.
Context (guar : list lock -> db -> db -> Prop) (tick_ok : db -> tick -> Prop).
Context (Hguar : forall L d d', claim_step d d' -> guar L d d').
Local Abbreviation wp := (wp guar tick_ok).

(** What a poll that ended with [evs] to deliver did: it claimed them in one
    change; or it has nothing to deliver, and claimed nothing unless the answer
    to its COMMIT was lost. *)
Definition claim_result (limit : nat) (log0 : list (db * db)) (evs : list Event) (log : list (db * db)) : Prop :=
  (evs = [] /\ log = log0) \/
  (evs = [] /\ lossy tick_ok /\ exists evs' d1 d2, log = log0 ++ [(d1, d2)] /\ claim_effect limit evs' d1 d2) \/
  (exists d1 d2, log = log0 ++ [(d1, d2)] /\ claim_effect limit evs d1 d2).

(** The rows a claim took, once its statement has run. *)
Definition claiming (limit : nat) (rows : list (uuid * event_row)) (t : txst) (d : db) : Prop :=
  tx_aborted t = false /\ NoDup rows.*1 /\ (length rows <= limit)%nat /\
  tx_writes t = (fun p => WEvent p.1 (set_status JobProcessing p.2)) <$> rows /\
  forall i r, (i, r) ∈ rows -> webhook_events d !! i = Some r /\ ev_status r = JobPending.

Definition event_of_row (p : uuid * event_row) : Event :=
  eventFromJob (scanJob (p.1, set_status JobProcessing p.2)).

Lemma claiming_effect limit rows t d :
  claiming limit rows t d -> claim_effect limit (event_of_row <$> rows) d (seen t d).
Proof.
  intros (_ & Hnd & Hlen & Hws & Hrows).
  assert (Hids : evt_ID <$> (event_of_row <$> rows) = rows.*1).
  { rewrite <- list_fmap_compose. by apply list_fmap_ext. }
  assert (Ews : tx_writes t = (fun p => WEvent p.1 p.2) <$> ((fun p => (p.1, set_status JobProcessing p.2)) <$> rows)).
  { rewrite Hws, <- list_fmap_compose. by apply list_fmap_ext. }
  assert (Hnd' : NoDup ((fun p => (p.1, set_status JobProcessing p.2)) <$> rows).*1).
  { by rewrite <- list_fmap_compose. }
  unfold seen. rewrite Ews. split.
  - by rewrite Hids.
  - by rewrite length_fmap.
  - intros ev ([i r] & -> & Hin)%list_elem_of_fmap. destruct (Hrows i r Hin) as [Hr Hp].
    exists r. split_and!; [done|done| |done]. apply events_written; [done|].
    apply list_elem_of_fmap. by exists (i, r).
  - intros i Hi. apply events_written; [done|]. rewrite Hids in Hi. by rewrite <- list_fmap_compose.
Qed.

Lemma ClaimPendingEvents_in_tx limit now d :
  in_tx guar tick_ok (ClaimPendingEvents limit) (tx_fresh now) d (fun evs t d' =>
    exists rows, evs = event_of_row <$> rows /\ claiming limit rows t d').
Proof.
  unfold ClaimPendingEvents, ClaimPending. eapply (in_tx_ebind _ _ _ _ _ _ (fun jobs t d' =>
    exists rows, eventFromJob <$> jobs = event_of_row <$> rows /\ claiming limit rows t d')).
  - apply in_tx_wrap. eapply (in_tx_ebind _ _ _ _ _ _ (fun rows' t d' =>
      exists rows, rows' = (fun p => (p.1, set_status JobProcessing p.2)) <$> rows /\ claiming limit rows t d')).
    + apply in_tx_wrap, in_tx_exec; [done|]. intros others tk rows' d' _ o Ho Hr.
      destruct (claimable_spec others now limit d) as (Hnd & Hlen & Hrows & _).
      exists (claimable others now limit d). simpl in Ho. injection Ho as <-. split; [done|].
      split_and!; [done|done|done| |].
      * unfold tx_extend, o. simpl. by rewrite <- list_fmap_compose.
      * intros i r Hin. destruct (Hrows i r Hin) as (Hi & Hp & _). split; [|done]. rewrite <- Hi.
        apply (frame_webhook_events _ _ _ (rely_frame _ _ _ _ Hr)). simpl.
        apply list_elem_of_fmap. exists (WEvent i (set_status JobProcessing r)). split; [done|].
        apply (list_elem_of_fmap_2 (fun p : uuid * event_row => WEvent p.1 p.2) _ (i, set_status JobProcessing r)).
        by apply (list_elem_of_fmap_2 (fun p : uuid * event_row => (p.1, set_status JobProcessing p.2)) _ (i, r)).
    + intros rows' t d' (rows & -> & Hc). apply in_tx_ret. exists rows. split; [|done].
      by rewrite <- !list_fmap_compose.
  - intros jobs t d' (rows & Hj & Hc). apply in_tx_ret. by exists rows.
Qed.

(** A poll, whatever other polls run. *)
Lemma processBatch_wp limit log d :
  wp (processBatch limit) None log d (fun evs tx log' _ => tx = None /\ claim_result limit log evs log').
Proof.
  unfold processBatch. cbn [sql_begin bind]. intros tk r tx' _ Hb d1 _. unfold begin_step in Hb.
  destruct (tk_fault tk); simplify_eq; cbn [bind]; try (simpl; intros; split; [done|by left]).
  apply wp_bind, ClaimPendingEvents_in_tx.
  { intros e tx d2. simpl. intros. split; [done|by left]. }
  intros evs t d2 (rows & -> & Hc). pose proof (claiming_effect _ _ _ _ Hc) as He.
  destruct Hc as (Hab & _ & _ & Hws & _).
  cbn [sql_commit bind]. intros tk' r tx' e Htk. unfold commit_step, seen in *. rewrite Hab.
  destruct rows as [|p rows]; rewrite Hws in He |- *; cbn [fmap list_fmap mk_eff].
  { destruct (tk_fault tk'); intros; simplify_eq; (split; [done|]); simpl; intros; (split; [done|by left]). }
  destruct (tk_fault tk') eqn:Ef; intros; simplify_eq; simpl.
  - split; [by eapply Hguar, claim_effect_step|]. intros d' _ d'' _. split; [done|]. do 2 right. by eexists _, _.
  - split; [done|]. intros d' _ d'' _. split; [done|by left].
  - split; [by eapply Hguar, claim_effect_step|]. intros d' _ d'' _. split; [done|]. right. left.
    split; [done|]. split; [by exists d2, tk'|]. by eexists _, _, _.
Qed.
End claim.
