(* ===== verification/WorkerWp.v ===== *)
(** * Who owns an event: the invariant of a fleet of webhook workers

    A poll owns the events it has claimed until its goroutines are started, and
    each of these owns its event until it has recorded an outcome. The invariant
    [fleet_inv] says that owned events are in the state processing, that each has
    one owner, and which changes each kind of goroutine has made. *)

From S2P Require Import Prelude GoBase Db Prog ProgFacts Interfaces Queue Webhook Adapters.
From S2P Require Import WebhookWp Worker.

(** ** Every goroutine makes at most one change *)

Section once.
Context `{DriverText, Crypto, PgTime, JsonText, FloatConv, HttpLib}.

Ltac silent_tac := repeat first [intros ? | progress simpl | case_match]; auto.

Lemma select_none {R} (f : db -> R) : stmt_writes (fun _ => False) (select f).
Proof. intros others ev d w Hw. by apply not_elem_of_nil in Hw. Qed.

Lemma processBatch_once n : once (processBatch n).
Proof.
  unfold processBatch. apply once_after; [done|]. intros [e|[]]; [done|].
  apply once_after; [simpl; split; [by left|]; silent_tac|]. intros [e|evs]; [done|].
  intros r. silent_tac.
Qed.

Lemma deliver_unseen ev : unseen (deliver ev).
Proof.
  unfold deliver, GetTenantWebhookConfig. simpl. split; [right; apply select_none|].
  intros [e|[[[u|] secret]|]]; silent_tac.
Qed.

Lemma dead_letter_once ev n e : once (dead_letter ev n e).
Proof.
  unfold dead_letter. apply once_after; [done|]. intros [?|[]]; [done|]. unfold defer_rollback.
  apply once_bind; [|done]. cbv zeta. apply once_after; [|silent_tac].
  unfold repo_MoveToDeadLetter, MoveToDeadLetter. simpl. split; [by left|]. silent_tac.
Qed.

Lemma ProcessEvent_once s ev : once (ProcessEvent s ev).
Proof.
  unfold ProcessEvent. apply once_after; [apply deliver_unseen|]. cbv zeta. intros [e|[]].
  - destruct (errors_Is e ErrNoEndpointConfigured); [|destruct (_ <=? _)%Z]; simpl.
    + intros r. right. silent_tac.
    + apply dead_letter_once.
    + intros r draw. destruct (backoffForAttempt _ _ _); [|done]. right. silent_tac.
  - simpl. right. silent_tac.
Qed.
End once.

(** ** The executable scheduler *)

Lemma fleet_exec_steps `{DriverText, Crypto, PgTime, JsonText, FloatConv, HttpLib} {G} (guest : G -> prog unit)
    tick_ok cs (F : fleet G) :
  (forall i tk d, Move i tk ∈ cs -> tick_ok d tk) -> rtc (fleet_step guest tick_ok) F (fleet_exec guest F cs).
Proof.
  revert F. induction cs as [|c cs IH]; intros F Hok; [done|].
  etransitivity; [|apply IH; intros i tk d Hin; apply (Hok i); by right]. simpl.
  destruct (perform guest c F) as [F'|] eqn:E; [|done]. apply rtc_once, (FleetStep _ _ _ _ c); [|done].
  destruct c as [| | | |i tk| |]; try done. apply (Hok i). left.
Qed.

(** ** The changes of events *)

(** The row that the goroutine for [ev] was told of. *)
Definition row_of_event (ev : Event) : event_row :=
  EventRow (evt_TenantID ev) (evt_EventType ev) (evt_Payload ev) (evt_Status ev) (evt_AttemptCount ev)
    (evt_NextRetryAt ev) (evt_CreatedAt ev) (evt_LastError ev).

Lemma row_of_scanned i r : row_of_event (eventFromJob (scanJob (i, r))) = r.
Proof. by destruct r. Qed.

Section fleet.
Context `{DriverText, Crypto, PgTime, JsonText, FloatConv, HttpLib}.

Lemma delivery_effect_other s ev answers d d' i :
  delivery_effect s ev answers d d' -> i <> evt_ID ev -> webhook_events d' !! i = webhook_events d !! i.
Proof. intros He Hi. destruct He; simpl; by rewrite lookup_insert_ne. Qed.

Lemma delivery_effect_self s ev answers d d' :
  delivery_effect s ev answers d d' -> is_Some (webhook_events d' !! evt_ID ev).
Proof. intros He. destruct He; simpl; rewrite lookup_insert_eq; by eexists. Qed.

Context {G : Type} (guest : G -> prog unit) (Hguest : forall g, writes_when outbox_write (guest g)).
Context (tick_ok : db -> tick -> Prop) (answers : http_reply -> Prop).
Context (Hanswers : forall d tk, tick_ok d tk -> answers (tk_http tk)).
Context (d0 : db).

(** What a goroutine's change does to the stored events. *)
Definition change_ok (t : option (task G)) (a b : db) : Prop :=
  forall id r, webhook_events a !! id = Some r -> exists r', webhook_events b !! id = Some r' /\
    (r' = r \/
     match t with
     | Some (Poll _) => ev_status r = JobPending /\ r' = set_status JobProcessing r
     | Some (Deliver s ev) => id = evt_ID ev /\ r = row_of_event ev /\ ev_status r = JobProcessing /\
         delivery_effect s ev answers a b
     | _ => False
     end).

(** Goroutine [i] owns event [id], whose row is [r]. *)
Inductive owns (F : fleet G) (i id : _) (r : event_row) : Prop :=
  | OwnsClaimed k w th a b :
      fl_workers F !! k = Some (w, Polling i) -> fl_threads F !! i = Some th -> (a, b) ∈ th_log th ->
      webhook_events b !! id = Some r -> webhook_events a !! id <> Some r -> owns F i id r
  | OwnsDelivery s ev th :
      fl_tasks F !! i = Some (Deliver s ev) -> fl_threads F !! i = Some th -> th_log th = [] ->
      id = evt_ID ev -> r = row_of_event ev -> owns F i id r.

Definition free (_ : list lock) (_ _ : db) : Prop := True.

Definition task_post (ts : list (task G)) (i : nat) (r : task_result) (tx : option txst)
    (log : list (db * db)) (_ : db) : Prop :=
  match ts !! i with
  | Some (Poll w) => tx = None /\ exists evs, claim_result tick_ok (wk_batchSize w) [] evs log /\
      forall evs', r = Polled evs' -> evs' = evs
  | Some (Deliver s ev) => settled answers s ev [] tx log
  | _ => True
  end.

Definition thread_ok (t : option (task G)) (th : thread task_result) (d : db) : Prop :=
  match t with
  | Some (Guest _) => writes_when outbox_write (th_prog th) /\ tx_when outbox_write (th_tx th) d
  | _ => once (th_prog th) /\ (th_log th <> [] -> silent (th_prog th))
  end.

Record fleet_inv (F : fleet G) : Prop := FleetInv {
  fi_pool : pool_inv free tick_ok (task_post (fl_tasks F)) d0 (fl_pool F);
  fi_len : length (fl_tasks F) = length (fl_threads F);
  fi_threads : forall i th, fl_threads F !! i = Some th -> thread_ok (fl_tasks F !! i) th (fl_db F);
  fi_polls : forall k w i, fl_workers F !! k = Some (w, Polling i) -> fl_tasks F !! i = Some (Poll w);
  fi_unique : forall k k' w w' i, fl_workers F !! k = Some (w, Polling i) ->
    fl_workers F !! k' = Some (w', Polling i) -> k = k';
  fi_own : forall i id r, owns F i id r ->
    webhook_events (fl_db F) !! id = Some r /\ ev_status r = JobProcessing;
  fi_disjoint : forall i j id r r', owns F i id r -> owns F j id r' -> i = j;
  fi_bound : forall i c, (i, c) ∈ fl_hist F -> i < length (fl_threads F);
  fi_hist : forall i a b, (i, (a, b)) ∈ fl_hist F -> change_ok (fl_tasks F !! i) a b
}.

Lemma fleet_inv_start : fleet_inv (fleet_start d0).
Proof.
  split; try done.
  - apply pool_inv_start. intros i p Hp. done.
  - intros i id r [k w th a b Hk|s ev th Ht]; simpl in *; by rewrite lookup_nil in *.
  - intros i j id r r' [k w th a b Hk|s ev th Ht]; simpl in *; by rewrite lookup_nil in *.
  - simpl. intros i c Hc. by apply not_elem_of_nil in Hc.
  - simpl. intros i a b Hc. by apply not_elem_of_nil in Hc.
Qed.
(** *** A goroutine moves *)

(** The change a move made, by the task of the goroutine. *)
Definition moved (t : option (task G)) (log : list (db * db)) (d d' : db) : Prop :=
  match t with
  | Some (Poll _) => log = [] /\ claim_step d d'
  | Some (Deliver s ev) => log = [] /\ delivery_effect s ev answers d d'
  | _ => forall id r, webhook_events d !! id = Some r -> webhook_events d' !! id = Some r
  end.

(** After a change nothing is left to do, so the log says which change it was. *)
Lemma log_of_change ts P i th (d d' : db) log :
  pool_inv free tick_ok (task_post ts) d0 P -> p_threads P !! i = Some th ->
  th_log th = log ++ [(d, d')] -> silent (th_prog th) ->
  match ts !! i with
  | Some (Poll _) => log = [] /\ claim_step d d'
  | Some (Deliver s ev) => log = [] /\ delivery_effect s ev answers d d'
  | _ => True
  end.
Proof.
  intros [Hwp _ _ _ _] Hi Hlog Hsil. destruct (Hwp i th Hi) as [_ Hw].
  specialize (Hw (p_db P) (rely_refl _ _ _)). destruct (silent_ends _ _ _ _ _ _ _ Hsil Hw) as (r & tx & Hq).
  rewrite Hlog in Hq. unfold task_post in Hq. destruct (ts !! i) as [[w|s ev|g]|]; [| |done..].
  - destruct Hq as (_ & evs & Hc & _). unfold claim_result in Hc. simpl in Hc.
    destruct Hc as [[_ E]|[(_ & _ & evs' & d1 & d2 & E & He)|(d1 & d2 & E & He)]];
      [by destruct log|..]; apply (app_inj_2 _ []) in E as [-> [= -> ->]]; try done;
      by eapply conj, claim_effect_step.
  - destruct Hq as [_ [E|(d1 & d2 & E & He)]]; [by destruct log|].
    by apply (app_inj_2 _ []) in E as [-> [= -> ->]].
Qed.

(** The goroutine after its step, and its change. *)
Lemma thread_moves ts d ths hist i th tk th' e os :
  let P' := Pool (apply_eff e d) (<[i:=th']> ths) (add_hist i e d hist) in
  pool_inv free tick_ok (task_post ts) d0 P' -> is_Some (ts !! i) -> ths !! i = Some th -> thread_ok (ts !! i) th d ->
  thread_step (others_locks ths i) tk th d = Some (th', e, os) ->
  thread_ok (ts !! i) th' (apply_eff e d) /\ (e = NoEff \/ moved (ts !! i) (th_log th) d (apply_eff e d)).
Proof.
  intros P' HP [t Ht] Hi Hok Hs. pose proof (thread_step_log _ _ _ _ _ _ _ Hs) as Hlog.
  assert (Hi' : p_threads P' !! i = Some th') by (apply list_lookup_insert_eq; by eapply lookup_lt_Some).
  assert (Hworker : once (th_prog th) -> (th_log th <> [] -> silent (th_prog th)) ->
    (once (th_prog th') /\ (th_log th' <> [] -> silent (th_prog th'))) /\
    (e = NoEff \/ silent (th_prog th') /\ th_log th' = th_log th ++ [(d, apply_eff e d)])).
  { intros Hon Hsi. destruct e as [|L ws].
    - rewrite Hlog. simpl. split; [|by left]. destruct (once_step _ _ _ _ _ _ _ Hon Hs) as [[_ Hon']|Hs'];
        [|split; [by apply silent_once|done]].
      split; [done|]. intros Hne. by destruct (silent_step _ _ _ _ _ _ _ (Hsi Hne) Hs).
    - destruct (once_step _ _ _ _ _ _ _ Hon Hs) as [[? _]|Hs']; [done|].
      split; [split; [by apply silent_once|done]|]. by right. }
  pose proof (log_of_change ts P' i th' d (apply_eff e d) (th_log th) HP Hi') as Hlc.
  unfold thread_ok, moved in *. rewrite Ht in *. destruct t as [w|s ev|g].
  - destruct Hok as [Hon Hsi]. destruct (Hworker Hon Hsi) as [Hok' [->|[Hsil El]]]; [by auto|]. auto.
  - destruct Hok as [Hon Hsi]. destruct (Hworker Hon Hsi) as [Hok' [->|[Hsil El]]]; [by auto|]. auto.
  - destruct Hok as [Hw Htx]. destruct (thread_step_when _ _ _ _ _ _ _ _ Hw Htx Hs) as (Hw' & Ht' & He).
    split; [done|]. destruct e as [|L ws]; [by left|right]. intros id r. by apply outbox_grows.
Qed.

(** A delivery still owns its event when it changes it. *)
Lemma moved_change_ok t log d d' :
  moved t log d d' ->
  (forall s ev, t = Some (Deliver s ev) -> webhook_events d !! evt_ID ev = Some (row_of_event ev) /\
     evt_Status ev = JobProcessing) ->
  change_ok t d d'.
Proof.
  intros Hm Hown id r Hr. unfold moved in Hm. destruct t as [[w|s ev|g]|]; [| |by eauto..].
  - destruct Hm as [_ Hc]. destruct (Hc id) as [E|(r' & Hr' & Hp & E)]; [rewrite E; eauto|].
    simplify_eq. eauto 7.
  - destruct Hm as [_ He]. destruct (decide (id = evt_ID ev)) as [->|Hne];
      [|rewrite (delivery_effect_other _ _ _ _ _ _ He Hne); eauto].
    destruct (Hown s ev eq_refl) as [Hrow Hst]. destruct (delivery_effect_self _ _ _ _ _ He) as [r' Hr'].
    exists r'. split; [done|]. right. assert (r = row_of_event ev) as -> by congruence. done.
Qed.

(** A change leaves the rows of the other owners alone. *)
Lemma moved_keeps t log d d' id r :
  moved t log d d' -> webhook_events d !! id = Some r -> ev_status r = JobProcessing ->
  (forall s ev, t = Some (Deliver s ev) -> id <> evt_ID ev) -> webhook_events d' !! id = Some r.
Proof.
  unfold moved. intros Hm Hr Hst Hne. destruct t as [[w|s ev|g]|]; [| |by auto..].
  - destruct Hm as [_ Hc]. destruct (Hc id) as [->|(r' & Hr' & Hp & _)]; [done|congruence].
  - destruct Hm as [_ He]. by rewrite (delivery_effect_other _ _ _ _ _ _ He (Hne s ev eq_refl)).
Qed.

(** The owners after a move: those before it, but for a delivery that has made
    its change, and a poll for the events it has just claimed. *)
Lemma owns_moved F i th th' e j id r :
  fl_threads F !! i = Some th -> th_log th' = add_log e (fl_db F) (th_log th) ->
  owns (set_pool (Pool (apply_eff e (fl_db F)) (<[i:=th']> (fl_threads F))
                    (add_hist i e (fl_db F) (fl_hist F))) F) j id r ->
  (owns F j id r /\ (j = i -> e = NoEff \/ exists k w, fl_workers F !! k = Some (w, Polling i))) \/
  (j = i /\ e <> NoEff /\ (exists k w, fl_workers F !! k = Some (w, Polling i)) /\
   webhook_events (apply_eff e (fl_db F)) !! id = Some r /\ webhook_events (fl_db F) !! id <> Some r).
Proof.
  intros Hi Hlog Ho. destruct Ho as [k w th1 a b Hk Hth Hin Hb Ha|s ev th1 Ht Hth Hl -> ->];
    unfold set_pool, fl_threads in *; simpl in *;
    apply list_lookup_insert_Some in Hth as [(<- & -> & _)|(Hne & Hth)].
  - rewrite Hlog in Hin. destruct e as [|L ws]; [left; split; [by eapply OwnsClaimed|by left]|].
    simpl in Hin. apply elem_of_app in Hin as [Hin|Hin]; [left; split; [by eapply OwnsClaimed|by eauto]|].
    apply list_elem_of_singleton in Hin. injection Hin as -> ->. right. by eauto 8.
  - left. split; [by eapply OwnsClaimed|]. by intros ->.
  - rewrite Hlog in Hl. destruct e as [|L ws]; [|by destruct (th_log th)]. left.
    split; [by eapply OwnsDelivery|by left].
  - left. split; [by eapply OwnsDelivery|]. by intros ->.
Qed.

Lemma owned_kept F i th d' j id r :
  fleet_inv F -> fl_threads F !! i = Some th -> moved (fl_tasks F !! i) (th_log th) (fl_db F) d' ->
  owns F j id r -> (j = i -> exists k w, fl_workers F !! k = Some (w, Polling i)) ->
  webhook_events d' !! id = Some r /\ ev_status r = JobProcessing.
Proof.
  intros HF Hi Hm Ho Hj. destruct (fi_own _ HF _ _ _ Ho) as [Hr Hst]. split; [|done].
  eapply moved_keeps; [done..|]. intros s ev Ht ->. rewrite Ht in Hm. destruct Hm as [Hl _].
  assert (j = i) as -> by (eapply (fi_disjoint _ HF); [exact Ho|by eapply OwnsDelivery]).
  destruct (Hj eq_refl) as (k & w & Hk). apply (fi_polls _ HF) in Hk. congruence.
Qed.

Lemma newly_owned F i log d' id r :
  fleet_inv F -> moved (fl_tasks F !! i) log (fl_db F) d' ->
  (exists k w, fl_workers F !! k = Some (w, Polling i)) ->
  webhook_events d' !! id = Some r -> webhook_events (fl_db F) !! id <> Some r ->
  ev_status r = JobProcessing /\ forall j r', ~ owns F j id r'.
Proof.
  intros HF Hm (k & w & Hk) Hr Hne. apply (fi_polls _ HF) in Hk. rewrite Hk in Hm.
  destruct Hm as [_ Hc]. destruct (Hc id) as [E|(r0 & Hr0 & Hp & E)]; [congruence|].
  split; [assert (r = set_status JobProcessing r0) as -> by congruence; done|].
  intros j r' Ho. destruct (fi_own _ HF _ _ _ Ho). congruence.
Qed.

Lemma move_inv F F' i tk :
  fleet_inv F -> tick_ok (fl_db F) tk -> move i tk F = Some F' -> fleet_inv F'.
Proof.
  intros HF Htk. unfold move. destruct (fl_threads F !! i) as [th|] eqn:Hi; [|done].
  destruct (thread_step _ _ _ _) as [[[th' e] os]|] eqn:Hs; [|done]. intros [= <-].
  set (d := fl_db F) in *. set (d' := apply_eff e d).
  assert (Heta : fl_pool F = Pool d (fl_threads F) (fl_hist F))
    by (unfold d, fl_threads, fl_db, fl_hist; by destruct (fl_pool F)).
  pose proof (fi_pool _ HF) as HP. rewrite Heta in HP.
  assert (HP' : pool_inv free tick_ok (task_post (fl_tasks F)) d0
    (Pool d' (<[i:=th']> (fl_threads F)) (add_hist i e d (fl_hist F)))).
  { refine (pool_inv_step _ _ _ _ _ _ HP _). by eapply PoolStep. }
  assert (Ht : is_Some (fl_tasks F !! i))
    by (apply lookup_lt_is_Some; rewrite (fi_len _ HF); by eapply lookup_lt_Some).
  destruct (thread_moves _ _ _ _ _ _ _ _ _ _ HP' Ht Hi (fi_threads _ HF i th Hi) Hs) as [Hok Hmv].
  pose proof (fun j id r => owns_moved F i th th' e j id r Hi (thread_step_log _ _ _ _ _ _ _ Hs)) as Hom.
  assert (Hkept : forall j id r, owns F j id r ->
    (j = i -> e = NoEff \/ exists k w, fl_workers F !! k = Some (w, Polling i)) ->
    webhook_events d' !! id = Some r /\ ev_status r = JobProcessing).
  { intros j id r Ho Hj. destruct Hmv as [->|Hmv]; [by apply (fi_own _ HF) in Ho|].
    destruct e as [|L ws]; [by apply (fi_own _ HF) in Ho|].
    eapply owned_kept; [done..|]. intros E. by destruct (Hj E). }
  assert (Hnew : forall id r, e <> NoEff -> (exists k w, fl_workers F !! k = Some (w, Polling i)) ->
    webhook_events d' !! id = Some r -> webhook_events d !! id <> Some r ->
    ev_status r = JobProcessing /\ forall j r', ~ owns F j id r').
  { intros id r He Hk. destruct Hmv as [?|Hmv]; [done|]. by eapply newly_owned. }
  split; simpl; [done|rewrite (fi_len _ HF); symmetry; apply length_insert| |apply HF|apply HF|..].
  - intros j thj [(-> & -> & _)|(Hne & Hj)]%list_lookup_insert_Some; [done|].
    pose proof (fi_threads _ HF j thj Hj) as Hokj. unfold thread_ok in *.
    destruct (fl_tasks F !! j) as [[| |g]|]; try done. destruct Hokj as [Hw Htx]. split; [done|].
    eapply tx_when_frame; [apply _|done|]. by eapply (pool_step_frame _ _ _ _ _ _ _ i).
  - intros j id r [[Ho Hj]|(-> & He & Hk & Hr & Hne)]%Hom; [by eapply Hkept|].
    split; [done|by eapply Hnew].
  - intros j1 j2 id r r' [[Ho _]|(-> & He & Hk & Hr & Hne)]%Hom [[Ho' _]|(-> & He' & Hk' & Hr' & Hne')]%Hom;
      [by eapply (fi_disjoint _ HF)| | |done]; exfalso; [eapply Hnew in Ho as []|eapply Hnew in Ho' as []]; try done.
  - intros j c Hc. eapply Nat.lt_le_trans; [|apply Nat.eq_le_incl; symmetry; apply length_insert].
    unfold fl_hist, add_hist in Hc. simpl in Hc. destruct e as [|L ws]; [by eapply (fi_bound _ HF)|].
    apply elem_of_app in Hc as [Hc|Hc%list_elem_of_singleton]; [by eapply (fi_bound _ HF)|].
    simplify_eq. by eapply lookup_lt_Some.
  - intros j a b Hc. unfold fl_hist, add_hist in Hc. simpl in Hc. destruct e as [|L ws]; [by apply (fi_hist _ HF)|].
    apply elem_of_app in Hc as [Hc|Hc%list_elem_of_singleton]; [by apply (fi_hist _ HF)|]. simplify_eq.
    destruct Hmv as [?|Hmv]; [done|]. apply (moved_change_ok _ _ _ _ Hmv). intros s ev E. rewrite E in Hmv.
    destruct Hmv as [Hl _]. by apply (fi_own _ HF i), (OwnsDelivery _ _ _ _ s ev th).
Qed.

(** *** A goroutine goes with its process *)

Lemma killed_post F i th d :
  fleet_inv F -> fl_threads F !! i = Some th -> task_post (fl_tasks F) i Killed None (th_log th) d.
Proof.
  intros HF Hi. destruct (fi_pool _ HF) as [Hwp _ _ _ _]. destruct (Hwp i th Hi) as [_ Hw].
  specialize (Hw _ (rely_refl _ _ _)). pose proof (fi_threads _ HF i th Hi) as Hok.
  unfold task_post, thread_ok in *. destruct (fl_tasks F !! i) as [[w|s ev|g]|]; [| |done..].
  - destruct (th_log th) as [|c log] eqn:El; [split; [done|]; exists []; split; [by left|done]|].
    destruct Hok as [_ Hsi]. destruct (silent_ends _ _ _ _ _ _ _ (Hsi ltac:(done)) Hw) as (r & tx & _ & evs & Hc & _).
    split; [done|]. by exists evs.
  - destruct (th_log th) as [|c log] eqn:El; [split; [done|by left]|].
    destruct Hok as [_ Hsi]. destruct (silent_ends _ _ _ _ _ _ _ (Hsi ltac:(done)) Hw) as (r & tx & _ & Hc). done.
Qed.

Lemma kill_inv F F' i : fleet_inv F -> kill i F = Some F' -> fleet_inv F'.
Proof.
  intros HF. unfold kill. destruct (fl_threads F !! i) as [th|] eqn:Hi; [|done]. intros [= <-].
  set (th' := Thread (Ret Killed) None (th_log th)).
  assert (Hlook : forall j thj, <[i:=th']> (fl_threads F) !! j = Some thj ->
    exists th0, fl_threads F !! j = Some th0 /\ th_log thj = th_log th0 /\ (thj = th0 \/ j = i /\ thj = th')).
  { intros j thj [(<- & <- & _)|(Hne & Hj)]%list_lookup_insert_Some; [exists th|exists thj]; auto. }
  assert (Ho : forall j id r, owns (set_pool (Pool (fl_db F) (<[i:=th']> (fl_threads F)) (fl_hist F)) F) j id r ->
    owns F j id r).
  { intros j id r [k w th1 a b Hk (th0 & H0' & Hl & _)%Hlook Hin Hb Ha|s ev th1 Ht (th0 & H0' & Hl & _)%Hlook Hl' -> ->];
      rewrite Hl in *; [by eapply OwnsClaimed|by eapply OwnsDelivery]. }
  split; simpl; [|rewrite (fi_len _ HF); symmetry; apply length_insert| |apply HF|apply HF|..].
  - apply pool_inv_end; [|done|intros d' _; by eapply killed_post].
    pose proof (fi_pool _ HF) as HP. unfold fl_db, fl_threads, fl_hist. by destruct (fl_pool F).
  - intros j thj (th0 & Hj & _ & [->|[-> ->]])%Hlook; [by apply (fi_threads _ HF)|].
    unfold thread_ok. destruct (fl_tasks F !! i) as [[]|]; done.
  - intros j id r Hown. by apply (fi_own _ HF j), Ho.
  - intros j1 j2 id r r' Ho1%Ho Ho2%Ho. by eapply (fi_disjoint _ HF).
  - intros j c Hc. eapply Nat.lt_le_trans; [|apply Nat.eq_le_incl; symmetry; apply length_insert].
    by eapply (fi_bound _ HF).
  - intros j a b Hc. by apply (fi_hist _ HF).
Qed.

(** *** A loop moves *)

Lemma set_loop_inv F k w l0 l :
  fleet_inv F -> fl_workers F !! k = Some (w, l0) ->
  (forall n, l = Polling n -> fl_tasks F !! n = Some (Poll w) /\
     (forall th, fl_threads F !! n = Some th -> th_log th = []) /\
     forall k' w', fl_workers F !! k' <> Some (w', Polling n)) ->
  fleet_inv (set_loop k w l F).
Proof.
  intros HF Hk Hl.
  assert (Hlook : forall k' w' n, fl_workers (set_loop k w l F) !! k' = Some (w', Polling n) ->
    (k' = k /\ w' = w /\ l = Polling n) \/ (k' <> k /\ fl_workers F !! k' = Some (w', Polling n))).
  { intros k' w' n [(-> & [= -> ->] & _)|(Hne & Hk')]%list_lookup_insert_Some; auto. }
  assert (Ho : forall j id r, owns (set_loop k w l F) j id r -> owns F j id r).
  { intros j id r [k' w' th a b Hk' Hth Hin Hb Ha|s ev th Ht Hth Hl' -> ->]; [|by eapply OwnsDelivery].
    apply Hlook in Hk' as [(-> & -> & ->)|[_ Hk']]; [|by eapply OwnsClaimed].
    destruct (Hl j eq_refl) as (_ & Hlog & _). rewrite (Hlog th Hth) in Hin. by apply not_elem_of_nil in Hin. }
  split; try apply HF.
  - intros k' w' n [(-> & -> & ->)|[_ Hk']]%Hlook; [by apply Hl|by apply (fi_polls _ HF) in Hk'].
  - intros k1 k2 w1 w2 n [(-> & -> & ->)|[_ H1']]%Hlook [(-> & -> & E)|[_ H2']]%Hlook;
      [done|by apply (proj2 (proj2 (Hl n eq_refl))) in H2'| |by eapply (fi_unique _ HF)].
    subst l. by apply (proj2 (proj2 (Hl n eq_refl))) in H1'.
  - intros j id r Hown. by apply (fi_own _ HF j), Ho.
  - intros j1 j2 id r r' Ho1%Ho Ho2%Ho. by eapply (fi_disjoint _ HF).
Qed.

Lemma run_inv F w : fleet_inv F -> fleet_inv (Run w F).
Proof.
  intros HF.
  assert (Hlook : forall k w' n, fl_workers (Run w F) !! k = Some (w', Polling n) ->
    fl_workers F !! k = Some (w', Polling n)).
  { intros k w' n [Hk|[_ Hk]]%lookup_app_Some; [done|]. apply list_lookup_singleton_Some in Hk as [_ Hk].
    by destruct (_ <=? 0)%Z. }
  assert (Ho : forall j id r, owns (Run w F) j id r -> owns F j id r).
  { intros j id r [k' w' th a b Hk' Hth Hin Hb Ha|s ev th Ht Hth Hl' -> ->];
      [by eapply OwnsClaimed; [apply Hlook|..]|by eapply OwnsDelivery]. }
  split; try apply HF.
  - intros k w' n Hk%Hlook. by apply (fi_polls _ HF) in Hk.
  - intros k1 k2 w1 w2 n H1'%Hlook H2'%Hlook. by eapply (fi_unique _ HF).
  - intros j id r Hown. by apply (fi_own _ HF j), Ho.
  - intros j1 j2 id r r' Ho1%Ho Ho2%Ho. by eapply (fi_disjoint _ HF).
Qed.

(** *** Goroutines start *)

(** A delivery starts with its event claimed for it alone. *)
Definition startable (F : fleet G) (t : task G) : Prop :=
  match t with
  | Deliver s ev => webhook_events (fl_db F) !! evt_ID ev = Some (row_of_event ev) /\
      evt_Status ev = JobProcessing /\ forall j r, ~ owns F j (evt_ID ev) r
  | _ => True
  end.

Lemma task_wp ts i t d :
  ts !! i = Some t -> (forall s ev, t = Deliver s ev -> is_Some (webhook_events d !! evt_ID ev)) ->
  wp free tick_ok (task_prog guest t) None [] d (task_post ts i).
Proof.
  intros Ht Hev. unfold task_post. rewrite Ht. destruct t as [w|s ev|g]; cbn [task_prog]; apply wp_bind.
  - eapply wp_mono; [by apply processBatch_wp|]. intros evs tx log d' [-> Hc]. split; [done|].
    exists evs. split; [done|]. by intros evs' [= ->].
  - eapply wp_mono; [apply (ProcessEvent_wp free); [done|exact Hanswers|by eapply Hev]|]. by intros r tx log d' [? _].
  - by apply (wp_any free).
Qed.

Lemma goroutine_ok t d : thread_ok (Some t) (goroutine guest t) d.
Proof.
  destruct t as [w|s ev|g]; (split; [|by intros ?]); cbn [task_prog goroutine th_prog].
  - by apply once_bind; [apply processBatch_once|].
  - by apply once_bind; [apply ProcessEvent_once|].
  - by apply issues_bind.
Qed.

(** A goroutine of the new fleet is an old one, or has just started. *)
Lemma spawned F ts j th :
  fleet_inv F -> fl_threads (spawn guest ts F) !! j = Some th ->
  (j < length (fl_tasks F) /\ fl_threads F !! j = Some th /\ fl_tasks (spawn guest ts F) !! j = fl_tasks F !! j) \/
  exists k t, j = length (fl_tasks F) + k /\ ts !! k = Some t /\ th = goroutine guest t /\
    fl_tasks (spawn guest ts F) !! j = Some t.
Proof.
  intros HF. rewrite (fi_len _ HF). unfold spawn, fl_threads at 1. simpl. intros [Hj|[Hle Hj]]%lookup_app_Some.
  - left. pose proof (lookup_lt_Some _ _ _ Hj). split_and!; [done|done|]. apply lookup_app_l. by rewrite (fi_len _ HF).
  - right. apply list_lookup_fmap_Some in Hj as (t & -> & Ht). exists (j - length (fl_threads F)), t.
    split_and!; [lia|done|done|]. rewrite lookup_app_r by by rewrite (fi_len _ HF). by rewrite (fi_len _ HF).
Qed.

(** Only the deliveries among them own something. *)
Lemma owns_spawned F ts j id r :
  fleet_inv F -> owns (spawn guest ts F) j id r ->
  owns F j id r \/ exists k s ev, j = length (fl_tasks F) + k /\ ts !! k = Some (Deliver s ev) /\
    id = evt_ID ev /\ r = row_of_event ev.
Proof.
  intros HF [k w th a b Hk Hth Hin Hb Ha|s ev th Ht Hth Hl -> ->];
    destruct (spawned _ _ _ _ HF Hth) as [(Hlt & Hj & E)|(k' & t & -> & Ht' & -> & E)].
  - left. by eapply OwnsClaimed.
  - by apply not_elem_of_nil in Hin.
  - left. rewrite E in Ht. by eapply OwnsDelivery.
  - right. assert (t = Deliver s ev) as -> by congruence. by eauto 8.
Qed.

Lemma spawn_pool_inv F ts :
  fleet_inv F -> (forall t, t ∈ ts -> startable F t) ->
  pool_inv free tick_ok (task_post (fl_tasks F ++ ts)) d0 (fl_pool (spawn guest ts F)).
Proof.
  intros HF Hts. assert (E : goroutine guest <$> ts = (fun p => Thread p None []) <$> (task_prog guest <$> ts))
    by by rewrite <- list_fmap_compose.
  unfold spawn. cbn [fl_pool]. rewrite E. pose proof (fi_pool _ HF) as HP.
  apply (pool_inv_spawn _ _ (task_post (fl_tasks F))).
  - unfold fl_db, fl_threads, fl_hist. by destruct (fl_pool F).
  - intros i a tx log d Hi. unfold task_post. by rewrite lookup_app_l by by rewrite (fi_len _ HF).
  - intros i p d' Hp Hr. apply list_lookup_fmap_Some in Hp as (t & -> & Ht). apply task_wp.
    + rewrite lookup_app_r by (rewrite (fi_len _ HF); lia). rewrite <- Ht. f_equal. rewrite (fi_len _ HF). lia.
    + intros s ev ->. eapply (rely_event_kept free); [done|].
      destruct (Hts _ (list_elem_of_lookup_2 _ _ _ Ht)) as [-> _]. by eexists.
  - intros i c Hc. by eapply (fi_bound _ HF).
Qed.

Lemma spawn_inv F ts :
  fleet_inv F -> (forall t, t ∈ ts -> startable F t) ->
  (forall i j s s' ev ev', ts !! i = Some (Deliver s ev) -> ts !! j = Some (Deliver s' ev') ->
     evt_ID ev = evt_ID ev' -> i = j) ->
  fleet_inv (spawn guest ts F).
Proof.
  intros HF Hts Hnd. pose proof (fun j id r => owns_spawned F ts j id r HF) as Ho.
  assert (Hst : forall k s ev, ts !! k = Some (Deliver s ev) -> startable F (Deliver s ev))
    by (intros k s ev Hk; by eapply Hts, list_elem_of_lookup_2).
  split.
  - by apply spawn_pool_inv.
  - unfold spawn, fl_threads. simpl. rewrite !length_app, length_fmap. by rewrite (fi_len _ HF).
  - intros j th [(Hlt & Hj & ->)|(k & t & -> & Ht & -> & ->)]%spawned; [by apply (fi_threads _ HF)| |done].
    apply goroutine_ok.
  - intros k w n Hk. apply (fi_polls _ HF) in Hk. unfold spawn. simpl. by apply lookup_app_l_Some.
  - apply (fi_unique _ HF).
  - intros j id r [Hown|(k & s & ev & -> & Hk & -> & ->)]%Ho; [by apply (fi_own _ HF j)|].
    by destruct (Hst _ _ _ Hk) as (? & ? & _).
  - intros j1 j2 id r r' [H1'|(k1 & s1 & ev1 & -> & Hk1 & -> & ->)]%Ho
      [H2'|(k2 & s2 & ev2 & -> & Hk2 & E & ->)]%Ho.
    + by eapply (fi_disjoint _ HF).
    + subst id. destruct (Hst _ _ _ Hk2) as (_ & _ & Hno). by destruct (Hno _ _ H1').
    + destruct (Hst _ _ _ Hk1) as (_ & _ & Hno). by destruct (Hno _ _ H2').
    + f_equal. by eapply Hnd.
  - intros j c Hc. apply (fi_bound _ HF) in Hc. unfold spawn, fl_threads. simpl. rewrite length_app. unfold fl_threads in Hc. lia.
  - intros j a b Hc. pose proof (fi_bound _ HF _ _ Hc) as Hlt. rewrite <- (fi_len _ HF) in Hlt.
    unfold spawn. cbn [fl_tasks]. rewrite lookup_app_l by done. by apply (fi_hist _ HF).
Qed.

(** *** The steps of a fleet *)

Lemma tick_inv F F' k : fleet_inv F -> on_tick guest k F = Some F' -> fleet_inv F'.
Proof.
  intros HF. unfold on_tick. destruct (fl_workers F !! k) as [[w []]|] eqn:Hk; try done. intros [= <-].
  apply (set_loop_inv _ _ _ Selecting); [|done|].
  - apply spawn_inv; [done| |].
    + by intros t ->%list_elem_of_singleton.
    + intros i j s s' ev ev' Hi. by apply list_lookup_singleton_Some in Hi as [_ ?].
  - intros n [= <-]. split_and!.
    + unfold spawn. cbn [fl_tasks]. rewrite <- (fi_len _ HF). by rewrite lookup_app_r, Nat.sub_diag by done.
    + intros th. unfold spawn, fl_threads. simpl. rewrite lookup_app_r, Nat.sub_diag by done. by intros [= <-].
    + intros k' w' Hk'. apply (fi_polls _ HF) in Hk'. apply lookup_lt_Some in Hk'. rewrite (fi_len _ HF) in Hk'. lia.
Qed.

(** The events of a poll that has ended were claimed by it. *)
Lemma polled_owned F k w i evs ev :
  fleet_inv F -> fl_workers F !! k = Some (w, Polling i) -> result_of F i = Some (Polled evs) -> ev ∈ evs ->
  NoDup (evt_ID <$> evs) /\ owns F i (evt_ID ev) (row_of_event ev).
Proof.
  intros HF Hk Hres Hev. unfold result_of in Hres. destruct (fl_threads F !! i) as [th|] eqn:Hi; [|done].
  destruct (fi_pool _ HF) as [Hwp _ _ _ _]. destruct (Hwp i th Hi) as [_ Hw].
  specialize (Hw _ (rely_refl _ _ _)). destruct (th_prog th) as [r| | | | | |]; try done. injection Hres as ->.
  simpl in Hw. unfold task_post in Hw. rewrite (fi_polls _ HF _ _ _ Hk) in Hw.
  destruct Hw as (_ & evs' & Hc & E). rewrite <- (E evs eq_refl) in Hc. clear E.
  destruct Hc as [[-> _]|[[-> _]|(a & b & Hl & [Hnd _ Hcl _])]]; [by apply not_elem_of_nil in Hev..|].
  split; [done|]. destruct (Hcl ev Hev) as (r & Ha & Hp & Hb & E).
  assert (Er : row_of_event ev = set_status JobProcessing r) by (rewrite E; by apply row_of_scanned).
  eapply OwnsClaimed; [exact Hk|exact Hi|rewrite Hl; left|by rewrite Er|].
  rewrite Er, Ha. intros [= E']. rewrite E' in Hp. by destruct r.
Qed.

Lemma proceed_inv F F' k : fleet_inv F -> proceed guest k F = Some F' -> fleet_inv F'.
Proof.
  intros HF. unfold proceed. destruct (fl_workers F !! k) as [[w [|i|gs| |]]|] eqn:Hk; try done.
  - assert (Hset : forall l, (forall n, l <> Polling n) -> fleet_inv (set_loop k w l F)).
    { intros l Hl. by eapply set_loop_inv; [..|intros n E; by destruct (Hl n)]. }
    destruct (result_of F i) as [[[|ev0 evs0]|[]| |]|] eqn:Hres; simpl; try done; intros [= <-]; try by apply Hset.
    set (evs := ev0 :: evs0) in *.
    change (fleet_inv (spawn guest (Deliver (wk_svc w) <$> evs)
      (set_loop k w (Delivering (seq (length (fl_threads F)) (length evs))) F))).
    clearbody evs. pose proof (polled_owned F k w i evs) as Hp. apply spawn_inv; [by apply Hset| |].
    + intros t (ev & -> & Hev)%list_elem_of_fmap. destruct (Hp ev HF Hk Hres Hev) as [_ Hown].
      destruct (fi_own _ HF _ _ _ Hown) as [Hr Hst]. split_and!; [done|done|]. intros j r Ho.
      assert (Ho' : owns F j (evt_ID ev) r /\ j <> i).
      { destruct Ho as [k' w' th a b Hk' Hth Hin Hb Ha|s ev' th Ht Hth Hl -> ->].
        - apply list_lookup_insert_Some in Hk' as [(_ & [=] & _)|(Hne & Hk')].
          split; [by eapply OwnsClaimed|]. intros ->. apply Hne. by eapply (fi_unique _ HF).
        - split; [by eapply OwnsDelivery|]. intros ->. apply (fi_polls _ HF) in Hk. simpl in Ht. congruence. }
      destruct Ho' as [Ho' Hne]. by apply Hne, (fi_disjoint _ HF _ _ _ _ _ Ho' Hown).
    + intros a b s s' ev ev' Ha Hb E. rewrite list_lookup_fmap in Ha, Hb.
      destruct (evs !! a) as [ea|] eqn:Ea; [|done]. destruct (evs !! b) as [eb|] eqn:Eb; [|done]. simplify_eq/=.
      destruct (Hp ev HF Hk Hres (list_elem_of_lookup_2 _ _ _ Ea)) as [Hnd _].
      apply (NoDup_lookup _ a b (evt_ID ev) Hnd); rewrite list_lookup_fmap, ?Ea, ?Eb; simpl; [done|by rewrite E].
  - repeat case_match; try done; intros [= <-]; by eapply set_loop_inv.
Qed.

Lemma fleet_step_inv F F' : fleet_inv F -> fleet_step guest tick_ok F F' -> fleet_inv F'.
Proof.
  intros HF [c Hok Hc]. destruct c as [w|k|k|k|i tk|i|g]; simpl in *.
  - injection Hc as <-. by apply run_inv.
  - by eapply tick_inv.
  - revert Hc. unfold on_done. destruct (fl_workers F !! k) as [[w []]|] eqn:Hk; try done. intros [= <-].
    by eapply set_loop_inv.
  - by eapply proceed_inv.
  - by eapply move_inv.
  - by eapply kill_inv.
  - injection Hc as <-. apply spawn_inv; [done|by intros t ->%list_elem_of_singleton|].
    intros i j s s' ev ev' Hi. by apply list_lookup_singleton_Some in Hi as [_ ?].
Qed.

(** The invariant of every reachable fleet. *)
Lemma fleet_reach_inv F : rtc (fleet_step guest tick_ok) (fleet_start d0) F -> fleet_inv F.
Proof.
  intros Hs. pose proof fleet_inv_start as HF. induction Hs as [|F1 F2 F3 Hs _ IH]; [done|].
  apply IH. by eapply fleet_step_inv.
Qed.
End fleet.
