(* ===== verification/Auth.v ===== *)
(** * internal/auth: users, sessions and access tokens

    src/internal/auth: registration, login, the rotation of refresh tokens with
    reuse detection, logout, permissions and access tokens. bcrypt and JWT are
    third-party packages and stay parameters. *)

From S2P Require Import Prelude GoBase Db Prog Interfaces.
Local Open Scope go_scope.

(** ** models.go, errors.go, audit.go *)

Record User := {
  usr_ID : uuid;
  usr_TenantID : uuid;
  usr_RoleID : uuid;
  usr_Email : string;
  usr_PasswordHash : string;
  usr_Status : user_status;
  usr_CreatedAt : time
}.

Record RefreshToken := {
  rtk_ID : uuid;
  rtk_UserID : uuid;
  rtk_TenantID : uuid;
  rtk_TokenHash : string;
  rtk_Status : token_status;
  rtk_ReplacedBy : option uuid;
  rtk_CreatedAt : time;
  rtk_ExpiresAt : time
}.

Record Claims := {
  cl_UserID : string;
  cl_TenantID : string;
  cl_RoleID : string;
  cl_Subject : string;
  cl_ExpiresAt : time;
  cl_IssuedAt : time
}.

Record AuthResult := {
  res_AccessToken : string;
  res_RefreshToken : string;
  res_AccessExpiresAt : time;
  res_RefreshExpiresAt : time
}.

Definition ErrUserNotFound : goerr := New "auth: user not found".
Definition ErrEmailAlreadyExists : goerr :=
  New "auth: a user with this email already exists for this tenant".
Definition ErrUserDisabled : goerr := New "auth: user is disabled".
Definition ErrInvalidCredentials : goerr := New "auth: invalid email or password".
Definition ErrRoleNotFound : goerr := New "auth: role not found".
Definition ErrRefreshTokenNotFound : goerr := New "auth: refresh token not found".
Definition ErrRefreshTokenInvalid : goerr := New "auth: refresh token is not valid".

Definition AuditUserRegistered := "user.registered"%string.
Definition AuditUserLoggedIn := "user.login"%string.
Definition AuditTokenRefreshed := "user.token_refreshed"%string.
Definition AuditUserLoggedOut := "user.logout"%string.
Definition auditActorAPIKey := "api-key"%string.

(** ** Third-party packages *)

(** golang.org/x/crypto/bcrypt at cost 12; the salt is drawn from crypto/rand. *)
Class Bcrypt := {
  bcrypt_Generate : string -> string -> goerr + string;
  bcrypt_Compare : string -> string -> bool;
  bcrypt_Compare_Generate : forall salt password hash,
    bcrypt_Generate salt password = inr hash -> bcrypt_Compare hash password = true
}.

(** golang-jwt/jwt: signing with HS256, and parsing with a key function that is
    told whether the token's method is an HMAC and the name of its method. *)
Class Jwt := {
  jwt_NewNumericDate : time -> time;
  jwt_SignedString : string -> Claims -> goerr + string;
  jwt_ParseWithClaims : time -> string -> (bool -> string -> goerr + string) -> goerr + (Claims * bool)
}.

(** encoding/hex and crypto/rand: the text of freshly drawn bytes is the
    environment's answer itself. *)

(** ** repository.go *)

(** The rows of a table that satisfy a condition. *)
Definition rows_where {V} (P : uuid * V -> Prop) `{!forall p, Decision (P p)} (m : gmap uuid V)
    : list (uuid * V) :=
  filter P (map_to_list m).

Definition q_get_role (name : string) : stmt (option uuid) :=
  select (fun d => fst <$> head (rows_where (fun p : uuid * string => p.2 = name) (roles (rbac d)))).

(** Repository.GetRoleByName (its result's ID is all the program uses). *)
Definition GetRoleByName (c : conn) (name : string) : prog (goerr + uuid) :=
  let* r := sql_row c (q_get_role name) in
  match r with
  | inl e => if errors_Is e ErrNoRows then Ret (inl ErrRoleNotFound)
             else Ret (inl (Wrap "auth: get role: " e ""))
  | inr i => Ret (inr i)
  end.

Definition user_permissions (d : db) (tenantID userID : uuid) : list string :=
  match users d !! userID with
  | Some u =>
      if decide (us_tenant_id u = tenantID) then
        omap (fun g => if decide (g.1 = us_role_id u) then permissions (rbac d) !! g.2 else None)
          (role_permissions (rbac d))
      else []
  | None => []
  end.

Definition q_user_permissions (tenantID userID : uuid) : stmt (list string) :=
  select (fun d => user_permissions d tenantID userID).

(** Repository.GetUserPermissions *)
Definition repo_GetUserPermissions (c : conn) (tenantID userID : uuid) : prog (goerr + list string) :=
  wrap_err "auth: get user permissions: " (sql_exec c (q_user_permissions tenantID userID)).

Definition scan_user (p : uuid * user_row) : User :=
  let '(i, r) := p in
  {| usr_ID := i; usr_TenantID := us_tenant_id r; usr_RoleID := us_role_id r;
     usr_Email := us_email r; usr_PasswordHash := us_password_hash r; usr_Status := us_status r;
     usr_CreatedAt := us_created_at r |}.

(** scanUser on the row of a query. *)
Definition scanUser (p : prog (goerr + (uuid * user_row))) : prog (goerr + User) :=
  let* r := p in
  match r with
  | inl e => if errors_Is e ErrNoRows then Ret (inl ErrUserNotFound)
             else Ret (inl (Wrap "auth: scan user: " e ""))
  | inr row => Ret (inr (scan_user row))
  end.

Definition q_get_user_by_id (tenantID userID : uuid) : stmt (option (uuid * user_row)) :=
  select (fun d =>
    match users d !! userID with
    | Some r => if decide (us_tenant_id r = tenantID) then Some (userID, r) else None
    | None => None
    end).

Definition GetUserByID (c : conn) (tenantID userID : uuid) : prog (goerr + User) :=
  scanUser (sql_row c (q_get_user_by_id tenantID userID)).

Definition scan_token (p : uuid * refresh_token_row) : RefreshToken :=
  let '(i, r) := p in
  {| rtk_ID := i; rtk_UserID := rt_user_id r; rtk_TenantID := rt_tenant_id r;
     rtk_TokenHash := rt_token_hash r; rtk_Status := rt_status r;
     rtk_ReplacedBy := rt_replaced_by r; rtk_CreatedAt := rt_created_at r;
     rtk_ExpiresAt := rt_expires_at r |}.

Definition q_get_refresh_token (tokenHash : string) : stmt (option (uuid * refresh_token_row)) :=
  select (fun d => head (rows_where (fun p : uuid * refresh_token_row => rt_token_hash p.2 = tokenHash) (refresh_tokens d))).

Definition GetRefreshTokenByHash (c : conn) (tokenHash : string) : prog (goerr + RefreshToken) :=
  let* r := sql_row c (q_get_refresh_token tokenHash) in
  match r with
  | inl e => if errors_Is e ErrNoRows then Ret (inl ErrRefreshTokenNotFound)
             else Ret (inl (Wrap "auth: get refresh token: " e ""))
  | inr row => Ret (inr (scan_token row))
  end.

Definition with_token_status (st : token_status) (replaced : option uuid) (r : refresh_token_row)
    : refresh_token_row :=
  RefreshTokenRow (rt_user_id r) (rt_tenant_id r) (rt_token_hash r) st replaced
    (rt_created_at r) (rt_expires_at r).

(** The guarded UPDATE of a rotation; its result is RowsAffected(). *)
Definition q_rotate (oldTokenID newTokenID : uuid) : stmt Z :=
  fun _ ev d =>
    match refresh_tokens d !! oldTokenID with
    | Some r =>
        if decide (rt_status r = TokenActive /\ (e_now ev < rt_expires_at r)%Z) then
          guarded
            [ (has_row (refresh_tokens d) newTokenID, FkViolation "refresh_tokens_replaced_by_fkey") ]
            (Outcome [] (inr 1%Z)
               [WRefreshToken oldTokenID (with_token_status TokenRotated (Some newTokenID) r)])
        else Outcome [] (inr 0%Z) []
    | None => Outcome [] (inr 0%Z) []
    end.

Definition RotateRefreshToken (oldTokenID newTokenID : uuid) : prog (goerr + unit) :=
  let? n := wrap_err "auth: rotate refresh token: " (sql_exec OnTx (q_rotate oldTokenID newTokenID)) in
  if decide (n = 0%Z) then Ret (inl ErrRefreshTokenInvalid) else Ret (inr tt).

(** UPDATE ... SET status = 'revoked' WHERE ... AND status = 'active' *)
Definition revoke_where (P : uuid * refresh_token_row -> Prop) `{!forall p, Decision (P p)} (d : db)
    : list write :=
  (fun p => WRefreshToken p.1 (with_token_status TokenRevoked (rt_replaced_by p.2) p.2)) <$>
    rows_where (fun p : uuid * refresh_token_row => P p /\ rt_status p.2 = TokenActive) (refresh_tokens d).

Definition q_revoke (tokenID : uuid) : stmt unit :=
  fun _ _ d => Outcome [] (inr tt) (revoke_where (fun p : uuid * refresh_token_row => p.1 = tokenID) d).

Definition RevokeRefreshToken (c : conn) (tokenID : uuid) : prog (goerr + unit) :=
  wrap_err "auth: revoke refresh token: " (sql_exec c (q_revoke tokenID)).

Definition q_revoke_all (userID : uuid) : stmt unit :=
  fun _ _ d => Outcome [] (inr tt) (revoke_where (fun p : uuid * refresh_token_row => rt_user_id p.2 = userID) d).

Definition RevokeAllUserRefreshTokens (c : conn) (userID : uuid) : prog (goerr + unit) :=
  wrap_err "auth: revoke all refresh tokens: " (sql_exec c (q_revoke_all userID)).

(** isUniqueViolation *)
Definition isUniqueViolation (e : goerr) (constraintName : string) : bool :=
  match e with
  | SqlError (UniqueViolation c) => bool_decide (c = constraintName)
  | _ => false
  end.

(** ** service.go *)

Definition DefaultAccessTokenTTL : duration := (15 * 60 * 1000000000)%Z.
Definition DefaultRefreshTokenTTL : duration := (7 * 24 * 3600 * 1000000000)%Z.

(** The scope of the unique index on token_hash, which has no other column. *)
Definition no_scope : uuid := 0%N.

Definition dummyBcryptHash : string := "$2a$12$C6UzMDM.H6dfI/f/IKcEeO2Fv/eLwWGdWMi4X1zXK4H8xh0.0V6i2".

Record Service := {
  svc_jwtSecret : string;
  svc_accessTokenTTL : duration;
  svc_refreshTokenTTL : duration;
  svc_audit : option AuditRecorder
}.

Definition Option : Type := Service -> Service.
Definition WithAccessTokenTTL (d : duration) : Option :=
  fun s => {| svc_jwtSecret := svc_jwtSecret s; svc_accessTokenTTL := d;
              svc_refreshTokenTTL := svc_refreshTokenTTL s; svc_audit := svc_audit s |}.
Definition WithRefreshTokenTTL (d : duration) : Option :=
  fun s => {| svc_jwtSecret := svc_jwtSecret s; svc_accessTokenTTL := svc_accessTokenTTL s;
              svc_refreshTokenTTL := d; svc_audit := svc_audit s |}.
Definition WithAuditRecorder (a : AuditRecorder) : Option :=
  fun s => {| svc_jwtSecret := svc_jwtSecret s; svc_accessTokenTTL := svc_accessTokenTTL s;
              svc_refreshTokenTTL := svc_refreshTokenTTL s; svc_audit := Some a |}.
Definition NewService (jwtSecret : string) (opts : list Option) : Service :=
  foldl (fun s opt => opt s)
    {| svc_jwtSecret := jwtSecret; svc_accessTokenTTL := DefaultAccessTokenTTL;
       svc_refreshTokenTTL := DefaultRefreshTokenTTL; svc_audit := None |} opts.

Section Service.
Context `{UuidLib, Crypto, PgTime, SqlLower, Bcrypt, Jwt}.

Definition q_create_user (tenantID roleID : uuid) (email passwordHash : string)
    : stmt (option (uuid * time)) :=
  fun _ ev d =>
    guarded
      [ (negb (has_row (users d) (e_uuid ev)), UniqueViolation "users_pkey");
        (bool_decide (rows_where (fun p : uuid * user_row => us_tenant_id p.2 = tenantID /\
            sql_lower (us_email p.2) = sql_lower email) (users d) = []),
           UniqueViolation "uq_users_tenant_lower_email");
        (has_row (tenants d) tenantID, FkViolation "users_tenant_id_fkey");
        (has_row (roles (rbac d)) roleID, FkViolation "users_role_id_fkey") ]
      (Outcome [LUnique T_users tenantID (sql_lower email)]
         (inr (Some (e_uuid ev, e_now ev)))
         [WUser (e_uuid ev) (UserRow tenantID roleID email passwordHash UserStatusActive (e_now ev))]).

Definition CreateUser (c : conn) (tenantID roleID : uuid) (email passwordHash : string)
    : prog (goerr + User) :=
  let* r := sql_row c (q_create_user tenantID roleID email passwordHash) in
  match r with
  | inl e => if isUniqueViolation e "uq_users_tenant_lower_email" then Ret (inl ErrEmailAlreadyExists)
             else Ret (inl (Wrap "auth: create user: " e ""))
  | inr (i, created) =>
      Ret (inr {| usr_ID := i; usr_TenantID := tenantID; usr_RoleID := roleID; usr_Email := email;
                  usr_PasswordHash := passwordHash; usr_Status := UserStatusActive;
                  usr_CreatedAt := created |})
  end.

Definition q_get_user_by_email (tenantID : uuid) (email : string) : stmt (option (uuid * user_row)) :=
  select (fun d => head (rows_where (fun p : uuid * user_row => us_tenant_id p.2 = tenantID /\
    sql_lower (us_email p.2) = sql_lower email) (users d))).

Definition GetUserByEmail (c : conn) (tenantID : uuid) (email : string) : prog (goerr + User) :=
  scanUser (sql_row c (q_get_user_by_email tenantID email)).

Definition q_create_refresh_token (userID tenantID : uuid) (tokenHash : string) (expiresAt : time)
    : stmt (option (uuid * time * time)) :=
  fun _ ev d =>
    guarded
      [ (negb (has_row (refresh_tokens d) (e_uuid ev)), UniqueViolation "refresh_tokens_pkey");
        (bool_decide (rows_where (fun p : uuid * refresh_token_row => rt_token_hash p.2 = tokenHash) (refresh_tokens d) = []),
           UniqueViolation "refresh_tokens_token_hash_key");
        (bool_decide (us_tenant_id <$> users d !! userID = Some tenantID),
           FkViolation "fk_refresh_tokens_user_tenant") ]
      (Outcome [LUnique T_refresh_tokens no_scope tokenHash]
         (inr (Some (e_uuid ev, e_now ev, pg_time expiresAt)))
         [WRefreshToken (e_uuid ev)
            (RefreshTokenRow userID tenantID tokenHash TokenActive None (e_now ev)
               (pg_time expiresAt))]).

Definition CreateRefreshToken (c : conn) (userID tenantID : uuid) (tokenHash : string)
    (ttl : duration) : prog (goerr + RefreshToken) :=
  let* now := time_Now in
  let? (i, created, expires) := wrap_err "auth: create refresh token: "
    (sql_row c (q_create_refresh_token userID tenantID tokenHash (now + ttl)%Z)) in
  Ret (inr {| rtk_ID := i; rtk_UserID := userID; rtk_TenantID := tenantID;
              rtk_TokenHash := tokenHash; rtk_Status := TokenActive; rtk_ReplacedBy := None;
              rtk_CreatedAt := created; rtk_ExpiresAt := expires |}).

Definition recordAudit (s : Service) (tenantID : uuid) (actorID action : string) (payload : json)
    : prog (goerr + unit) :=
  match svc_audit s with
  | None => Ret (inr tt)
  | Some a => RecordAudit a tenantID actorID action payload
  end.

Definition hashToken (raw : string) : string := sha256_hex raw.

(** generateRawToken: 32 random bytes in hexadecimal, and their hash. *)
Definition generateRawToken : prog (goerr + (string * string)) :=
  let* r := ask tk_rand in
  match r with
  | None => Ret (inl (Wrap "auth: generate refresh token: " (New "crypto/rand") ""))
  | Some raw => Ret (inr (raw, hashToken raw))
  end.

Definition generateAccessToken (s : Service) (user : User) : prog (goerr + (string * time)) :=
  let* now := time_Now in
  let expiresAt := (now + svc_accessTokenTTL s)%Z in
  let* issued := time_Now in
  let claims := {| cl_UserID := uuid_String (usr_ID user);
                   cl_TenantID := uuid_String (usr_TenantID user);
                   cl_RoleID := uuid_String (usr_RoleID user);
                   cl_Subject := uuid_String (usr_ID user);
                   cl_ExpiresAt := jwt_NewNumericDate expiresAt;
                   cl_IssuedAt := jwt_NewNumericDate issued |} in
  match jwt_SignedString (svc_jwtSecret s) claims with
  | inl e => Ret (inl (Wrap "auth: sign access token: " e ""))
  | inr signed => Ret (inr (signed, expiresAt))
  end.

Definition issueTokenPair (s : Service) (c : conn) (user : User) : prog (goerr + AuthResult) :=
  let? (accessToken, accessExpiresAt) := generateAccessToken s user in
  let? (rawRefreshToken, tokenHash) := generateRawToken in
  let? rt := CreateRefreshToken c (usr_ID user) (usr_TenantID user) tokenHash
               (svc_refreshTokenTTL s) in
  Ret (inr {| res_AccessToken := accessToken; res_RefreshToken := rawRefreshToken;
              res_AccessExpiresAt := accessExpiresAt; res_RefreshExpiresAt := rtk_ExpiresAt rt |}).

Definition user_payload (id : uuid) : json := JObject [("user_id", JString (uuid_String id))].

Definition Register (s : Service) (tenantID roleID : uuid) (email password : string)
    : prog (goerr + User) :=
  let* salt := ask tk_rand in
  let generated := match salt with
                   | None => inl (New "crypto/rand")
                   | Some salt => bcrypt_Generate salt password
                   end in
  match generated with
  | inl e => Ret (inl (Wrap "auth: hash password: " e ""))
  | inr hash =>
      let? _ := wrap_err "auth: begin tx: " sql_begin in
      defer_rollback (
        let? user := CreateUser OnTx tenantID roleID email hash in
        let? _ := wrap_err "auth: record audit: "
          (recordAudit s tenantID auditActorAPIKey AuditUserRegistered
             (JObject [("email", JString (usr_Email user));
                       ("role_id", JString (uuid_String roleID));
                       ("user_id", JString (uuid_String (usr_ID user)))])) in
        let? _ := wrap_err "auth: commit register: " sql_commit in
        Ret (inr user))
  end.

Definition Login (s : Service) (tenantID : uuid) (email password : string)
    : prog (goerr + AuthResult) :=
  let* found := GetUserByEmail OnDb tenantID email in
  match found with
  | inl e => if errors_Is e ErrUserNotFound then Ret (inl ErrInvalidCredentials) else Ret (inl e)
  | inr user =>
      if negb (bcrypt_Compare (usr_PasswordHash user) password) then Ret (inl ErrInvalidCredentials)
      else if decide (usr_Status user = UserStatusDisabled) then Ret (inl ErrUserDisabled) else
      let? _ := wrap_err "auth: begin tx: " sql_begin in
      defer_rollback (
        let? result := issueTokenPair s OnTx user in
        let? _ := wrap_err "auth: record audit: "
          (recordAudit s (usr_TenantID user) (uuid_String (usr_ID user)) AuditUserLoggedIn
             (user_payload (usr_ID user))) in
        let? _ := wrap_err "auth: commit login: " sql_commit in
        Ret (inr result))
  end.

Definition Refresh (s : Service) (rawRefreshToken : string) : prog (goerr + AuthResult) :=
  let tokenHash := hashToken rawRefreshToken in
  let? existing := GetRefreshTokenByHash OnDb tokenHash in
  if decide (rtk_Status existing = TokenRotated \/ rtk_Status existing = TokenRevoked) then
    let? _ := wrap_err "auth: revoke sessions after detected reuse: "
                (RevokeAllUserRefreshTokens OnDb (rtk_UserID existing)) in
    Ret (inl ErrRefreshTokenInvalid)
  else
  let* now := time_Now in
  if (rtk_ExpiresAt existing <? now)%Z then Ret (inl ErrRefreshTokenInvalid) else
  let? user := GetUserByID OnDb (rtk_TenantID existing) (rtk_UserID existing) in
  if decide (usr_Status user = UserStatusDisabled) then Ret (inl ErrUserDisabled) else
  let? _ := wrap_err "auth: begin tx: " sql_begin in
  defer_rollback (
    let? (newRawToken, newTokenHash) := generateRawToken in
    let? newRecord := CreateRefreshToken OnTx (usr_ID user) (usr_TenantID user) newTokenHash
                        (svc_refreshTokenTTL s) in
    let? _ := RotateRefreshToken (rtk_ID existing) (rtk_ID newRecord) in
    let? _ := wrap_err "auth: record audit: "
      (recordAudit s (usr_TenantID user) (uuid_String (usr_ID user)) AuditTokenRefreshed
         (user_payload (usr_ID user))) in
    let? _ := wrap_err "auth: commit refresh: " sql_commit in
    let? (accessToken, accessExpiresAt) := generateAccessToken s user in
    Ret (inr {| res_AccessToken := accessToken; res_RefreshToken := newRawToken;
                res_AccessExpiresAt := accessExpiresAt;
                res_RefreshExpiresAt := rtk_ExpiresAt newRecord |})).

Definition Logout (s : Service) (rawRefreshToken : string) : prog (goerr + unit) :=
  let? existing := GetRefreshTokenByHash OnDb (hashToken rawRefreshToken) in
  let? _ := wrap_err "auth: begin tx: " sql_begin in
  defer_rollback (
    let? _ := RevokeRefreshToken OnTx (rtk_ID existing) in
    let? _ := wrap_err "auth: record audit: "
      (recordAudit s (rtk_TenantID existing) (uuid_String (rtk_UserID existing)) AuditUserLoggedOut
         (user_payload (rtk_UserID existing))) in
    let? _ := wrap_err "auth: commit logout: " sql_commit in
    Ret (inr tt)).

Definition GetUserPermissions (tenantID userID : uuid) : prog (goerr + list string) :=
  repo_GetUserPermissions OnDb tenantID userID.

(** The key function that ValidateAccessToken passes: it is told whether the
    token's method is an HMAC, and the method's name. *)
Definition access_key (s : Service) (is_hmac : bool) (alg : string) : goerr + string :=
  if is_hmac then inr (svc_jwtSecret s) else inl (New ("auth: unexpected signing method " +:+ alg)).

(** ValidateAccessToken; the time is the one the jwt package reads. *)
Definition ValidateAccessToken (s : Service) (tokenString : string) : prog (goerr + Claims) :=
  let* now := time_Now in
  match jwt_ParseWithClaims now tokenString (access_key s) with
  | inl e => Ret (inl (Wrap "auth: invalid access token: " e ""))
  | inr (claims, valid) =>
      if negb valid then Ret (inl (New "auth: invalid access token")) else Ret (inr claims)
  end.
End Service.
