(* ===== verification/Http.v ===== *)
(** * HTTP handlers, response writers, and the outer middlewares

    net/http as the program uses it: a handler receives a request (with the
    values middlewares put in its context) and calls its ResponseWriter; what the
    client gets is determined by the sequence of those calls. The recorders of
    the logging, metrics and idempotency middlewares and the recovery middleware
    are here (src/internal/middleware/logging, metrics and recovery). *)

From stdpp Require Import pretty.
From S2P Require Import Prelude GoBase Db Prog Auth Metrics.
Local Open Scope go_scope.

(** ** Requests and responses *)

(** A request; [rq_Body] is what io.ReadAll gives, [rq_id] chi's URL parameter,
    [rq_Route] chi's matched pattern, and the last two fields its context
    (src/internal/tenants/context.go, src/internal/auth/context.go). *)
Record Request := {
  rq_Method : string;
  rq_Path : string;
  rq_Route : option string;
  rq_Header : string -> string;
  rq_Body : option string;
  rq_id : string;
  rq_limit : string;
  rq_tenant : option uuid;
  rq_claims : option Claims
}.

(** WithTenantID, WithClaims, FromContext and ClaimsFromContext. *)
Definition WithTenantID (r : Request) (tenantID : uuid) : Request :=
  {| rq_Method := rq_Method r; rq_Path := rq_Path r; rq_Route := rq_Route r;
     rq_Header := rq_Header r; rq_Body := rq_Body r; rq_id := rq_id r; rq_limit := rq_limit r;
     rq_tenant := Some tenantID; rq_claims := rq_claims r |}.
Definition WithClaims (r : Request) (claims : Claims) : Request :=
  {| rq_Method := rq_Method r; rq_Path := rq_Path r; rq_Route := rq_Route r;
     rq_Header := rq_Header r; rq_Body := rq_Body r; rq_id := rq_id r; rq_limit := rq_limit r;
     rq_tenant := rq_tenant r; rq_claims := Some claims |}.
Definition FromContext (r : Request) : option uuid := rq_tenant r.
Definition ClaimsFromContext (r : Request) : option Claims := rq_claims r.

(** A call of a ResponseWriter method. *)
Inductive wcall :=
  | SetHeader (k v : string)
  | WriteHeader (code : Z)
  | Write (b : string).

(** How a handler ended: normally, or by a panic. *)
Inductive ending := Finished | PanickedWith (value : string).

Record served := Served {
  sv_calls : list wcall;
  sv_ending : ending
}.

Definition Handler : Type := Request -> prog served.
Definition done_with (calls : list wcall) : prog served := Ret (Served calls Finished).

Definition newline : string := char 10.
Definition dquote : string := char 34.

(** A JSON object with one string member, written out. *)
Definition json_member (k v : string) : string :=
  "{" +:+ dquote +:+ k +:+ dquote +:+ ":" +:+ dquote +:+ v +:+ dquote +:+ "}".

(** http.Error *)
Definition http_Error (msg : string) (code : Z) : list wcall :=
  [SetHeader "Content-Type" "text/plain; charset=utf-8";
   SetHeader "X-Content-Type-Options" "nosniff";
   WriteHeader code; Write (msg +:+ newline)].

(** What the client gets: the first status written, 200 when the body starts
    before any, and 200 for a handler that writes nothing. *)
Fixpoint client_status (calls : list wcall) : Z :=
  match calls with
  | [] => 200
  | SetHeader _ _ :: cs => client_status cs
  | WriteHeader code :: _ => code
  | Write _ :: _ => 200
  end.

Fixpoint body_of (calls : list wcall) : string :=
  match calls with
  | [] => ""
  | Write b :: cs => b +:+ body_of cs
  | _ :: cs => body_of cs
  end.

(** ** The recorders *)

(** responseRecorder of the idempotency middleware: [statusCode] starts at 200.
    [record] is its WriteHeader and its Write. *)
Record recorder := MkRecorder {
  rec_statusCode : Z;
  rec_wroteHead : bool;
  rec_body : string
}.

Definition new_recorder : recorder := MkRecorder 200 false "".

Definition record (r : recorder) (c : wcall) : recorder :=
  match c with
  | SetHeader _ _ => r
  | WriteHeader code => MkRecorder code true (rec_body r)
  | Write b => MkRecorder (if rec_wroteHead r then rec_statusCode r else 200%Z) (rec_wroteHead r)
                 (rec_body r +:+ b)
  end.

Definition record_all (calls : list wcall) : recorder := foldl record new_recorder calls.

(** statusRecorder of the logging middleware. *)
Record logging_statusRecorder := MkLogging {
  lg_statusCode : Z;
  lg_wroteHead : bool
}.

Definition logging_record (r : logging_statusRecorder) (c : wcall) : logging_statusRecorder :=
  match c with
  | SetHeader _ _ => r
  | WriteHeader code => MkLogging code true
  | Write _ => if negb (lg_wroteHead r) then MkLogging 200 (lg_wroteHead r) else r
  end.

(** statusRecorder of the metrics middleware. *)
Record metrics_statusRecorder := MkMetrics {
  mt_statusCode : Z;
  mt_wroteHead : bool
}.

Definition metrics_record (r : metrics_statusRecorder) (c : wcall) : metrics_statusRecorder :=
  match c with
  | SetHeader _ _ => r
  | WriteHeader code => MkMetrics code true
  | Write _ => if negb (mt_wroteHead r) then MkMetrics 200 (mt_wroteHead r) else r
  end.

(** What is in [rec.statusCode] when the wrapped handler has returned. *)
Definition logged_status (calls : list wcall) : Z :=
  lg_statusCode (foldl logging_record (MkLogging 200 false) calls).
Definition counted_status (calls : list wcall) : Z :=
  mt_statusCode (foldl metrics_record (MkMetrics 200 false) calls).

(** ** Outer middlewares *)

(** recovery.Middleware: a panic, unless it is http.ErrAbortHandler, is logged
    and answered with 500 (after whatever was already written). *)
Definition recovery_Middleware (abortHandler : string) (next : Handler) : Handler := fun r =>
  let* s := next r in
  match sv_ending s with
  | Finished => Ret s
  | PanickedWith v =>
      if decide (v = abortHandler) then Ret s else
      let* _ := emit (OLog "ERROR" "panic recovered") in
      done_with (sv_calls s ++
        [SetHeader "Content-Type" "application/json"; WriteHeader 500;
         Write (json_member "error" "internal server error")])
  end.

(** logging.Middleware *)
Definition logging_Middleware (next : Handler) : Handler := fun r =>
  let* start := time_Now in
  let* s := next r in
  match sv_ending s with
  | PanickedWith _ => Ret s
  | Finished =>
      let* stop := time_Now in
      let* _ := emit (OLog "INFO" ("request " +:+ rq_Method r +:+ " " +:+ rq_Path r +:+ " " +:+
                         pretty (logged_status (sv_calls s)))) in
      Ret s
  end.

(** routePattern *)
Definition routePattern (r : Request) : string :=
  match rq_Route r with
  | Some pattern => if decide (pattern = "") then "unmatched" else pattern
  | None => "unmatched"
  end.

(** metrics.Middleware *)
Definition metrics_Middleware (next : Handler) : Handler := fun r =>
  let* start := time_Now in
  let* s := next r in
  match sv_ending s with
  | PanickedWith _ => Ret s
  | Finished =>
      let* stop := time_Now in
      let route := routePattern r in
      match WithLabelValues HTTPRequestsTotal
              [rq_Method r; route; pretty (counted_status (sv_calls s))],
            WithLabelValues HTTPRequestDuration [rq_Method r; route] with
      | Some total, Some latency => let* _ := emit total in let* _ := emit latency in Ret s
      | _, _ => Ret (Served (sv_calls s) (PanickedWith "inconsistent label cardinality"))
      end
  end.
