(* ===== verification/Idempotency.v ===== *)
(** * internal/middleware/idempotency: at most one execution per key

    src/internal/middleware/idempotency: the claim of a key, the lease, the
    fencing token that guards completion, and the middleware around a handler. *)

From S2P Require Import Prelude GoBase Db Prog Auth Http.
Local Open Scope go_scope.

(** ** errors.go, models.go *)

Definition ErrMissingKey : goerr := New "idempotency: Idempotency-Key header is required".
Definition ErrKeyReused : goerr := New "idempotency: key reused with a different request payload".
Definition ErrInFlight : goerr :=
  New "idempotency: a request with this key is still being processed".
Definition ErrClaimSuperseded : goerr :=
  New "idempotency: claim was superseded by another server before this result could be persisted".

Record IdemRecord := {
  irec_ID : uuid;
  irec_TenantID : uuid;
  irec_Key : string;
  irec_RequestHash : string;
  irec_Status : idem_status;
  irec_ResponseCode : option Z;
  irec_ResponseBody : option string;
  irec_CreatedAt : time;
  irec_ExpiresAt : time
}.

(** scanRecord *)
Definition scanRecord (p : uuid * idempotency_row) : IdemRecord :=
  let '(i, r) := p in
  {| irec_ID := i; irec_TenantID := ik_tenant_id r; irec_Key := ik_key r;
     irec_RequestHash := ik_request_hash r; irec_Status := ik_status r;
     irec_ResponseCode := ik_response_code r; irec_ResponseBody := ik_response_body r;
     irec_CreatedAt := ik_created_at r; irec_ExpiresAt := ik_expires_at r |}.

(** ** repository.go *)

(** The row of a key: (tenant_id, key) is unique. *)
Definition find_key (d : db) (tenantID : uuid) (key : string) : option (uuid * idempotency_row) :=
  head (rows_where (fun p : uuid * idempotency_row => ik_tenant_id p.2 = tenantID /\ ik_key p.2 = key)
          (idempotency_keys d)).

(** The row a claim stores. *)
Definition claim_row (tenantID : uuid) (key requestHash : string) (now expiresAt : time)
    : idempotency_row :=
  IdempotencyRow tenantID key requestHash None None StatusProcessing now expiresAt.

(** INSERT ... ON CONFLICT (tenant_id, key) DO UPDATE ... WHERE expires_at < $4 *)
Definition q_claim (tenantID : uuid) (key requestHash : string) (now expiresAt : time)
    : stmt (option (uuid * idempotency_row)) :=
  fun _ ev d =>
    let row := claim_row tenantID key requestHash now expiresAt in
    let key_lock := LUnique T_idempotency_keys tenantID key in
    match find_key d tenantID key with
    | None =>
        guarded
          [ (negb (has_row (idempotency_keys d) (e_uuid ev)), UniqueViolation "idempotency_keys_pkey");
            (has_row (tenants d) tenantID, FkViolation "idempotency_keys_tenant_id_fkey") ]
          (Outcome [key_lock] (inr (Some (e_uuid ev, row))) [WIdempotency (e_uuid ev) row])
    | Some (i, r) =>
        if (ik_expires_at r <? now)%Z
        then Outcome [key_lock] (inr (Some (i, row))) [WIdempotency i row]
        else Outcome [key_lock; LRow T_idempotency_keys i] (inr None) []
    end.

Definition q_get_key (tenantID : uuid) (key : string) : stmt (option (uuid * idempotency_row)) :=
  select (fun d => find_key d tenantID key).

(** UPDATE ... WHERE tenant_id = $1 AND key = $2 AND created_at = $6; the result
    is RowsAffected(). *)
Definition q_complete (tenantID : uuid) (key : string) (responseCode : Z) (responseBody : string)
    (expiresAt claimedAt : time) : stmt Z :=
  fun _ _ d =>
    match find_key d tenantID key with
    | Some (i, r) =>
        if decide (ik_created_at r = claimedAt) then
          Outcome [] (inr 1%Z)
            [WIdempotency i (IdempotencyRow (ik_tenant_id r) (ik_key r) (ik_request_hash r)
               (Some responseCode) (Some responseBody) StatusCompleted (ik_created_at r) expiresAt)]
        else Outcome [] (inr 0%Z) []
    | None => Outcome [] (inr 0%Z) []
    end.

Definition Get (tenantID : uuid) (key : string) : prog (goerr + IdemRecord) :=
  let* r := sql_row OnDb (q_get_key tenantID key) in
  match r with
  | inl e => if errors_Is e ErrNoRows
             then Ret (inl (New ("idempotency: no record for key " +:+ Quote key)))
             else Ret (inl (Wrap "idempotency: get: " e ""))
  | inr p => Ret (inr (scanRecord p))
  end.

Section Repository.
Context `{Crypto, PgTime}.

Definition ClaimOrGet (tenantID : uuid) (key requestHash : string) (leaseTTL : duration)
    : prog (goerr + (IdemRecord * bool)) :=
  let* now := time_Now in
  let expiresAt := (now + leaseTTL)%Z in
  let* r := sql_row OnDb (q_claim tenantID key requestHash (pg_time now) (pg_time expiresAt)) in
  match r with
  | inr p => Ret (inr (scanRecord p, true))
  | inl e =>
      if negb (errors_Is e ErrNoRows) then Ret (inl (Wrap "idempotency: claim: " e ""))
      else
        let? existing := Get tenantID key in
        Ret (inr (existing, false))
  end.

Definition Complete (tenantID : uuid) (key : string) (responseCode : Z) (responseBody : string)
    (retentionTTL : duration) (claimedAt : time) : prog (goerr + unit) :=
  let* now := time_Now in
  let expiresAt := (now + retentionTTL)%Z in
  let? n := wrap_err "idempotency: complete: "
    (sql_exec OnDb (q_complete tenantID key responseCode responseBody (pg_time expiresAt)
                      (pg_time claimedAt))) in
  if decide (n = 0%Z) then Ret (inl ErrClaimSuperseded) else Ret (inr tt).

(** ** middleware.go *)

Definition HeaderKey : string := "Idempotency-Key".
Definition DefaultTTL : duration := (24 * 3600 * 1000000000)%Z.
Definition DefaultProcessingLease : duration := (30 * 1000000000)%Z.
Definition completeRetryAttempts : nat := 3.
Definition completeRetryBackoff : duration := 100000000%Z.

(** The loop of completeWithRetry, with [fuel] attempts left. *)
Fixpoint complete_attempts (fuel attempt : nat) (tenantID : uuid) (key : string) (responseCode : Z)
    (responseBody : string) (retentionTTL : duration) (claimedAt : time) : prog unit :=
  match fuel with
  | O => emit (OLog "ERROR" "idempotency: exhausted retries persisting completed record")
  | S fuel =>
      let* r := Complete tenantID key responseCode responseBody retentionTTL claimedAt in
      match r with
      | inr _ => Ret tt
      | inl e =>
          if errors_Is e ErrClaimSuperseded then emit (OLog "INFO"
            "idempotency: claim was superseded before this result could be persisted, discarding")
          else
            let* _ := emit (OLog "WARN"
              "idempotency: failed to persist completed record, retrying") in
            let* _ := emit (OSleep (Z.of_nat attempt * completeRetryBackoff)) in
            complete_attempts fuel (S attempt) tenantID key responseCode responseBody
              retentionTTL claimedAt
      end
  end.

Definition completeWithRetry (tenantID : uuid) (key : string) (responseCode : Z)
    (responseBody : string) (retentionTTL : duration) (claimedAt : time) : prog unit :=
  complete_attempts completeRetryAttempts 1 tenantID key responseCode responseBody
    retentionTTL claimedAt.

Definition error_text (e : goerr) : string :=
  match e with New msg => msg | _ => "" end.

Definition handleExisting (rec : IdemRecord) (hash : string) : list wcall :=
  if decide (irec_RequestHash rec <> hash) then http_Error (error_text ErrKeyReused) 422
  else if decide (irec_Status rec = StatusProcessing) then http_Error (error_text ErrInFlight) 409
  else [SetHeader "Idempotency-Replayed" "true";
        WriteHeader (default 200%Z (irec_ResponseCode rec));
        Write (default "" (irec_ResponseBody rec))].

Definition requestHash (method path body : string) : string :=
  sha256_hex (method +:+ path +:+ body).

Record options := { opt_processingLease : duration }.
Definition Option : Type := options -> options.
Definition WithProcessingLease (d : duration) : Option := fun _ => {| opt_processingLease := d |}.

Definition Middleware (retentionTTL : duration) (opts : list Option) (next : Handler) : Handler :=
  let retentionTTL := if (retentionTTL <=? 0)%Z then DefaultTTL else retentionTTL in
  let o := foldl (fun o opt => opt o) {| opt_processingLease := DefaultProcessingLease |} opts in
  fun r =>
    let key := rq_Header r HeaderKey in
    if decide (key = "") then done_with (http_Error (error_text ErrMissingKey) 400) else
    match FromContext r with
    | None => done_with (http_Error "idempotency: no tenant in request context" 500)
    | Some tenantID =>
        match rq_Body r with
        | None => done_with (http_Error "failed to read request body" 400)
        | Some bodyBytes =>
            let hash := requestHash (rq_Method r) (rq_Path r) bodyBytes in
            let* claim := ClaimOrGet tenantID key hash (opt_processingLease o) in
            match claim with
            | inl _ => done_with (http_Error "idempotency check failed" 500)
            | inr (rec, claimed) =>
                if negb claimed then done_with (handleExisting rec hash) else
                let* s := next r in
                match sv_ending s with
                | PanickedWith _ => Ret s
                | Finished =>
                    let rw := record_all (sv_calls s) in
                    let* _ := completeWithRetry tenantID key (rec_statusCode rw) (rec_body rw)
                                retentionTTL (irec_CreatedAt rec) in
                    Ret s
                end
            end
        end
    end.
End Repository.
