(* ===== verification/Tenants.v ===== *)
(** * internal/tenants, the tenant gate, and scripts/create_tenant

    API keys: their hash, their verification (src/internal/tenants/repository.go),
    the middleware that requires one (requireTenantAPIKey in
    src/cmd/api/handlers.go), and the script that creates a tenant. *)

From S2P Require Import Prelude GoBase Db Prog Auth Http.
Local Open Scope go_scope.

Definition ErrInvalidAPIKey : goerr := New "tenants: invalid API key".

(** SELECT id FROM tenants WHERE api_key_hash = $1 *)
Definition q_tenant_by_key (hash : string) : stmt (option uuid) :=
  select (fun d =>
    fst <$> head (rows_where (fun p : uuid * tenant_row => tn_api_key_hash p.2 = hash) (tenants d))).

Definition q_create_tenant (name hash : string) : stmt (option uuid) :=
  fun _ ev d =>
    guarded [ (negb (has_row (tenants d) (e_uuid ev)), UniqueViolation "tenants_pkey") ]
      (Outcome [] (inr (Some (e_uuid ev)))
         [WTenant (e_uuid ev) (TenantRow name hash None None)]).

Section Tenants.
Context `{Crypto}.

Definition HashAPIKey (raw : string) : string := sha256_hex raw.

Definition VerifyAPIKey (c : conn) (rawKey : string) : prog (goerr + uuid) :=
  let* r := sql_row c (q_tenant_by_key (HashAPIKey rawKey)) in
  match r with
  | inl e => if errors_Is e ErrNoRows then Ret (inl ErrInvalidAPIKey)
             else Ret (inl (Wrap "tenants: verify api key: " e ""))
  | inr tenantID => Ret (inr tenantID)
  end.

Definition requireTenantAPIKey (next : Handler) : Handler := fun r =>
  let rawKey := rq_Header r "X-API-Key" in
  if decide (rawKey = "") then done_with (http_Error "X-API-Key header required" 401) else
  let* v := VerifyAPIKey OnDb rawKey in
  match v with
  | inl _ => done_with (http_Error "invalid API key" 401)
  | inr tenantID => next (WithTenantID r tenantID)
  end.

(** generateAPIKey; the environment's answer is the hexadecimal text of the
    random bytes. *)
Definition generateAPIKey : prog (goerr + string) :=
  let* r := ask tk_rand in
  match r with
  | None => Ret (inl (New "crypto/rand"))
  | Some hex => Ret (inr ("sk_" +:+ hex))
  end.

(** main of scripts/create_tenant, once connected: the new tenant and the key
    that is shown once; an error is the exit with status 1. *)
Definition create_tenant (name : string) : prog (goerr + (uuid * string)) :=
  if decide (name = "") then Ret (inl (New "error: -name is required")) else
  let? rawKey := wrap_err "error: generate API key: " generateAPIKey in
  let? tenantID := wrap_err "error: create tenant: "
                     (sql_row OnDb (q_create_tenant name (HashAPIKey rawKey))) in
  Ret (inr (tenantID, rawKey)).
End Tenants.
