(* ===== verification/AuthMw.v ===== *)
(** * internal/middleware/auth: authentication and permissions of a request *)

From S2P Require Import Prelude GoBase Db Prog Auth Http.
Local Open Scope go_scope.

(** strings.HasPrefix and strings.TrimPrefix *)
Fixpoint strip_prefix (pre s : string) : option string :=
  match pre, s with
  | EmptyString, _ => Some s
  | String a pre, String b s => if Ascii.eqb a b then strip_prefix pre s else None
  | String _ _, EmptyString => None
  end.

(** hasPermission *)
Definition hasPermission (perms : list string) (want : string) : bool :=
  existsb (fun p => bool_decide (p = want)) perms.

Section AuthMw.
Context `{UuidLib, Jwt}.

(** Middleware: the tenant and the claims of the request come from its bearer
    token. *)
Definition Middleware (svc : Service) (next : Handler) : Handler := fun r =>
  let header := rq_Header r "Authorization" in
  match strip_prefix "Bearer " header with
  | None | Some EmptyString =>
      done_with (http_Error "missing or malformed Authorization header" 401)
  | Some tokenString =>
      let* v := ValidateAccessToken svc tokenString in
      match v with
      | inl _ => done_with (http_Error "invalid or expired access token" 401)
      | inr claims =>
          match uuid_Parse (cl_TenantID claims) with
          | None => done_with (http_Error "token contains an invalid tenant claim" 401)
          | Some tenantID => next (WithClaims (WithTenantID r tenantID) claims)
          end
      end
  end.

(** RequirePermission *)
Definition RequirePermission (permission : string) (next : Handler) : Handler := fun r =>
  match ClaimsFromContext r with
  | None => done_with (http_Error "auth: no authenticated user in request context" 500)
  | Some claims =>
      match uuid_Parse (cl_UserID claims) with
      | None => done_with (http_Error "token contains an invalid user claim" 401)
      | Some userID =>
          match FromContext r with
          | None => done_with (http_Error "auth: no tenant in request context" 500)
          | Some tenantID =>
              let* perms := GetUserPermissions tenantID userID in
              match perms with
              | inl _ => done_with (http_Error "permission check failed" 500)
              | inr perms =>
                  if negb (hasPermission perms permission)
                  then done_with (http_Error ("missing required permission: " +:+ permission) 403)
                  else next r
              end
          end
      end
  end.
End AuthMw.
