(* ===== verification/Handlers.v ===== *)
(** * cmd/api/handlers.go: the HTTP handlers

    Each handler reads its tenant from the context, decodes its input, calls one
    service operation and maps the result to a response. encoding/json is a
    parameter: [Decoder] and [Encoder]. *)

From S2P Require Import Prelude GoBase Db Prog Interfaces AuditLog Auth Http.
From S2P Require Ledger.
Local Open Scope go_scope.

(** ** Request and response types *)

Record registerRequest := { reg_Email : string; reg_Password : string; reg_RoleName : string }.
Record loginRequest := { log_TenantID : string; log_Email : string; log_Password : string }.
Record refreshRequest := { ref_RefreshToken : string }.
Record transferEntryRequest := { ter_AccountID : string; ter_AmountMinor : Z }.
Record transferRequest := { trr_Entries : list transferEntryRequest }.
Record createAccountRequest := { car_Name : string }.

(** json.NewDecoder(body).Decode, per destination type; an amount that decodes
    is an int64. *)
Class Decoder := {
  decode_register : string -> option registerRequest;
  decode_login : string -> option loginRequest;
  decode_refresh : string -> option refreshRequest;
  decode_transfer : string -> option transferRequest;
  decode_account : string -> option createAccountRequest
}.

(** json.NewEncoder(w).Encode: the text it writes, and that of a time.Time in
    it; Format(time.RFC3339). *)
Class Encoder := {
  json_encode : json -> string;
  time_text : time -> string;
  time_RFC3339 : time -> string
}.

(** actorIDFromContext *)
Definition actorIDFromContext (r : Request) : string :=
  match ClaimsFromContext r with None => "" | Some claims => cl_UserID claims end.

(** writeTransferError's choice of status. *)
Definition transfer_error_status (e : goerr) : Z :=
  if errors_Is e Ledger.ErrInsufficientFunds || errors_Is e Ledger.ErrTransactionNotPending ||
     errors_Is e Ledger.ErrStatusConflict then 409
  else if errors_Is e Ledger.ErrAccountNotFound || errors_Is e Ledger.ErrTransactionNotFound then 404
  else if errors_Is e Ledger.ErrUnbalancedEntries || errors_Is e Ledger.ErrEmptyEntries ||
     errors_Is e Ledger.ErrZeroAmountEntry then 400
  else 422.

(** writeAuthError's choice of status. *)
Definition auth_error_status (e : goerr) : Z :=
  if errors_Is e ErrInvalidCredentials || errors_Is e ErrRefreshTokenInvalid ||
     errors_Is e ErrRefreshTokenNotFound then 401
  else if errors_Is e ErrUserDisabled then 403
  else if errors_Is e ErrEmailAlreadyExists then 409
  else if errors_Is e ErrRoleNotFound || errors_Is e ErrUserNotFound then 404
  else 422.

Section Handlers.
Context `{UuidLib, DriverText, Crypto, PgTime, SqlLower, Bcrypt, Jwt, Decoder, Encoder}.

Definition writeTransferError (e : goerr) : prog served :=
  done_with (http_Error (Error e) (transfer_error_status e)).
Definition writeAuthError (e : goerr) : prog served :=
  done_with (http_Error (Error e) (auth_error_status e)).

(** Content-Type, WriteHeader, Encode. *)
Definition respond (status : Z) (body : json) : prog served :=
  done_with [SetHeader "Content-Type" "application/json"; WriteHeader status;
             Write (json_encode body)].

(** The tenant of the context, or 500. *)
Definition with_tenant (r : Request) (k : uuid -> prog served) : prog served :=
  match FromContext r with
  | None => done_with (http_Error "no tenant in request context" 500)
  | Some tenantID => k tenantID
  end.

(** The decoded body, or 400. *)
Definition with_body {A} (decode : string -> option A) (r : Request) (k : A -> prog served)
    : prog served :=
  match rq_Body r ≫= decode with
  | None => done_with (http_Error "invalid JSON body" 400)
  | Some req => k req
  end.

Definition registerHandler (authSvc : Service) : Handler := fun r =>
  with_tenant r (fun tenantID =>
  with_body decode_register r (fun req =>
    let roleName := if decide (reg_RoleName req = "") then "viewer" else reg_RoleName req in
    let* role := GetRoleByName OnDb roleName in
    match role with
    | inl _ => done_with (http_Error ("unknown role: " +:+ Quote roleName) 400)
    | inr roleID =>
        let* user := Register authSvc tenantID roleID (reg_Email req) (reg_Password req) in
        match user with
        | inl e => writeAuthError e
        | inr user => respond 201 (JObject [("email", JString (usr_Email user));
                                            ("user_id", JString (uuid_String (usr_ID user)))])
        end
    end)).

Definition writeAuthResult (status : Z) (result : AuthResult) : prog served :=
  respond status
    (JObject [("access_expires_at", JString (time_text (res_AccessExpiresAt result)));
              ("access_token", JString (res_AccessToken result));
              ("refresh_expires_at", JString (time_text (res_RefreshExpiresAt result)));
              ("refresh_token", JString (res_RefreshToken result))]).

Definition loginHandler (authSvc : Service) : Handler := fun r =>
  with_body decode_login r (fun req =>
    match uuid_Parse (log_TenantID req) with
    | None => done_with (http_Error "invalid tenant_id" 400)
    | Some tenantID =>
        let* result := Login authSvc tenantID (log_Email req) (log_Password req) in
        match result with
        | inl e => writeAuthError e
        | inr result => writeAuthResult 200 result
        end
    end).

Definition refreshHandler (authSvc : Service) : Handler := fun r =>
  with_body decode_refresh r (fun req =>
    let* result := Refresh authSvc (ref_RefreshToken req) in
    match result with
    | inl e => writeAuthError e
    | inr result => writeAuthResult 200 result
    end).

Definition logoutHandler (authSvc : Service) : Handler := fun r =>
  with_body decode_refresh r (fun req =>
    let* result := Logout authSvc (ref_RefreshToken req) in
    match result with
    | inl e => writeAuthError e
    | inr _ => done_with [WriteHeader 204]
    end).

(** The loop over the entries of a transfer request: the first account_id that
    does not parse ends it. *)
Fixpoint parse_entries (entries : list transferEntryRequest) : string + list Ledger.EntryInput :=
  match entries with
  | [] => inr []
  | e :: es =>
      match uuid_Parse (ter_AccountID e) with
      | None => inl (ter_AccountID e)
      | Some accountID =>
          match parse_entries es with
          | inl bad => inl bad
          | inr rest => inr ({| Ledger.in_AccountID := accountID;
                                Ledger.in_AmountMinor := ter_AmountMinor e |} :: rest)
          end
      end
  end.

Definition transfer_response (txn : Ledger.Transaction) : json :=
  JObject [("transaction_id", JString (uuid_String (Ledger.txn_ID txn)));
           ("status", JString (Ledger.status_text (Ledger.txn_Status txn)))].

(** transferHandler and createPendingTransactionHandler, which differ only in
    the operation they call. *)
Definition create_transaction_handler
    (op : Ledger.TransferRequest -> prog (goerr + (Ledger.Transaction * list Ledger.Entry)))
    : Handler := fun r =>
  with_tenant r (fun tenantID =>
  with_body decode_transfer r (fun req =>
    match parse_entries (trr_Entries req) with
    | inl bad => done_with (http_Error ("invalid account_id: " +:+ Quote bad) 400)
    | inr entries =>
        let* result := op {| Ledger.req_TenantID := tenantID; Ledger.req_Entries := entries;
                             Ledger.req_ActorID := actorIDFromContext r |} in
        match result with
        | inl e => writeTransferError e
        | inr (txn, _) => respond 201 (transfer_response txn)
        end
    end)).

Definition transferHandler (svc : Ledger.Service) : Handler :=
  create_transaction_handler (Ledger.ExecuteTransfer svc).
Definition createPendingTransactionHandler (svc : Ledger.Service) : Handler :=
  create_transaction_handler (Ledger.CreatePendingTransaction svc).

Definition account_response (account : Ledger.Account) : json :=
  JObject [("id", JString (uuid_String (Ledger.acc_ID account)));
           ("name", JString (Ledger.acc_Name account));
           ("balance_minor", JNumber (Ledger.acc_Balance account))].

Definition createAccountHandler (svc : Ledger.Service) : Handler := fun r =>
  with_tenant r (fun tenantID =>
  with_body decode_account r (fun req =>
    if decide (car_Name req = "") then done_with (http_Error "name is required" 400) else
    let* result := Ledger.CreateAccount svc tenantID (car_Name req) (actorIDFromContext r) in
    match result with
    | inl e => writeTransferError e
    | inr account => respond 201 (account_response account)
    end)).

(** The identifier in the path, or 400. *)
Definition with_id (msg : string) (r : Request) (k : uuid -> prog served) : prog served :=
  match uuid_Parse (rq_id r) with
  | None => done_with (http_Error msg 400)
  | Some i => k i
  end.

Definition getAccountHandler : Handler := fun r =>
  with_tenant r (fun tenantID =>
  with_id "invalid account id" r (fun accountID =>
    let* result := Ledger.GetAccount tenantID accountID in
    match result with
    | inl e => writeTransferError e
    | inr account => respond 200 (account_response account)
    end)).

(** resp.Entries is a nil slice until the first append. *)
Definition entries_response (entries : list Ledger.Entry) : json :=
  match entries with
  | [] => JNull
  | _ => JArray ((fun e =>
           JObject [("account_id", JString (uuid_String (Ledger.ent_AccountID e)));
                    ("amount_minor", JNumber (Ledger.ent_AmountMinor e))]) <$> entries)
  end.

Definition getTransactionHandler : Handler := fun r =>
  with_tenant r (fun tenantID =>
  with_id "invalid transaction id" r (fun txnID =>
    let* result := Ledger.GetTransaction tenantID txnID in
    match result with
    | inl e => writeTransferError e
    | inr (txn, entries) => respond 200
        (JObject [("id", JString (uuid_String (Ledger.txn_ID txn)));
                  ("status", JString (Ledger.status_text (Ledger.txn_Status txn)));
                  ("entries", entries_response entries)])
    end)).

(** postPendingTransactionHandler and failPendingTransactionHandler. *)
Definition resolve_handler (op : uuid -> uuid -> string -> prog (goerr + Ledger.Transaction))
    : Handler := fun r =>
  with_tenant r (fun tenantID =>
  with_id "invalid transaction id" r (fun txnID =>
    let* result := op tenantID txnID (actorIDFromContext r) in
    match result with
    | inl e => writeTransferError e
    | inr txn => respond 200 (transfer_response txn)
    end)).

Definition postPendingTransactionHandler (svc : Ledger.Service) : Handler :=
  resolve_handler (Ledger.PostPendingTransaction svc).
Definition failPendingTransactionHandler (svc : Ledger.Service) : Handler :=
  resolve_handler (Ledger.FailPendingTransaction svc).

(** The limit of the audit log: 50 unless the query gives a number. *)
Definition audit_limit (raw : string) : Z :=
  if decide (raw = "") then 50 else default 50%Z (Atoi raw).

Definition auditLogHandler : Handler := fun r =>
  with_tenant r (fun tenantID =>
    let* entries := AuditLog.List tenantID (audit_limit (rq_limit r)) in
    match entries with
    | inl _ => done_with (http_Error "failed to list audit log" 500)
    | inr entries => respond 200
        (JObject [("entries", JArray ((fun e =>
           JObject [("id", JString (uuid_String (aud_ID e)));
                    ("action", JString (aud_Action e));
                    ("actor_id", JString (aud_ActorID e));
                    ("payload", aud_Payload e);
                    ("created_at", JString (time_RFC3339 (aud_CreatedAt e)))]) <$> entries))])
    end).
End Handlers.
