(* ===== verification/Router.v ===== *)
(** * cmd/api/main.go: the services and the routes

    How main wires the packages together, and the middlewares each route goes
    through. chi (matching of paths, RequestID, Timeout) is third-party: a request
    carries the pattern chi matched. *)

From S2P Require Import Prelude GoBase Db Prog Interfaces AuditLog Auth Http Tenants Handlers.
From S2P Require Ledger Webhook Worker Idempotency AuthMw.
Local Open Scope go_scope.

(** ** The services of main *)

Definition ledgerSvc : Ledger.Service :=
  Ledger.NewService [Ledger.WithEventEnqueuer Webhook.Enqueuer; Ledger.WithAuditRecorder Recorder].
Definition authSvc (jwtSecret : string) : Service := NewService jwtSecret [WithAuditRecorder Recorder].
Definition webhookSvc : Webhook.Service := Webhook.NewService [].
Definition webhookWorker : Worker.Worker := Worker.NewWorker webhookSvc [].

(** ** healthHandler *)

Definition healthHandler : Handler := fun r =>
  let* ping := sql_exec OnDb (select (fun _ => tt)) in
  match ping with
  | inl _ => done_with [WriteHeader 503; Write (json_member "status" "unhealthy")]
  | inr _ => done_with [WriteHeader 200; Write (json_member "status" "ok")]
  end.

(** What is not the program's: for a request that reaches none of its handlers,
    the status and body of chi's 404 and 405 answers, or of promhttp's page on
    /metrics. *)
Class Chi := { unrouted : Request -> Z * string }.

Section Router.
Context `{UuidLib, DriverText, Crypto, PgTime, SqlLower, Bcrypt, Jwt, Decoder, Encoder, Chi}.
Context (jwtSecret : string).

(** Authenticate, then authorize. *)
Definition authorized (permission : string) (h : Handler) : Handler :=
  AuthMw.Middleware (authSvc jwtSecret) (AuthMw.RequirePermission permission h).

(** ... then guard against duplicate execution. *)
Definition mutating (permission : string) (h : Handler) : Handler :=
  authorized permission (Idempotency.Middleware Idempotency.DefaultTTL [] h).

Definition routes : list (string * string * Handler) :=
  [ ("GET", "/healthz", healthHandler);
    ("POST", "/v1/auth/register", requireTenantAPIKey (registerHandler (authSvc jwtSecret)));
    ("POST", "/v1/auth/login", loginHandler (authSvc jwtSecret));
    ("POST", "/v1/auth/refresh", refreshHandler (authSvc jwtSecret));
    ("POST", "/v1/auth/logout", logoutHandler (authSvc jwtSecret));
    ("POST", "/v1/accounts", mutating "accounts:write" (createAccountHandler ledgerSvc));
    ("GET", "/v1/accounts/{id}", authorized "accounts:read" getAccountHandler);
    ("GET", "/v1/transactions/{id}", authorized "transactions:read" getTransactionHandler);
    ("POST", "/v1/transfers", mutating "transactions:write" (transferHandler ledgerSvc));
    ("POST", "/v1/transactions/pending",
       mutating "transactions:write" (createPendingTransactionHandler ledgerSvc));
    ("POST", "/v1/transactions/{id}/post",
       mutating "transactions:write" (postPendingTransactionHandler ledgerSvc));
    ("POST", "/v1/transactions/{id}/fail",
       mutating "transactions:write" (failPendingTransactionHandler ledgerSvc));
    ("GET", "/v1/audit-log", authorized "audit:read" auditLogHandler) ]%string.

(** The handler of the route that chi matched. *)
Definition dispatch : Handler := fun r =>
  match find (fun p => bool_decide (p.1.1 = rq_Method r /\ Some p.1.2 = rq_Route r)) routes with
  | Some (_, h) => h r
  | None => let '(code, body) := unrouted r in done_with [WriteHeader code; Write body]
  end.

(** The router with its middlewares, outermost first. *)
Definition app (abortHandler : string) : Handler :=
  logging_Middleware (metrics_Middleware (recovery_Middleware abortHandler dispatch)).
End Router.
