(* ===== verification/Config.v ===== *)
(** * internal/config: the settings of the process

    src/internal/config/config.go; the process environment is a function from
    variable names to values, where an unset variable reads as the empty string. *)

From S2P Require Import Prelude.

Record Config := {
  DBHost : string;
  DBPort : string;
  DBUser : string;
  DBPassword : string;
  DBName : string;
  DBSSLMode : string;
  Port : string;
  JWTSecret : string
}.

Definition getenv (environ : string -> string) (key fallback : string) : string :=
  if decide (environ key = "") then fallback else environ key.

Definition Load (environ : string -> string) : Config :=
  {| DBHost := getenv environ "DB_HOST" "localhost";
     DBPort := getenv environ "DB_PORT" "5432";
     DBUser := getenv environ "DB_USER" "transacta";
     DBPassword := getenv environ "DB_PASSWORD" "transacta_dev";
     DBName := getenv environ "DB_NAME" "transacta";
     DBSSLMode := getenv environ "DB_SSLMODE" "disable";
     Port := getenv environ "PORT" "8080";
     JWTSecret := getenv environ "JWT_SECRET" "" |}.

Definition DatabaseDSN (c : Config) : string :=
  "host=" +:+ DBHost c +:+ " port=" +:+ DBPort c +:+ " user=" +:+ DBUser c +:+
  " password=" +:+ DBPassword c +:+ " dbname=" +:+ DBName c +:+ " sslmode=" +:+ DBSSLMode c.
