(* ===== verification/Process.v ===== *)
(** * cmd/api/main.go and scripts/create_tenant/main.go: the life of a process

    How the server comes up (configuration, connection, the refusal to run
    without a signing key), how it ends (a failing listener, or a signal and the
    graceful shutdown), and how the script finds the same database. What the
    server does in between is Router.v and Worker.v. *)

From S2P Require Import Prelude GoBase Db Prog Config Http Tenants.
Local Open Scope go_scope.

(** sql.Open with the pgx driver: an error, or a handle that connects later. *)
Class SqlDriver := { sql_Open : string -> option goerr }.

Section process.
Context `{SqlDriver, Crypto}.

(** ** Coming up *)

(** What os.Exit(1) leaves behind a message. *)
Definition exit_1 {A} (msg : string) : prog (Z + A) :=
  let* _ := emit (OLog "ERROR" msg) in Ret (inl 1%Z).

(** main up to the construction of the services: the exit status, or the
    configuration it goes on with. *)
Definition startup (environ : string -> string) : prog (Z + Config) :=
  let cfg := Load environ in
  match sql_Open (DatabaseDSN cfg) with
  | Some _ => exit_1 "open database"
  | None =>
      let* ping := sql_exec OnDb (select (fun _ => tt)) in
      match ping with
      | inl _ => exit_1 "ping database"
      | inr _ =>
          let* _ := emit (OLog "INFO" "connected to database") in
          if decide (JWTSecret cfg = "")
          then exit_1 "JWT_SECRET is not set -- refusing to start with an unsigned/insecure JWT signing key"
          else Ret (inr cfg)
      end
  end.

(** ** Going down *)

(** http.ErrServerClosed *)
Definition ErrServerClosed : goerr := New "http: Server closed".

(** Where main stands once the listener runs: blocked on the stop channel, in
    srv.Shutdown, or gone. *)
Inductive phase := Serving | Draining | Exited (code : Z).

Inductive happening :=
  | ServeReturns (err : goerr)          (* ListenAndServe always returns an error *)
  | Signalled                           (* SIGINT or SIGTERM *)
  | ShutdownReturns (err : option goerr).

Definition happens (p : phase) (h : happening) : option phase :=
  match p, h with
  | (Serving | Draining), ServeReturns err =>
      if errors_Is err ErrServerClosed then Some p else Some (Exited 1)
  | Serving, Signalled => Some Draining
  | Draining, Signalled => Some Draining     (* the buffered channel takes it, nobody reads it *)
  | Draining, ShutdownReturns None => Some (Exited 0)
  | Draining, ShutdownReturns (Some _) => Some (Exited 1)
  | Serving, ShutdownReturns _ | Exited _, _ => None
  end.

(** workerCancel has been called: from then on the select of [Worker.Run] can
    take its branch [on_done]. *)
Definition worker_cancelled (p : phase) : bool :=
  match p with Serving => false | _ => true end.

Fixpoint life (p : phase) (hs : list happening) : option phase :=
  match hs with
  | [] => Some p
  | h :: hs => match happens p h with None => None | Some p' => life p' hs end
  end.

(** ** The script *)

(** The flag -dsn, or the variables of the server with its defaults. *)
Definition connStr (dsn : string) (environ : string -> string) : string :=
  if decide (dsn = "") then
    "host=" +:+ getenv environ "DB_HOST" "localhost" +:+ " port=" +:+ getenv environ "DB_PORT" "5432" +:+
    " user=" +:+ getenv environ "DB_USER" "transacta" +:+
    " password=" +:+ getenv environ "DB_PASSWORD" "transacta_dev" +:+
    " dbname=" +:+ getenv environ "DB_NAME" "transacta" +:+
    " sslmode=" +:+ getenv environ "DB_SSLMODE" "disable"
  else dsn.

Definition create_tenant_main (name dsn : string) (environ : string -> string)
    : prog (goerr + (uuid * string)) :=
  if decide (name = "") then Ret (inl (New "error: -name is required")) else
  match sql_Open (connStr dsn environ) with
  | Some err => Ret (inl (Wrap "error: open database: " err ""))
  | None => create_tenant name
  end.

(** ** Facts *)

(** A server that comes up has a signing key and a database that answered; one
    that does not exits with status 1, and neither has changed anything. *)
Lemma startup_spec environ orc w r w' :
  w_tx w = None -> run (startup environ) orc w = Some (r, w') ->
  w_db w' = w_db w /\ w_tx w' = None /\
  match r with
  | inr cfg => cfg = Load environ /\ JWTSecret cfg <> "" /\ sql_Open (DatabaseDSN cfg) = None /\
               tk_fault (orc (w_pos w)) = NoFault
  | inl code => code = 1%Z
  end.
Proof.
  intros Ht. unfold startup, exit_1. destruct (sql_Open _) eqn:Ho; simpl; [by intros [= <- <-]|].
  rewrite Ht. destruct (tk_fault (orc (w_pos w))) eqn:Hf; simpl; try (by intros [= <- <-]).
  destruct (decide _) as [Hj|Hj]; simpl; intros [= <- <-]; simpl; repeat split; auto.
Qed.

(** Conversely, without a fault the signing key decides. *)
Lemma startup_total environ orc w :
  w_tx w = None -> tk_fault (orc (w_pos w)) = NoFault -> sql_Open (DatabaseDSN (Load environ)) = None ->
  fst <$> run (startup environ) orc w =
    Some (if decide (environ "JWT_SECRET" = "") then inl 1%Z else inr (Load environ)).
Proof.
  intros Ht Hf Ho. unfold startup, exit_1. rewrite Ho. simpl. rewrite Ht, Hf. simpl.
  unfold getenv. repeat case_decide; simpl; congruence.
Qed.

(** Status 0 means: a signal, then a Shutdown that ended well, and a listener
    that at no time failed for another reason. *)
Lemma exit_0_graceful hs :
  life Serving hs = Some (Exited 0) ->
  Signalled ∈ hs /\ last hs = Some (ShutdownReturns None) /\
  Forall (fun h => match h with ServeReturns e => errors_Is e ErrServerClosed = true | _ => True end) hs.
Proof.
  assert (Hd : forall hs, life Draining hs = Some (Exited 0) -> last hs = Some (ShutdownReturns None) /\
    Forall (fun h => match h with ServeReturns e => errors_Is e ErrServerClosed = true | _ => True end) hs).
  { clear hs. induction hs as [|[e| |[e|]] hs IH]; simpl; try done.
    - destruct (errors_Is e ErrServerClosed) eqn:E; [|by destruct hs]. intros Hl.
      destruct (IH Hl) as [Hla Hf]. split; [|by constructor]. destruct hs; [done|exact Hla].
    - intros Hl. destruct (IH Hl) as [Hla Hf]. split; [|by constructor]. destruct hs; [done|exact Hla].
    - by destruct hs.
    - destruct hs; [|done]. split; [done|by repeat constructor]. }
  induction hs as [|[e| |[e|]] hs IH]; simpl; try done.
  - destruct (errors_Is e ErrServerClosed) eqn:E; [|by destruct hs]. intros Hl.
    destruct (IH Hl) as (Hs & Hla & Hf). split_and!; [by right| |by constructor]. destruct hs; [done|exact Hla].
  - intros Hl. destruct (Hd hs Hl) as [Hla Hf]. split_and!; [by left| |by constructor].
    destruct hs; [done|exact Hla].
Qed.

(** Without -dsn the script works on the database of the server. *)
Lemma same_database environ : connStr "" environ = DatabaseDSN (Load environ).
Proof. reflexivity. Qed.

(** The script, once connected, is [create_tenant]. *)
Lemma create_tenant_main_spec name dsn environ :
  sql_Open (connStr dsn environ) = None ->
  create_tenant_main name dsn environ = create_tenant name.
Proof. intros Ho. unfold create_tenant_main. rewrite Ho. unfold create_tenant. by case_decide. Qed.
End process.
