(* ===== verification/AuthWp.v ===== *)
(** * What the auth service does under concurrency

    [auth_step]: every change the service makes keeps users and tokens, never
    reactivates a token, and keeps the two unique indexes; [Refresh] and
    [Register] are described by what they did when they report success. *)

From S2P Require Import Prelude GoBase Db Prog ProgFacts Interfaces Auth Adapters.
Local Open Scope Z_scope.

(** ** The invariants *)

Section invariants.
Context `{SqlLower}.

(** uq_users_tenant_lower_email *)
Definition emails_unique (d : db) : Prop :=
  forall i j u v, users d !! i = Some u -> users d !! j = Some v ->
    us_tenant_id u = us_tenant_id v -> sql_lower (us_email u) = sql_lower (us_email v) -> i = j.

(** refresh_tokens_token_hash_key *)
Definition hashes_unique (d : db) : Prop :=
  forall i j r r', refresh_tokens d !! i = Some r -> refresh_tokens d !! j = Some r' ->
    rt_token_hash r = rt_token_hash r' -> i = j.

(** What can become of a token: it stays, or it stops being active. *)
Definition token_le (r r' : refresh_token_row) : Prop :=
  r' = r \/
  (rt_status r = TokenActive /\ exists st rep, st <> TokenActive /\ r' = with_token_status st rep r).

Record auth_step (L : list lock) (d d' : db) : Prop := AuthStep {
  as_users : forall i u, users d !! i = Some u -> users d' !! i = Some u;
  as_new_users : forall i u, users d' !! i = Some u -> users d !! i = Some u \/
    LUnique T_users (us_tenant_id u) (sql_lower (us_email u)) ∈ L;
  as_emails : emails_unique d -> emails_unique d';
  as_tokens : forall i r, refresh_tokens d !! i = Some r ->
    exists r', refresh_tokens d' !! i = Some r' /\ token_le r r';
  as_new_tokens : forall i r, refresh_tokens d' !! i = Some r -> is_Some (refresh_tokens d !! i) \/
    LUnique T_refresh_tokens no_scope (rt_token_hash r) ∈ L;
  as_hashes : hashes_unique d -> hashes_unique d'
}.

Lemma token_le_trans r1 r2 r3 : token_le r1 r2 -> token_le r2 r3 -> token_le r1 r3.
Proof.
  intros [->|(Ha & st & rep & Hst & ->)] [->|(Hb & st' & rep' & Hst' & ->)]; simpl in *;
    [by left|right; eauto 6|right; eauto 6|done].
Qed.

Lemma token_le_hash r r' : token_le r r' -> rt_token_hash r' = rt_token_hash r.
Proof. by intros [->|(_ & st & rep & _ & ->)]. Qed.

Lemma rely_token guar L d d' i r :
  (forall K d1 d2, guar K d1 d2 -> auth_step K d1 d2) ->
  rely guar L d d' -> refresh_tokens d !! i = Some r ->
  exists r', refresh_tokens d' !! i = Some r' /\ token_le r r'.
Proof.
  intros Hg. intros Hr. revert r. induction Hr as [|d1 d2 d3 (K & ws & _ & _ & _ & Hs) _ IH]; intros r Hi.
  - exists r. by split; [|left].
  - apply Hg in Hs. destruct (as_tokens _ _ _ Hs i r Hi) as (r1 & H1 & Hle).
    destruct (IH r1 H1) as (r2 & H2 & Hle'). exists r2. split; [done|]. by eapply token_le_trans.
Qed.

(** Nobody else can add a user with an address, or a token with a hash, that
    this thread has locked. *)
Definition no_email (tn : uuid) (email : string) (d : db) : Prop :=
  forall i u, users d !! i = Some u -> us_tenant_id u = tn -> sql_lower (us_email u) <> sql_lower email.

Definition no_hash (hash : string) (d : db) : Prop :=
  forall i r, refresh_tokens d !! i = Some r -> rt_token_hash r <> hash.

Lemma rely_no_email L tn email d d' :
  LUnique T_users tn (sql_lower email) ∈ L -> rely auth_step L d d' -> no_email tn email d -> no_email tn email d'.
Proof.
  intros HL. apply rely_stable. intros K d1 d2 Hs Hd Hn i u Hu Ht He.
  destruct (as_new_users _ _ _ Hs i u Hu) as [Hu'|Hl]; [by eapply Hn|].
  rewrite Ht, He in Hl. by eapply Hd.
Qed.

Lemma rely_no_hash L hash d d' :
  LUnique T_refresh_tokens no_scope hash ∈ L -> rely auth_step L d d' -> no_hash hash d -> no_hash hash d'.
Proof.
  intros HL. apply rely_stable. intros K d1 d2 Hs Hd Hn i r Hr He.
  destruct (as_new_tokens _ _ _ Hs i r Hr) as [[r0 Hr0]|Hl]; [|rewrite He in Hl; by eapply Hd].
  destruct (as_tokens _ _ _ Hs i r0 Hr0) as (r' & Hr' & Hle). apply token_le_hash in Hle.
  eapply Hn; [exact Hr0|]. congruence.
Qed.

(** *** Writes that are steps *)

Lemma step_refl L d : auth_step L d d.
Proof.
  split; [done|by left|done| |by left; eexists|done]. intros i r Hr. exists r. by split; [|left].
Qed.

Lemma step_same L d d' :
  users d' = users d -> refresh_tokens d' = refresh_tokens d -> auth_step L d d'.
Proof.
  intros Hu Ht. destruct (step_refl L d) as [H1 H2 H3 H4 H5 H6]. split.
  - by rewrite Hu. - by rewrite Hu. - unfold emails_unique. by rewrite Hu.
  - by rewrite Ht. - by rewrite Ht. - unfold hashes_unique. by rewrite Ht.
Qed.

Lemma step_trans L d1 d2 d3 : auth_step L d1 d2 -> auth_step L d2 d3 -> auth_step L d1 d3.
Proof.
  intros S1 S2. split.
  - intros i u Hu. by apply (as_users _ _ _ S2), (as_users _ _ _ S1).
  - intros i u [Hu|Hl]%(as_new_users _ _ _ S2); [by apply (as_new_users _ _ _ S1)|by right].
  - intros Hu. by apply (as_emails _ _ _ S2), (as_emails _ _ _ S1).
  - intros i r (r1 & H1 & Hle)%(as_tokens _ _ _ S1). apply (as_tokens _ _ _ S2) in H1 as (r2 & H2 & Hle').
    exists r2. split; [done|]. by eapply token_le_trans.
  - intros i r Hr. destruct (as_new_tokens _ _ _ S2 i r Hr) as [[r1 Hr1]|Hl]; [|by right].
    destruct (as_new_tokens _ _ _ S1 i r1 Hr1) as [?|Hl]; [by left|right].
    destruct (as_tokens _ _ _ S2 i r1 Hr1) as (r' & Hr' & Hle%token_le_hash). simplify_eq. by rewrite Hle.
  - intros Hu. by apply (as_hashes _ _ _ S2), (as_hashes _ _ _ S1).
Qed.

Lemma step_new_user L i u d :
  users d !! i = None -> no_email (us_tenant_id u) (us_email u) d ->
  LUnique T_users (us_tenant_id u) (sql_lower (us_email u)) ∈ L -> auth_step L d (apply_write (WUser i u) d).
Proof.
  intros Hi Hn HL. destruct (step_refl L d) as [_ _ _ H4 H5 H6]. split; simpl; try done.
  - intros j v Hv. destruct (decide (i = j)) as [->|]; [congruence|by rewrite lookup_insert_ne].
  - intros j v [[<- <-]|[_ Hv]]%lookup_insert_Some; [by right|by left].
  - intros Hu j k v v'. simpl. intros [[<- <-]|[Hj Hv]]%lookup_insert_Some [[<- <-]|[Hk Hv']]%lookup_insert_Some Ht He;
      [done|by destruct (Hn _ _ Hv')|by destruct (Hn _ _ Hv)|by eapply Hu].
Qed.

Lemma step_new_token L i r d :
  refresh_tokens d !! i = None -> no_hash (rt_token_hash r) d ->
  LUnique T_refresh_tokens no_scope (rt_token_hash r) ∈ L -> auth_step L d (apply_write (WRefreshToken i r) d).
Proof.
  intros Hi Hn HL. destruct (step_refl L d) as [H1 H2 H3 _ _ _]. split; simpl; try done.
  - intros j v Hv. exists v. split; [|by left].
    destruct (decide (i = j)) as [->|]; [congruence|by rewrite lookup_insert_ne].
  - intros j v [[<- <-]|[_ Hv]]%lookup_insert_Some; [by right|by left].
  - intros Hu j k v v'. simpl. intros [[<- <-]|[Hj Hv]]%lookup_insert_Some [[<- <-]|[Hk Hv']]%lookup_insert_Some He;
      [done|by destruct (Hn _ _ Hv')|by destruct (Hn _ _ Hv)|by eapply Hu].
Qed.

(** Tokens that stop being active. *)
Lemma step_end_token L i r r' d :
  refresh_tokens d !! i = Some r -> token_le r r' -> auth_step L d (apply_write (WRefreshToken i r') d).
Proof.
  intros Hi Hle. destruct (step_refl L d) as [H1 H2 H3 _ _ _]. split; simpl; try done.
  - intros j v Hv. destruct (decide (i = j)) as [<-|].
    + simplify_eq. exists r'. by rewrite lookup_insert_eq.
    + exists v. rewrite lookup_insert_ne by done. by split; [|left].
  - intros j v [[<- <-]|[_ Hv]]%lookup_insert_Some; left; [by eexists|by eexists].
  - apply token_le_hash in Hle.
    intros Hu j k v v'. simpl. intros [[<- <-]|[Hj Hv]]%lookup_insert_Some [[<- <-]|[Hk Hv']]%lookup_insert_Some He;
      [done| | |by eapply Hu]; (eapply Hu; [done|done|congruence]).
Qed.

(** Revocation: each listed row is an active token of its table, stored as
    revoked. *)
Definition revokes (d : db) (w : write) : Prop :=
  exists i r, refresh_tokens d !! i = Some r /\ rt_status r = TokenActive /\
    w = WRefreshToken i (with_token_status TokenRevoked (rt_replaced_by r) r).

Lemma step_revoke L ws d : NoDup (lock_of <$> ws) -> Forall (revokes d) ws -> auth_step L d (apply_writes ws d).
Proof.
  revert d. induction ws as [|w ws IH]; intros d Hnd Hws; [apply step_refl|].
  rewrite fmap_cons, NoDup_cons in Hnd. destruct Hnd as [Hw Hnd]. rewrite Forall_cons in Hws. destruct Hws as [(i & r & Hi & Ha & ->) Hws].
  rewrite apply_writes_cons. eapply step_trans.
  - apply (step_end_token L i r (with_token_status TokenRevoked (rt_replaced_by r) r)); [exact Hi|]. right. split; [done|]. by exists TokenRevoked, (rt_replaced_by r).
  - apply IH; [done|]. apply Forall_forall. intros w' Hin. rewrite Forall_forall in Hws.
    destruct (Hws w' Hin) as (j & r' & Hj & Ha' & ->). exists j, r'. split_and!; [|done|done].
    simpl. rewrite lookup_insert_ne; [done|]. intros ->. apply Hw.
    by apply (list_elem_of_fmap_2 lock_of _ _ Hin).
Qed.

Lemma revoke_where_revokes P `{!forall p, Decision (P p)} d :
  NoDup (lock_of <$> revoke_where P d) /\ Forall (revokes d) (revoke_where P d).
Proof.
  unfold revoke_where, rows_where. split.
  - rewrite <- list_fmap_compose.
    assert (Hnd : NoDup (filter (fun p : uuid * refresh_token_row => P p /\ rt_status p.2 = TokenActive)
      (map_to_list (refresh_tokens d))).*1).
    { eapply sublist_NoDup_fst; [apply sublist_filter|]. apply NoDup_fst_map_to_list. }
    rewrite (list_fmap_ext _ (LRow T_refresh_tokens ∘ fst)) by done.
    rewrite list_fmap_compose. apply NoDup_fmap_2; [|done]. by intros ? ? [= ->].
  - apply Forall_forall. intros w ([i r] & -> & [[_ Ha] Hin]%list_elem_of_filter)%list_elem_of_fmap.
    apply elem_of_map_to_list in Hin. by exists i, r.
Qed.
(** What a revocation does to one row. *)
Definition revoke_if (P : uuid * refresh_token_row -> Prop) `{!forall p, Decision (P p)} (i : uuid)
    (r : refresh_token_row) : refresh_token_row :=
  if decide (P (i, r) /\ rt_status r = TokenActive)
  then with_token_status TokenRevoked (rt_replaced_by r) r else r.

Lemma apply_token_writes (l : list (uuid * refresh_token_row)) d i :
  NoDup l.*1 ->
  refresh_tokens (apply_writes ((fun p => WRefreshToken p.1 p.2) <$> l) d) !! i =
    match list_to_map (M := gmap uuid refresh_token_row) l !! i with
    | Some r => Some r | None => refresh_tokens d !! i
    end.
Proof.
  revert d. induction l as [|[j r] l IH]; intros d Hnd; [done|].
  rewrite fmap_cons, apply_writes_cons. apply NoDup_cons in Hnd as [Hj Hnd]. rewrite (IH _ Hnd).
  simpl. destruct (decide (i = j)) as [->|Hne].
  - rewrite lookup_insert_eq. rewrite (not_elem_of_list_to_map_1 _ _ Hj). by rewrite lookup_insert_eq.
  - rewrite !lookup_insert_ne by done. done.
Qed.

Lemma lookup_revoke_where P `{!forall p, Decision (P p)} d i :
  refresh_tokens (apply_writes (revoke_where P d) d) !! i = revoke_if P i <$> refresh_tokens d !! i.
Proof.
  unfold revoke_where, rows_where. set (rows := filter _ _).
  set (l := (fun p : uuid * refresh_token_row => (p.1, with_token_status TokenRevoked (rt_replaced_by p.2) p.2)) <$> rows).
  rewrite (list_fmap_ext _ ((fun p => WRefreshToken p.1 p.2) ∘
    (fun p : uuid * refresh_token_row => (p.1, with_token_status TokenRevoked (rt_replaced_by p.2) p.2)))) by done.
  rewrite list_fmap_compose. fold l.
  assert (Hl : l.*1 = rows.*1) by (unfold l; by rewrite <- list_fmap_compose).
  assert (Hnd : NoDup l.*1).
  { rewrite Hl. eapply sublist_NoDup_fst; [apply sublist_filter|]. apply NoDup_fst_map_to_list. }
  rewrite apply_token_writes by done.
  assert (Hin : forall r, (i, r) ∈ rows <-> refresh_tokens d !! i = Some r /\ P (i, r) /\ rt_status r = TokenActive).
  { intros r. unfold rows. rewrite list_elem_of_filter, elem_of_map_to_list. simpl. tauto. }
  destruct (list_to_map l !! i) as [r'|] eqn:E.
  - apply elem_of_list_to_map_2 in E. apply list_elem_of_fmap in E as ([j r] & Ej & Hr). simplify_eq/=.
    apply Hin in Hr as (-> & HP). simpl. unfold revoke_if. by rewrite decide_True.
  - apply not_elem_of_list_to_map in E. rewrite Hl in E.
    destruct (refresh_tokens d !! i) as [r|] eqn:Er; [|done]. simpl. unfold revoke_if.
    rewrite decide_False; [done|]. intros HP. apply E. apply (list_elem_of_fmap_2 fst rows (i, r)). by apply Hin.
Qed.

Lemma users_revoke_where P `{!forall p, Decision (P p)} d :
  users (apply_writes (revoke_where P d) d) = users d.
Proof.
  unfold revoke_where. generalize (rows_where (fun p : uuid * refresh_token_row => P p /\ rt_status p.2 = TokenActive) (refresh_tokens d)).
  intros l. revert d. induction l as [|p l IH]; intros d; [done|]. rewrite fmap_cons, apply_writes_cons, IH. done.
Qed.
End invariants.

(** ** The programs *)

Section programs.
Context `{UuidLib, Crypto, PgTime, SqlLower, Bcrypt, Jwt}.
Context (tick_ok : db -> tick -> Prop) (s : Service).
Hypothesis Haudit : forall a, svc_audit s = Some a -> AuditRecorderOk a.
Local Abbreviation wp := (wp auth_step tick_ok).
Local Abbreviation rely := (rely auth_step).
Local Abbreviation in_tx := (in_tx auth_step tick_ok).

Definition is_audit (w : write) : Prop := match w with WAudit _ _ => True | _ => False end.

(** A transaction with more writes. *)
Definition tx_app (t : txst) (ws : list write) : txst :=
  Txst (tx_writes t ++ ws) (tx_locks t ++ (lock_of <$> ws)) (tx_start t) false.

Lemma audit_only ws d :
  Forall is_audit ws -> users (apply_writes ws d) = users d /\ refresh_tokens (apply_writes ws d) = refresh_tokens d.
Proof.
  intros Hws. revert d. induction Hws as [|w ws Hw _ IH]; intros d; [done|].
  rewrite apply_writes_cons. destruct (IH (apply_write w d)) as [-> ->]. by destruct w.
Qed.

Lemma auth_recordAudit_in_tx tn actor action payload t d :
  tx_aborted t = false ->
  in_tx (recordAudit s tn actor action payload) t d (fun _ t' d' =>
    exists ws, Forall is_audit ws /\ t' = tx_app t ws /\ rely (tx_locks t) d d' /\
      (svc_audit s <> None -> ws <> [])).
Proof.
  intros Hab. unfold recordAudit. destruct (svc_audit s) as [a|] eqn:Ea.
  - eapply in_tx_mono; [by apply (Haudit a eq_refl)|]. intros _ t' d' (i & _ & -> & Hr).
    exists [WAudit i (AuditRow tn action actor payload (tx_start t))].
    split; [by repeat constructor|]. split; [done|]. split; [|done].
    eapply rely_weaken; [|exact Hr]. by apply list_subseteq_app_l.
  - apply in_tx_ret. exists []. split; [constructor|]. split; [|by split; [apply rely_refl|]].
    destruct t as [ws ls st ab]. simpl in *. unfold tx_app. simpl. by rewrite !app_nil_r, Hab.
Qed.

Lemma CreateUser_in_tx tn role email hash now d :
  in_tx (CreateUser OnTx tn role email hash) (tx_fresh now) d (fun user t' d' =>
    let row := UserRow tn role email hash UserStatusActive now in
    t' = Txst [WUser (usr_ID user) row] [LUnique T_users tn (sql_lower email); LRow T_users (usr_ID user)] now false /\
    user = scan_user (usr_ID user, row) /\ users d' !! usr_ID user = None /\ no_email tn email d').
Proof.
  unfold CreateUser. eapply (in_tx_bind _ _ _ _ _ _ (fun p t' d' =>
    let row := UserRow tn role email hash UserStatusActive now in
    t' = Txst [WUser p.1 row] [LUnique T_users tn (sql_lower email); LRow T_users p.1] now false /\
    p.2 = now /\ users d' !! p.1 = None /\ no_email tn email d')).
  - apply in_tx_row; [done|]. intros others tk r d' _ o Ho Hr. unfold o, q_create_user in *.
    destruct (guarded_ok _ _ _ Ho) as [Eo Hc]. rewrite Eo in Ho, Hr |- *. simpl in Ho. simplify_eq. simpl in *.
    split; [done|]. split; [done|].
    assert (Hfree : users d !! tk_uuid tk = None)
      by (eapply has_row_false, (Hc _ (UniqueViolation "users_pkey")); left).
    split.
    + rewrite (frame_users _ _ _ (rely_frame _ _ _ _ Hr)); [done|]. right. left.
    + eapply rely_no_email; [|exact Hr|]; [left|]. intros i u Hu Ht He.
      assert (Hnil : bool_decide (rows_where (fun p : uuid * user_row => us_tenant_id p.2 = tn /\
        sql_lower (us_email p.2) = sql_lower email) (users d) = []) = true)
        by (eapply (Hc _ (UniqueViolation "uq_users_tenant_lower_email")); right; left).
      apply bool_decide_eq_true in Hnil. unfold rows_where in Hnil.
      apply (not_elem_of_nil (i, u)). rewrite <- Hnil. apply list_elem_of_filter. split; [by split|].
      by apply elem_of_map_to_list.
  - intros e. destruct (isUniqueViolation e _); by eexists.
  - intros [i created] t' d' (-> & Ec & Hi & Hn). simpl in *. subst created. by apply in_tx_ret.
Qed.

(** What Register did when it reports success. *)
Definition registered (tn role : uuid) (email password : string) (user : User) (d d' : db) : Prop :=
  exists salt hash now, bcrypt_Generate salt password = inr hash /\
    let row := UserRow tn role email hash UserStatusActive now in
    user = scan_user (usr_ID user, row) /\ users d !! usr_ID user = None /\ no_email tn email d /\
    users d' = <[usr_ID user := row]> (users d) /\ refresh_tokens d' = refresh_tokens d.

Lemma Register_wp tn role email password log d :
  wp (Register s tn role email password) None log d (fun r tx log' _ =>
    tx = None /\ tx_result tick_ok (registered tn role email password) log r log').
Proof.
  unfold Register. cbn [ask bind]. intros tk d1 _ _.
  destruct (tk_rand tk) as [salt|]; cbv beta iota zeta; [|split; [done|by left]].
  destruct (bcrypt_Generate salt password) as [e|hash] eqn:Eh; [simpl; split; [done|by left]|].
  apply wp_transaction. intros now d2 _.
  eapply commits_ebind; [apply CreateUser_in_tx|]. intros user t3 d3 (-> & Euser & Hi & Hn).
  eapply commits_ebind; [by apply in_tx_wrap, auth_recordAudit_in_tx|]. intros _ t4 d4 (ws & Hws & -> & Hr & _).
  set (row := UserRow tn role email hash UserStatusActive now) in *. simpl in Hr.
  assert (Hi4 : users d4 !! usr_ID user = None).
  { rewrite (frame_users _ _ _ (rely_frame _ _ _ _ Hr)); [done|]. right. left. }
  assert (Hn4 : no_email tn email d4) by (eapply rely_no_email; [|exact Hr|done]; left).
  unfold tx_app. apply commits_commit; [done|done| |].
  - unfold seen. simpl. rewrite apply_writes_cons. eapply step_trans.
    + apply (step_new_user _ (usr_ID user) row); [done|done|left].
    + destruct (audit_only ws (apply_write (WUser (usr_ID user) row) d4) Hws) as [Hu Ht]. by apply step_same.
  - exists salt, hash, now. split; [done|]. cbv zeta. fold row. unfold seen. cbn [tx_writes app].
    rewrite apply_writes_cons. destruct (audit_only ws (apply_write (WUser (usr_ID user) row) d4) Hws) as [-> ->]. done.
Qed.

(** A new refresh token, in a fresh transaction. *)
Definition fresh_token (u tn : uuid) (hash : string) (start : time) (id : uuid) (expires : time)
    (t : txst) (d : db) : Prop :=
  t = Txst [WRefreshToken id (RefreshTokenRow u tn hash TokenActive None start expires)]
        [LUnique T_refresh_tokens no_scope hash; LRow T_refresh_tokens id] start false /\
  refresh_tokens d !! id = None /\ no_hash hash d.

Lemma CreateRefreshToken_in_tx u tn hash ttl start d :
  in_tx (CreateRefreshToken OnTx u tn hash ttl) (tx_fresh start) d (fun rt t d' =>
    fresh_token u tn hash start (rtk_ID rt) (rtk_ExpiresAt rt) t d' /\ rely [] d d').
Proof.
  unfold CreateRefreshToken, time_Now. apply in_tx_ask. intros tk d1 _ Hr1.
  eapply (in_tx_ebind _ _ _ _ _ _ (fun p t d' => fresh_token u tn hash start p.1.1 p.2 t d' /\ rely [] d d')).
  - apply in_tx_wrap, in_tx_row; [done|]. intros others tk' r d' _ o Ho Hr. unfold o, q_create_refresh_token in *.
    destruct (guarded_ok _ _ _ Ho) as [Eo Hc]. rewrite Eo in Ho, Hr |- *. simpl in Ho. simplify_eq. simpl in *.
    split; [split; [done|]; split|].
    + rewrite (frame_refresh_tokens _ _ _ (rely_frame _ _ _ _ Hr)); [|right; left].
      eapply has_row_false, (Hc _ (UniqueViolation "refresh_tokens_pkey")). left.
    + eapply rely_no_hash; [|exact Hr|]; [left|]. intros i v Hv He.
      assert (Hnil : bool_decide (rows_where (fun p : uuid * refresh_token_row => rt_token_hash p.2 = hash)
        (refresh_tokens d1) = []) = true)
        by (eapply (Hc _ (UniqueViolation "refresh_tokens_token_hash_key")); right; left).
      apply bool_decide_eq_true in Hnil. unfold rows_where in Hnil.
      apply (not_elem_of_nil (i, v)). rewrite <- Hnil. apply list_elem_of_filter. split; [done|].
      by apply elem_of_map_to_list.
    + etransitivity; [exact Hr1|]. eapply rely_weaken; [|exact Hr]. apply list_subseteq_nil.
  - intros [[i created] expires] t d' [Hf Hr]. by apply in_tx_ret.
Qed.

Lemma generateRawToken_in_tx start d :
  in_tx generateRawToken (tx_fresh start) d (fun p t d' =>
    p.2 = hashToken p.1 /\ t = tx_fresh start /\ rely [] d d').
Proof.
  unfold generateRawToken. apply in_tx_ask. intros tk d' _ Hr.
  destruct (tk_rand tk); [by apply in_tx_ret|apply in_tx_err].
Qed.

Lemma generateAccessToken_in_tx user start d :
  in_tx (generateAccessToken s user) (tx_fresh start) d (fun _ t d' => t = tx_fresh start /\ rely [] d d').
Proof.
  unfold generateAccessToken, time_Now. apply in_tx_ask. intros tk d1 _ Hr1. cbv zeta.
  apply in_tx_ask. intros tk' d2 _ Hr2. destruct (jwt_SignedString _ _); [apply in_tx_err|].
  apply in_tx_ret. split; [done|]. by etransitivity.
Qed.

Lemma issueTokenPair_in_tx user start d :
  in_tx (issueTokenPair s OnTx user) (tx_fresh start) d (fun res t d' =>
    exists id, fresh_token (usr_ID user) (usr_TenantID user) (hashToken (res_RefreshToken res)) start id
      (res_RefreshExpiresAt res) t d').
Proof.
  unfold issueTokenPair. eapply in_tx_ebind; [apply generateAccessToken_in_tx|].
  intros [access expires] t1 d1 [-> _]. eapply in_tx_ebind; [apply generateRawToken_in_tx|].
  intros [raw hash] t2 d2 (Eh & -> & _). simpl in Eh. subst hash.
  eapply in_tx_ebind; [apply CreateRefreshToken_in_tx|]. intros rt t3 d3 [Hf _].
  apply in_tx_ret. by exists (rtk_ID rt).
Qed.

(** Storing a new token, with audit rows. *)
Lemma fresh_token_step u tn hash start id expires t d ws L :
  fresh_token u tn hash start id expires t d -> Forall is_audit ws ->
  LUnique T_refresh_tokens no_scope hash ∈ L ->
  auth_step L d (apply_writes (tx_writes t ++ ws) d) /\
  users (apply_writes (tx_writes t ++ ws) d) = users d /\
  refresh_tokens (apply_writes (tx_writes t ++ ws) d) =
    <[id := RefreshTokenRow u tn hash TokenActive None start expires]> (refresh_tokens d).
Proof.
  intros (-> & Hi & Hn) Hws HL. cbn [tx_writes app]. rewrite apply_writes_cons.
  set (w := WRefreshToken id _). destruct (audit_only ws (apply_write w d) Hws) as [Hu Ht].
  split; [|by rewrite Hu, Ht]. eapply step_trans; [|by apply step_same]. by apply step_new_token.
Qed.

Lemma fresh_token_stable u tn hash start id expires t d d' :
  fresh_token u tn hash start id expires t d -> rely (tx_locks t) d d' ->
  fresh_token u tn hash start id expires t d'.
Proof.
  intros (-> & Hi & Hn) Hr. simpl in Hr. split; [done|]. split.
  - rewrite (frame_refresh_tokens _ _ _ (rely_frame _ _ _ _ Hr)); [done|]. right. left.
  - eapply rely_no_hash; [|exact Hr|done]. left.
Qed.

(** What Login did when it reports success: it found an active user whose
    stored hash matches the password, and gave that user one new token. *)
Definition logged_in (tn : uuid) (email password : string) (res : AuthResult) (d d' : db) : Prop :=
  exists id u row start, us_tenant_id row = tn /\ sql_lower (us_email row) = sql_lower email /\
    us_status row <> UserStatusDisabled /\ bcrypt_Compare (us_password_hash row) password = true /\
    users d !! u = Some row /\ refresh_tokens d !! id = None /\ no_hash (hashToken (res_RefreshToken res)) d /\
    users d' = users d /\
    refresh_tokens d' = <[id := RefreshTokenRow u tn (hashToken (res_RefreshToken res)) TokenActive None start
                                  (res_RefreshExpiresAt res)]> (refresh_tokens d).

Lemma rely_user L d d' i u : rely L d d' -> users d !! i = Some u -> users d' !! i = Some u.
Proof. apply (rely_inv _ (fun d => users d !! i = Some u)). intros K d1 d2 Hs. apply (as_users _ _ _ Hs). Qed.

Lemma Login_wp tn email password log d :
  wp (Login s tn email password) None log d (fun r tx log' _ =>
    tx = None /\ tx_result tick_ok (logged_in tn email password) log r log').
Proof.
  unfold Login, GetUserByEmail, scanUser. cbn [sql_row bind]. apply wp_select_db; [intros; simpl; split; [done|by left]|].
  intros d1 Hr1. destruct (head _) as [[u row]|] eqn:Eh; cbv beta iota zeta; cbn [bind]; [|simpl; split; [done|by left]].
  assert (Hu : users d !! u = Some row /\ us_tenant_id row = tn /\ sql_lower (us_email row) = sql_lower email).
  { assert (Hin : (u, row) ∈ rows_where (fun p : uuid * user_row => us_tenant_id p.2 = tn /\
      sql_lower (us_email p.2) = sql_lower email) (users d)) by (destruct (rows_where _ _); simplify_eq/=; left).
    apply list_elem_of_filter in Hin as [[? ?] Hin]. by apply elem_of_map_to_list in Hin. }
  destruct Hu as (Hu & Htn & Hem). destruct (bcrypt_Compare _ _) eqn:Eb; cbn [negb]; [|simpl; split; [done|by left]].
  case_decide as Est; [simpl; split; [done|by left]|]. simpl in Eb, Est.
  apply wp_transaction. intros start d2 Hr2.
  eapply commits_ebind; [apply (in_tx_inv _ _ (fun d => users d !! u = Some row)); [| |apply issueTokenPair_in_tx]|].
  { intros K e1 e2 Hs. apply (as_users _ _ _ Hs). }
  { eapply rely_user; [exact Hr2|]. by eapply rely_user. }
  intros res t3 d3 [[id Hf] Hu3].
  eapply commits_ebind; [apply in_tx_wrap, auth_recordAudit_in_tx; by destruct Hf as [-> _]|].
  intros _ t4 d4 (ws & Hws & -> & Hr4 & _). pose proof (fresh_token_stable _ _ _ _ _ _ _ _ _ Hf Hr4) as Hf4.
  assert (Hu4 : users d4 !! u = Some row) by by eapply rely_user.
  assert (HL : LUnique T_refresh_tokens no_scope (hashToken (res_RefreshToken res)) ∈
    tx_locks t3 ++ (lock_of <$> ws)) by (destruct Hf as [-> _]; left).
  destruct (fresh_token_step _ _ _ _ _ _ _ _ ws _ Hf4 Hws HL) as (Hstep & Hus & Hts).
  unfold tx_app. apply commits_commit; [done|by destruct Hf as [-> _]; cbn; discriminate|exact Hstep|].
  destruct Hf4 as (_ & Hid & Hnh). exists id, u, row, start. simpl in Hts. rewrite Htn in Hts.
  split_and!; [done..|exact Hus|exact Hts].
Qed.

(** ** Refresh *)

(** An existing token stays, up to its status. *)
Definition has_token (old : uuid) (r : refresh_token_row) (d : db) : Prop :=
  exists r', refresh_tokens d !! old = Some r' /\ token_le r r'.

Lemma has_token_step K d1 d2 old r : auth_step K d1 d2 -> has_token old r d1 -> has_token old r d2.
Proof.
  intros Hs (r1 & Hr1 & Hle). apply (as_tokens _ _ _ Hs) in Hr1 as (r2 & Hr2 & Hle').
  exists r2. split; [done|]. by eapply token_le_trans.
Qed.

Lemma rely_has_token L d d' old r : rely L d d' -> has_token old r d -> has_token old r d'.
Proof. apply (rely_inv _ (has_token old r)). intros K d1 d2. apply has_token_step. Qed.

Definition rotated_row (id : uuid) : refresh_token_row -> refresh_token_row :=
  with_token_status TokenRotated (Some id).

(** A rotation: the token presented was active and not expired, and its user
    not disabled; it is stored as rotated, and replaced by one new token. *)
Definition rotated (raw newraw : string) (expires : time) (d d' : db) : Prop :=
  exists old r id u row start, refresh_tokens d !! old = Some r /\ rt_token_hash r = hashToken raw /\
    rt_status r = TokenActive /\ start < rt_expires_at r /\
    u = rt_user_id r /\ users d !! u = Some row /\ us_tenant_id row = rt_tenant_id r /\
    us_status row <> UserStatusDisabled /\
    refresh_tokens d !! id = None /\ no_hash (hashToken newraw) d /\ users d' = users d /\
    refresh_tokens d' = <[old := rotated_row id r]>
      (<[id := RefreshTokenRow u (rt_tenant_id r) (hashToken newraw) TokenActive None start expires]>
         (refresh_tokens d)).

Lemma q_rotate_ok old id others ev d n :
  oc_res (q_rotate old id others ev d) = inr n -> n <> 0 ->
  exists r, refresh_tokens d !! old = Some r /\ rt_status r = TokenActive /\ e_now ev < rt_expires_at r /\
    q_rotate old id others ev d = Outcome [] (inr 1) [WRefreshToken old (rotated_row id r)].
Proof.
  unfold q_rotate. destruct (refresh_tokens d !! old) as [r|]; [|by intros [= <-]].
  case_decide as Ha; [|by intros [= <-]]. intros Ho _. destruct (guarded_ok _ _ _ Ho) as [-> _].
  exists r. by destruct Ha.
Qed.

Lemma RotateRefreshToken_in_tx u tn hash start id expires old r t d :
  fresh_token u tn hash start id expires t d -> has_token old r d ->
  in_tx (RotateRefreshToken old id) t d (fun _ t' d' => exists ro, rely (tx_locks t) d d' /\
    t' = tx_add t (WRefreshToken old (rotated_row id ro)) /\
    refresh_tokens d' !! old = Some ro /\ rt_status ro = TokenActive /\ start < rt_expires_at ro).
Proof.
  intros (-> & Hi & Hn) (r1 & Hold & _). unfold RotateRefreshToken.
  set (w := WRefreshToken id _). set (t := Txst [w] _ _ _).
  eapply (in_tx_ebind _ _ _ _ _ _ (fun n t' d' => n <> 0 -> exists ro, rely (tx_locks t) d d' /\
    t' = tx_add t (WRefreshToken old (rotated_row id ro)) /\
    refresh_tokens d' !! old = Some ro /\ rt_status ro = TokenActive /\ start < rt_expires_at ro)).
  - apply in_tx_wrap, in_tx_exec; [done|]. intros others tk n d' _ o Ho Hr Hn0. unfold o in *.
    destruct (q_rotate_ok _ _ _ _ _ _ Ho Hn0) as (ro & Hro & Hact & Hexp & Eo). rewrite Eo in Hr |- *.
    exists ro. split; [by eapply rely_weaken; [|exact Hr]; apply list_subseteq_app_l|]. split; [done|].
    split; [|by split].
    rewrite (frame_refresh_tokens _ _ _ (rely_frame _ _ _ _ Hr)); [|apply elem_of_app; right; left].
    unfold seen in Hro. simpl in Hro. rewrite lookup_insert_ne in Hro; [done|congruence].
  - intros n t' d' Hok. case_decide as En; [apply in_tx_err|]. apply in_tx_ret. by apply Hok.
Qed.

(** A rotated or revoked token was presented: every active session of its user
    is revoked, and nothing else changes. *)
Definition reuse_detected (raw : string) (d d' : db) : Prop :=
  exists old r, refresh_tokens d !! old = Some r /\ rt_token_hash r = hashToken raw /\
    rt_status r <> TokenActive /\ users d' = users d /\
    forall i, refresh_tokens d' !! i =
      revoke_if (fun p => rt_user_id p.2 = rt_user_id r) i <$> refresh_tokens d !! i.

(** What a finished Refresh did. *)
Definition refresh_result (raw : string) (r : goerr + AuthResult) (log : list (db * db)) : Prop :=
  match r with
  | inr res => exists d1 d2, log = [(d1, d2)] /\
      rotated raw (res_RefreshToken res) (res_RefreshExpiresAt res) d1 d2
  | inl _ => log = [] \/ exists d1 d2, log = [(d1, d2)] /\
      (reuse_detected raw d1 d2 \/ exists newraw expires, rotated raw newraw expires d1 d2)
  end.

Lemma find_token d raw old r :
  head (rows_where (fun p : uuid * refresh_token_row => rt_token_hash p.2 = hashToken raw) (refresh_tokens d))
    = Some (old, r) -> refresh_tokens d !! old = Some r /\ rt_token_hash r = hashToken raw.
Proof.
  intros E. assert (Hin : (old, r) ∈ rows_where (fun p : uuid * refresh_token_row =>
    rt_token_hash p.2 = hashToken raw) (refresh_tokens d)) by (destruct (rows_where _ _); simplify_eq/=; left).
  apply list_elem_of_filter in Hin as [? Hin]. by apply elem_of_map_to_list in Hin.
Qed.

Lemma token_le_inactive r r' : token_le r r' -> rt_status r <> TokenActive -> r' = r.
Proof. by intros [->|(Ha & _)]. Qed.

(** The revocation of reuse detection, from the moment the token was read. *)
Lemma reuse_wp raw old r d :
  refresh_tokens d !! old = Some r -> rt_token_hash r = hashToken raw -> rt_status r <> TokenActive ->
  wp (let? _ := wrap_err "auth: revoke sessions after detected reuse: "
                  (RevokeAllUserRefreshTokens OnDb (rt_user_id r)) in
      Ret (inl ErrRefreshTokenInvalid))%go None [] d
    (fun x tx log _ => tx = None /\ refresh_result raw x log).
Proof.
  intros Hr Hh Hst. unfold RevokeAllUserRefreshTokens. cbn [ebind wrap_err sql_exec bind].
  apply wp_exec_db; [intros; cbn; split; [done|by left]|]. intros others tk _. cbv zeta.
  unfold effect_of, q_revoke_all. cbn [oc_res oc_writes oc_locks].
  set (P := fun p : uuid * refresh_token_row => rt_user_id p.2 = rt_user_id r).
  destruct (revoke_where_revokes P d) as [Hnd Hrev].
  assert (Hre : reuse_detected raw d (apply_writes (revoke_where P d) d)).
  { exists old, r. split; [done|]. split; [done|]. split; [done|]. split; [apply users_revoke_where|].
    intros i. apply lookup_revoke_where. }
  unfold mk_eff, needed. cbn [oc_locks oc_writes]. destruct (revoke_where P d) as [|w ws] eqn:Ew.
  - split; [done|]. intros x d' [->| ->] _; cbn; (split; [done|by left]).
  - split; [by apply step_revoke|].
    intros x d' [->| ->] _; cbn -[apply_writes]; (split; [done|right]); eexists _, _; (split; [done|by left]).
Qed.

(** What the transaction of a Refresh has stored when it commits. *)
Lemma rotated_writes raw newraw u tn start id expires old ro row t ws d :
  fresh_token u tn (hashToken newraw) start id expires t d -> Forall is_audit ws ->
  refresh_tokens d !! old = Some ro -> rt_status ro = TokenActive -> start < rt_expires_at ro ->
  rt_token_hash ro = hashToken raw -> rt_user_id ro = u -> rt_tenant_id ro = tn ->
  users d !! u = Some row -> us_tenant_id row = tn -> us_status row <> UserStatusDisabled ->
  let t' := tx_app (tx_add t (WRefreshToken old (rotated_row id ro))) ws in
  auth_step (tx_locks t') d (seen t' d) /\ rotated raw newraw expires d (seen t' d).
Proof.
  intros Hf Hws Hro Hact Hexp Hh Hu Ht Hrow Hrt Hst. pose proof Hf as (Et & Hi & Hn). subst t. cbv zeta.
  set (new := RefreshTokenRow u tn (hashToken newraw) TokenActive None start expires).
  assert (Hne : old <> id) by congruence.
  unfold seen, tx_app, tx_add. cbn [tx_writes tx_locks app]. rewrite !apply_writes_cons. fold new.
  destruct (audit_only ws (apply_write (WRefreshToken old (rotated_row id ro))
    (apply_write (WRefreshToken id new) d)) Hws) as [Eu Et]. split.
  - eapply step_trans; [apply (step_new_token _ id new d); [done|done|left]|].
    eapply step_trans; [|by apply step_same]. apply (step_end_token _ old ro).
    + simpl. by rewrite lookup_insert_ne.
    + right. split; [done|]. by exists TokenRotated, (Some id).
  - exists old, ro, id, u, row, start. rewrite Eu, Et, Ht. simpl. fold new. by split_and!.
Qed.

Lemma refresh_body_wp raw old r u row d log :
  has_token old r d -> rt_token_hash r = hashToken raw -> users d !! u = Some row ->
  u = rt_user_id r -> us_tenant_id row = rt_tenant_id r -> us_status row <> UserStatusDisabled -> log = [] ->
  let user := scan_user (u, row) in
  wp (let? _ := wrap_err "auth: begin tx: " sql_begin in
      defer_rollback (
        let? (newRawToken, newTokenHash) := generateRawToken in
        let? newRecord := CreateRefreshToken OnTx (usr_ID user) (usr_TenantID user) newTokenHash
                            (svc_refreshTokenTTL s) in
        let? _ := RotateRefreshToken old (rtk_ID newRecord) in
        let? _ := wrap_err "auth: record audit: "
          (recordAudit s (usr_TenantID user) (uuid_String (usr_ID user)) AuditTokenRefreshed
             (user_payload (usr_ID user))) in
        let? _ := wrap_err "auth: commit refresh: " sql_commit in
        let? (accessToken, accessExpiresAt) := generateAccessToken s user in
        Ret (inr {| res_AccessToken := accessToken; res_RefreshToken := newRawToken;
                    res_AccessExpiresAt := accessExpiresAt;
                    res_RefreshExpiresAt := rtk_ExpiresAt newRecord |})))%go None log d
    (fun x tx log _ => tx = None /\ refresh_result raw x log).
Proof.
  intros Hold Hh Hu -> Htn Hst -> user.
  apply wp_ebind, wp_wrap_err. intros tk b tx' _ Hb d1 Hr1. unfold begin_step in Hb.
  destruct (tk_fault tk); injection Hb as <- <-; [|split; [done|by left]..]. cbv beta iota.
  apply wp_defer_rollback, wp_ebind.
  refine (generateRawToken_in_tx _ _ _ _ _ _); [intros ??? ??; by split; [|left]|].
  intros [newraw hash] t2 d2 (Eh & -> & Hr2). simpl in Eh. subst hash. apply wp_ebind.
  refine (CreateRefreshToken_in_tx _ _ _ _ _ _ _ _ _ _); [intros ??? ??; by split; [|left]|].
  intros rec t3 d3 [Hf Hr3]. apply wp_ebind.
  assert (Hold3 : has_token old r d3) by (do 3 (eapply rely_has_token; [eassumption|]); done).
  assert (Hu3 : users d3 !! rt_user_id r = Some row) by (do 3 (eapply rely_user; [eassumption|]); done).
  refine (RotateRefreshToken_in_tx _ _ _ _ _ _ _ _ _ _ Hf Hold3 _ _ _ _); [intros ??? ??; by split; [|left]|].
  intros _ t4 d4 (ro & Hr4 & -> & Hro & Hact & Hexp). apply wp_ebind, wp_wrap_err.
  pose proof (fresh_token_stable _ _ _ _ _ _ _ _ _ Hf Hr4) as Hf4.
  refine (auth_recordAudit_in_tx _ _ _ _ _ _ _ _ _ _ _); [done|intros ??? ??; by split; [|left]|].
  intros _ t5 d5 (ws & Hws & -> & Hr5 & _). apply wp_ebind, wp_wrap_err.
  assert (Hr5' : rely (tx_locks t3) d4 d5) by (eapply rely_weaken; [|exact Hr5]; by apply list_subseteq_app_l).
  pose proof (fresh_token_stable _ _ _ _ _ _ _ _ _ Hf4 Hr5') as Hf5.
  assert (Hro5 : refresh_tokens d5 !! old = Some ro).
  { rewrite (frame_refresh_tokens _ _ _ (rely_frame _ _ _ _ Hr5)); [done|]. apply elem_of_app. right. left. }
  assert (Hle : token_le r ro).
  { destruct (rely_has_token _ _ _ _ _ Hr4 Hold3) as (r' & Hr' & Hle). congruence. }
  assert (Hfields : rt_token_hash ro = hashToken raw /\ rt_user_id ro = rt_user_id r /\ rt_tenant_id ro = us_tenant_id row)
    by (rewrite Htn; destruct Hle as [->|(_ & ? & ? & _ & ->)]; by split_and!).
  destruct Hfields as (Hh' & Hu' & Ht').
  assert (Hu5 : users d5 !! rt_user_id r = Some row) by (do 2 (eapply rely_user; [eassumption|]); done).
  destruct (rotated_writes raw newraw _ _ _ _ _ old ro row t3 ws d5 Hf5 Hws Hro5 Hact Hexp Hh' Hu' Ht' Hu5 eq_refl Hst)
    as [Hstep Hrot]. fold user in Hstep, Hrot.
  assert (Hlate : forall d, refresh_result raw (@inl goerr AuthResult d) [(d5, seen (tx_app (tx_add t3 (WRefreshToken old (rotated_row (rtk_ID rec) ro))) ws) d5)])
    by (intros e; right; eexists _, _; split; [done|right; by eexists _, _]).
  apply wp_sql_commit; [done|by destruct Hf as [-> _]; cbn; discriminate| | | |].
  - intros e tx d' d'' _. by split; [|left].
  - exact Hstep.
  - intros _ e tx d' d'' _. split; [done|]. exact (Hlate ErrNoRows).
  - intros d' _. cbn [app]. unfold generateAccessToken, time_Now. cbn [ask bind ebind].
    intros tk1 d6 _ _ tk2 d7 _ _. cbv zeta. destruct (jwt_SignedString _ _); cbn; intros d8 _; (split; [done|]).
    + exact (Hlate ErrNoRows).
    + eexists _, _. split; [done|]. exact Hrot.
Qed.

Lemma Refresh_wp raw d :
  wp (Refresh s raw) None [] d (fun x tx log _ => tx = None /\ refresh_result raw x log).
Proof.
  unfold Refresh, GetRefreshTokenByHash. cbv zeta. unfold ebind at 1. cbn [sql_row bind].
  apply wp_select_db; [intros; simpl; split; [done|by left]|].
  intros d1 Hr1. destruct (head _) as [[old r]|] eqn:Eh; cbv beta iota zeta; cbn [bind]; [|simpl; split; [done|by left]].
  apply find_token in Eh as [Hr Hh].
  assert (Hold : has_token old r d1) by (eapply rely_has_token; [exact Hr1|]; exists r; by split; [|left]).
  cbn [scan_token rtk_Status rtk_UserID rtk_ExpiresAt rtk_TenantID rtk_ID].
  case_decide as Est.
  - destruct Hold as (r1 & Hr1' & Hle). apply token_le_inactive in Hle; [|by destruct Est as [-> | ->]].
    subst r1. apply (reuse_wp raw old r); [done|done|by destruct Est as [-> | ->]].
  - unfold time_Now. cbn [ask bind]. intros tk d2 _ Hr2.
    case_match; [simpl; split; [done|by left]|].
    unfold GetUserByID, scanUser. unfold ebind at 1. cbn [sql_row bind].
    apply wp_select_db; [intros; simpl; split; [done|by left]|]. intros d3 Hr3.
    destruct (users d2 !! rt_user_id r) as [row|] eqn:Eu; cbv beta iota zeta; cbn [bind];
      [|simpl; split; [done|by left]].
    destruct (decide (us_tenant_id row = rt_tenant_id r)) as [Ht|]; cbv beta iota zeta; cbn [bind];
      [|simpl; split; [done|by left]].
    cbn [scan_user usr_Status]. case_decide as Est'; [simpl; split; [done|by left]|].
    apply (refresh_body_wp raw old r (rt_user_id r) row); try done.
    + do 2 (eapply rely_has_token; [eassumption|]). done.
    + by eapply rely_user.
Qed.

(** The revocation of a single token. *)
Definition is_token (old : uuid) (p : uuid * refresh_token_row) : Prop := p.1 = old.

#[local] Instance is_token_dec old p : Decision (is_token old p) := decide (p.1 = old).

(** What a finished Logout did: the token is revoked if it was active. *)
Definition logged_out (raw : string) (_ : unit) (d d' : db) : Prop :=
  exists old r, refresh_tokens d !! old = Some r /\ rt_token_hash r = hashToken raw /\ users d' = users d /\
    forall i, refresh_tokens d' !! i = revoke_if (is_token old) i <$> refresh_tokens d !! i.

Lemma revoke_one old r d :
  refresh_tokens d !! old = Some r ->
  revoke_where (is_token old) d =
    if decide (rt_status r = TokenActive)
    then [WRefreshToken old (with_token_status TokenRevoked (rt_replaced_by r) r)] else [].
Proof.
  intros Hr. unfold revoke_where, rows_where. set (rows := filter _ _).
  assert (Hin : forall p, p ∈ rows <-> p = (old, r) /\ rt_status r = TokenActive).
  { intros [i r']. unfold rows, is_token. rewrite list_elem_of_filter, elem_of_map_to_list. simpl.
    split; [intros [[-> Ha] Hi]|intros [[= -> ->] Ha]]; [|done].
    assert (r' = r) as -> by congruence. done. }
  assert (Hnd : NoDup rows) by apply NoDup_filter, NoDup_map_to_list.
  destruct rows as [|p [|q l]].
  - rewrite decide_False; [done|]. intros Ha. apply (not_elem_of_nil (old, r)). by apply Hin.
  - destruct (proj1 (Hin p) (list_elem_of_here _ _)) as [-> Ha]. by rewrite decide_True.
  - destruct (proj1 (Hin p) (list_elem_of_here _ _)) as [-> _].
    destruct (proj1 (Hin q)) as [-> _]; [right; left|].
    apply NoDup_cons in Hnd as [Hn _]. destruct Hn. left.
Qed.

(** The revocation is pending in the transaction [t]. *)
Definition revoking (old : uuid) (start : time) (t : txst) (d : db) : Prop :=
  exists r, refresh_tokens d !! old = Some r /\
    t = Txst (revoke_where (is_token old) d) (lock_of <$> revoke_where (is_token old) d) start false.

Lemma revoking_stable old start t d d' : revoking old start t d -> rely (tx_locks t) d d' -> revoking old start t d'.
Proof.
  intros (r & Hr & ->) Hrel. cbn [tx_locks] in Hrel. rewrite (revoke_one _ _ _ Hr) in Hrel |- *.
  assert (Hr' : refresh_tokens d' !! old = Some r).
  { case_decide as Ha.
    - rewrite (frame_refresh_tokens _ _ _ (rely_frame _ _ _ _ Hrel)); [done|left].
    - destruct (rely_has_token _ _ _ old r Hrel) as (r' & Hr' & Hle); [exists r; by split; [|left]|].
      by rewrite (token_le_inactive _ _ Hle Ha) in Hr'. }
  exists r. split; [done|]. by rewrite (revoke_one _ _ _ Hr').
Qed.

Lemma RevokeRefreshToken_in_tx old r start d :
  has_token old r d ->
  in_tx (RevokeRefreshToken OnTx old) (tx_fresh start) d (fun _ t d' => revoking old start t d').
Proof.
  intros (r1 & Hr1 & _). unfold RevokeRefreshToken. apply in_tx_wrap, in_tx_exec; [done|].
  intros others tk x d' _ o _ Hr.
  apply (revoking_stable old start _ d); [|exact Hr]. exists r1. split; [done|]. done.
Qed.

Lemma Logout_wp raw d :
  svc_audit s <> None ->
  wp (Logout s raw) None [] d (fun x tx log _ => tx = None /\ tx_result tick_ok (logged_out raw) [] x log).
Proof.
  intros Hs. unfold Logout, GetRefreshTokenByHash. unfold ebind at 1. cbn [sql_row bind].
  apply wp_select_db; [intros; simpl; split; [done|by left]|].
  intros d1 Hr1. destruct (head _) as [[old r]|] eqn:Eh; cbv beta iota zeta; cbn [bind]; [|simpl; split; [done|by left]].
  apply find_token in Eh as [Hr Hh]. cbn [scan_token rtk_ID rtk_TenantID rtk_UserID].
  assert (Hold : has_token old r d1) by (eapply rely_has_token; [exact Hr1|]; exists r; by split; [|left]).
  apply wp_transaction. intros start d2 Hr2.
  eapply commits_ebind; [apply (in_tx_inv _ _ (has_token old r)); [intros K e1 e2; apply has_token_step| |
    eapply RevokeRefreshToken_in_tx]; by eapply rely_has_token|].
  intros _ t3 d3 [Hrev Hold3].
  eapply commits_ebind; [apply in_tx_wrap, auth_recordAudit_in_tx; by destruct Hrev as (? & _ & ->)|].
  intros _ t4 d4 (ws & Hws & -> & Hr4 & Hne).
  pose proof (revoking_stable _ _ _ _ _ Hrev Hr4) as (r4 & Hr4' & ->).
  destruct (rely_has_token _ _ _ _ _ Hr4 Hold3) as (r' & Hr' & Hle). assert (r' = r4) as -> by congruence.
  destruct (audit_only ws (apply_writes (revoke_where (is_token old) d4) d4) Hws) as [Eu Et].
  unfold tx_app. apply commits_commit; [done|cbn; intros [_ ?]%app_eq_nil; by apply Hne| |].
  - unfold seen. cbn [tx_writes]. rewrite apply_writes_app. eapply step_trans; [|by apply step_same].
    apply step_revoke; apply revoke_where_revokes.
  - exists old, r4. split; [done|]. split; [by rewrite (token_le_hash _ _ Hle)|]. unfold seen. cbn [tx_writes].
    rewrite apply_writes_app, Eu. split; [apply users_revoke_where|]. intros i. rewrite Et. apply lookup_revoke_where.
Qed.
End programs.
