(* ===== verification/Statements.v ===== *)
(** * The statements of the program

    A catalogue of every SQL statement the code issues, and the proof that every
    request, the script and the webhook worker issue no other: [ledger_stmt] for
    the ledger's operations, [request_stmt] for whole requests and the script,
    [program_stmt] with the worker's. What holds of each statement of a catalogue
    holds of every statement a program sends (Writes.v, Schema.v). *)

From S2P Require Import Prelude GoBase Db Prog ProgFacts Interfaces Queue AuditLog Ledger.
From S2P Require Auth Http Webhook Idempotency Tenants AuthMw Handlers Router Worker.
Local Open Scope go_scope.

(** ** The catalogue *)

Section catalogue.
Context `{UuidLib, PgTime, SqlLower}.

(** Queries, and the statements of internal/ledger with those of the enqueuer
    and of the recorder it is given. *)
Inductive ledger_stmt : forall R, stmt R -> Prop :=
  | SelectStmt R (f : db -> R) : ledger_stmt R (select f)
  | CreateAccountStmt tn n : ledger_stmt _ (q_create_account tn n)
  | InsertTransactionStmt tn st : ledger_stmt _ (q_insert_transaction tn st)
  | InsertEntryStmt tn t a n : ledger_stmt _ (q_insert_entry tn t a n)
  | LockAccountsStmt ids tn : ledger_stmt _ (q_lock_accounts ids tn)
  | UpdateStatusStmt tn id st : ledger_stmt _ (q_update_status tn id StatusPending st)
  | EnqueueStmt tn et pl : ledger_stmt _ (q_enqueue tn et pl)
  | RecordAuditStmt tn actor action pl : ledger_stmt _ (q_record_audit tn actor action pl).

(** Those of internal/auth, of the idempotency middleware, of internal/tenants
    and of scripts/create_tenant as well. *)
Inductive request_stmt : forall R, stmt R -> Prop :=
  | LedgerStmt R (q : stmt R) : ledger_stmt R q -> request_stmt R q
  | CreateUserStmt tn ro em pw : request_stmt _ (Auth.q_create_user tn ro em pw)
  | CreateRefreshTokenStmt u tn h e : request_stmt _ (Auth.q_create_refresh_token u tn h e)
  | RotateStmt i j : request_stmt _ (Auth.q_rotate i j)
  | RevokeStmt i : request_stmt _ (Auth.q_revoke i)
  | RevokeAllStmt u : request_stmt _ (Auth.q_revoke_all u)
  | ClaimStmt tn k h now e : request_stmt _ (Idempotency.q_claim tn k h now e)
  | CompleteStmt tn k c b e t : request_stmt _ (Idempotency.q_complete tn k c b e t)
  | CreateTenantStmt n h : request_stmt _ (Tenants.q_create_tenant n h).

(** And those of the webhook worker. *)
Inductive program_stmt : forall R, stmt R -> Prop :=
  | RequestStmt R (q : stmt R) : request_stmt R q -> program_stmt R q
  | ClaimPendingStmt n : program_stmt _ (q_claim_pending n)
  | MarkDeliveredStmt i : program_stmt _ (q_mark_delivered i)
  | ScheduleRetryStmt i n t e : program_stmt _ (q_schedule_retry i n t e)
  | InsertDeadLetterStmt j e : program_stmt _ (q_insert_dead_letter j e)
  | MarkFailedStmt i e : program_stmt _ (q_mark_failed i e).
End catalogue.

Create HintDb statements.
#[export] Hint Constructors request_stmt program_stmt : statements.
#[export] Hint Resolve CreateAccountStmt InsertTransactionStmt InsertEntryStmt LockAccountsStmt UpdateStatusStmt
  EnqueueStmt RecordAuditStmt : statements.
#[export] Hint Extern 1 (ledger_stmt _ _) => apply SelectStmt : statements.

(** Follows the structure of a program. *)
Ltac issues_tac :=
  repeat match goal with
    | |- issues _ (ebind _ _) => apply issues_bind; [|intros [?|?]]
    | |- issues _ (bind _ _) => apply issues_bind; [|intros ?]
    | |- issues _ (wrap_err _ _) => apply issues_bind; [|intros ?]
    | |- issues _ (defer_rollback _) => apply issues_bind; [|intros ?]
    | |- issues _ (sql_exec _ _) => split; [|intros; exact I]
    | |- issues _ (sql_row _ _) => split; [|intros; exact I]
    | |- issues _ (let '(_, _) := ?x in _) => destruct x
    | |- issues _ (match ?x with _ => _ end) => destruct x
    | |- _ => by auto with statements
    | |- issues _ _ => simpl; intros; exact I
    end.

(** ** The ledger *)

Section ledger.
Context `{UuidLib}.
Local Abbreviation sends := (issues ledger_stmt).

Lemma EnqueueEvent_sends tn et pl : sends (EnqueueEvent Webhook.Enqueuer tn et pl).
Proof. unfold Webhook.Enqueuer, EnqueueEvent, Webhook.repo_EnqueueEvent, Webhook.repo_Enqueue, Enqueue. issues_tac. Qed.

Lemma RecordAudit_sends tn actor action pl : sends (RecordAudit Recorder tn actor action pl).
Proof. unfold Recorder, RecordAudit, repo_RecordAudit. issues_tac. Qed.

Hint Resolve EnqueueEvent_sends RecordAudit_sends : statements.

Lemma emitEvent_sends tn et txn : sends (emitEvent Router.ledgerSvc tn et txn).
Proof. apply issues_bind; [apply EnqueueEvent_sends|done]. Qed.

Lemma recordAudit_sends tn actor action pl : sends (recordAudit Router.ledgerSvc tn actor action pl).
Proof. apply RecordAudit_sends. Qed.

Lemma insert_entries_sends tn t es : sends (insert_entries tn t es).
Proof. induction es as [|e es IH]; [done|]. cbn [insert_entries]. issues_tac. Qed.

Hint Resolve emitEvent_sends recordAudit_sends insert_entries_sends : statements.

Lemma InsertTransactionWithEntries_sends tn st es : sends (InsertTransactionWithEntries tn st es).
Proof. unfold InsertTransactionWithEntries. issues_tac. Qed.

Lemma LockAccountsForUpdate_sends tn ids : sends (LockAccountsForUpdate tn ids).
Proof. unfold LockAccountsForUpdate. destruct ids; [done|]. cbv zeta. issues_tac. Qed.

Lemma repo_GetTransaction_sends c tn id : sends (repo_GetTransaction c tn id).
Proof. unfold repo_GetTransaction. issues_tac. Qed.

Lemma UpdateTransactionStatusGuarded_sends tn id n : sends (UpdateTransactionStatusGuarded tn id StatusPending n).
Proof. unfold UpdateTransactionStatusGuarded. cbv zeta. issues_tac. Qed.

Lemma repo_CreateAccount_sends tn n : sends (repo_CreateAccount tn n).
Proof. unfold repo_CreateAccount. issues_tac. Qed.

Hint Resolve InsertTransactionWithEntries_sends LockAccountsForUpdate_sends repo_GetTransaction_sends
  UpdateTransactionStatusGuarded_sends repo_CreateAccount_sends : statements.

Lemma ExecuteTransfer_sends req : sends (ExecuteTransfer Router.ledgerSvc req).
Proof. unfold ExecuteTransfer. cbv zeta. issues_tac. Qed.

Lemma CreatePendingTransaction_sends req : sends (CreatePendingTransaction Router.ledgerSvc req).
Proof. unfold CreatePendingTransaction. issues_tac. Qed.

Lemma PostPendingTransaction_sends tn id an : sends (PostPendingTransaction Router.ledgerSvc tn id an).
Proof. unfold PostPendingTransaction. cbv zeta. issues_tac. Qed.

Lemma FailPendingTransaction_sends tn id an : sends (FailPendingTransaction Router.ledgerSvc tn id an).
Proof. unfold FailPendingTransaction. cbv zeta. issues_tac. Qed.

Lemma CreateAccount_sends tn n an : sends (CreateAccount Router.ledgerSvc tn n an).
Proof. unfold CreateAccount. issues_tac. Qed.
End ledger.

#[export] Hint Resolve ExecuteTransfer_sends CreatePendingTransaction_sends PostPendingTransaction_sends
  FailPendingTransaction_sends CreateAccount_sends : statements.

(** ** Authentication *)

Ltac unfold_auth :=
  unfold Auth.Register, Auth.Login, Auth.Refresh, Auth.Logout, Auth.issueTokenPair, Auth.recordAudit,
    Auth.generateRawToken, Auth.generateAccessToken, Auth.CreateUser, Auth.CreateRefreshToken,
    Auth.GetUserByEmail, Auth.GetUserByID, Auth.GetRefreshTokenByHash, Auth.scanUser,
    Auth.RevokeRefreshToken, Auth.RevokeAllUserRefreshTokens, Auth.RotateRefreshToken,
    Auth.GetRoleByName, Auth.GetUserPermissions, Auth.repo_GetUserPermissions, Auth.ValidateAccessToken;
  simpl Auth.svc_audit; unfold RecordAudit, Recorder, repo_RecordAudit.

Section ops.
Context `{UuidLib, DriverText, Crypto, PgTime, SqlLower, Auth.Bcrypt, Auth.Jwt}.
Local Abbreviation sends := (issues request_stmt).
Context (k : string).
Local Abbreviation authSvc := (Router.authSvc k).

Lemma Register_sends tn ro e pw : sends (Auth.Register authSvc tn ro e pw).
Proof. unfold_auth. issues_tac. Qed.

Lemma Login_sends tn e pw : sends (Auth.Login authSvc tn e pw).
Proof. unfold_auth. issues_tac. Qed.

Lemma Refresh_sends raw : sends (Auth.Refresh authSvc raw).
Proof. unfold_auth. issues_tac. Qed.

Lemma Logout_sends raw : sends (Auth.Logout authSvc raw).
Proof. unfold_auth. issues_tac. Qed.
End ops.

#[export] Hint Resolve Register_sends Login_sends Refresh_sends Logout_sends : statements.

(** ** Handlers, middlewares, the router *)

Ltac unfold_handler :=
  unfold Handlers.create_transaction_handler, Handlers.resolve_handler, Handlers.with_tenant,
    Handlers.with_body, Handlers.with_id, Handlers.writeAuthResult, Handlers.respond,
    Handlers.writeTransferError, Handlers.writeAuthError, Http.done_with, Http.http_Error.

Section router.
Context `{UuidLib, DriverText, Crypto, PgTime, SqlLower, Auth.Bcrypt, Auth.Jwt,
          Handlers.Decoder, Handlers.Encoder, Router.Chi}.
Local Abbreviation sends := (issues request_stmt).
Local Abbreviation sending h := (forall r, sends (h r)).

(** The handlers behind the idempotency middleware. *)
Definition mutating_handlers : list Http.Handler :=
  [ Handlers.createAccountHandler Router.ledgerSvc; Handlers.transferHandler Router.ledgerSvc;
    Handlers.createPendingTransactionHandler Router.ledgerSvc;
    Handlers.postPendingTransactionHandler Router.ledgerSvc;
    Handlers.failPendingTransactionHandler Router.ledgerSvc ].

Lemma mutating_sends h r : h ∈ mutating_handlers -> issues ledger_stmt (h r).
Proof.
  unfold mutating_handlers. rewrite !elem_of_cons.
  intros [->|[->|[->|[->|[->|Hn]]]]]; [..|by apply not_elem_of_nil in Hn];
    unfold Handlers.createAccountHandler, Handlers.transferHandler, Handlers.createPendingTransactionHandler,
      Handlers.postPendingTransactionHandler, Handlers.failPendingTransactionHandler; unfold_handler; issues_tac.
Qed.

Lemma other_handlers_send k :
  Forall (fun h => sending h) [Router.healthHandler; Handlers.registerHandler (Router.authSvc k);
    Handlers.loginHandler (Router.authSvc k); Handlers.refreshHandler (Router.authSvc k);
    Handlers.logoutHandler (Router.authSvc k); Handlers.getAccountHandler; Handlers.getTransactionHandler;
    Handlers.auditLogHandler].
Proof.
  repeat apply Forall_cons_2; [..|apply Forall_nil_2]; intros r;
    unfold Router.healthHandler, Handlers.registerHandler, Handlers.loginHandler, Handlers.refreshHandler,
      Handlers.logoutHandler, Handlers.getAccountHandler, Handlers.getTransactionHandler, Handlers.auditLogHandler;
    cbv zeta; unfold_handler; unfold_auth; unfold GetAccount, repo_GetAccount, GetTransaction, repo_GetTransaction, List;
    issues_tac.
Qed.

Lemma tenant_gate_sends h : sending h -> sending (Tenants.requireTenantAPIKey h).
Proof. intros Hh r. unfold Tenants.requireTenantAPIKey, Tenants.VerifyAPIKey. unfold_handler. issues_tac. Qed.

Lemma authorized_sends k perm h : sending h -> sending (Router.authorized k perm h).
Proof.
  intros Hh r. unfold Router.authorized, AuthMw.Middleware, AuthMw.RequirePermission. unfold_handler.
  unfold_auth. issues_tac.
Qed.

Lemma complete_attempts_sends f n tn key c b ttl t : sends (Idempotency.complete_attempts f n tn key c b ttl t).
Proof.
  revert n. induction f as [|f IH]; intros n; [done|]. cbn [Idempotency.complete_attempts].
  unfold Idempotency.Complete. issues_tac.
Qed.

Hint Resolve complete_attempts_sends : statements.

Lemma idempotent_sends ttl opts h : sending h -> sending (Idempotency.Middleware ttl opts h).
Proof.
  intros Hh r. unfold Idempotency.Middleware, Idempotency.ClaimOrGet, Idempotency.Get,
    Idempotency.completeWithRetry. cbv zeta. unfold_handler. issues_tac.
Qed.

Lemma dispatch_sends k : sending (Router.dispatch k).
Proof.
  intros r. unfold Router.dispatch. destruct (find _ _) as [[p h]|] eqn:E;
    [|destruct (Router.unrouted r); exact I].
  apply find_some in E as [Hin _]. apply list_elem_of_In in Hin. revert r.
  pose proof (other_handlers_send k) as Hr. rewrite !Forall_cons in Hr. destruct_and?.
  assert (Hm : Forall (fun h => sending h) mutating_handlers)
    by (apply Forall_forall; intros h' Hh r; eapply issues_mono; [apply LedgerStmt|by apply mutating_sends]).
  unfold mutating_handlers in Hm. rewrite !Forall_cons in Hm. destruct_and?.
  unfold Router.routes, Router.mutating in Hin. rewrite !elem_of_cons in Hin.
  repeat (destruct Hin as [Hin|Hin]; [injection Hin as _ ->;
    auto using tenant_gate_sends, authorized_sends, idempotent_sends; fail|]).
  all: try by apply not_elem_of_nil in Hin.
Qed.

(** Every request the process serves. *)
Lemma app_sends k abort : sending (Router.app k abort).
Proof.
  pose proof (dispatch_sends k) as Hd. intros r.
  unfold Router.app, Http.logging_Middleware, Http.metrics_Middleware, Http.recovery_Middleware. cbv zeta. issues_tac.
Qed.

Lemma create_tenant_sends n : sends (Tenants.create_tenant n).
Proof. unfold Tenants.create_tenant, Tenants.generateAPIKey. issues_tac. Qed.
End router.

(** ** The webhook worker *)

Section worker.
Context `{UuidLib, DriverText, Crypto, PgTime, SqlLower, JsonText, Webhook.FloatConv, Webhook.HttpLib}.
Local Abbreviation sends := (issues program_stmt).

Lemma processBatch_sends n : sends (Webhook.processBatch n).
Proof. unfold Webhook.processBatch, Webhook.ClaimPendingEvents, ClaimPending, sql_begin, sql_commit. issues_tac. Qed.

Lemma ProcessEvent_sends s ev : sends (Webhook.ProcessEvent s ev).
Proof.
  unfold Webhook.ProcessEvent, Webhook.deliver, Webhook.GetTenantWebhookConfig, Webhook.log_failure, Webhook.dead_letter,
    Webhook.repo_MarkDelivered, MarkDelivered, Webhook.repo_ScheduleRetry, ScheduleRetry, Webhook.repo_MoveToDeadLetter,
    MoveToDeadLetter. cbv zeta. issues_tac.
Qed.
End worker.
