(* ===== verification/HandlerFacts.v ===== *)
(** * How handlers answer

    Whatever the database does, every handler answers in an orderly way (one
    status, before the body), so that what the recorders of the middlewares note
    is what the client gets. *)

From S2P Require Import Prelude GoBase Db Prog ProgFacts Ledger Statements.
From S2P Require Auth Http Webhook Idempotency Tenants AuthMw Handlers Router.
Local Open Scope go_scope.

(** ** Answers *)

Definition is_status (c : Http.wcall) : Prop :=
  match c with Http.WriteHeader _ => True | _ => False end.

(** One status at most, and before the body. *)
Fixpoint orderly (calls : list Http.wcall) : Prop :=
  match calls with
  | [] => True
  | Http.SetHeader _ _ :: cs => orderly cs
  | _ :: cs => Forall (fun c => ~ is_status c) cs
  end.

Definition answers (s : Http.served) : Prop :=
  Http.sv_ending s = Http.Finished /\ orderly (Http.sv_calls s).

Lemma record_body_only (r : Http.recorder) cs :
  Http.rec_wroteHead r = true \/ Http.rec_statusCode r = 200%Z -> Forall (fun c => ~ is_status c) cs ->
  Http.rec_statusCode (foldl Http.record r cs) = Http.rec_statusCode r.
Proof.
  intros Hr Hcs. revert r Hr. induction Hcs as [|c cs Hc _ IH]; intros r Hr; [done|]. simpl. destruct c; [by apply IH|done|].
  rewrite IH; simpl; destruct (Http.rec_wroteHead r) eqn:E, Hr; auto; congruence.
Qed.

Lemma record_body_of r cs : Http.rec_body (foldl Http.record r cs) = Http.rec_body r +:+ Http.body_of cs.
Proof.
  revert r. induction cs as [|c cs IH]; intros r; simpl; [by rewrite string_app_nil_r|].
  rewrite IH. destruct c; simpl; [done|done|]. by rewrite string_app_assoc.
Qed.

(** The recorders of the middlewares note the status and the body that an
    orderly handler sends. *)
Lemma recorder_agrees cs :
  orderly cs -> Http.rec_statusCode (Http.record_all cs) = Http.client_status cs /\
                Http.rec_body (Http.record_all cs) = Http.body_of cs.
Proof.
  intros Ho. split; [|apply record_body_of]. unfold Http.record_all.
  induction cs as [|c cs IH]; [done|]. destruct c; simpl in *; [by apply IH| |]; rewrite record_body_only; auto.
Qed.

(** So do those of logging and metrics, whatever the handler calls. *)
Lemma fold_relates {S T C} (R : S -> T -> Prop) (f : S -> C -> S) (g : T -> C -> T) s t cs :
  (forall s t c, R s t -> R (f s c) (g t c)) -> R s t -> R (foldl f s cs) (foldl g t cs).
Proof. intros Hstep. revert s t. induction cs as [|c cs IH]; intros s t HR; [done|]. simpl. by apply IH, Hstep. Qed.

Lemma logged_recorded cs : Http.logged_status cs = Http.rec_statusCode (Http.record_all cs).
Proof.
  apply (fold_relates (fun (r : Http.logging_statusRecorder) (r' : Http.recorder) =>
    Http.lg_statusCode r = Http.rec_statusCode r' /\ Http.lg_wroteHead r = Http.rec_wroteHead r')); [|done].
  intros [n []] [m [] b] [] [Hs Hh]; simplify_eq/=; by split.
Qed.

Lemma counted_recorded cs : Http.counted_status cs = Http.rec_statusCode (Http.record_all cs).
Proof.
  apply (fold_relates (fun (r : Http.metrics_statusRecorder) (r' : Http.recorder) =>
    Http.mt_statusCode r = Http.rec_statusCode r' /\ Http.mt_wroteHead r = Http.rec_wroteHead r')); [|done].
  intros [n []] [m [] b] [] [Hs Hh]; simplify_eq/=; by split.
Qed.

Lemma status_observed cs :
  orderly cs -> Http.logged_status cs = Http.client_status cs /\ Http.counted_status cs = Http.client_status cs.
Proof. intros [Ho _]%recorder_agrees. by rewrite logged_recorded, counted_recorded. Qed.

Definition answering (h : Http.Handler) : Prop := forall r, leaves answers (h r).

Lemma handleExisting_orderly rec hash : orderly (Idempotency.handleExisting rec hash).
Proof. unfold Idempotency.handleExisting. repeat case_decide; simpl; repeat constructor; by intros []. Qed.

(** Follows the structure of a handler. *)
Ltac answers_tac :=
  repeat match goal with
    | Hh : answering ?h |- leaves _ (bind (?h _) _) =>
        apply leaves_bind; eapply leaves_mono; [apply Hh|]; intros ? ?
    | |- leaves _ (bind _ _) => apply leaves_bind, leaves_any; intros ?
    | Hs : answers ?s |- leaves _ (Ret ?s) => exact Hs
    | |- leaves _ (Ret (Http.Served (Idempotency.handleExisting _ _) _)) =>
        split; [done|apply handleExisting_orderly]
    | |- leaves _ (Ret _) => split; [done|simpl; repeat constructor; by intros []]
    | |- leaves _ (let '(_, _) := ?x in _) => destruct x
    | |- leaves _ (match ?x with _ => _ end) => destruct x
    | |- leaves _ _ => by auto
    end.

Section handlers.
Context `{UuidLib, DriverText, Crypto, PgTime, SqlLower, Auth.Bcrypt, Auth.Jwt,
          Handlers.Decoder, Handlers.Encoder, Router.Chi}.

Lemma mutating_answer h : h ∈ mutating_handlers -> answering h.
Proof.
  unfold mutating_handlers. rewrite !elem_of_cons.
  intros [->|[->|[->|[->|[->|Hn]]]]] r; [..|by apply not_elem_of_nil in Hn];
    unfold Handlers.createAccountHandler, Handlers.transferHandler, Handlers.createPendingTransactionHandler,
      Handlers.postPendingTransactionHandler, Handlers.failPendingTransactionHandler; unfold_handler; answers_tac.
Qed.

Lemma idempotent_answer ttl opts h : answering h -> answering (Idempotency.Middleware ttl opts h).
Proof.
  intros Hh r. unfold Idempotency.Middleware. cbv zeta. unfold_handler. answers_tac.
Qed.

Lemma authorized_answer k perm h : answering h -> answering (Router.authorized k perm h).
Proof.
  intros Hh r. unfold Router.authorized, AuthMw.Middleware, AuthMw.RequirePermission. unfold_handler. answers_tac.
Qed.

Lemma tenant_gate_answer h : answering h -> answering (Tenants.requireTenantAPIKey h).
Proof. intros Hh r. unfold Tenants.requireTenantAPIKey. unfold_handler. answers_tac. Qed.

Lemma read_answer k :
  Forall answering [Router.healthHandler; Handlers.registerHandler (Router.authSvc k);
    Handlers.loginHandler (Router.authSvc k); Handlers.refreshHandler (Router.authSvc k);
    Handlers.logoutHandler (Router.authSvc k); Handlers.getAccountHandler; Handlers.getTransactionHandler;
    Handlers.auditLogHandler].
Proof.
  repeat apply Forall_cons_2; [..|apply Forall_nil_2]; intros r;
    unfold Router.healthHandler, Handlers.registerHandler, Handlers.loginHandler, Handlers.refreshHandler,
      Handlers.logoutHandler, Handlers.getAccountHandler, Handlers.getTransactionHandler, Handlers.auditLogHandler;
    cbv zeta; unfold_handler; answers_tac.
Qed.

(** Every route answers in an orderly way and never panics. *)
Lemma dispatch_answers k : answering (Router.dispatch k).
Proof.
  intros r. unfold Router.dispatch. destruct (find _ _) as [[p h]|] eqn:E;
    [|destruct (Router.unrouted r); split; [done|repeat constructor; by intros []]].
  apply find_some in E as [Hin _]. apply list_elem_of_In in Hin. revert r. change (answering h).
  pose proof (read_answer k) as Hr. rewrite !Forall_cons in Hr. destruct_and?.
  assert (Hm : Forall answering mutating_handlers) by (apply Forall_forall, mutating_answer).
  unfold mutating_handlers in Hm. rewrite !Forall_cons in Hm. destruct_and?.
  unfold Router.routes, Router.mutating in Hin. rewrite !elem_of_cons in Hin.
  repeat (destruct Hin as [Hin|Hin]; [injection Hin as _ ->;
    auto using tenant_gate_answer, authorized_answer, idempotent_answer; fail|]).
  all: try by apply not_elem_of_nil in Hin.
Qed.
End handlers.
