(* ===== verification/Writes.v ===== *)
(** * What the statements write

    Three properties of the writes of catalogued statements (Statements.v): those
    of the ledger never touch the store of idempotency keys; those of requests
    only add to the outbox, which lets the webhook worker own the events it has
    claimed; and all of them change stored rows along their life cycles only
    (History.v). *)

From S2P Require Import Prelude GoBase Db Prog ProgFacts Interfaces Queue AuditLog Ledger.
From S2P Require Import Adapters Quiet History Statements.
From S2P Require Auth Handlers Idempotency Tenants.
Local Open Scope go_scope.

(** ** Helpers *)

(** One inserted row. *)
Lemma inserting_writes (W : db -> write -> Prop) {R} (cs : env -> db -> list (bool * sqlerr)) (ls : list lock)
    (r : env -> R) (w : env -> write) :
  (forall ev d, (forall b e, (b, e) ∈ cs ev d -> b = true) -> W d (w ev)) ->
  stmt_when W (fun _ ev d => guarded (cs ev d) (Outcome ls (inr (r ev)) [w ev])).
Proof.
  intros Hw others ev d x [Hx Hc]%guarded_writes. simpl in Hx. apply list_elem_of_singleton in Hx.
  subst. by apply Hw.
Qed.

(** A row under an identifier that was free. *)
Ltac free_row := refine (inserting_writes _ _ _ _ _ _); intros ev d Hc; apply evolves_absent; simpl; eapply has_row_false, Hc;
  repeat first [apply list_elem_of_here | apply list_elem_of_further].

(** At most one row, of another table. *)
Ltac one_row :=
  intros others ev d w; repeat case_match; intros Hw; try (apply guarded_writes in Hw as [Hw _]);
  simpl in Hw; try (by apply not_elem_of_nil in Hw); apply list_elem_of_singleton in Hw; by subst.

Lemma revoke_writes (W : db -> write -> Prop) (P : uuid * refresh_token_row -> Prop) `{!forall p, Decision (P p)} :
  (forall d i r, refresh_tokens d !! i = Some r -> rt_status r = TokenActive ->
     W d (WRefreshToken i (Auth.with_token_status TokenRevoked (rt_replaced_by r) r))) ->
  stmt_when W (fun _ _ d => Outcome [] (inr tt) (Auth.revoke_where P d)).
Proof.
  intros HW others ev d w Hw. apply list_elem_of_fmap in Hw as ([i r] & -> & Hp).
  apply list_elem_of_filter in Hp as [[_ Ha] Hp%elem_of_map_to_list]. by apply HW.
Qed.

(** The row of a key is the one with that key. *)
Lemma found_key d tn k i r : Idempotency.find_key d tn k = Some (i, r) ->
  idempotency_keys d !! i = Some r /\ ik_tenant_id r = tn /\ ik_key r = k.
Proof.
  unfold Idempotency.find_key, Auth.rows_where. intros Hh. destruct (filter _ _) as [|p l] eqn:E; [done|]. injection Hh as ->.
  assert (Hp : (i, r) ∈ filter (fun p : uuid * idempotency_row => ik_tenant_id p.2 = tn /\ ik_key p.2 = k)
                         (map_to_list (idempotency_keys d))) by (rewrite E; left).
  apply list_elem_of_filter in Hp as [[? ?] Hp%elem_of_map_to_list]. done.
Qed.

Lemma revoked_evolves d i r :
  refresh_tokens d !! i = Some r -> rt_status r = TokenActive ->
  evolves d (WRefreshToken i (Auth.with_token_status TokenRevoked (rt_replaced_by r) r)).
Proof. intros Hr Ha x Hx. right. assert (x = r) as -> by congruence. done. Qed.

Lemma update_event_evolves i f :
  (forall r, same_event r (f r)) -> stmt_when evolves (fun _ _ d => Outcome [] (inr tt) (update_event i f d)).
Proof.
  intros Hf others ev d w Hw. simpl in Hw. unfold update_event in Hw.
  destruct (webhook_events d !! i) as [r|] eqn:E; [|by apply not_elem_of_nil in Hw].
  apply list_elem_of_singleton in Hw. subst w. intros x Hx. assert (x = r) as -> by congruence. apply Hf.
Qed.

(** ** The ledger's statements *)

(** New rows, and the status of a pending transaction. *)
Definition ledger_write (d : db) (w : write) : Prop :=
  match w with
  | WAccount _ _ | WTransaction _ _ | WEntry _ _ | WAudit _ _ => evolves d w
  | WEvent _ _ => outbox_write d w
  | _ => False
  end.

Definition not_key (w : write) : Prop :=
  match w with WIdempotency _ _ => False | _ => True end.

(** Such writes leave the store of keys alone. *)
Lemma not_key_kept ws d : Forall not_key ws -> idempotency_keys (apply_writes ws d) = idempotency_keys d.
Proof.
  intros Hws. revert d. induction Hws as [|w ws Hw _ IH]; intros d; [done|].
  rewrite apply_writes_cons, IH. by destruct w.
Qed.

Section writes.
Context `{UuidLib, PgTime, SqlLower}.

Lemma q_update_status_evolves tn id st : stmt_when evolves (q_update_status tn id StatusPending st).
Proof.
  intros others ev d w. unfold q_update_status. destruct (transactions d !! id) as [r|] eqn:E; [case_decide as Hd|];
    simpl; intros Hw; try by apply not_elem_of_nil in Hw. apply list_elem_of_singleton in Hw. subst w.
  intros x Hx. right. simplify_eq. by destruct Hd.
Qed.

Lemma ledger_stmt_writes {R} (q : stmt R) : ledger_stmt R q -> stmt_when ledger_write q.
Proof.
  intros []; try by (intros others ev d w Hw; by apply not_elem_of_nil in Hw).
  1-3, 6: unfold q_create_account, q_insert_transaction, q_insert_entry, q_record_audit; free_row.
  - intros others ev d w Hw. pose proof (q_update_status_evolves _ _ _ _ _ _ _ Hw). unfold q_update_status in Hw.
    repeat case_match; simpl in Hw; try (by apply not_elem_of_nil in Hw). apply list_elem_of_singleton in Hw. by subst.
  - refine (inserting_writes _ _ _ _ _ _). intros ev d Hc. eapply has_row_false, Hc. left.
Qed.

(** No handler behind the idempotency middleware touches its keys. *)
Lemma ledger_stmt_not_key {R} (q : stmt R) : ledger_stmt R q -> stmt_writes not_key q.
Proof. intros Hq others ev d w Hw. apply (ledger_stmt_writes _ Hq) in Hw. by destruct w. Qed.

(** ** The statements of requests *)

Lemma request_stmt_adds {R} (q : stmt R) : request_stmt R q -> stmt_when outbox_write q.
Proof.
  intros [R' q' Hq| | | | | | | |].
  - intros others ev d w Hw. apply (ledger_stmt_writes _ Hq) in Hw. by destruct w.
  - unfold Auth.q_create_user. one_row.
  - unfold Auth.q_create_refresh_token. one_row.
  - unfold Auth.q_rotate. one_row.
  - by apply revoke_writes.
  - by apply revoke_writes.
  - unfold Idempotency.q_claim. one_row.
  - unfold Idempotency.q_complete. one_row.
  - unfold Tenants.q_create_tenant. one_row.
Qed.

(** ** All statements *)

Lemma q_rotate_evolves i j : stmt_when evolves (Auth.q_rotate i j).
Proof.
  intros others ev d w. unfold Auth.q_rotate. destruct (refresh_tokens d !! i) as [r|] eqn:E; [case_decide as Hd|];
    intros Hw; try (apply guarded_writes in Hw as [Hw _]); simpl in Hw; try by apply not_elem_of_nil in Hw.
  apply list_elem_of_singleton in Hw. subst w. intros x Hx. right. assert (x = r) as -> by congruence. by destruct Hd.
Qed.

Lemma q_claim_evolves tn k h now e : stmt_when evolves (Idempotency.q_claim tn k h now e).
Proof.
  intros others ev d w. unfold Idempotency.q_claim. destruct (Idempotency.find_key d tn k) as [[i r]|] eqn:E.
  - apply found_key in E as (Hr & Htn & Hk). destruct (ik_expires_at r <? now)%Z eqn:Ex; intros Hw;
      simpl in Hw; [|by apply not_elem_of_nil in Hw]. apply list_elem_of_singleton in Hw. subst w.
    intros x Hx. assert (x = r) as -> by congruence. apply rtc_once. split; [done|]. right. split; [|done]. simpl. lia.
  - intros [Hw Hc]%guarded_writes. apply list_elem_of_singleton in Hw. subst w. apply evolves_absent. simpl.
    eapply has_row_false, Hc. left.
Qed.

Lemma q_complete_evolves tn k c b e t : stmt_when evolves (Idempotency.q_complete tn k c b e t).
Proof.
  intros others ev d w. unfold Idempotency.q_complete. destruct (Idempotency.find_key d tn k) as [[i r]|] eqn:E;
    [apply found_key in E as (Hr & Htn & Hk); case_decide|]; intros Hw; simpl in Hw; try by apply not_elem_of_nil in Hw.
  apply list_elem_of_singleton in Hw. subst w. intros x Hx. assert (x = r) as -> by congruence. apply rtc_once.
  split; [done|]. by left.
Qed.

Lemma request_stmt_evolves {R} (q : stmt R) : request_stmt R q -> stmt_when evolves q.
Proof.
  intros [R' q' Hq| | | | | | | |].
  - intros others ev d w Hw. apply (ledger_stmt_writes _ Hq) in Hw. destruct w; try done. by apply evolves_absent.
  - unfold Auth.q_create_user. free_row.
  - unfold Auth.q_create_refresh_token. free_row.
  - apply q_rotate_evolves.
  - apply revoke_writes, revoked_evolves.
  - apply revoke_writes, revoked_evolves.
  - apply q_claim_evolves.
  - apply q_complete_evolves.
  - unfold Tenants.q_create_tenant. free_row.
Qed.

Lemma claimed_row others now n d i r : (i, r) ∈ claimable others now n d -> webhook_events d !! i = Some r.
Proof.
  unfold claimable. intros (k & Hp%list_elem_of_lookup_2 & _)%elem_of_take. apply list_elem_of_filter in Hp as [_ Hp].
  rewrite merge_sort_Permutation in Hp. by apply list_elem_of_filter in Hp as [_ Hp%elem_of_map_to_list].
Qed.

Lemma q_claim_pending_evolves n : stmt_when evolves (q_claim_pending n).
Proof.
  intros others ev d w Hw. simpl in Hw. rewrite <- list_fmap_compose in Hw.
  apply list_elem_of_fmap in Hw as ([i r] & -> & Hp%claimed_row).
  intros x Hx. simpl in Hx. assert (x = r) as -> by congruence. done.
Qed.

Lemma program_stmt_evolves {R} (q : stmt R) : program_stmt R q -> stmt_when evolves q.
Proof.
  intros [R' q' Hq| | | | |]; [by apply request_stmt_evolves|by apply q_claim_pending_evolves|..].
  1, 2, 4: by apply update_event_evolves.
  unfold q_insert_dead_letter. free_row.
Qed.
End writes.

Lemma mutating_keep `{UuidLib, DriverText, Crypto, PgTime, SqlLower, Handlers.Decoder, Handlers.Encoder} h r :
  h ∈ mutating_handlers -> writes_in not_key (h r).
Proof. intros Hh. eapply issues_mono; [apply @ledger_stmt_not_key|by apply mutating_sends]. Qed.
