(* ===== verification/Schema.v ===== *)
(** * The database keeps its schema

    The constraints of src/migrations as one invariant, [well_typed]: foreign keys
    and checks row by row ([row_ok]), unique indexes across rows ([key_of]). The
    statements check what PostgreSQL checks, each against the rows it sees; here
    is the proof that this is enough when transactions run side by side: what two
    transactions with disjoint locks write can be merged ([sound_merge]), because
    an INSERT locks the values it adds to unique indexes. LifecycleProps.v applies
    it to the whole program. *)

From S2P Require Import Prelude GoBase Db Prog ProgFacts Interfaces Queue AuditLog Ledger.
From S2P Require Import Quiet History Statements Writes.
From S2P Require Auth Idempotency Tenants.

(** ** The constraints *)

(** A row of the database, as the write that stores it. *)
Definition stored (d : db) (w : write) : Prop :=
  match w with
  | WTenant i r => tenants d !! i = Some r
  | WAccount i r => accounts d !! i = Some r
  | WTransaction i r => transactions d !! i = Some r
  | WEntry i r => entries d !! i = Some r
  | WIdempotency i r => idempotency_keys d !! i = Some r
  | WEvent i r => webhook_events d !! i = Some r
  | WDeadLetter i r => dead_letter_events d !! i = Some r
  | WAudit i r => audit_log d !! i = Some r
  | WUser i r => users d !! i = Some r
  | WRefreshToken i r => refresh_tokens d !! i = Some r
  end.

(** The tenant_id of a row, a foreign key of every table but tenants; that of
    refresh_tokens is part of fk_refresh_tokens_user_tenant. *)
Definition tenant_of (w : write) : option uuid :=
  match w with
  | WTenant _ _ | WRefreshToken _ _ => None
  | WAccount _ r => Some (ac_tenant_id r)
  | WTransaction _ r => Some (tr_tenant_id r)
  | WEntry _ r => Some (en_tenant_id r)
  | WIdempotency _ r => Some (ik_tenant_id r)
  | WEvent _ r => Some (ev_tenant_id r)
  | WDeadLetter _ r => Some (dl_tenant_id r)
  | WAudit _ r => Some (au_tenant_id r)
  | WUser _ r => Some (us_tenant_id r)
  end.

(** The other foreign keys and checks, and what the NULLs of a row go with: a
    stored response with a completed key, a successor with a rotated token. *)
Definition columns_ok (d : db) (w : write) : Prop :=
  match w with
  | WTenant _ r => match tn_webhook_url r with Some url => String.prefix "https://" url = true | None => True end
  | WEntry _ r => is_Some (transactions d !! en_transaction_id r) /\ is_Some (accounts d !! en_account_id r) /\
      en_amount_minor r <> 0%Z
  | WIdempotency _ r =>
      match ik_status r with
      | StatusProcessing => ik_response_code r = None /\ ik_response_body r = None
      | StatusCompleted => is_Some (ik_response_code r) /\ is_Some (ik_response_body r)
      end
  | WUser _ r => is_Some (roles (rbac d) !! us_role_id r)
  | WRefreshToken _ r => us_tenant_id <$> users d !! rt_user_id r = Some (rt_tenant_id r) /\
      match rt_replaced_by r with
      | Some j => rt_status r = TokenRotated /\ is_Some (refresh_tokens d !! j)
      | None => rt_status r <> TokenRotated
      end
  | _ => True
  end.

Definition row_ok (d : db) (w : write) : Prop :=
  (forall tn, tenant_of w = Some tn -> is_Some (tenants d !! tn)) /\ columns_ok d w.

#[export] Instance columns_ok_dec d w : Decision (columns_ok d w).
Proof. destruct w; simpl; try (destruct (tn_webhook_url _)); try (destruct (ik_status _)); try (destruct (rt_replaced_by _)); apply _. Defined.

#[export] Instance row_ok_dec d w : Decision (row_ok d w).
Proof.
  assert (Decision (forall tn, tenant_of w = Some tn -> is_Some (tenants d !! tn))).
  { destruct (tenant_of w) as [tn|]; [|by left]. destruct (decide (is_Some (tenants d !! tn))) as [Hs|Hn].
    - left. by intros ? [= <-].
    - right. intros Ht. by apply Hn, Ht. }
  unfold row_ok. apply _.
Defined.

(** Every row of the database. *)
Definition rows (d : db) : list write :=
  (uncurry WTenant <$> map_to_list (tenants d)) ++ (uncurry WAccount <$> map_to_list (accounts d)) ++
  (uncurry WTransaction <$> map_to_list (transactions d)) ++ (uncurry WEntry <$> map_to_list (entries d)) ++
  (uncurry WIdempotency <$> map_to_list (idempotency_keys d)) ++ (uncurry WEvent <$> map_to_list (webhook_events d)) ++
  (uncurry WDeadLetter <$> map_to_list (dead_letter_events d)) ++ (uncurry WAudit <$> map_to_list (audit_log d)) ++
  (uncurry WUser <$> map_to_list (users d)) ++ (uncurry WRefreshToken <$> map_to_list (refresh_tokens d)).

Lemma elem_of_table {V} (f : uuid -> V -> write) (m : gmap uuid V) w :
  w ∈ (uncurry f <$> map_to_list m) <-> exists i r, w = f i r /\ m !! i = Some r.
Proof.
  rewrite list_elem_of_fmap. split.
  - intros ([i r] & -> & Hp%elem_of_map_to_list). by exists i, r.
  - intros (i & r & -> & Hr). exists (i, r). split; [done|by apply elem_of_map_to_list].
Qed.

Lemma elem_of_rows d w : w ∈ rows d <-> stored d w.
Proof. unfold rows. rewrite !elem_of_app, !elem_of_table. destruct w; simpl; naive_solver. Qed.

Section schema.
Context `{SqlLower}.

(** The entry of a row in the unique index of its table: idx_tenant_idempotency,
    uq_users_tenant_lower_email, refresh_tokens_token_hash_key. *)
Definition key_of (w : write) : option lock :=
  match w with
  | WIdempotency _ r => Some (LUnique T_idempotency_keys (ik_tenant_id r) (ik_key r))
  | WUser _ r => Some (LUnique T_users (us_tenant_id r) (sql_lower (us_email r)))
  | WRefreshToken _ r => Some (LUnique T_refresh_tokens Auth.no_scope (rt_token_hash r))
  | _ => None
  end.

Record well_typed (d : db) : Prop := WellTyped {
  wt_rows : forall w, stored d w -> row_ok d w;
  wt_unique : forall x y k, stored d x -> stored d y -> key_of x = Some k -> key_of y = Some k -> lock_of x = lock_of y
}.

(** The schema as a check. *)
Definition schema_check (d : db) : bool :=
  bool_decide (Forall (row_ok d) (rows d)) &&
  bool_decide (Forall (fun x => Forall (fun y => is_Some (key_of x) -> key_of x = key_of y -> lock_of x = lock_of y) (rows d)) (rows d)).

Lemma schema_check_spec d : schema_check d = true <-> well_typed d.
Proof.
  unfold schema_check. rewrite andb_true_iff, !bool_decide_eq_true, !Forall_forall. setoid_rewrite elem_of_rows. split.
  - intros [Hr Hu]. split; [done|]. intros x y k Hx Hy Kx Ky. specialize (Hu x Hx). rewrite Forall_forall in Hu.
    apply Hu; [by apply elem_of_rows|by eexists|congruence].
  - intros [Hr Hu]. split; [done|]. intros x Hx. apply Forall_forall.
    intros y Hy%elem_of_rows [k Hk] E. apply (Hu x y k); congruence.
Qed.

(** ** Stored rows *)

Lemma stored_apply w d x : stored (apply_write w d) x <-> x = w \/ lock_of x <> lock_of w /\ stored d x.
Proof.
  destruct w as [i r|i r|i r|i r|i r|i r|i r|i r|i r|i r], x as [j s|j s|j s|j s|j s|j s|j s|j s|j s|j s]; simpl;
    try (split; [intros ?; right; by split|intros [?|[_ ?]]; done]);
    rewrite lookup_insert_Some; naive_solver.
Qed.

Lemma stored_unique d x y : stored d x -> stored d y -> lock_of x = lock_of y -> x = y.
Proof. destruct x, y; simpl; intros Hx Hy [=]; subst; congruence. Qed.

Lemma stored_writes ws d x :
  stored (apply_writes ws d) x -> x ∈ ws \/ stored d x /\ forall w, w ∈ ws -> lock_of w <> lock_of x.
Proof.
  revert d. induction ws as [|w ws IH]; intros d Hx; [right; split; [done|]; intros w Hw; by apply not_elem_of_nil in Hw|].
  apply IH in Hx as [Hx|[[->|[Hl Hx]]%stored_apply Hws]]; [left; by right|left; left|].
  right. split; [done|]. intros w' [->|Hw']%elem_of_cons; [congruence|auto].
Qed.

Lemma stored_kept ws d x : stored d x -> (forall w, w ∈ ws -> lock_of w <> lock_of x) -> stored (apply_writes ws d) x.
Proof.
  revert d. induction ws as [|w ws IH]; intros d Hx Hws; [done|]. rewrite apply_writes_cons. apply IH.
  - apply stored_apply. right. split; [|done]. intros E. by eapply (Hws w); [left|].
  - intros w' Hw'. apply Hws. by right.
Qed.

Lemma apply_write_comm w w' d :
  lock_of w <> lock_of w' -> apply_write w (apply_write w' d) = apply_write w' (apply_write w d).
Proof.
  destruct w, w'; simpl; intros Hl; try done; unfold set_tenants, set_accounts, set_transactions, set_entries,
    set_idempotency_keys, set_webhook_events, set_dead_letter_events, set_audit_log, set_users, set_refresh_tokens;
    simpl; f_equal; apply insert_insert_ne; congruence.
Qed.

Lemma apply_writes_comm ws ws' d :
  (forall w w', w ∈ ws -> w' ∈ ws' -> lock_of w <> lock_of w') ->
  apply_writes ws (apply_writes ws' d) = apply_writes ws' (apply_writes ws d).
Proof.
  assert (Hone : forall w ws' d, (forall w', w' ∈ ws' -> lock_of w <> lock_of w') ->
    apply_write w (apply_writes ws' d) = apply_writes ws' (apply_write w d)).
  { clear. intros w ws' d Hw. revert d. induction ws' as [|w' ws' IH]; intros d; [done|]. rewrite !apply_writes_cons.
    rewrite IH, apply_write_comm; [done|by apply Hw; left|]. intros w'' Hw''. apply Hw. by right. }
  revert d. induction ws as [|w ws IH]; intros d Hl; [done|]. rewrite !apply_writes_cons, Hone.
  - apply IH. intros w1 w' Hw1. apply Hl. by right.
  - intros w' Hw'. apply Hl; [left|done].
Qed.
(** ** What others do does not break a row *)

Lemma grows_is_Some {V} (R : V -> V -> Prop) m m' i : grows R m m' -> is_Some (m !! i) -> is_Some (m' !! i).
Proof. intros Hg [r Hr]. destruct (Hg i r Hr) as (r' & ? & _). by eexists. Qed.

Lemma row_ok_evolution d d' w : evolution d d' -> row_ok d w -> row_ok d' w.
Proof.
  intros [] [Htn Hc]. split; [intros tn Hw; eapply grows_is_Some; eauto|].
  destruct w; simpl in *; try done.
  - destruct Hc as (?&?&?). split_and!; eauto using grows_is_Some.
  - by rewrite evo_rbac.
  - destruct Hc as [Hu Hr]. split.
    + destruct (users d !! _) as [u|] eqn:E; [|done]. destruct (evo_users _ _ E) as (u' & -> & <-). done.
    + destruct (rt_replaced_by _); [|done]. destruct Hr. split; [done|]. by eapply grows_is_Some.
Qed.

(** ** Writes that may be committed *)

(** A write has its value in the unique index already, or holds its lock. *)
Definition keyed (d : db) (L : list lock) (w : write) : Prop :=
  forall k, key_of w = Some k -> k ∈ L \/ exists x, stored d x /\ lock_of x = lock_of w /\ key_of x = Some k.

Record sound_writes (d : db) (L : list lock) (ws : list write) : Prop := SoundWrites {
  sd_writes : forall w, w ∈ ws -> lock_of w ∈ L /\ evolves d w /\ keyed d L w;
  sd_result : well_typed (apply_writes ws d)
}.

Lemma sound_nil d L : well_typed d -> sound_writes d L [].
Proof. intros Hd. split; [intros w Hw; by apply not_elem_of_nil in Hw|done]. Qed.

Lemma evolves_elsewhere d L L' ws ws' w :
  sound_writes d L ws -> sound_writes d L' ws' -> (forall l, l ∈ L -> l ∉ L') -> w ∈ ws -> evolves (apply_writes ws' d) w.
Proof.
  intros H1 H2 HL Hw. destruct (sd_writes _ _ _ H1 w Hw) as (Hl & He & _).
  eapply sw_frame; [exact Hl| |exact He]. apply apply_writes_frame. intros w' Hw' Hin.
  eapply HL; [exact Hin|]. by apply (sd_writes _ _ _ H2).
Qed.

(** Both sets of writes done: every row comes from one of them. *)
Lemma merged_row d L L' ws ws' x :
  sound_writes d L ws -> sound_writes d L' ws' -> (forall l, l ∈ L -> l ∉ L') ->
  stored (apply_writes ws (apply_writes ws' d)) x ->
  stored (apply_writes ws d) x /\ (x ∈ ws \/ stored (apply_writes ws' d) x) \/
  stored (apply_writes ws' d) x /\ x ∈ ws'.
Proof.
  intros H1 H2 HL Hx.
  assert (E : apply_writes ws (apply_writes ws' d) = apply_writes ws' (apply_writes ws d)).
  { apply apply_writes_comm. intros w w' Hw Hw' El. eapply HL; [by apply (sd_writes _ _ _ H1)|].
    rewrite El. by apply (sd_writes _ _ _ H2). }
  pose proof Hx as Hx'. rewrite E in Hx'. apply stored_writes in Hx as [Hx|[Hx _]], Hx' as [Hx'|[Hx' _]]; auto.
  exfalso. eapply HL; [by apply (sd_writes _ _ _ H1)|by apply (sd_writes _ _ _ H2)].
Qed.

(** The lock of the other side's row is not ours, so a row with that lock that we
    see is a row the other side sees. *)
Lemma untouched_row d L L' ws ws' x y :
  sound_writes d L ws -> sound_writes d L' ws' -> (forall l, l ∈ L -> l ∉ L') ->
  y ∈ ws' -> lock_of x = lock_of y -> stored d x -> stored (apply_writes ws d) x.
Proof.
  intros H1 H2 HL Hy El Hx. apply stored_kept; [done|]. intros w Hw E.
  eapply HL; [by apply (sd_writes _ _ _ H1)|]. rewrite E, El. by apply (sd_writes _ _ _ H2).
Qed.

(** Two entries of one unique index, written on different sides. *)
Lemma merged_keys d L L' ws ws' x y k :
  well_typed d -> sound_writes d L ws -> sound_writes d L' ws' -> (forall l, l ∈ L -> l ∉ L') ->
  x ∈ ws -> y ∈ ws' -> stored (apply_writes ws d) x -> stored (apply_writes ws' d) y ->
  key_of x = Some k -> key_of y = Some k -> lock_of x = lock_of y.
Proof.
  intros Hd H1 H2 HL Hx Hy Sx Sy Kx Ky.
  assert (HL' : forall l, l ∈ L' -> l ∉ L) by (intros l Hl' Hl; by eapply HL).
  destruct (sd_writes _ _ _ H1 x Hx) as (_ & _ & [Hkx|(x' & Sx' & Lx & Kx')]%(fun H => H k Kx)),
    (sd_writes _ _ _ H2 y Hy) as (_ & _ & [Hky|(y' & Sy' & Ly & Ky')]%(fun H => H k Ky)).
  - by exfalso; eapply HL.
  - rewrite <- Ly. apply (wt_unique _ (sd_result _ _ _ H1) x y' k); try done. by eapply untouched_row.
  - rewrite <- Lx. apply (wt_unique _ (sd_result _ _ _ H2) x' y k); try done. by eapply (untouched_row _ L' L).
  - rewrite <- Lx, <- Ly. by apply (wt_unique _ Hd x' y' k).
Qed.

Lemma merged_well_typed d L L' ws ws' :
  well_typed d -> sound_writes d L ws -> sound_writes d L' ws' -> (forall l, l ∈ L -> l ∉ L') ->
  well_typed (apply_writes ws (apply_writes ws' d)).
Proof.
  intros Hd H1 H2 HL. assert (HL' : forall l, l ∈ L' -> l ∉ L) by (intros l Hl' Hl; by eapply HL).
  assert (E1 : evolution (apply_writes ws' d) (apply_writes ws (apply_writes ws' d)))
    by (apply evolution_writes; intros w; by eapply evolves_elsewhere).
  assert (E2 : evolution (apply_writes ws d) (apply_writes ws (apply_writes ws' d))).
  { rewrite apply_writes_comm; [apply evolution_writes; intros w; by eapply (evolves_elsewhere _ L' L)|].
    intros w w' Hw Hw' El. eapply HL; [by apply (sd_writes _ _ _ H1)|]. rewrite El. by apply (sd_writes _ _ _ H2). }
  split.
  - intros w Hw. destruct (merged_row _ _ _ _ _ _ H1 H2 HL Hw) as [[Sw _]|[Sw _]].
    + eapply row_ok_evolution; [exact E2|]. by apply (wt_rows _ (sd_result _ _ _ H1)).
    + eapply row_ok_evolution; [exact E1|]. by apply (wt_rows _ (sd_result _ _ _ H2)).
  - intros x y k Sx Sy Kx Ky. pose proof (wt_unique _ (sd_result _ _ _ H1) x y k) as U1.
    pose proof (wt_unique _ (sd_result _ _ _ H2) x y k) as U2.
    destruct (merged_row _ _ _ _ _ _ H1 H2 HL Sx) as [[Tx [Wx|Tx']]|[Tx' Wx]],
      (merged_row _ _ _ _ _ _ H1 H2 HL Sy) as [[Ty [Wy|Ty']]|[Ty' Wy]]; auto.
    + by eapply (merged_keys d L L').
    + symmetry. by eapply (merged_keys d L L').
Qed.

(** What another transaction commits leaves our writes sound. *)
Lemma sound_merge d L L' ws ws' :
  well_typed d -> sound_writes d L ws -> sound_writes d L' ws' -> (forall l, l ∈ L -> l ∉ L') ->
  sound_writes (apply_writes ws' d) L ws.
Proof.
  intros Hd H1 H2 HL. split; [|by eapply merged_well_typed].
  intros w Hw. destruct (sd_writes _ _ _ H1 w Hw) as (Hl & He & Hk). split_and!; [done|exact (evolves_elsewhere _ _ _ _ _ _ H1 H2 HL Hw)|].
  intros k Kw. destruct (Hk k Kw) as [?|(x & Sx & Lx & Kx)]; [by left|right]. exists x. split; [|done].
  apply (untouched_row d L' L ws' ws x w); try done. intros l Hl' Hl0. by eapply HL.
Qed.
(** ** What a statement has to check *)

(** A value new in its unique index is locked, absent, and the only write. *)
Definition adds_key (v : db) (o_locks : list lock) (ws : list write) (w : write) (k : lock) : Prop :=
  (k ∈ o_locks /\ ws = [w] /\ forall x, stored v x -> key_of x <> Some k) \/
  exists x, stored v x /\ lock_of x = lock_of w /\ key_of x = Some k.

Definition typed_outcome (v : db) {R} (o : outcome R) : Prop :=
  forall w, w ∈ oc_writes o -> row_ok v w /\ forall k, key_of w = Some k -> adds_key v (oc_locks o) (oc_writes o) w k.

Definition typed_stmt {R} (q : stmt R) : Prop := forall others ev v, well_typed v -> typed_outcome v (q others ev v).

Lemma typed_apply v {R} (o : outcome R) :
  well_typed v -> (forall w, w ∈ oc_writes o -> evolves v w) -> typed_outcome v o -> well_typed (apply_writes (oc_writes o) v).
Proof.
  intros Hv He Ho. split.
  - intros w Hw. eapply row_ok_evolution; [by apply evolution_writes|].
    apply stored_writes in Hw as [Hw|[Hw _]]; [by apply Ho|by apply (wt_rows _ Hv)].
  - assert (Hcross : forall x y k, x ∈ oc_writes o -> stored v y -> key_of x = Some k -> key_of y = Some k -> lock_of x = lock_of y).
    { intros x y k Hx Hy Kx Ky. destruct (Ho x Hx) as [_ [(_ & _ & Hn)|(x' & Sx & <- & Kx')]%(fun H => H k Kx)].
      - by destruct (Hn y Hy).
      - by apply (wt_unique _ Hv x' y k). }
    intros x y k [Hx|[Hx _]]%stored_writes [Hy|[Hy _]]%stored_writes Kx Ky.
    + destruct (Ho x Hx) as [_ [(_ & E & _)|(x' & Sx & <- & Kx')]%(fun H => H k Kx)].
      * rewrite E in Hy. by apply list_elem_of_singleton in Hy as ->.
      * symmetry. by apply (Hcross y x' k).
    + by apply (Hcross x y k).
    + symmetry. by apply (Hcross y x k).
    + by apply (wt_unique _ Hv x y k).
Qed.

(** A statement extends what its transaction has written. *)
Lemma sound_extend d L ws {R} (q : stmt R) others ev :
  let o := q others ev (apply_writes ws d) in
  sound_writes d L ws -> stmt_when evolves q -> typed_stmt q -> sound_writes d (L ++ needed o) (ws ++ oc_writes o).
Proof.
  intros o Hs He Hq. specialize (Hq others ev _ (sd_result _ _ _ Hs)). fold o in Hq.
  assert (Hev : forall w, w ∈ oc_writes o -> evolves (apply_writes ws d) w) by (intros w; apply He).
  split; [|rewrite apply_writes_app; apply typed_apply; [apply Hs|done..]].
  intros w [Hw|Hw]%elem_of_app.
  - destruct (sd_writes _ _ _ Hs w Hw) as (Hl & Hew & Hk). split_and!; [apply elem_of_app; by left|done|].
    intros k Kw. destruct (Hk k Kw); [left; apply elem_of_app; by left|by right].
  - split_and!; [apply elem_of_app; right; by apply needed_covers| |].
    { eapply sw_back; [|by apply Hev]. intros w' Hw'. by apply (sd_writes _ _ _ Hs). }
    intros k Kw. destruct (Hq w Hw) as [_ [(Hin & _)|(x & Sx & Lx & Kx)]%(fun H => H k Kw)].
    + left. apply elem_of_app. right. apply elem_of_app. by left.
    + apply stored_writes in Sx as [Hx|[Sx _]]; [|right; by exists x].
      destruct (sd_writes _ _ _ Hs x Hx) as (_ & _ & [?|(x' & Sx' & Lx' & Kx')]%(fun H => H k Kx));
        [left; apply elem_of_app; by left|right]. exists x'. split_and!; [done|congruence|done].
Qed.

(** ** One goroutine *)

Definition sound_tx (tx : option txst) (d : db) : Prop :=
  forall t, tx = Some t -> sound_writes d (tx_locks t) (tx_writes t).

Definition sound_eff (d : db) (e : eff) : Prop :=
  match e with NoEff => True | Eff L ws => sound_writes d L ws end.

Lemma mk_eff_sound d L ws : sound_writes d L ws -> sound_eff d (mk_eff L ws).
Proof. by destruct ws. Qed.

Lemma sound_tx_none d : sound_tx None d.
Proof. by intros ?. Qed.

Lemma sound_tx_empty t d : well_typed d -> tx_writes t = [] -> sound_tx (Some t) d.
Proof. intros Hd Ht t' [= <-]. rewrite Ht. by apply sound_nil. Qed.

Lemma sound_exec {R} others tk c (q : stmt R) tx d r tx' e :
  well_typed d -> stmt_when evolves q -> typed_stmt q -> sound_tx tx d -> exec_step others tk c q tx d = Some (r, tx', e) ->
  sound_eff d e /\ sound_tx tx' (apply_eff e d).
Proof.
  intros Hd He Hq Htx Hs. unfold exec_step in Hs. destruct c.
  - set (o := q others (Env (tk_now tk) (tk_uuid tk)) d) in Hs.
    destruct (locks_free (needed o) (locks_of tx)) eqn:Hown; [|by simplify_eq]. rewrite locks_free_spec in Hown.
    assert (Ho : sound_writes d (needed o) (oc_writes o))
      by exact (sound_extend d [] [] q others (Env (tk_now tk) (tk_uuid tk)) (sound_nil d [] Hd) He Hq).
    assert (Hw : sound_eff d (effect_of o) /\ sound_tx tx (apply_eff (effect_of o) d)).
    { unfold effect_of. destruct (oc_res o); [done|]. split; [by apply mk_eff_sound|].
      unfold mk_eff. destruct (oc_writes o) eqn:Ew; [done|]. rewrite <- Ew in *. simpl. intros t ->.
      eapply sound_merge; [done|by apply Htx|exact Ho|]. intros x Hx Hin. by eapply Hown. }
    repeat case_match; simplify_eq; by auto.
  - destruct tx as [t|]; [|by simplify_eq].
    assert (Hab : sound_tx (Some (tx_abort t)) d) by by apply sound_tx_empty.
    destruct (tx_aborted t); [by simplify_eq|]. destruct (tk_fault tk); try (by simplify_eq).
    destruct (locks_free _ _); [|done]. destruct (oc_res _); simplify_eq; [done|].
    split; [done|]. intros t' [= <-]. by apply sound_extend; [apply Htx|..].
Qed.

Lemma sound_commit tk tx d r tx' e : sound_tx tx d -> commit_step tk tx = (r, tx', e) -> sound_eff d e /\ tx' = None.
Proof.
  intros Htx Hc. unfold commit_step in Hc. destruct tx as [t|]; [|by simplify_eq].
  pose proof (mk_eff_sound _ _ _ (Htx t eq_refl)). repeat case_match; by simplify_eq.
Qed.

Lemma sound_begin tk tx d r tx' : well_typed d -> sound_tx tx d -> begin_step tk tx = (r, tx') -> sound_tx tx' d.
Proof.
  unfold begin_step. intros Hd Htx Hb. destruct tx as [t|]; [by simplify_eq|].
  destruct (tk_fault tk); simplify_eq; [by apply sound_tx_empty|apply sound_tx_none..].
Qed.

Lemma sound_result d e : well_typed d -> sound_eff d e -> well_typed (apply_eff e d).
Proof. destruct e; [done|]. by intros _ [_ ?]. Qed.

Definition typed_thread {A} (th : thread A) (d : db) : Prop :=
  issues (fun R q => stmt_when evolves q /\ typed_stmt q) (th_prog th) /\ sound_tx (th_tx th) d.

Lemma typed_step {A} others tk (th th' : thread A) d e os :
  well_typed d -> typed_thread th d -> thread_step others tk th d = Some (th', e, os) ->
  typed_thread th' (apply_eff e d) /\ sound_eff d e.
Proof.
  destruct th as [p tx log]. unfold typed_thread, thread_step. simpl. intros Hd [Hp Htx] Hs.
  destruct p; simpl in Hp; try done.
  - destruct (begin_step tk tx) as [r tx'] eqn:E. simplify_eq/=. split_and!; [done|by eapply sound_begin|done].
  - destruct (exec_step _ _ _ _ _ _) as [[[r tx'] e']|] eqn:E; [|done]. simplify_eq/=. destruct Hp as [[Hev Hq] Hk].
    destruct (sound_exec _ _ _ _ _ _ _ _ _ Hd Hev Hq Htx E). by split_and!.
  - destruct (commit_step _ _) as [[r tx'] e'] eqn:E. simplify_eq/=.
    destruct (sound_commit _ _ _ _ _ _ Htx E) as [? ->]. split_and!; [done|apply sound_tx_none|done].
  - simplify_eq/=. split_and!; [done|apply sound_tx_none|done].
  - by simplify_eq/=.
  - by simplify_eq/=.
Qed.
(** ** The statements of the program *)

Lemma typed_silent {R} (q : stmt R) : (forall others ev v, oc_writes (q others ev v) = []) -> typed_stmt q.
Proof. intros Hq others ev v _ w. rewrite Hq. intros Hw. by apply not_elem_of_nil in Hw. Qed.

(** An INSERT: its constraints say that the row fits. *)
Lemma inserting_ok v {R} (cs : list (bool * sqlerr)) (ls : list lock) (r : sqlerr + R) (w : write) :
  ((forall b e, (b, e) ∈ cs -> b = true) ->
     row_ok v w /\ forall k, key_of w = Some k -> k ∈ ls /\ forall x, stored v x -> key_of x <> Some k) ->
  typed_outcome v (guarded cs (Outcome ls r [w])).
Proof.
  induction cs as [|[[] e] l IH]; intros Hr x Hx.
  - simpl in Hx. apply list_elem_of_singleton in Hx as ->. destruct Hr as [Hrow Hk]; [intros b e Hb; by apply not_elem_of_nil in Hb|].
    split; [done|]. intros k Kw. left. destruct (Hk k Kw). by split_and!.
  - apply IH; [|done]. intros Hl. apply Hr. intros b e' [[= -> _]|Hb]%elem_of_cons; [done|by eapply Hl].
  - by apply not_elem_of_nil in Hx.
Qed.

(** An UPDATE of a row that keeps its tenant and its unique value. *)
Lemma updated_ok v L ws x w :
  well_typed v -> stored v x -> lock_of x = lock_of w -> key_of x = key_of w -> tenant_of x = tenant_of w -> columns_ok v w ->
  row_ok v w /\ forall k, key_of w = Some k -> adds_key v L ws w k.
Proof.
  intros Hv Sx Lx Kx Tx Hc. split; [split; [|done]|].
  - rewrite <- Tx. apply (wt_rows _ Hv x Sx).
  - intros k Kw. right. exists x. split_and!; [done..|congruence].
Qed.

(** What the constraints of an INSERT give. *)
Ltac constraints Hc :=
  repeat match type of Hc with
    | forall b e, (b, e) ∈ (?b0, ?e0) :: ?cs -> _ =>
        pose proof (Hc b0 e0 ltac:(apply list_elem_of_here));
        assert (forall b e, (b, e) ∈ cs -> b = true) as Hc'
          by (intros ?? Hin; eapply Hc, list_elem_of_further, Hin);
        clear Hc; rename Hc' into Hc
    end;
  repeat match goal with Hb : has_row _ _ = true |- _ => apply has_row_true in Hb end.

Ltac typed_insert := intros others ev v Hv; apply inserting_ok; intros Hc; constraints Hc.

(** The row of a table of which only the tenant is constrained. *)
Ltac tenant_only := split; [split; [by intros tn' [= <-]|done]|done].

Lemma no_rows_where {V} (P : uuid * V -> Prop) `{!forall p, Decision (P p)} (m : gmap uuid V) i r :
  bool_decide (Auth.rows_where P m = []) = true -> m !! i = Some r -> ~ P (i, r).
Proof.
  rewrite bool_decide_eq_true. unfold Auth.rows_where. intros E Hr HP.
  assert (Hin : (i, r) ∈ filter P (map_to_list m)) by (apply list_elem_of_filter; split; [done|by apply elem_of_map_to_list]).
  rewrite E in Hin. by apply not_elem_of_nil in Hin.
Qed.

Section stmts.
Context `{UuidLib, PgTime}.

Lemma ledger_stmt_typed {R} (q : stmt R) : ledger_stmt R q -> typed_stmt q.
Proof.
  intros [].
  - by apply typed_silent.
  - typed_insert. tenant_only.
  - typed_insert. tenant_only.
  - typed_insert. split; [split; [by intros tn' [= <-]|]|done]. simpl. split_and!; [done..|].
    by apply Z.eqb_neq, negb_true_iff.
  - by apply typed_silent.
  - intros others ev v Hv w. unfold q_update_status. destruct (transactions v !! id) as [r|] eqn:E; [case_decide|];
      intros Hw; simpl in Hw; try by apply not_elem_of_nil in Hw. apply list_elem_of_singleton in Hw as ->.
    by eapply (updated_ok v _ _ (WTransaction id r)).
  - typed_insert. tenant_only.
  - typed_insert. tenant_only.
Qed.

Lemma revoke_where_typed (P : uuid * refresh_token_row -> Prop) `{!forall p, Decision (P p)} :
  typed_stmt (fun _ _ d => Outcome [] (inr tt) (Auth.revoke_where P d)).
Proof.
  intros others ev v Hv w Hw. apply list_elem_of_fmap in Hw as ([i r] & -> & Hp).
  apply list_elem_of_filter in Hp as [[_ Ha] Hp%elem_of_map_to_list]. simpl in Ha, Hp.
  eapply (updated_ok v _ _ (WRefreshToken i r)); try done. simpl.
  destruct (wt_rows _ Hv (WRefreshToken i r) Hp) as [_ [Hu Hr]]. split; [done|].
  destruct (rt_replaced_by r); [destruct Hr; congruence|done].
Qed.

(** A value that no row has. *)
Lemma new_email v tn email k :
  bool_decide (Auth.rows_where (fun p : uuid * user_row => us_tenant_id p.2 = tn /\
    sql_lower (us_email p.2) = sql_lower email) (users v) = []) = true ->
  k = LUnique T_users tn (sql_lower email) -> forall x, stored v x -> key_of x <> Some k.
Proof.
  intros Hb -> x Sx Kx. destruct x as [| | | | | | | |j u|]; try done. injection Kx as Ht He.
  by destruct (no_rows_where _ _ _ _ Hb Sx).
Qed.

Lemma new_hash v h k :
  bool_decide (Auth.rows_where (fun p : uuid * refresh_token_row => rt_token_hash p.2 = h) (refresh_tokens v) = []) = true ->
  k = LUnique T_refresh_tokens Auth.no_scope h -> forall x, stored v x -> key_of x <> Some k.
Proof.
  intros Hb -> x Sx Kx. destruct x as [| | | | | | | | |j r]; try done. injection Kx as Ht.
  by destruct (no_rows_where _ _ _ _ Hb Sx).
Qed.

Lemma new_key v tn key k :
  Idempotency.find_key v tn key = None -> k = LUnique T_idempotency_keys tn key -> forall x, stored v x -> key_of x <> Some k.
Proof.
  unfold Idempotency.find_key. intros Hf%head_None -> x Sx Kx. destruct x as [| | | |j r| | | | |]; try done.
  injection Kx as Ht Hk. eapply (no_rows_where (fun p : uuid * idempotency_row => ik_tenant_id p.2 = tn /\ ik_key p.2 = key));
    [by apply bool_decide_eq_true|exact Sx|done].
Qed.

Lemma request_stmt_typed {R} (q : stmt R) : request_stmt R q -> typed_stmt q.
Proof.
  intros [].
  - by apply ledger_stmt_typed.
  - typed_insert. split; [split; [by intros tn' [= <-]|done]|]. intros k [= <-]. split; [left|by eapply new_email].
  - typed_insert. split; [split; [done|split; [by eapply bool_decide_eq_true|done]]|].
    intros k [= <-]. split; [left|by eapply new_hash].
  - intros others ev v Hv w. unfold Auth.q_rotate. destruct (refresh_tokens v !! i) as [r|] eqn:E; [case_decide as Hd|];
      try (intros Hw; by apply not_elem_of_nil in Hw). intros Hw. pose proof Hw as [Hw' Hc]%guarded_writes.
    simpl in Hw'. apply list_elem_of_singleton in Hw' as ->. eapply (updated_ok v _ _ (WRefreshToken i r)); try done. simpl.
    destruct (wt_rows _ Hv (WRefreshToken i r) E) as [_ [Hu _]]. split_and!; [done..|].
    apply has_row_true. eapply Hc. left.
  - apply revoke_where_typed.
  - apply revoke_where_typed.
  - intros others ev v Hv. unfold Idempotency.q_claim. destruct (Idempotency.find_key v tn k) as [[i r]|] eqn:E.
    + apply found_key in E as (Hr & Htn & Hk). intros w. destruct (_ <? _)%Z; intros Hw; simpl in Hw; [|by apply not_elem_of_nil in Hw].
      apply list_elem_of_singleton in Hw as ->. eapply (updated_ok v _ _ (WIdempotency i r)); try done; simpl; congruence.
    + apply inserting_ok. intros Hc. constraints Hc. split; [split; [by intros tn' [= <-]|done]|].
      intros l [= <-]. split; [left|by eapply new_key].
  - intros others ev v Hv w. unfold Idempotency.q_complete. destruct (Idempotency.find_key v tn k) as [[i r]|] eqn:E;
      [apply found_key in E as (Hr & Htn & Hk); case_decide|]; intros Hw; simpl in Hw; try by apply not_elem_of_nil in Hw.
    apply list_elem_of_singleton in Hw as ->. by eapply (updated_ok v _ _ (WIdempotency i r)).
  - typed_insert. by split.
Qed.

Lemma update_event_typed i f :
  (forall r, ev_tenant_id (f r) = ev_tenant_id r) -> typed_stmt (fun _ _ d => Outcome [] (inr tt) (update_event i f d)).
Proof.
  intros Hf others ev v Hv w Hw. simpl in Hw. unfold update_event in Hw.
  destruct (webhook_events v !! i) as [r|] eqn:E; [|by apply not_elem_of_nil in Hw].
  apply list_elem_of_singleton in Hw as ->. eapply (updated_ok v _ _ (WEvent i r)); try done. simpl. by rewrite Hf.
Qed.

Lemma program_stmt_typed {R} (q : stmt R) : program_stmt R q -> typed_stmt q.
Proof.
  intros [].
  - by apply request_stmt_typed.
  - intros others ev v Hv w Hw. simpl in Hw. rewrite <- list_fmap_compose in Hw.
    apply list_elem_of_fmap in Hw as ([i r] & -> & Hp%claimed_row). by eapply (updated_ok v _ _ (WEvent i r)).
  - by apply update_event_typed.
  - by apply update_event_typed.
  - typed_insert. tenant_only.
  - by apply update_event_typed.
Qed.
End stmts.
End schema.
