(* ===== verification/Alone.v ===== *)
(** * Programs alone, when nothing fails

    What a program answers when it runs alone, no database call fails and the
    identifiers the database draws are new: a weakest precondition over [run]
    ([alone]) with one rule per construct. The logic of ProgFacts.v says what a
    call may do; this one says that it does it. [decided why] is the form of the
    postconditions: the cause of an error must be the reason [why] not to go on
    that the specification gives. *)

From S2P Require Import Prelude GoBase Db Prog ProgFacts Interfaces Queue AuditLog Webhook Schema.

(** ** An environment without accidents *)

(** The identifiers drawn from position [n] on name no row of [d]. *)
Definition unused_from (orc : nat -> tick) (n : nat) (d : db) : Prop :=
  forall m tb, (n <= m)%nat -> absent d (LRow tb (tk_uuid (orc m))).

(** No call fails and no identifier is drawn twice. *)
Record calm (orc : nat -> tick) : Prop := Calm {
  calm_faults : no_faults orc;
  calm_ids : forall m n, tk_uuid (orc m) = tk_uuid (orc n) -> m = n
}.

(** A write creates a row under the drawn identifier or updates an existing one. *)
Definition new_or_present (i : uuid) (d : db) (w : write) : Prop :=
  exists tb j, lock_of w = LRow tb j /\ (j = i \/ ~ absent d (LRow tb j)).

Section alone.
Context (orc : nat -> tick) (Horc : calm orc).

Definition alone {A} (p : prog A) (w : world) (Q : A -> world -> Prop) : Prop :=
  exists a w', run p orc w = Some (a, w') /\ Q a w'.

(** Outside transactions. *)
Record idle (d : db) (w : world) : Prop := Idle {
  id_tx : w_tx w = None;
  id_db : w_db w = d;
  id_unused : unused_from orc (w_pos w) d
}.

(** Inside a transaction that is not aborted and sees the rows of [v]. *)
Record inside (v : db) (w : world) : Prop := Inside {
  in_open : exists t, w_tx w = Some t /\ tx_aborted t = false /\ apply_writes (tx_writes t) (w_db w) = v /\
    exists m, tx_start t = tk_now (orc m);
  in_unused : unused_from orc (w_pos w) v
}.

(** What a statement of such a transaction gets from its environment. *)
Record drawn (v : db) (ev : env) : Prop := Drawn {
  dr_unused : forall tb, absent v (LRow tb (e_uuid ev));
  dr_now : exists m, e_now ev = tk_now (orc m)
}.

Definition decided (why : option goerr) {A} (Q : A -> world -> Prop) (r : goerr + A) (w : world) : Prop :=
  match r with
  | inl e => why = Some (cause e)
  | inr a => Q a w
  end.

(** ** Rules *)

Lemma alone_ret {A} (a : A) w (Q : A -> world -> Prop) : Q a w -> alone (Ret a) w Q.
Proof. intros HQ. by exists a, w. Qed.

Lemma alone_mono {A} (p : prog A) w (Q Q' : A -> world -> Prop) :
  alone p w Q -> (forall a w', Q a w' -> Q' a w') -> alone p w Q'.
Proof. intros (a & w' & Hr & HQ) HQ'. exists a, w'. auto. Qed.

Lemma alone_bind {A B} (p : prog A) (f : A -> prog B) w Q :
  alone p w (fun a w' => alone (f a) w' Q) -> alone (bind p f) w Q.
Proof. intros (a & w' & Hr & b & w'' & Hf & HQ). exists b, w''. by rewrite run_bind, Hr. Qed.

Lemma alone_ebind why {A B} (p : prog (goerr + A)) (f : A -> prog (goerr + B)) w Q :
  alone p w (decided why (fun a w' => alone (f a) w' (decided why Q))) ->
  alone (ebind p f) w (decided why Q).
Proof.
  intros Hp. apply alone_bind. eapply alone_mono; [exact Hp|].
  intros [e|a] w' Ha; [by apply alone_ret|exact Ha].
Qed.

Lemma alone_wrap why {A} pre (p : prog (goerr + A)) w Q :
  alone p w (decided why Q) -> alone (wrap_err pre p) w (decided why Q).
Proof.
  intros Hp. apply alone_bind. eapply alone_mono; [exact Hp|]. intros [e|a] w' Ha; by apply alone_ret.
Qed.

Lemma alone_err why e {A} w (Q : A -> world -> Prop) : why = Some (cause e) -> alone (Ret (inl e)) w (decided why Q).
Proof. intros Hw. by apply alone_ret. Qed.

(** An answer of the environment other than a database call's. *)
Lemma alone_ask {R A} (q : tick -> R) (k : R -> prog A) w Q :
  (forall m w', alone (k (q (orc m))) w' Q) -> alone (Ask q k) w Q.
Proof. intros Hk. by eapply (Hk (w_pos w)). Qed.

Lemma unused_later m n d : (m <= n)%nat -> unused_from orc m d -> unused_from orc n d.
Proof. intros Hle Hu k tb Hk. apply Hu. lia. Qed.

Lemma alone_ask_idle {R A} (q : tick -> R) (k : R -> prog A) d w Q :
  idle d w -> (forall w', idle d w' -> alone (k (q (orc (w_pos w)))) w' Q) -> alone (Ask q k) w Q.
Proof.
  intros [Htx Hd Hu] Hk. eapply Hk. split; [exact Htx|exact Hd|]. eapply unused_later; [|exact Hu]. simpl. lia.
Qed.

Lemma alone_ask_inside {R A} (q : tick -> R) (k : R -> prog A) v w Q :
  inside v w -> (forall m w', inside v w' -> alone (k (q (orc m))) w' Q) -> alone (Ask q k) w Q.
Proof.
  intros [Ho Hu] Hk. eapply (Hk (w_pos w)). split; [exact Ho|]. eapply unused_later; [|exact Hu]. simpl. lia.
Qed.

(** *** Database calls *)

Lemma unused_step i n v ws :
  unused_from orc n v -> i = tk_uuid (orc n) -> (forall w, w ∈ ws -> new_or_present i v w) ->
  unused_from orc (S n) (apply_writes ws v).
Proof.
  intros Hv -> Hws m tb Hm.
  apply (absent_frame [LRow tb (tk_uuid (orc m))] v); [|left|apply Hv; lia].
  apply apply_writes_frame. intros w Hw Hin%list_elem_of_singleton.
  destruct (Hws w Hw) as (tb' & j & El & Hj). rewrite El in Hin. simplify_eq.
  destruct Hj as [Hj|Hj]; [apply (calm_ids _ Horc) in Hj; lia|]. apply Hj, Hv. lia.
Qed.

(** A statement of the transaction: it sees [v] and draws an unused identifier. *)
Lemma alone_exec {R A} (q : stmt R) (k : sqlerr + R -> prog A) v w Q :
  inside v w ->
  (forall ev, drawn v ev ->
     let o := q [] ev v in
     (forall x, x ∈ oc_writes o -> new_or_present (e_uuid ev) v x) /\
     match oc_res o with
     | inl e => forall w', alone (k (inl e)) w' Q
     | inr r => forall w', inside (apply_writes (oc_writes o) v) w' -> alone (k (inr r)) w' Q
     end) ->
  alone (Exec OnTx q k) w Q.
Proof.
  intros [(t & Htx & Hab & Hv & Ht) Hu] Hq. specialize (Hq (Env (tx_start t) (tk_uuid (orc (w_pos w))))).
  destruct Hq as [Hws Hk]; [split; [intros tb; by apply Hu|exact Ht]|]. unfold alone in Hk |- *. cbn [run].
  rewrite Htx. simpl. rewrite Hab, (calm_faults _ Horc), locks_free_nil, Hv. simpl in Hws, Hk.
  destruct (oc_res (q [] _ v)) as [e|r]; apply Hk.
  split; simpl; [|by eapply unused_step].
  eexists. split; [done|]. simpl. split; [done|]. split; [by rewrite apply_writes_app, Hv|exact Ht].
Qed.

Lemma alone_begin d w Q : idle d w -> (forall w', inside d w' -> Q (inr tt) w') -> alone sql_begin w Q.
Proof.
  intros [Htx Hd Hu] HQ. eexists _, _. split; [by apply run_begin; [apply Horc|]|]. apply HQ. split; simpl.
  - eexists. split; [done|]. split; [done|]. split; [done|]. by eexists.
  - eapply unused_later; [|exact Hu]. lia.
Qed.

Lemma alone_commit v w Q : inside v w -> (forall w', Q (inr tt) w') -> alone sql_commit w Q.
Proof.
  intros [(t & Htx & Hab & _) _] HQ. destruct (run_commit orc w t) as (w' & Hr & _); [apply Horc|done..|].
  by exists (inr tt), w'.
Qed.

Lemma alone_defer {A} (p : prog A) w (Q : A -> Prop) :
  alone p w (fun a _ => Q a) -> alone (defer_rollback p) w (fun a _ => Q a).
Proof. intros (a & w' & Hr & HQ). exists a, (advance w' None). split; [by apply run_defer_rollback|done]. Qed.

Lemma idle_start d : unused_from orc 0 d -> idle d (world_of d).
Proof. by split. Qed.

(** A transaction from BEGIN on. *)
Lemma alone_transaction why {A} pre (body : prog (goerr + A)) d w0 (Q : A -> Prop) :
  idle d w0 ->
  (forall w, inside d w -> alone body w (decided why (fun a _ => Q a))) ->
  alone (ebind (wrap_err pre sql_begin) (fun _ => defer_rollback body)) w0 (decided why (fun a _ => Q a)).
Proof.
  intros Hidle Hb. apply alone_ebind, alone_wrap. eapply alone_begin; [exact Hidle|].
  intros w Hw. simpl. apply (alone_defer body w (fun r => decided why (fun a _ => Q a) r w)).
  eapply alone_mono; [by apply Hb|]. intros [e|a] w' Ha; exact Ha.
Qed.

(** *** Queries and insertions *)

Lemma alone_select {R A} (f : db -> R) (k : sqlerr + R -> prog A) v w Q :
  inside v w -> (forall w', inside v w' -> alone (k (inr (f v))) w' Q) -> alone (Exec OnTx (select f) k) w Q.
Proof.
  intros Hin Hk. eapply alone_exec; [done|]. intros ev _. split; [|exact Hk].
  simpl. intros x Hx. by apply not_elem_of_nil in Hx.
Qed.

(** A query outside transactions. *)
Lemma alone_query {R A} (f : db -> R) (k : sqlerr + R -> prog A) d w Q :
  idle d w -> (forall w', idle d w' -> alone (k (inr (f d))) w' Q) -> alone (Exec OnDb (select f) k) w Q.
Proof.
  intros [Htx Hd Hu] Hk. unfold alone in Hk |- *. cbn [run]. unfold exec_step. cbn [needed select oc_locks oc_writes app fmap list_fmap].
  rewrite (calm_faults _ Horc). simpl. rewrite Hd. apply Hk. split; simpl; [exact Htx|done|].
  eapply unused_later; [|exact Hu]. lia.
Qed.

(** An update outside transactions, the last thing that matters. *)
Lemma alone_update {R A} (q : stmt R) (k : sqlerr + R -> prog A) d w r Q :
  idle d w -> (forall ev, oc_res (q [] ev d) = inr r) -> (forall w', alone (k (inr r)) w' Q) -> alone (Exec OnDb q k) w Q.
Proof.
  intros [Htx Hd Hu] Hr Hk. unfold alone in Hk |- *. cbn [run]. unfold exec_step.
  rewrite Htx, (calm_faults _ Horc), Hd, !locks_free_nil, Hr. apply Hk.
Qed.

(** A statement that inserts [x ev] when its constraints hold. *)
Lemma alone_insert {R A} cs (L : env -> list lock) (r : env -> R) (x : env -> write) (k : sqlerr + R -> prog A) v w Q :
  inside v w ->
  (forall ev, exists tb, lock_of (x ev) = LRow tb (e_uuid ev)) ->
  (forall ev, drawn v ev ->
     (forall b e, (b, e) ∈ cs ev v -> b = true) /\
     forall w', inside (apply_write (x ev) v) w' -> alone (k (inr (r ev))) w' Q) ->
  alone (Exec OnTx (fun _ ev d => guarded (cs ev d) (Outcome (L ev) (inr (r ev)) [x ev])) k) w Q.
Proof.
  intros Hin Hx Hk. eapply alone_exec; [done|]. intros ev Hev. destruct (Hk ev Hev) as [Hcs HQ]. simpl.
  assert (E : guarded (cs ev v) (Outcome (L ev) (inr (r ev)) [x ev]) = Outcome (L ev) (inr (r ev)) [x ev]).
  { clear -Hcs. induction (cs ev v) as [|[b e] l IH]; [done|]. simpl.
    rewrite (Hcs b e) by left. apply IH. intros b' e' ?. apply (Hcs b' e'). by right. }
  rewrite E. split; [|exact HQ]. intros y ->%list_elem_of_singleton.
  destruct (Hx ev) as [tb Htb]. exists tb, (e_uuid ev). auto.
Qed.
End alone.

(** Tenants stay. *)
Lemma tenant_kept ws d i : is_Some (tenants d !! i) -> is_Some (tenants (apply_writes ws d) !! i).
Proof.
  revert d. induction ws as [|w ws IH]; intros d Hi; [done|]. rewrite apply_writes_cons. apply IH. destruct w; try done.
  simpl. destruct (decide (i0 = i)) as [->|]; [rewrite lookup_insert_eq; by eexists|by rewrite lookup_insert_ne].
Qed.

(** ** The interfaces of the ledger, when nothing fails *)

Section interfaces.
Context (orc : nat -> tick).

(** The call succeeds for an existing tenant, and leaves the tenants alone. *)
Definition succeeds (tenantID : uuid) (p : prog (goerr + unit)) : Prop :=
  forall why v w Q, inside orc v w -> is_Some (tenants v !! tenantID) ->
    (forall v' w', inside orc v' w' -> tenants v' = tenants v -> Q tt w') ->
    alone orc p w (decided why Q).
End interfaces.

Class EventEnqueuerAnswers (E : EventEnqueuer) : Prop :=
  enqueue_event_answers : forall orc tenantID eventType payload,
    calm orc -> succeeds orc tenantID (EnqueueEvent E tenantID eventType payload).

Class AuditRecorderAnswers (R : AuditRecorder) : Prop :=
  record_audit_answers : forall orc tenantID actorID action payload,
    calm orc -> succeeds orc tenantID (RecordAudit R tenantID actorID action payload).

Lemma absent_row {V} (m : gmap uuid V) i : m !! i = None -> negb (has_row m i) = true.
Proof. intros E. unfold has_row. by rewrite bool_decide_eq_false_2 by (rewrite E; by intros [? ?]). Qed.

Lemma present_row {V} (m : gmap uuid V) i : is_Some (m !! i) -> has_row m i = true.
Proof. intros Hs. by apply bool_decide_eq_true. Qed.

#[export] Instance Enqueuer_answers : EventEnqueuerAnswers Enqueuer.
Proof.
  intros orc tn et pl Horc why v w Q Hin Htn HQ. unfold Enqueuer, EnqueueEvent, repo_EnqueueEvent, repo_Enqueue, Enqueue.
  do 2 (apply alone_ebind; try apply alone_wrap). apply alone_ebind, alone_wrap.
  unfold sql_row, q_enqueue. eapply (alone_insert orc Horc (fun _ _ => _)); [done|by eexists|].
  intros ev Hev. split; [|].
  - intros b e. set_unfold. intros [[= -> _]|[[= -> _]|[]]]; [apply absent_row, (dr_unused _ _ _ Hev T_webhook_events)|by apply present_row].
  - intros w' Hin'. repeat (apply alone_ret; simpl). by eapply HQ.
Qed.

#[export] Instance Recorder_answers : AuditRecorderAnswers Recorder.
Proof.
  intros orc tn actor action pl Horc why v w Q Hin Htn HQ. unfold Recorder, RecordAudit, repo_RecordAudit.
  apply alone_wrap. unfold sql_exec, q_record_audit. eapply (alone_insert orc Horc (fun _ _ => _)); [done|by eexists|].
  intros ev Hev. split; [|].
  - intros b e. set_unfold. intros [[= -> _]|[[= -> _]|[]]]; [apply absent_row, (dr_unused _ _ _ Hev T_audit_log)|by apply present_row].
  - intros w' Hin'. repeat (apply alone_ret; simpl). by eapply HQ.
Qed.

(** ** Unused identifiers, by a check *)

(** Every identifier in use is below [b]. *)
Definition ids_below (b : N) (d : db) : bool :=
  forallb (fun w => match lock_of w with LRow _ i => (i <? b)%N | LUnique _ _ _ => false end) (rows d).

Lemma ids_below_unused b orc d : ids_below b d = true -> (forall n, b <= tk_uuid (orc n))%N -> unused_from orc 0 d.
Proof.
  intros Hb Horc m tb _. assert (Hst : forall w, stored d w -> lock_of w <> LRow tb (tk_uuid (orc m))).
  { intros w Hw El. unfold ids_below in Hb. rewrite forallb_forall in Hb.
    specialize (Hb w (proj1 (list_elem_of_In _ _) (proj2 (elem_of_rows d w) Hw))). rewrite El in Hb.
    apply N.ltb_lt in Hb. specialize (Horc m). lia. }
  set (i := tk_uuid (orc m)) in *.
  destruct tb; simpl; (destruct (_ !! i) as [r|] eqn:E; [exfalso|done]).
  - exact (Hst (WTenant i r) E eq_refl).
  - exact (Hst (WAccount i r) E eq_refl).
  - exact (Hst (WTransaction i r) E eq_refl).
  - exact (Hst (WEntry i r) E eq_refl).
  - exact (Hst (WIdempotency i r) E eq_refl).
  - exact (Hst (WEvent i r) E eq_refl).
  - exact (Hst (WDeadLetter i r) E eq_refl).
  - exact (Hst (WAudit i r) E eq_refl).
  - exact (Hst (WUser i r) E eq_refl).
  - exact (Hst (WRefreshToken i r) E eq_refl).
Qed.
