(* ===== verification/System.v ===== *)
(** * The whole program respects the ledger's abstract machine

    The whole program is a fleet of processes (Worker.v): each serves requests
    and runs the webhook worker, and tenants are created meanwhile. Every one of
    these operations changes the database only by steps of LedgerSpec.v. So
    whatever runs concurrently, the database moves along a path of the abstract
    machine. *)

From S2P Require Import Prelude GoBase Db Prog ProgFacts Interfaces Queue AuditLog Ledger.
From S2P Require Import LedgerSpec LedgerWp LedgerFacts LedgerRefine Adapters Quiet.
From S2P Require Import Webhook Worker WebhookWp WorkerWp Statements Writes.
From S2P Require Auth Http Webhook Idempotency Tenants AuthMw Handlers Router.
Local Open Scope go_scope.

(** ** What processes do besides running the webhook worker *)

Section System.
Context `{UuidLib, DriverText, Crypto, PgTime, SqlLower, JsonText, Auth.Bcrypt, Auth.Jwt,
          Handlers.Decoder, Handlers.Encoder, Router.Chi, FloatConv, HttpLib}.

(** A request to one of the processes, or a run of scripts/create_tenant. *)
Inductive visitor :=
  | Serve (jwtSecret abortHandler : string) (r : Http.Request)
  | CreateTenant (name : string).

Definition visitor_prog (v : visitor) : prog unit :=
  match v with
  | Serve jwtSecret abortHandler r => let* _ := Router.app jwtSecret abortHandler r in Ret tt
  | CreateTenant name => let* _ := Tenants.create_tenant name in Ret tt
  end.
End System.

(** ** Quiet operations *)

Lemma quiet_begin_bind {A} (f : goerr + unit -> prog A) b b' :
  quiet true (f (inr tt)) b' -> (forall e, quiet b (f (inl e)) b') -> quiet b (bind sql_begin f) b'.
Proof. intros H1 H2. simpl. split; [done|]. intros e. apply H2. Qed.

(** Follows the structure of a program; statements are left to [auto]. *)
Ltac quiet_tac :=
  repeat match goal with
    | |- quiet _ (let '(_, _) := ?x in _) _ => destruct x
    | |- quiet _ (ebind (wrap_err _ sql_begin) (fun _ => defer_rollback _)) _ => apply quiet_transaction
    | |- quiet ?b (ebind _ _) ?b' => apply (quiet_ebind _ _ b b b'); [|by auto|intros ?]
    | |- quiet _ (bind sql_begin _) _ => apply quiet_begin_bind; [|intros ?]
    | |- quiet ?b (bind sql_commit _) ?b' => apply (quiet_bind _ _ b false b'); [apply quiet_commit|intros ?]
    | |- quiet ?b (bind _ _) ?b' => apply (quiet_bind _ _ b b b'); [|intros ?]
    | |- quiet _ (defer_rollback _) _ => eapply quiet_defer
    | |- quiet _ (Rollback _) _ => simpl
    | |- quiet _ (wrap_err _ _) _ => apply quiet_wrap
    | |- quiet _ sql_commit _ => apply quiet_commit
    | |- quiet _ (sql_exec _ _) _ => apply quiet_exec
    | |- quiet _ (sql_row _ _) _ => apply quiet_row
    | |- quiet _ (emit _) _ => apply quiet_emit
    | |- quiet _ (ask _) _ => apply quiet_ask
    | |- quiet _ time_Now _ => apply quiet_ask
    | |- quiet _ (Ret _) _ => simpl; first [done | by auto | by intros; discriminate]
    | |- quiet_stmt _ => first [by auto with quiet | apply quiet_select]
    | |- quiet _ (match ?x with _ => _ end) _ => destruct x
    | |- _ => by auto with quiet
    end.

Create HintDb quiet.

Lemma quiet_inserting {R} (cs : env -> db -> list (bool * sqlerr)) (ls : list lock) (r : env -> R)
    (w : env -> write) :
  (forall ev d, (forall b e, (b, e) ∈ cs ev d -> b = true) -> quiet_write d (w ev)) ->
  quiet_stmt (fun _ ev d => guarded (cs ev d) (Outcome ls (inr (r ev)) [w ev])).
Proof.
  intros H others ev d x [Hx Hc]%guarded_writes. simpl in Hx. apply list_elem_of_singleton in Hx.
  subst. by apply H.
Qed.

Lemma update_event_quiet i f d w :
  (forall r, same_event r (f r)) -> w ∈ update_event i f d -> quiet_write d w.
Proof.
  intros Hf. unfold update_event. destruct (webhook_events d !! i) as [r|] eqn:E;
    [|intros Hw; by apply not_elem_of_nil in Hw].
  intros Hw%list_elem_of_singleton. subst w. simpl. intros e He. rewrite E in He. simplify_eq. apply Hf.
Qed.

Section quiet_ops.
Context `{UuidLib}.

Lemma q_enqueue_quiet tn jt pl : quiet_stmt (q_enqueue tn jt pl).
Proof.
  refine (quiet_inserting _ _ _ _ _). intros ev d Hc. simpl. intros e He. exfalso.
  assert (Hn : webhook_events d !! e_uuid ev = None) by (apply has_row_false; eapply Hc; left).
  congruence.
Qed.

Lemma q_record_audit_quiet tn ac an pl : quiet_stmt (q_record_audit tn ac an pl).
Proof.
  refine (quiet_inserting _ _ _ _ _). intros ev d Hc. simpl. apply has_row_false. eapply Hc. left.
Qed.

Lemma q_claim_pending_quiet n : quiet_stmt (q_claim_pending n).
Proof.
  intros others ev d w Hw. simpl in Hw. rewrite <- list_fmap_compose in Hw.
  apply list_elem_of_fmap in Hw as ([i r] & -> & Hin). simpl. intros e He.
  unfold claimable in Hin. apply elem_of_take in Hin as (k & Hk & _).
  apply list_elem_of_lookup_2 in Hk. apply list_elem_of_filter in Hk as [_ Hk].
  rewrite merge_sort_Permutation in Hk. apply list_elem_of_filter in Hk as [_ Hk].
  apply elem_of_map_to_list in Hk. rewrite He in Hk. by simplify_eq.
Qed.

Lemma q_mark_delivered_quiet i : quiet_stmt (q_mark_delivered i).
Proof. intros others ev d w. by apply update_event_quiet. Qed.

Lemma q_schedule_retry_quiet i n t e : quiet_stmt (q_schedule_retry i n t e).
Proof. intros others ev d w. by apply update_event_quiet. Qed.

Lemma q_insert_dead_letter_quiet j e : quiet_stmt (q_insert_dead_letter j e).
Proof. by refine (quiet_inserting _ _ _ _ _). Qed.

Lemma q_mark_failed_quiet i e : quiet_stmt (q_mark_failed i e).
Proof. intros others ev d w. by apply update_event_quiet. Qed.
End quiet_ops.

#[export] Hint Resolve q_enqueue_quiet q_record_audit_quiet q_claim_pending_quiet q_mark_delivered_quiet
  q_schedule_retry_quiet q_insert_dead_letter_quiet q_mark_failed_quiet : quiet.

(** ** Auth, idempotency, tenants *)

Section auth_ops.
Context `{UuidLib, DriverText, Crypto, PgTime, SqlLower, Auth.Bcrypt, Auth.Jwt}.

Lemma q_create_user_quiet tn ro em pw : quiet_stmt (Auth.q_create_user tn ro em pw).
Proof. by refine (quiet_inserting _ _ _ _ _). Qed.

Lemma q_create_refresh_token_quiet u tn h e : quiet_stmt (Auth.q_create_refresh_token u tn h e).
Proof. by refine (quiet_inserting _ _ _ _ _). Qed.

Lemma revoke_where_quiet (P : uuid * refresh_token_row -> Prop) `{!forall p, Decision (P p)} d w :
  w ∈ Auth.revoke_where P d -> quiet_write d w.
Proof. unfold Auth.revoke_where. intros (p & -> & _)%list_elem_of_fmap. done. Qed.

Lemma q_revoke_quiet i : quiet_stmt (Auth.q_revoke i).
Proof. intros others ev d w. apply revoke_where_quiet. Qed.

Lemma q_revoke_all_quiet i : quiet_stmt (Auth.q_revoke_all i).
Proof. intros others ev d w. apply revoke_where_quiet. Qed.

Lemma q_rotate_quiet i j : quiet_stmt (Auth.q_rotate i j).
Proof.
  intros others ev d w. unfold Auth.q_rotate. repeat case_match; intros Hw;
    try (apply guarded_writes in Hw as [Hw _]; simpl in Hw); try by apply not_elem_of_nil in Hw.
  apply list_elem_of_singleton in Hw. by subst.
Qed.
End auth_ops.

#[export] Hint Resolve q_create_user_quiet q_create_refresh_token_quiet q_revoke_quiet q_revoke_all_quiet
  q_rotate_quiet : quiet.

Section auth_progs.
Context `{UuidLib, DriverText, Crypto, PgTime, SqlLower, Auth.Bcrypt, Auth.Jwt}.
Local Abbreviation authSvc := Router.authSvc.

Lemma recordAudit_quiet k tn ac an pl b : quiet b (Auth.recordAudit (authSvc k) tn ac an pl) b.
Proof. unfold Auth.recordAudit. simpl. unfold repo_RecordAudit. quiet_tac. Qed.

Lemma generateRawToken_quiet b : quiet b Auth.generateRawToken b.
Proof. unfold Auth.generateRawToken. quiet_tac. Qed.

Lemma generateAccessToken_quiet k u b : quiet b (Auth.generateAccessToken (authSvc k) u) b.
Proof. unfold Auth.generateAccessToken. quiet_tac. Qed.

Lemma CreateRefreshToken_quiet c u tn h ttl b : quiet b (Auth.CreateRefreshToken c u tn h ttl) b.
Proof. unfold Auth.CreateRefreshToken. quiet_tac. Qed.

Hint Resolve recordAudit_quiet generateRawToken_quiet generateAccessToken_quiet
  CreateRefreshToken_quiet : quiet.

Lemma GetRefreshTokenByHash_quiet c h b : quiet b (Auth.GetRefreshTokenByHash c h) b.
Proof. unfold Auth.GetRefreshTokenByHash. quiet_tac. Qed.

Lemma scanUser_quiet p b : quiet b p b -> quiet b (Auth.scanUser p) b.
Proof. intros Hp. unfold Auth.scanUser. quiet_tac. Qed.

Hint Resolve GetRefreshTokenByHash_quiet scanUser_quiet : quiet.

Lemma GetUserByEmail_quiet c tn e b : quiet b (Auth.GetUserByEmail c tn e) b.
Proof. unfold Auth.GetUserByEmail. apply scanUser_quiet. quiet_tac. Qed.

Lemma GetUserByID_quiet c tn e b : quiet b (Auth.GetUserByID c tn e) b.
Proof. unfold Auth.GetUserByID. apply scanUser_quiet. quiet_tac. Qed.

Lemma CreateUser_quiet c tn ro e pw b : quiet b (Auth.CreateUser c tn ro e pw) b.
Proof. unfold Auth.CreateUser. quiet_tac. Qed.

Hint Resolve GetUserByEmail_quiet GetUserByID_quiet CreateUser_quiet : quiet.

Lemma issueTokenPair_quiet k c u b : quiet b (Auth.issueTokenPair (authSvc k) c u) b.
Proof. unfold Auth.issueTokenPair. quiet_tac. Qed.

Lemma Revoke_quiet c i b : quiet b (Auth.RevokeRefreshToken c i) b.
Proof. unfold Auth.RevokeRefreshToken. quiet_tac. Qed.

Lemma RevokeAll_quiet c i b : quiet b (Auth.RevokeAllUserRefreshTokens c i) b.
Proof. unfold Auth.RevokeAllUserRefreshTokens. quiet_tac. Qed.

Lemma Rotate_quiet i j b : quiet b (Auth.RotateRefreshToken i j) b.
Proof. unfold Auth.RotateRefreshToken. quiet_tac. Qed.

Hint Resolve issueTokenPair_quiet Revoke_quiet RevokeAll_quiet Rotate_quiet : quiet.

Lemma Register_quiet k tn ro e pw : quiet false (Auth.Register (authSvc k) tn ro e pw) false.
Proof. unfold Auth.Register. quiet_tac. Qed.

Lemma Login_quiet k tn e pw : quiet false (Auth.Login (authSvc k) tn e pw) false.
Proof. unfold Auth.Login. quiet_tac. Qed.

Lemma Refresh_quiet k raw : quiet false (Auth.Refresh (authSvc k) raw) false.
Proof. unfold Auth.Refresh. quiet_tac. Qed.

Lemma Logout_quiet k raw : quiet false (Auth.Logout (authSvc k) raw) false.
Proof. unfold Auth.Logout. quiet_tac. Qed.

Lemma ValidateAccessToken_quiet s t : quiet false (Auth.ValidateAccessToken s t) false.
Proof. unfold Auth.ValidateAccessToken. quiet_tac. Qed.

Lemma GetUserPermissions_quiet tn u : quiet false (Auth.GetUserPermissions tn u) false.
Proof. unfold Auth.GetUserPermissions, Auth.repo_GetUserPermissions. quiet_tac. Qed.

Lemma GetRoleByName_quiet n : quiet false (Auth.GetRoleByName OnDb n) false.
Proof. unfold Auth.GetRoleByName. quiet_tac. Qed.

Lemma VerifyAPIKey_quiet k : quiet false (Tenants.VerifyAPIKey OnDb k) false.
Proof. unfold Tenants.VerifyAPIKey. quiet_tac. Qed.

Lemma create_tenant_quiet n : quiet false (Tenants.create_tenant n) false.
Proof.
  unfold Tenants.create_tenant, Tenants.generateAPIKey.
  assert (Hq : forall h, quiet_stmt (Tenants.q_create_tenant n h)) by (intros; by refine (quiet_inserting _ _ _ _ _)).
  quiet_tac.
Qed.

Lemma q_claim_quiet tn k h now e : quiet_stmt (Idempotency.q_claim tn k h now e).
Proof.
  intros others ev d w. unfold Idempotency.q_claim. repeat case_match; intros Hw;
    try (apply guarded_writes in Hw as [Hw _]); simpl in Hw;
    try (by apply not_elem_of_nil in Hw); apply list_elem_of_singleton in Hw; by subst.
Qed.

Lemma q_complete_quiet tn k c b e t : quiet_stmt (Idempotency.q_complete tn k c b e t).
Proof.
  intros others ev d w. unfold Idempotency.q_complete. repeat case_match; intros Hw; simpl in Hw;
    try (by apply not_elem_of_nil in Hw); apply list_elem_of_singleton in Hw; by subst.
Qed.

Hint Resolve q_claim_quiet q_complete_quiet : quiet.

Lemma ClaimOrGet_quiet tn k h l : quiet false (Idempotency.ClaimOrGet tn k h l) false.
Proof. unfold Idempotency.ClaimOrGet, Idempotency.Get. quiet_tac. Qed.

Lemma Complete_quiet tn k c b ttl t : quiet false (Idempotency.Complete tn k c b ttl t) false.
Proof. unfold Idempotency.Complete. quiet_tac. Qed.

Lemma complete_attempts_quiet f n tn k c b ttl t :
  quiet false (Idempotency.complete_attempts f n tn k c b ttl t) false.
Proof.
  revert n. induction f as [|f IH]; intros n; cbn [Idempotency.complete_attempts]; [quiet_tac|].
  apply (quiet_bind _ _ false false false); [apply Complete_quiet|]. intros r. quiet_tac.
Qed.
End auth_progs.

#[export] Hint Resolve Register_quiet Login_quiet Refresh_quiet Logout_quiet ValidateAccessToken_quiet
  GetUserPermissions_quiet GetRoleByName_quiet VerifyAPIKey_quiet create_tenant_quiet ClaimOrGet_quiet
  Complete_quiet complete_attempts_quiet : quiet.

(** ** The webhook worker *)

Section webhook_progs.
Context `{UuidLib, DriverText, Crypto, PgTime, JsonText, Webhook.FloatConv, Webhook.HttpLib}.
Import Webhook.

Lemma deliver_quiet ev : quiet false (deliver ev) false.
Proof. unfold deliver, GetTenantWebhookConfig. quiet_tac. Qed.

Lemma log_failure_quiet msg p b : quiet b p b -> quiet b (log_failure msg p) b.
Proof. intros Hp. unfold log_failure. quiet_tac. Qed.

Lemma repo_MarkDelivered_quiet c i b : quiet b (repo_MarkDelivered c i) b.
Proof. unfold repo_MarkDelivered, MarkDelivered. quiet_tac. Qed.

Lemma repo_ScheduleRetry_quiet c i n t e b : quiet b (repo_ScheduleRetry c i n t e) b.
Proof. unfold repo_ScheduleRetry, ScheduleRetry. quiet_tac. Qed.

Lemma repo_MoveToDeadLetter_quiet ev e b : quiet b (repo_MoveToDeadLetter ev e) b.
Proof. unfold repo_MoveToDeadLetter, MoveToDeadLetter. quiet_tac. Qed.

Hint Resolve deliver_quiet log_failure_quiet repo_MarkDelivered_quiet repo_ScheduleRetry_quiet
  repo_MoveToDeadLetter_quiet : quiet.

Lemma dead_letter_quiet ev n e : quiet false (dead_letter ev n e) false.
Proof. unfold dead_letter. quiet_tac. Qed.

Hint Resolve dead_letter_quiet : quiet.

Lemma ProcessEvent_quiet s ev : quiet false (ProcessEvent s ev) false.
Proof. unfold ProcessEvent. quiet_tac. Qed.

Lemma processBatch_quiet n : quiet false (processBatch n) false.
Proof. unfold processBatch, ClaimPendingEvents, ClaimPending. quiet_tac. Qed.
End webhook_progs.

#[export] Hint Resolve ProcessEvent_quiet processBatch_quiet : quiet.

(** ** Every activity is a sequence of steps of the abstract machine *)

Section safe.
Context `{UuidLib, DriverText, Crypto, PgTime, SqlLower, JsonText, Auth.Bcrypt, Auth.Jwt,
          Handlers.Decoder, Handlers.Encoder, Router.Chi, Webhook.FloatConv, Webhook.HttpLib}.
Context (tick_ok : db -> tick -> Prop).
Local Abbreviation guar := (ledger_step Router.ledgerSvc).
Local Abbreviation wp := (wp guar tick_ok).

Definition safe {A} (p : prog A) : Prop :=
  forall log d, ledger_wf d -> wp p None log d (fun _ tx' _ d' => tx' = None /\ ledger_wf d').

Lemma safe_from {A} (p : prog A) (Q : list (db * db) -> A -> list (db * db) -> Prop) :
  (forall log d, ledger_wf d -> wp p None log d (fun r tx' log' _ => tx' = None /\ Q log r log')) -> safe p.
Proof.
  intros H' log d Hwf. eapply wp_mono.
  - apply (wp_inv guar tick_ok ledger_wf); [|by apply H'|done].
    intros K d1 d2 Hs ?. by eapply step_wf.
  - intros a tx' log' d' [[? _] ?]. done.
Qed.

Lemma safe_ret {A} (a : A) : safe (Ret a).
Proof. intros log d Hwf. done. Qed.

Lemma safe_bind {A B} (p : prog A) (f : A -> prog B) :
  safe p -> (forall a, safe (f a)) -> safe (bind p f).
Proof.
  intros Hp Hf log d Hwf. apply wp_bind. eapply wp_mono; [by apply Hp|].
  intros a tx' log' d' [-> Hwf']. by apply Hf.
Qed.

Lemma safe_quiet {A} (p : prog A) : quiet false p false -> safe p.
Proof.
  intros Hq log d Hwf.
  apply (wp_mono _ _ _ _ _ _ (fun a tx' _ d' => (quiet_tx tx' d' /\ (false = false -> tx' = None)) /\ ledger_wf d')).
  - apply (wp_inv guar tick_ok ledger_wf); [intros K d1 d2 Hs ?; by eapply step_wf| |done].
    apply quiet_wp with (b := false); [done|by intros ?|done].
  - intros a tx' log' d' [[_ Htx] ?]. split; [by apply Htx|done].
Qed.

Lemma events_ok e : svc_events Router.ledgerSvc = Some e -> EventEnqueuerOk e.
Proof. intros [= <-]. apply _. Qed.

Lemma audit_ok a : svc_audit Router.ledgerSvc = Some a -> AuditRecorderOk a.
Proof. intros [= <-]. apply _. Qed.

Lemma ExecuteTransfer_safe req : safe (ExecuteTransfer Router.ledgerSvc req).
Proof. eapply (safe_from _ (fun log => tx_result _ _ log)). intros log d. apply ExecuteTransfer_wp; [apply events_ok|apply audit_ok]. Qed.

Lemma CreatePendingTransaction_safe req : safe (CreatePendingTransaction Router.ledgerSvc req).
Proof. eapply (safe_from _ (fun log => tx_result _ _ log)). intros log d. apply CreatePendingTransaction_wp; [apply events_ok|apply audit_ok]. Qed.

Lemma PostPendingTransaction_safe tn id an : safe (PostPendingTransaction Router.ledgerSvc tn id an).
Proof. eapply (safe_from _ (fun log => tx_result _ _ log)). intros log d. apply PostPendingTransaction_wp; [apply events_ok|apply audit_ok]. Qed.

Lemma FailPendingTransaction_safe tn id an : safe (FailPendingTransaction Router.ledgerSvc tn id an).
Proof. eapply (safe_from _ (fun log => tx_result _ _ log)). intros log d. apply FailPendingTransaction_wp; [apply events_ok|apply audit_ok]. Qed.

Lemma CreateAccount_safe tn n an : safe (CreateAccount Router.ledgerSvc tn n an).
Proof. eapply (safe_from _ (fun log => tx_result _ _ log)). intros log d. apply CreateAccount_wp; [apply events_ok|apply audit_ok]. Qed.

Lemma GetTransaction_safe tn id : safe (GetTransaction tn id).
Proof. apply safe_quiet. unfold GetTransaction, repo_GetTransaction. quiet_tac. Qed.

Lemma GetAccount_safe tn id : safe (GetAccount tn id).
Proof. apply safe_quiet. unfold GetAccount, repo_GetAccount. quiet_tac. Qed.

Lemma List_safe tn n : safe (List tn n).
Proof. apply safe_quiet. unfold List. quiet_tac. Qed.

Definition safe_handler (h : Http.Handler) : Prop := forall r, safe (h r).

(** *** Handlers and middlewares *)

Ltac safe_tac :=
  repeat match goal with
    | |- safe (Ret _) => apply safe_ret
    | |- safe (Http.done_with _) => apply safe_ret
    | |- safe (Handlers.respond _ _) => apply safe_ret
    | |- safe (Handlers.writeTransferError _) => apply safe_ret
    | |- safe (Handlers.writeAuthError _) => apply safe_ret
    | |- safe (Handlers.writeAuthResult _ _) => apply safe_ret
    | |- safe (bind _ _) => apply safe_bind; [|intros ?]
    | |- safe (emit _) => apply safe_quiet; quiet_tac
    | |- safe time_Now => apply safe_quiet; quiet_tac
    | |- safe (match ?x with _ => _ end) => destruct x
    | |- _ => by auto using ExecuteTransfer_safe, CreatePendingTransaction_safe, PostPendingTransaction_safe,
        FailPendingTransaction_safe, CreateAccount_safe, GetTransaction_safe, GetAccount_safe, List_safe,
        safe_quiet with quiet
    end.

Lemma with_tenant_safe r k : (forall tn, safe (k tn)) -> safe (Handlers.with_tenant r k).
Proof. intros Hk. unfold Handlers.with_tenant. safe_tac. Qed.

Lemma with_body_safe {A} (dec : string -> option A) r k :
  (forall a, safe (k a)) -> safe (Handlers.with_body dec r k).
Proof. intros Hk. unfold Handlers.with_body. safe_tac. Qed.

Lemma with_id_safe msg r k : (forall i, safe (k i)) -> safe (Handlers.with_id msg r k).
Proof. intros Hk. unfold Handlers.with_id. safe_tac. Qed.

Ltac handler_tac :=
  intros r; repeat first
    [ apply with_tenant_safe; intros ? | apply with_body_safe; intros ? | apply with_id_safe; intros ? ];
  cbv zeta; safe_tac.

Lemma handlers_safe k :
  Forall safe_handler
    [ Router.healthHandler; Handlers.registerHandler (Router.authSvc k);
      Handlers.loginHandler (Router.authSvc k); Handlers.refreshHandler (Router.authSvc k);
      Handlers.logoutHandler (Router.authSvc k); Handlers.createAccountHandler Router.ledgerSvc;
      Handlers.getAccountHandler; Handlers.getTransactionHandler;
      Handlers.transferHandler Router.ledgerSvc;
      Handlers.createPendingTransactionHandler Router.ledgerSvc;
      Handlers.postPendingTransactionHandler Router.ledgerSvc;
      Handlers.failPendingTransactionHandler Router.ledgerSvc; Handlers.auditLogHandler ].
Proof.
  repeat apply Forall_cons_2; [..|apply Forall_nil_2].
  - intros r. unfold Router.healthHandler. apply safe_bind; [apply safe_quiet; quiet_tac|]. intros ?. safe_tac.
  - handler_tac.
  - handler_tac.
  - handler_tac.
  - handler_tac.
  - handler_tac.
  - handler_tac.
  - handler_tac.
  - handler_tac.
  - handler_tac.
  - handler_tac.
  - handler_tac.
  - handler_tac.
Qed.

Lemma requireTenantAPIKey_safe h : safe_handler h -> safe_handler (Tenants.requireTenantAPIKey h).
Proof. intros Hh r. unfold Tenants.requireTenantAPIKey. safe_tac. Qed.

Lemma authorized_safe k perm h : safe_handler h -> safe_handler (Router.authorized k perm h).
Proof.
  intros Hh r. unfold Router.authorized, AuthMw.Middleware. safe_tac.
  unfold AuthMw.RequirePermission. safe_tac.
Qed.

Lemma idempotent_safe ttl opts h : safe_handler h -> safe_handler (Idempotency.Middleware ttl opts h).
Proof.
  intros Hh r. unfold Idempotency.Middleware, Idempotency.completeWithRetry. cbv zeta. safe_tac.
Qed.

Lemma routes_safe k p h : (p, h) ∈ Router.routes k -> safe_handler h.
Proof.
  pose proof (handlers_safe k) as Hh. rewrite !Forall_cons in Hh. destruct_and?.
  unfold Router.routes, Router.mutating. rewrite !elem_of_cons. intros Hp.
  repeat (destruct Hp as [Hp|Hp];
    [simplify_eq; auto using requireTenantAPIKey_safe, authorized_safe, idempotent_safe; fail|]).
  by apply not_elem_of_nil in Hp.
Qed.

Lemma app_safe k abort : safe_handler (Router.app k abort).
Proof.
  assert (Hd : safe_handler (Router.dispatch k)).
  { intros r. unfold Router.dispatch. destruct (find _ _) as [[p h]|] eqn:E; [|destruct (Router.unrouted r); apply safe_ret].
    apply find_some in E as [Hin _]. apply (routes_safe k p h). by apply list_elem_of_In. }
  intros r. unfold Router.app, Http.logging_Middleware, Http.metrics_Middleware, Http.recovery_Middleware.
  cbv zeta. safe_tac.
Qed.

Lemma task_safe t : safe (task_prog visitor_prog t).
Proof.
  destruct t as [w|s ev|[k abort r|name]]; cbn [task_prog visitor_prog];
    repeat (apply safe_bind; [|intros ?; apply safe_ret]); [| |apply app_safe|]; safe_tac.
Qed.
End safe.

(** ** Any number of processes *)

Section processes.
Context `{UuidLib, DriverText, Crypto, PgTime, SqlLower, JsonText, Auth.Bcrypt, Auth.Jwt,
          Handlers.Decoder, Handlers.Encoder, Router.Chi, FloatConv, HttpLib}.
Context (tick_ok : db -> tick -> Prop) (d0 : db).

(** Each serves requests and runs a worker; any goroutine may be killed. *)
Definition system_step : fleet visitor -> fleet visitor -> Prop := fleet_step visitor_prog tick_ok.
Definition system_reached : fleet visitor -> Prop := rtc system_step (fleet_start d0).

Lemma visitor_sends v : issues request_stmt (visitor_prog v).
Proof.
  destruct v; cbn [visitor_prog]; (apply issues_bind; [|done]); [by apply app_sends|by apply create_tenant_sends].
Qed.

(** Every goroutine issues statements of the catalogue only. *)
Lemma task_sends t : issues program_stmt (task_prog visitor_prog t).
Proof.
  destruct t; cbn [task_prog]; (apply issues_bind; [|done]); [apply processBatch_sends|apply ProcessEvent_sends|].
  eapply issues_mono; [apply RequestStmt|apply visitor_sends].
Qed.

Lemma visitor_adds v : writes_when outbox_write (visitor_prog v).
Proof. eapply issues_mono; [|apply visitor_sends]. apply @request_stmt_adds. Qed.

(** The replies that endpoints can give. *)
Definition replies (reply : http_reply) : Prop := exists d tk, tick_ok d tk /\ tk_http tk = reply.

Lemma replies_ok d tk : tick_ok d tk -> replies (tk_http tk).
Proof. intros Hok. by exists d, tk. Qed.

Lemma system_events_inv F : system_reached F -> fleet_inv tick_ok replies d0 F.
Proof. apply fleet_reach_inv; [apply visitor_adds|apply replies_ok]. Qed.

(** Whatever is asked of the environment and of changes. *)
Lemma reached_ok F : system_reached F -> pool_inv free any_tick (fun _ _ _ _ _ => True) d0 (fl_pool F).
Proof.
  intros HF%system_events_inv. destruct (fi_pool _ _ _ _ HF) as [Hwp Hl Hc Hg Hlog]. split; try done.
  intros i th Hi. destruct (Hwp i th Hi) as [Hcov _]. split; [done|]. intros d' _. by apply wp_any.
Qed.

(** A move of one goroutine leaves alone what the others have locked. *)
Lemma move_apart F i th tk th' e os j thj :
  system_reached F -> fl_threads F !! i = Some th ->
  thread_step (others_locks (fl_threads F) i) tk th (fl_db F) = Some (th', e, os) ->
  j <> i -> fl_threads F !! j = Some thj -> eff_wf (locks_of (th_tx thj)) e.
Proof.
  intros HR Hi Hs Hne Hj. pose proof (reached_ok F HR) as HP.
  assert (E : fl_pool F = Pool (fl_db F) (fl_threads F) (fl_hist F)) by (unfold fl_db, fl_threads, fl_hist; by destruct (fl_pool F)).
  rewrite E in HP. eapply pool_step_apart; [exact HP|exact Hi|exact I|exact Hs|exact Hne|exact Hj].
Qed.

(** An invariant [P] of the database with an invariant [I] of single goroutines:
    [I] holds at their start and of the dead, their own steps keep both with
    effects in [G], and effects in [G] of those that hold other locks keep [I]. *)
Section invariant.
Context (P : db -> Prop) (I : thread task_result -> db -> Prop) (G : db -> eff -> Prop).
Context (Hstart : forall t d, P d -> I (goroutine visitor_prog t) d).
Context (Hstep : forall others tk th th' d e os, P d -> I th d -> thread_step others tk th d = Some (th', e, os) ->
  P (apply_eff e d) /\ I th' (apply_eff e d) /\ G d e).
Context (Hothers : forall th d e, P d -> I th d -> G d e -> eff_wf (locks_of (th_tx th)) e -> I th (apply_eff e d)).
Context (Hdead : forall log d, P d -> I (Thread (Ret Killed) None log) d).

Lemma database_inv F :
  P d0 -> system_reached F -> P (fl_db F) /\ forall i th, fl_threads F !! i = Some th -> I th (fl_db F).
Proof.
  intros Hd0. revert F.
  refine (rtc_ind_r (fun F => P (fl_db F) /\ forall i th, fl_threads F !! i = Some th -> I th (fl_db F)) _ _ _).
  { split; [done|]. intros i th Hi. unfold fl_threads in Hi. simpl in Hi. by rewrite lookup_nil in Hi. }
  intros F F' HR [c _ Hc] [HP HI].
  assert (Hspawn : forall ts i th, fl_threads (spawn visitor_prog ts F) !! i = Some th -> I th (fl_db F)).
  { intros ts i th [Hi|[_ Hi]]%lookup_app_Some; [by apply (HI i)|].
    apply list_lookup_fmap_Some in Hi as (t & -> & _). by apply Hstart. }
  destruct c as [w|k|k|k|i tk|i|g]; simpl in Hc.
  - by injection Hc as <-.
  - unfold on_tick in Hc. repeat case_match; simplify_eq. split; [done|apply (Hspawn [Poll _])].
  - unfold on_done in Hc. repeat case_match; by simplify_eq.
  - unfold proceed in Hc. repeat case_match; simplify_eq; try done; split; try done; apply (Hspawn (Deliver _ <$> _)).
  - unfold move in Hc. destruct (fl_threads F !! i) as [th|] eqn:Hi; [|done].
    destruct (thread_step _ _ _ _) as [[[th' e] os]|] eqn:Hs; [|done]. injection Hc as <-.
    destruct (Hstep _ _ _ _ _ _ _ HP (HI i th Hi) Hs) as (HP' & HI' & HG).
    unfold fl_threads, fl_db; simpl. split; [done|]. intros j thj [(<- & -> & _)|[Hne Hj]]%list_lookup_insert_Some; [done|].
    apply Hothers; [done|by apply (HI j)|done|]. by eapply (move_apart F i).
  - unfold kill in Hc. destruct (fl_threads F !! i) as [th|] eqn:Hi; [|done]. injection Hc as <-.
    unfold fl_threads, fl_db; simpl. split; [done|].
    intros j thj [(<- & <- & _)|[Hne Hj]]%list_lookup_insert_Some; [by apply Hdead|by apply (HI j)].
  - injection Hc as <-. split; [done|apply (Hspawn [Guest g])].
Qed.
End invariant.

(** An invariant of single goroutines that depends on locked rows only. *)
Lemma goroutine_inv (I : thread task_result -> db -> Prop) F :
  (forall t d, I (goroutine visitor_prog t) d) ->
  (forall others tk th th' d e os, I th d -> thread_step others tk th d = Some (th', e, os) -> I th' (apply_eff e d)) ->
  (forall th d d', I th d -> frame (locks_of (th_tx th)) d d' -> I th d') ->
  (forall log d, I (Thread (Ret Killed) None log) d) ->
  system_reached F -> forall i th, fl_threads F !! i = Some th -> I th (fl_db F).
Proof.
  intros Hstart Hstep Hframe Hdead HR.
  refine (proj2 (database_inv (fun _ => True) I (fun _ _ => True) _ _ _ _ F Logic.I HR)); [naive_solver..| |done].
  intros th d e _ Hth _ Hwf. eapply Hframe; [done|by apply eff_wf_frame].
Qed.

(** What changes the database: a goroutine. *)
Lemma step_changes F F' : system_step F F' ->
  fl_db F' = fl_db F \/
  exists i th tk th' e os, fl_threads F !! i = Some th /\
    thread_step (others_locks (fl_threads F) i) tk th (fl_db F) = Some (th', e, os) /\ fl_db F' = apply_eff e (fl_db F).
Proof.
  intros [c _ Hc]. destruct c as [w|k|k|k|i tk|i|g]; simpl in Hc.
  - injection Hc as <-. by left.
  - unfold on_tick in Hc. repeat case_match; simplify_eq. by left.
  - unfold on_done in Hc. repeat case_match; simplify_eq. by left.
  - unfold proceed in Hc. repeat case_match; simplify_eq; by left.
  - unfold move in Hc. destruct (fl_threads F !! i) as [th|] eqn:Hi; [|done].
    destruct (thread_step _ _ _ _) as [[[th' e] os]|] eqn:Hs; [|done]. injection Hc as <-.
    right. by exists i, th, tk, th', e, os.
  - unfold kill in Hc. repeat case_match; simplify_eq. by left.
  - injection Hc as <-. by left.
Qed.

Local Abbreviation guar := (ledger_step Router.ledgerSvc).
Local Abbreviation safe_post := (fun (_ : nat) (_ : task_result) (tx : option txst) (_ : list (db * db)) d =>
  tx = None /\ ledger_wf d).

(** The invariant of the ledger's refinement, for a fleet. *)
Definition ledger_inv (F : fleet visitor) : Prop :=
  fleet_inv tick_ok replies d0 F /\ pool_inv guar tick_ok safe_post d0 (fl_pool F).

Lemma inv_reach (F : fleet visitor) :
  pool_inv guar tick_ok safe_post d0 (fl_pool F) -> ledger_reach Router.ledgerSvc d0 (fl_db F).
Proof.
  intros [_ _ Hc Hg _]. eapply chain_reach; [exact Hc|]. intros a b Hin.
  apply list_elem_of_fmap in Hin as ([k c] & E & Hk). simpl in E. subst c. by eapply Hg.
Qed.

Lemma ledger_inv_wf (F : fleet visitor) : ledger_wf d0 -> pool_inv guar tick_ok safe_post d0 (fl_pool F) -> ledger_wf (fl_db F).
Proof. intros Hwf HP. by eapply reach_wf; [apply inv_reach|]. Qed.

Lemma spawn_ledger F ts :
  ledger_wf d0 -> ledger_inv F -> pool_inv guar tick_ok safe_post d0 (fl_pool (spawn visitor_prog ts F)).
Proof.
  intros Hwf [HF HP]. pose proof (ledger_inv_wf F Hwf HP) as Hwf'.
  assert (E : goroutine visitor_prog <$> ts = (fun p => Thread p None []) <$> (task_prog visitor_prog <$> ts))
    by by rewrite <- list_fmap_compose.
  unfold spawn. cbn [fl_pool]. rewrite E. apply (pool_inv_spawn _ _ safe_post).
  - unfold fl_db, fl_threads, fl_hist. by destruct (fl_pool F).
  - done.
  - intros i p d' Hp Hr. apply list_lookup_fmap_Some in Hp as (t & -> & _). apply task_safe. by eapply rely_wf.
  - intros i c Hc. by eapply (fi_bound _ _ _ _ HF).
Qed.

Lemma ledger_inv_step F F' : ledger_wf d0 -> ledger_inv F -> system_step F F' -> ledger_inv F'.
Proof.
  intros Hwf [HF HP] Hs. split.
  { eapply fleet_step_inv; [apply visitor_adds|apply replies_ok|exact HF|exact Hs]. }
  destruct Hs as [c Hok Hc]. destruct c as [w|k|k|k|i tk|i|g]; simpl in *.
  - by injection Hc as <-.
  - unfold on_tick in Hc. repeat case_match; simplify_eq. by apply (spawn_ledger F [Poll _]).
  - unfold on_done in Hc. by repeat case_match; simplify_eq.
  - unfold proceed in Hc. repeat case_match; simplify_eq; try done; by apply (spawn_ledger F (Deliver _ <$> _)).
  - unfold move in Hc. destruct (fl_threads F !! i) as [th|] eqn:Hi; [|done].
    destruct (thread_step _ _ _ _) as [[[th' e] os]|] eqn:Hs; [|done]. simplify_eq.
    refine (pool_inv_step _ _ _ _ _ _ HP _). unfold fl_threads, fl_db, fl_hist in *.
    destruct (fl_pool F) as [d1 ths1 hist1]. by eapply PoolStep.
  - unfold kill in Hc. destruct (fl_threads F !! i) as [th|] eqn:Hi; simplify_eq. simpl.
    pose proof (ledger_inv_wf F Hwf HP) as Hwf'.
    apply pool_inv_end; [|done|intros d' Hr; split; [done|by eapply rely_wf]].
    unfold fl_db, fl_threads, fl_hist. by destruct (fl_pool F).
  - injection Hc as <-. by apply spawn_ledger.
Qed.

Lemma system_inv F : ledger_wf d0 -> system_reached F -> pool_inv guar tick_ok safe_post d0 (fl_pool F).
Proof.
  intros Hwf Hs. assert (HI : ledger_inv (fleet_start d0))
    by (split; [apply fleet_inv_start|by apply pool_inv_start; intros i p Hp]).
  enough (ledger_inv F) as [_ ?] by done. unfold system_reached in Hs.
  induction Hs as [|F1 F2 F3 Hs _ IH]; [done|]. apply IH. by eapply ledger_inv_step.
Qed.

Lemma system_reach F : ledger_wf d0 -> system_reached F -> ledger_reach Router.ledgerSvc d0 (fl_db F).
Proof. intros Hwf Hs. by apply inv_reach, system_inv. Qed.
End processes.
