(* ===== verification/Order.v ===== *)
(** * The order in which transactions take locks

    PostgreSQL makes a statement wait while another transaction has locked what
    it needs, so code that takes locks in conflicting orders deadlocks. Here every
    lock gets a rank, and [ordered] says that a program takes the locks of a
    transaction in the order of their ranks; rows that a transaction has itself
    inserted do not count, since nobody else can see them, let alone wait for
    them. Progress.v draws the conclusion. *)

From S2P Require Import Prelude GoBase Db Prog ProgFacts Interfaces Queue AuditLog Ledger.
From S2P Require Import Statements Writes.
From S2P Require Auth Http Webhook Worker Idempotency Tenants AuthMw Handlers Router System.
Local Open Scope go_scope.

(** ** Definitions *)

(** Accounts first (LockAccountsForUpdate), then the unique values an INSERT
    claims, then every other row. *)
Definition rank (l : lock) : nat :=
  match l with
  | LRow T_accounts _ => 0
  | LUnique _ _ _ | LRow T_idempotency_keys _ => 1
  | LRow _ _ => 2
  end.

(** A lock on something that is there for all to see. *)
Definition visible (d : db) (l : lock) : Prop :=
  match l with LRow _ _ => ~ absent d l | LUnique _ _ _ => True end.

(** Beyond the row it inserts, a statement waits for visible locks of one rank
    at most. *)
Definition waits (o : option nat) {R} (q : stmt R) : Prop :=
  forall others ev d l, l ∈ needed (q others ev d) ->
    (exists t, l = LRow t (e_uuid ev) /\ absent d l) \/ o = Some (rank l) /\ visible d l.

(** The stage of a program: [None] without a transaction, [Some s] inside one
    that holds locks of ranks below [s] only. *)
Definition stage : Type := option nat.

Definition weaker (b b' : stage) : Prop :=
  match b, b' with
  | None, _ => True
  | Some s, Some s' => s <= s'
  | Some _, None => False
  end.

Definition may_wait (o : option nat) (b : stage) : Prop :=
  match o, b with Some r, Some s => s <= r | _, _ => True end.

Definition stage_after (c : conn) (o : option nat) (b : stage) : stage :=
  match c, o, b with OnTx, Some r, Some _ => Some (S r) | _, _, _ => b end.

(** [ordered b p b']: from stage [b], the program waits in the order of the ranks
    and ends at stage [b'] at most. *)
Fixpoint ordered {A} (b : stage) (p : prog A) (b' : stage) : Prop :=
  match p with
  | Ret _ => weaker b b'
  | BeginTx k => ordered (Some 0) (k None) b' /\ forall e, ordered b (k (Some e)) b'
  | Exec c q k => exists o, waits o q /\ may_wait o b /\ forall r, ordered (stage_after c o b) (k r) b'
  | Commit k => forall r, ordered None (k r) b'
  | Rollback k => ordered None k b'
  | Ask _ k => forall r, ordered b (k r) b'
  | Emit _ k => ordered b k b'
  end.

(** ** Rules *)

Lemma weaker_refl b : weaker b b.
Proof. by destruct b; simpl. Qed.

Lemma weaker_trans b1 b2 b3 : weaker b1 b2 -> weaker b2 b3 -> weaker b1 b3.
Proof. destruct b1, b2, b3; simpl; try done. lia. Qed.

Lemma weaker_after c o b b' : may_wait o b' -> weaker b b' -> weaker (stage_after c o b) (stage_after c o b').
Proof. destruct c, o, b, b'; simpl; auto. Qed.

Lemma after_grows c o b : may_wait o b -> weaker b (stage_after c o b).
Proof. destruct c, o, b; simpl; auto; lia. Qed.

Lemma ordered_weaken {A} (p : prog A) b0 b1 b2 b3 :
  weaker b0 b1 -> weaker b2 b3 -> ordered b1 p b2 -> ordered b0 p b3.
Proof.
  intros H0 H2. revert b0 b1 H0. induction p; simpl; intros b0 b1 H0.
  - intros Hw. by eapply weaker_trans; [|by eapply weaker_trans].
  - intros [Hn He]. split; [eapply H; [apply weaker_refl|done]|]. intros e. by eapply H.
  - intros (o & Hq & Hm & Hk). exists o. split; [done|]. split.
    + destruct o, b0, b1; simpl in *; try done; lia.
    + intros r. eapply H; [|done]. by apply weaker_after.
  - intros Hk r. eapply H; [apply weaker_refl|done].
  - intros Hp. eapply IHp; [apply weaker_refl|done].
  - intros Hk r. by eapply H.
  - intros Hp. by eapply IHp.
Qed.

Lemma ordered_bind {A B} (p : prog A) (f : A -> prog B) b b1 b2 :
  ordered b p b1 -> (forall a, ordered b1 (f a) b2) -> ordered b (bind p f) b2.
Proof.
  intros Hp Hf. revert b Hp. induction p; simpl; intros b.
  - intros Hw. eapply ordered_weaken; [exact Hw|apply weaker_refl|apply Hf].
  - intros [? ?]; split; eauto.
  - intros (o & ? & ? & ?). exists o. eauto.
  - eauto.
  - eauto.
  - eauto.
  - eauto.
Qed.

Lemma ordered_ebind {A B} (p : prog (goerr + A)) (f : A -> prog (goerr + B)) b b1 b2 :
  ordered b p b1 -> weaker b1 b2 -> (forall a, ordered b1 (f a) b2) -> ordered b (ebind p f) b2.
Proof. intros Hp Hw Hf. eapply ordered_bind; [done|]. intros [|]; [exact Hw|apply Hf]. Qed.

Lemma ordered_wrap {A} pre (p : prog (goerr + A)) b b' : ordered b p b' -> ordered b (wrap_err pre p) b'.
Proof. intros Hp. eapply ordered_bind; [done|]. intros [|]; apply weaker_refl. Qed.

Lemma ordered_exec {R} c (q : stmt R) o b b' :
  waits o q -> may_wait o b -> weaker (stage_after c o b) b' -> ordered b (sql_exec c q) b'.
Proof. intros Hq Hm Hw. exists o. split_and!; [done|done|]. by intros [|]. Qed.

Lemma ordered_row {R} c (q : stmt (option R)) o b b' :
  waits o q -> may_wait o b -> weaker (stage_after c o b) b' -> ordered b (sql_row c q) b'.
Proof. intros Hq Hm Hw. exists o. split_and!; [done|done|]. by intros [|[|]]. Qed.

Lemma ordered_begin b : ordered b sql_begin (Some (default 0 b)).
Proof. simpl. destruct b; simpl; split; intros; lia. Qed.

Lemma ordered_commit b : ordered b sql_commit None.
Proof. simpl. by intros [|]. Qed.

Lemma ordered_defer {A} (p : prog A) b : ordered b p (Some 3) -> ordered b (defer_rollback p) None.
Proof. intros Hp. eapply ordered_bind; [done|]. by intros a. Qed.

(** BEGIN; defer ROLLBACK; ... *)
Lemma ordered_transaction {A} pre (body : prog (goerr + A)) :
  ordered (Some 0) body (Some 3) -> ordered None (ebind (wrap_err pre sql_begin) (fun _ => defer_rollback body)) None.
Proof.
  intros Hb. unfold ebind, wrap_err. simpl. split; [|done]. by apply ordered_defer.
Qed.

Lemma ordered_emit o b : ordered b (emit o) b.
Proof. apply weaker_refl. Qed.

Lemma ordered_ask {R} (q : tick -> R) b : ordered b (ask q) b.
Proof. intros r. apply weaker_refl. Qed.

(** ** Statements *)

Lemma waits_select {R} (f : db -> R) : waits None (select f).
Proof. intros others ev d l Hl. by apply not_elem_of_nil in Hl. Qed.

Lemma waits_none {R} o (q : stmt R) : waits None q -> waits o q.
Proof. intros Hq others ev d l Hl. destruct (Hq others ev d l Hl) as [Hf|[? _]]; [by left|done]. Qed.

Lemma guarded_needed {R} cs (o : outcome R) l :
  l ∈ needed (guarded cs o) -> l ∈ needed o /\ forall b e, (b, e) ∈ cs -> b = true.
Proof.
  induction cs as [|[[] e] cs IH]; simpl; intros Hl.
  - split; [done|]. intros b e Hb. by apply not_elem_of_nil in Hb.
  - destruct (IH Hl) as [? Hc]. split; [done|]. intros b e' [[= -> _]|Hb]%elem_of_cons; [done|by eapply Hc].
  - by apply not_elem_of_nil in Hl.
Qed.

(** The INSERT of a row under a fresh identifier, with the unique values [us]
    that it claims. *)
Lemma waits_insert {R} (cs : env -> db -> list (bool * sqlerr)) (us : env -> db -> list lock) (r : env -> R)
    (w : env -> write) o :
  (forall ev d, exists t, lock_of (w ev) = LRow t (e_uuid ev) /\
     ((forall b e, (b, e) ∈ cs ev d -> b = true) -> absent d (lock_of (w ev)))) ->
  (forall ev d l, l ∈ us ev d -> o = Some (rank l) /\ visible d l) ->
  waits o (fun _ ev d => guarded (cs ev d) (Outcome (us ev d) (inr (r ev)) [w ev])).
Proof.
  intros Hw Hu others ev d l [Hl Hc]%guarded_needed. apply elem_of_app in Hl as [Hl|Hl]; simpl in Hl.
  - right. by apply (Hu ev d).
  - apply list_elem_of_singleton in Hl as ->. left. destruct (Hw ev d) as (t & E & Ha). exists t. auto.
Qed.

(** Rows that the statement has seen. *)
Lemma waits_rows {R} r (q : stmt R) :
  (forall others ev d l, l ∈ needed (q others ev d) -> rank l = r /\ visible d l) -> waits (Some r) q.
Proof. intros Hq others ev d l Hl. right. by destruct (Hq others ev d l Hl) as [-> ?]. Qed.

Ltac waits_insert_tac :=
  refine (waits_insert _ _ _ _ _ _ _);
  [intros ev d; eexists; split; [reflexivity|]; intros Hc; simpl; eapply has_row_false, Hc;
   repeat first [apply list_elem_of_here | apply list_elem_of_further]
  |intros ev d l Hl; simpl in Hl; first [by apply not_elem_of_nil in Hl | by apply list_elem_of_singleton in Hl as ->]].

Create HintDb ordered.
#[export] Hint Resolve ordered_wrap ordered_begin ordered_commit ordered_emit ordered_ask waits_select : ordered.

Section ledger_stmts.
Context `{UuidLib}.

Lemma q_create_account_waits tn n : waits None (q_create_account tn n).
Proof. waits_insert_tac. Qed.

Lemma q_insert_transaction_waits tn st : waits None (q_insert_transaction tn st).
Proof. waits_insert_tac. Qed.

Lemma q_insert_entry_waits tn t a n : waits None (q_insert_entry tn t a n).
Proof. waits_insert_tac. Qed.

Lemma q_enqueue_waits tn et pl : waits None (q_enqueue tn et pl).
Proof. waits_insert_tac. Qed.

Lemma q_record_audit_waits tn ac an pl : waits None (q_record_audit tn ac an pl).
Proof. waits_insert_tac. Qed.

Lemma q_insert_dead_letter_waits j e : waits None (q_insert_dead_letter j e).
Proof. waits_insert_tac. Qed.

Lemma q_create_tenant_waits n h : waits None (Tenants.q_create_tenant n h).
Proof. waits_insert_tac. Qed.

Lemma q_lock_accounts_waits ids tn : waits (Some 0) (q_lock_accounts ids tn).
Proof.
  apply waits_rows. intros others ev d l Hl. unfold needed, q_lock_accounts in Hl. cbn in Hl.
  rewrite app_nil_r in Hl. apply list_elem_of_fmap in Hl as ([i r] & -> & Hp).
  rewrite merge_sort_Permutation in Hp. apply list_elem_of_filter in Hp as [_ Hp%elem_of_map_to_list].
  simpl in *. split; [done|]. by rewrite Hp.
Qed.

Lemma q_update_status_waits tn i e n : waits (Some 2) (q_update_status tn i e n).
Proof.
  apply waits_rows. intros others ev d l. unfold q_update_status. destruct (transactions d !! i) eqn:E; [case_decide|];
    intros Hl; simpl in Hl; try by apply not_elem_of_nil in Hl.
  apply list_elem_of_singleton in Hl as ->. split; [done|]. simpl. by rewrite E.
Qed.

Lemma q_claim_pending_waits n : waits (Some 2) (q_claim_pending n).
Proof.
  apply waits_rows. intros others ev d l Hl. unfold q_claim_pending, needed in Hl. cbn in Hl.
  rewrite <- !list_fmap_compose in Hl. apply list_elem_of_fmap in Hl as ([i r] & -> & Hp).
  unfold claimable in Hp. apply elem_of_take in Hp as (k & Hp%list_elem_of_lookup_2 & _).
  apply list_elem_of_filter in Hp as [_ Hp]. rewrite merge_sort_Permutation in Hp.
  apply list_elem_of_filter in Hp as [_ Hp%elem_of_map_to_list]. simpl in *. split; [done|]. by rewrite Hp.
Qed.

Lemma update_event_waits i f : waits (Some 2) (fun _ _ d => Outcome [] (inr tt) (update_event i f d)).
Proof.
  apply waits_rows. intros others ev d l. unfold update_event. destruct (webhook_events d !! i) eqn:E;
    intros Hl; simpl in Hl; [|by apply not_elem_of_nil in Hl].
  apply list_elem_of_singleton in Hl as ->. split; [done|]. simpl. by rewrite E.
Qed.
End ledger_stmts.

Lemma rows_where_in {V} (P : uuid * V -> Prop) `{!forall p, Decision (P p)} m i r :
  (i, r) ∈ Auth.rows_where P m -> m !! i = Some r.
Proof. intros Hp. apply list_elem_of_filter in Hp as [_ Hp]. by apply elem_of_map_to_list in Hp. Qed.

Section auth_stmts.
Context `{Crypto, PgTime, SqlLower}.

Lemma q_create_user_waits tn ro em pw : waits (Some 1) (Auth.q_create_user tn ro em pw).
Proof. waits_insert_tac. Qed.

Lemma q_create_refresh_token_waits u tn h e : waits (Some 1) (Auth.q_create_refresh_token u tn h e).
Proof. waits_insert_tac. Qed.

Lemma revoke_waits (P : uuid * refresh_token_row -> Prop) `{!forall p, Decision (P p)} :
  waits (Some 2) (fun _ _ d => Outcome [] (inr tt) (Auth.revoke_where P d)).
Proof.
  apply waits_rows. intros others ev d l Hl. unfold needed, Auth.revoke_where in Hl. cbn in Hl.
  rewrite <- list_fmap_compose in Hl. apply list_elem_of_fmap in Hl as ([i r] & -> & Hp%rows_where_in).
  simpl. split; [done|]. by rewrite Hp.
Qed.

Lemma q_revoke_waits i : waits (Some 2) (Auth.q_revoke i).
Proof. apply revoke_waits. Qed.

Lemma q_revoke_all_waits i : waits (Some 2) (Auth.q_revoke_all i).
Proof. apply revoke_waits. Qed.

Lemma q_rotate_waits i j : waits (Some 2) (Auth.q_rotate i j).
Proof.
  apply waits_rows. intros others ev d l. unfold Auth.q_rotate. destruct (refresh_tokens d !! i) eqn:E; [case_decide|];
    intros Hl; try (apply guarded_needed in Hl as [Hl _]); simpl in Hl; try by apply not_elem_of_nil in Hl.
  apply list_elem_of_singleton in Hl as ->. split; [done|]. simpl. by rewrite E.
Qed.

Lemma q_claim_waits tn k h now e : waits (Some 1) (Idempotency.q_claim tn k h now e).
Proof.
  intros others ev d l. unfold Idempotency.q_claim. destruct (Idempotency.find_key d tn k) as [[i r]|] eqn:E.
  - apply found_key in E as (E & _ & _). case_match; unfold needed; cbn; intros Hl; right;
      repeat (apply elem_of_cons in Hl as [->|Hl]; [split; [done|simpl; by rewrite ?E]|]);
      by apply not_elem_of_nil in Hl.
  - intros [Hl Hc]%guarded_needed. unfold needed in Hl. cbn in Hl.
    apply elem_of_cons in Hl as [->|Hl]; [by right|]. apply list_elem_of_singleton in Hl as ->. left. eexists.
    split; [reflexivity|]. simpl. eapply has_row_false, Hc. left.
Qed.

Lemma q_complete_waits tn k c b e t : waits (Some 1) (Idempotency.q_complete tn k c b e t).
Proof.
  apply waits_rows. intros others ev d l. unfold Idempotency.q_complete.
  destruct (Idempotency.find_key d tn k) as [[i r]|] eqn:E; [apply found_key in E as (E & _ & _); case_decide|];
    intros Hl; simpl in Hl; try by apply not_elem_of_nil in Hl.
  apply list_elem_of_singleton in Hl as ->. split; [done|]. simpl. by rewrite E.
Qed.
End auth_stmts.

#[export] Hint Resolve q_create_account_waits q_insert_transaction_waits q_insert_entry_waits q_enqueue_waits
  q_record_audit_waits q_insert_dead_letter_waits q_create_tenant_waits q_lock_accounts_waits
  q_update_status_waits q_claim_pending_waits q_create_user_waits q_create_refresh_token_waits q_revoke_waits
  q_revoke_all_waits q_rotate_waits q_claim_waits q_complete_waits : ordered.
#[export] Hint Extern 1 (waits _ (q_mark_delivered _)) => apply update_event_waits : ordered.
#[export] Hint Extern 1 (waits _ (q_schedule_retry _ _ _ _)) => apply update_event_waits : ordered.
#[export] Hint Extern 1 (waits _ (q_mark_failed _ _)) => apply update_event_waits : ordered.

(** ** The operations of the components *)

(** Follows the structure of a program. *)
Ltac ordered_tac :=
  repeat match goal with
    | |- ordered _ (ebind (wrap_err _ sql_begin) (fun _ => defer_rollback _)) _ => apply ordered_transaction
    | |- ordered _ (ebind ?p _) _ => eapply ordered_ebind; [solve [ordered_call] | simpl; lia || done | intros ?]
    | |- ordered _ (bind ?p _) _ => eapply ordered_bind; [solve [ordered_call] | intros ?]
    | |- ordered _ (defer_rollback _) _ => apply ordered_defer
    | |- ordered _ (let '(_, _) := ?x in _) _ => destruct x
    | |- ordered _ (match ?x with _ => _ end) _ => destruct x
    | |- ordered _ (Ret _) _ => first [apply weaker_refl | exact I | simpl; lia]
    | |- ordered _ _ _ => solve [ordered_call]
    end
with ordered_call :=
  lazymatch goal with
  | |- ordered _ (wrap_err _ _) _ => apply ordered_wrap; ordered_call
  | |- ordered _ (sql_exec _ _) _ => eapply ordered_exec; [eauto 2 with ordered | simpl; first [exact I | lia] | first [apply weaker_refl | simpl; lia]]
  | |- ordered _ (sql_row _ _) _ => eapply ordered_row; [eauto 2 with ordered | simpl; first [exact I | lia] | first [apply weaker_refl | simpl; lia]]
  | |- ordered _ (ebind _ _) _ => eapply ordered_ebind; [ordered_call | first [apply weaker_refl | simpl; lia] | intros ?; solve [ordered_tac]]
  | |- ordered _ (bind _ _) _ => eapply ordered_bind; [ordered_call | intros ?; solve [ordered_tac]]
  | |- _ => eauto 2 with ordered
  end.

Section ledger.
Context `{UuidLib}.

Lemma EnqueueEvent_ordered tn et pl b : ordered b (EnqueueEvent Webhook.Enqueuer tn et pl) b.
Proof. unfold Webhook.Enqueuer, EnqueueEvent, Webhook.repo_EnqueueEvent, Webhook.repo_Enqueue, Enqueue. ordered_tac. Qed.

Lemma RecordAudit_ordered tn ac an pl b : ordered b (RecordAudit Recorder tn ac an pl) b.
Proof. unfold Recorder, RecordAudit, repo_RecordAudit. ordered_tac. Qed.

Hint Resolve EnqueueEvent_ordered RecordAudit_ordered : ordered.

Lemma emitEvent_ordered tn et txn b : ordered b (emitEvent Router.ledgerSvc tn et txn) b.
Proof. apply ordered_wrap, EnqueueEvent_ordered. Qed.

Lemma recordAudit_ordered tn ac an pl b : ordered b (recordAudit Router.ledgerSvc tn ac an pl) b.
Proof. apply RecordAudit_ordered. Qed.

Lemma insert_entries_ordered tn t es b : ordered b (insert_entries tn t es) b.
Proof.
  induction es as [|e es IH]; cbn [insert_entries]; [apply weaker_refl|].
  eapply ordered_ebind; [ordered_call|apply weaker_refl|intros [i c]].
  eapply ordered_ebind; [exact IH|apply weaker_refl|intros rows; apply weaker_refl].
Qed.

Lemma repo_GetTransaction_ordered c tn i b : ordered b (repo_GetTransaction c tn i) b.
Proof. unfold repo_GetTransaction. destruct c; ordered_tac. Qed.

Lemma repo_GetAccount_ordered c tn i b : ordered b (repo_GetAccount c tn i) b.
Proof. unfold repo_GetAccount. destruct c; ordered_tac. Qed.

Lemma repo_CreateAccount_ordered tn n b : ordered b (repo_CreateAccount tn n) b.
Proof. unfold repo_CreateAccount. ordered_tac. Qed.

Hint Resolve emitEvent_ordered recordAudit_ordered insert_entries_ordered repo_GetTransaction_ordered
  repo_CreateAccount_ordered : ordered.

Lemma InsertTransactionWithEntries_ordered tn st es b : ordered b (InsertTransactionWithEntries tn st es) b.
Proof. unfold InsertTransactionWithEntries. ordered_tac. Qed.

(** The accounts come first. *)
Lemma LockAccountsForUpdate_ordered tn ids : ordered (Some 0) (LockAccountsForUpdate tn ids) (Some 1).
Proof. unfold LockAccountsForUpdate. destruct ids; [simpl; lia|]. cbv zeta. ordered_tac. Qed.

Lemma UpdateTransactionStatusGuarded_ordered tn i e n s :
  s <= 2 -> ordered (Some s) (UpdateTransactionStatusGuarded tn i e n) (Some 3).
Proof. intros Hs. unfold UpdateTransactionStatusGuarded. cbv zeta. ordered_tac. Qed.

Hint Resolve InsertTransactionWithEntries_ordered LockAccountsForUpdate_ordered : ordered.
Hint Extern 1 (ordered _ (UpdateTransactionStatusGuarded _ _ _ _) _) =>
  apply UpdateTransactionStatusGuarded_ordered; lia : ordered.

Lemma ExecuteTransfer_ordered req : ordered None (ExecuteTransfer Router.ledgerSvc req) None.
Proof. unfold ExecuteTransfer. ordered_tac. Qed.

Lemma CreatePendingTransaction_ordered req : ordered None (CreatePendingTransaction Router.ledgerSvc req) None.
Proof. unfold CreatePendingTransaction. ordered_tac. Qed.

Lemma PostPendingTransaction_ordered tn i an : ordered None (PostPendingTransaction Router.ledgerSvc tn i an) None.
Proof. unfold PostPendingTransaction. cbv zeta. ordered_tac. Qed.

Lemma FailPendingTransaction_ordered tn i an : ordered None (FailPendingTransaction Router.ledgerSvc tn i an) None.
Proof. unfold FailPendingTransaction. cbv zeta. ordered_tac. Qed.

Lemma CreateAccount_ordered tn n an : ordered None (CreateAccount Router.ledgerSvc tn n an) None.
Proof. unfold CreateAccount. ordered_tac. Qed.
End ledger.

#[export] Hint Resolve RecordAudit_ordered repo_GetAccount_ordered repo_GetTransaction_ordered ExecuteTransfer_ordered
  CreatePendingTransaction_ordered PostPendingTransaction_ordered FailPendingTransaction_ordered
  CreateAccount_ordered : ordered.

Section webhook.
Context `{UuidLib, DriverText, Crypto, PgTime, JsonText, Webhook.FloatConv, Webhook.HttpLib}.
Import Webhook.

Lemma deliver_ordered ev : ordered None (deliver ev) None.
Proof. unfold deliver, GetTenantWebhookConfig. ordered_tac. Qed.

Lemma log_failure_ordered msg p : ordered None p None -> ordered None (log_failure msg p) None.
Proof. intros Hp. unfold log_failure. ordered_tac. Qed.

Lemma repo_MarkDelivered_ordered i : ordered None (repo_MarkDelivered OnDb i) None.
Proof. unfold repo_MarkDelivered, MarkDelivered. ordered_tac. Qed.

Lemma repo_ScheduleRetry_ordered i n t e : ordered None (repo_ScheduleRetry OnDb i n t e) None.
Proof. unfold repo_ScheduleRetry, ScheduleRetry. ordered_tac. Qed.

Lemma repo_MoveToDeadLetter_ordered ev e : ordered (Some 0) (repo_MoveToDeadLetter ev e) (Some 3).
Proof. unfold repo_MoveToDeadLetter, MoveToDeadLetter. ordered_tac. Qed.

Hint Resolve deliver_ordered log_failure_ordered repo_MarkDelivered_ordered repo_ScheduleRetry_ordered
  repo_MoveToDeadLetter_ordered : ordered.

Lemma dead_letter_ordered ev n e : ordered None (dead_letter ev n e) None.
Proof.
  unfold dead_letter. split; [|simpl; done]. apply ordered_defer. cbv zeta. ordered_tac.
Qed.

Hint Resolve dead_letter_ordered : ordered.

Lemma ProcessEvent_ordered s ev : ordered None (ProcessEvent s ev) None.
Proof. unfold ProcessEvent. cbv zeta. ordered_tac. Qed.

Lemma processBatch_ordered n : ordered None (processBatch n) None.
Proof.
  unfold processBatch, sql_begin. cbn [bind]. split; [|simpl; done].
  eapply ordered_bind; [unfold ClaimPendingEvents, ClaimPending; ordered_call|]. intros [e|evs]; [simpl; done|]. ordered_tac.
Qed.
End webhook.

#[export] Hint Resolve ProcessEvent_ordered processBatch_ordered : ordered.

(** ** The rest of a process *)

Section process.
Context `{UuidLib, DriverText, Crypto, PgTime, SqlLower, JsonText, Auth.Bcrypt, Auth.Jwt,
          Handlers.Decoder, Handlers.Encoder, Router.Chi, Webhook.FloatConv, Webhook.HttpLib}.

Lemma auth_recordAudit_ordered k tn ac an pl b : ordered b (Auth.recordAudit (Router.authSvc k) tn ac an pl) b.
Proof. apply RecordAudit_ordered. Qed.

Lemma CreateUser_ordered tn ro em pw : ordered (Some 0) (Auth.CreateUser OnTx tn ro em pw) (Some 2).
Proof. unfold Auth.CreateUser. ordered_tac. Qed.

Lemma generateRawToken_ordered b : ordered b Auth.generateRawToken b.
Proof. unfold Auth.generateRawToken. ordered_tac. Qed.

Lemma generateAccessToken_ordered k u b : ordered b (Auth.generateAccessToken (Router.authSvc k) u) b.
Proof. unfold Auth.generateAccessToken. ordered_tac. Qed.

Lemma CreateRefreshToken_ordered u tn h ttl : ordered (Some 0) (Auth.CreateRefreshToken OnTx u tn h ttl) (Some 2).
Proof. unfold Auth.CreateRefreshToken. ordered_tac. Qed.

Lemma RotateRefreshToken_ordered i j : ordered (Some 2) (Auth.RotateRefreshToken i j) (Some 3).
Proof. unfold Auth.RotateRefreshToken. ordered_tac. Qed.

Lemma RevokeRefreshToken_ordered i : ordered (Some 0) (Auth.RevokeRefreshToken OnTx i) (Some 3).
Proof. unfold Auth.RevokeRefreshToken. ordered_tac. Qed.

Lemma RevokeAllUserRefreshTokens_ordered i : ordered None (Auth.RevokeAllUserRefreshTokens OnDb i) None.
Proof. unfold Auth.RevokeAllUserRefreshTokens. ordered_tac. Qed.

Lemma GetRoleByName_ordered n : ordered None (Auth.GetRoleByName OnDb n) None.
Proof. unfold Auth.GetRoleByName. ordered_tac. Qed.

Lemma GetUserByEmail_ordered tn e : ordered None (Auth.GetUserByEmail OnDb tn e) None.
Proof. unfold Auth.GetUserByEmail, Auth.scanUser. ordered_tac. Qed.

Lemma GetUserByID_ordered tn i : ordered None (Auth.GetUserByID OnDb tn i) None.
Proof. unfold Auth.GetUserByID, Auth.scanUser. ordered_tac. Qed.

Lemma GetRefreshTokenByHash_ordered h : ordered None (Auth.GetRefreshTokenByHash OnDb h) None.
Proof. unfold Auth.GetRefreshTokenByHash. ordered_tac. Qed.

Hint Resolve auth_recordAudit_ordered CreateUser_ordered generateRawToken_ordered generateAccessToken_ordered
  CreateRefreshToken_ordered RotateRefreshToken_ordered RevokeRefreshToken_ordered
  RevokeAllUserRefreshTokens_ordered GetRoleByName_ordered GetUserByEmail_ordered GetUserByID_ordered
  GetRefreshTokenByHash_ordered : ordered.

Lemma issueTokenPair_ordered k u : ordered (Some 0) (Auth.issueTokenPair (Router.authSvc k) OnTx u) (Some 2).
Proof. unfold Auth.issueTokenPair. ordered_tac. Qed.

Hint Resolve issueTokenPair_ordered : ordered.

Lemma Register_ordered k tn ro e pw : ordered None (Auth.Register (Router.authSvc k) tn ro e pw) None.
Proof. unfold Auth.Register. ordered_tac. Qed.

Lemma Login_ordered k tn e pw : ordered None (Auth.Login (Router.authSvc k) tn e pw) None.
Proof. unfold Auth.Login. ordered_tac. Qed.

Lemma Refresh_ordered k raw : ordered None (Auth.Refresh (Router.authSvc k) raw) None.
Proof. unfold Auth.Refresh. cbv zeta. ordered_tac. Qed.

Lemma Logout_ordered k raw : ordered None (Auth.Logout (Router.authSvc k) raw) None.
Proof. unfold Auth.Logout. ordered_tac. Qed.

Lemma repo_GetUserPermissions_ordered tn u : ordered None (Auth.GetUserPermissions tn u) None.
Proof. unfold Auth.GetUserPermissions, Auth.repo_GetUserPermissions. ordered_tac. Qed.

Lemma ValidateAccessToken_ordered k t : ordered None (Auth.ValidateAccessToken (Router.authSvc k) t) None.
Proof. unfold Auth.ValidateAccessToken. ordered_tac. Qed.

Lemma VerifyAPIKey_ordered key : ordered None (Tenants.VerifyAPIKey OnDb key) None.
Proof. unfold Tenants.VerifyAPIKey. ordered_tac. Qed.

Lemma create_tenant_ordered n : ordered None (Tenants.create_tenant n) None.
Proof. unfold Tenants.create_tenant, Tenants.generateAPIKey. ordered_tac. Qed.

Lemma ClaimOrGet_ordered tn k h ttl : ordered None (Idempotency.ClaimOrGet tn k h ttl) None.
Proof. unfold Idempotency.ClaimOrGet, Idempotency.Get. cbv zeta. ordered_tac. Qed.

Lemma Complete_ordered tn k c b ttl t : ordered None (Idempotency.Complete tn k c b ttl t) None.
Proof. unfold Idempotency.Complete. cbv zeta. ordered_tac. Qed.

Hint Resolve Complete_ordered : ordered.

Lemma complete_attempts_ordered f n tn k c b ttl t :
  ordered None (Idempotency.complete_attempts f n tn k c b ttl t) None.
Proof.
  revert n. induction f as [|f IH]; intros n; cbn [Idempotency.complete_attempts]; ordered_tac.
Qed.

Lemma audit_List_ordered tn l : ordered None (List tn l) None.
Proof. unfold List. cbv zeta. ordered_tac. Qed.

Hint Resolve Register_ordered Login_ordered Refresh_ordered Logout_ordered repo_GetUserPermissions_ordered
  ValidateAccessToken_ordered VerifyAPIKey_ordered ClaimOrGet_ordered complete_attempts_ordered
  audit_List_ordered : ordered.

#[local] Abbreviation orderly_handler h := (forall r, ordered None (h r) None).

(** Follows the structure of a handler. *)
Ltac handler_tac :=
  unfold GetTransaction, GetAccount; cbv zeta; unfold_handler;
  repeat first [progress ordered_tac | case_match].

Lemma handlers_ordered k :
  Forall (fun h => orderly_handler h)
    ([Router.healthHandler; Handlers.registerHandler (Router.authSvc k);
      Handlers.loginHandler (Router.authSvc k); Handlers.refreshHandler (Router.authSvc k);
      Handlers.logoutHandler (Router.authSvc k); Handlers.getAccountHandler; Handlers.getTransactionHandler;
      Handlers.auditLogHandler] ++ mutating_handlers).
Proof.
  repeat apply Forall_cons_2; [..|apply Forall_nil_2]; intros r;
    unfold Router.healthHandler, Handlers.registerHandler, Handlers.loginHandler, Handlers.refreshHandler,
      Handlers.logoutHandler, Handlers.getAccountHandler, Handlers.getTransactionHandler, Handlers.auditLogHandler,
      Handlers.createAccountHandler, Handlers.transferHandler, Handlers.createPendingTransactionHandler,
      Handlers.postPendingTransactionHandler, Handlers.failPendingTransactionHandler; handler_tac.
Qed.

Lemma tenant_gate_ordered h : orderly_handler h -> orderly_handler (Tenants.requireTenantAPIKey h).
Proof. intros Hh r. unfold Tenants.requireTenantAPIKey. handler_tac. Qed.

Lemma authorized_ordered k perm h : orderly_handler h -> orderly_handler (Router.authorized k perm h).
Proof. intros Hh r. unfold Router.authorized, AuthMw.Middleware, AuthMw.RequirePermission. handler_tac. Qed.

Lemma idempotent_ordered ttl opts h : orderly_handler h -> orderly_handler (Idempotency.Middleware ttl opts h).
Proof. intros Hh r. unfold Idempotency.Middleware, Idempotency.completeWithRetry. handler_tac. Qed.

Lemma dispatch_ordered k : orderly_handler (Router.dispatch k).
Proof.
  intros r. unfold Router.dispatch. destruct (find _ _) as [[p h]|] eqn:E;
    [|destruct (Router.unrouted r); exact I].
  apply find_some in E as [Hin _]. apply list_elem_of_In in Hin. revert r.
  pose proof (handlers_ordered k) as Hr. unfold mutating_handlers in Hr.
  cbn [app] in Hr. rewrite !Forall_cons in Hr. destruct_and?.
  unfold Router.routes, Router.mutating in Hin. rewrite !elem_of_cons in Hin.
  repeat (destruct Hin as [Hin|Hin]; [injection Hin as _ ->;
    auto using tenant_gate_ordered, authorized_ordered, idempotent_ordered; fail|]).
  all: try by apply not_elem_of_nil in Hin.
Qed.

(** Every request a process serves. *)
Lemma app_ordered k abort : orderly_handler (Router.app k abort).
Proof.
  pose proof (dispatch_ordered k) as Hd. intros r.
  unfold Router.app, Http.logging_Middleware, Http.metrics_Middleware, Http.recovery_Middleware, time_Now. handler_tac.
Qed.

(** Every goroutine of the program. *)
Lemma task_ordered t : ordered None (Worker.task_prog System.visitor_prog t) None.
Proof.
  pose proof app_ordered as Ha. pose proof create_tenant_ordered as Hc.
  destruct t as [w|s ev|[k abort r|name]]; cbn [Worker.task_prog System.visitor_prog];
    repeat (eapply ordered_bind; [first [apply Ha | apply Hc | ordered_call]|intros ?; exact I]).
  all: repeat (eapply ordered_bind; [|intros ?; exact I]); auto with ordered.
Qed.
End process.
