(* ===== verification/Progress.v ===== *)
(** * Ordered programs do not deadlock

    A pool in which every goroutine is [ordered] (Order.v) can always go on: if a
    goroutine waits for a lock, the transaction that holds the lock is at a higher
    stage, so following the waits leads to one that can move, and releasing locks
    in that way lets any goroutine be run to its end. *)

From S2P Require Import Prelude GoBase Db Prog ProgFacts WorkerWp Order.

(** ** The invariant *)

(** A transaction at stage [s] holds locks of lower ranks, and locks on rows that
    nobody else can see yet. *)
Definition held_below (s : nat) (tx : option txst) (d : db) : Prop :=
  forall l, l ∈ locks_of tx -> rank l < s \/ exists t i, l = LRow t i /\ absent d l.

Definition at_stage (b : stage) (tx : option txst) (d : db) : Prop :=
  match b with None => tx = None | Some s => held_below s tx d end.

Definition orderly {A} (th : thread A) (d : db) : Prop :=
  exists b, ordered b (th_prog th) None /\ at_stage b (th_tx th) d.

(** Nothing is asked of the environment, or of a change. *)
Definition pool_ok {A} (P : pool A) : Prop :=
  exists d0, pool_inv free any_tick (fun _ _ _ _ _ => True) d0 P.

Record disciplined {A} (P : pool A) : Prop := Disciplined {
  dc_ok : pool_ok P;
  dc_orderly : forall i th, p_threads P !! i = Some th -> orderly th (p_db P)
}.

(** A goroutine moves without a fault. *)
Definition calm (_ : db) (tk : tick) : Prop := tk_fault tk = NoFault.

(** ** Steps *)

Lemma held_below_frame s tx d d' : held_below s tx d -> frame (locks_of tx) d d' -> held_below s tx d'.
Proof.
  intros Hh F l Hl. destruct (Hh l Hl) as [?|(t & i & -> & Ha)]; [by left|right].
  exists t, i. split; [done|]. by eapply absent_frame.
Qed.

Lemma at_stage_frame b tx d d' : at_stage b tx d -> frame (locks_of tx) d d' -> at_stage b tx d'.
Proof. destruct b; [apply held_below_frame|done]. Qed.

Lemma held_below_nil s tx d : locks_of tx = [] -> held_below s tx d.
Proof. intros E l Hl. rewrite E in Hl. by apply not_elem_of_nil in Hl. Qed.

Lemma held_below_mono s s' tx d : s <= s' -> held_below s tx d -> held_below s' tx d.
Proof. intros Hs Hh l Hl. destruct (Hh l Hl) as [?|?]; [left; lia|by right]. Qed.

Lemma mk_eff_frame K L ws d :
  (forall w, w ∈ ws -> lock_of w ∉ K) -> frame K d (apply_eff (mk_eff L ws) d).
Proof.
  intros Hw. unfold mk_eff. destruct ws as [|w ws]; [reflexivity|]. by apply apply_writes_frame.
Qed.

(** A statement sent to the pool of connections leaves the rows of the caller's
    own transaction alone. *)
Lemma exec_db_frame {R} others tk (q : stmt R) tx d r tx' e :
  exec_step others tk OnDb q tx d = Some (r, tx', e) -> tx' = tx /\ frame (locks_of tx) d (apply_eff e d).
Proof.
  unfold exec_step. destruct (locks_free _ (locks_of tx)) eqn:HF; [|by intros [= <- <- <-]].
  rewrite locks_free_spec in HF. intros Hs.
  assert (frame (locks_of tx) d (apply_eff (effect_of (q others (Env (tk_now tk) (tk_uuid tk)) d)) d)).
  { unfold effect_of. destruct (oc_res _); [reflexivity|]. apply mk_eff_frame. intros w Hw. by apply HF, needed_covers. }
  destruct (tk_fault tk); repeat case_match; by simplify_eq.
Qed.

Lemma at_stage_exec {R} others tk c (q : stmt R) tx d r tx' e o b :
  waits o q -> may_wait o b -> at_stage b tx d -> exec_step others tk c q tx d = Some (r, tx', e) ->
  at_stage (stage_after c o b) tx' (apply_eff e d).
Proof.
  intros Hq Hm Hb Hs. destruct c.
  - apply exec_db_frame in Hs as [-> F]. by eapply at_stage_frame.
  - pose proof (exec_step_read _ _ _ _ _ _ _ _ Hs) as ->. simpl.
    destruct b as [s|]; [|simpl in Hb; subst tx; simpl in Hs; destruct o; by simplify_eq].
    assert (Hall : forall s' t, s <= s' -> held_below s' (Some (tx_abort t)) d) by (intros; by apply held_below_nil).
    assert (Hle : weaker (Some s) (stage_after OnTx o (Some s))) by by apply after_grows.
    destruct tx as [t|]; simpl in Hs; [|simplify_eq; destruct o; by apply held_below_nil].
    destruct (tx_aborted t) eqn:Ea.
    { simplify_eq. destruct o; [eapply held_below_mono; [exact Hle|done]|done]. }
    destruct (tk_fault tk); try (simplify_eq; destruct o; by apply held_below_nil).
    destruct (locks_free _ others); [|done].
    destruct (oc_res _) eqn:Er; simplify_eq; [destruct o; by apply held_below_nil|].
    enough (held_below (match o with Some r => S r | None => s end)
              (Some (tx_extend t (q others (Env (tx_start t) (tk_uuid tk)) (apply_writes (tx_writes t) d)))) d)
      by by destruct o.
    intros l Hl. simpl in Hl. apply elem_of_app in Hl as [Hl|Hl].
    + destruct (Hb l Hl) as [?|?]; [left; destruct o; simpl in Hle; lia|by right].
    + destruct (Hq _ _ _ _ Hl) as [(tb & -> & Ha)|[-> _]]; [|left; lia].
      right. exists tb, (tk_uuid tk). split; [done|]. by apply absent_apply_writes in Ha as [_ ?].
Qed.

(** What is left of a program after a step. *)
Definition child {A} (p' p : prog A) : Prop :=
  match p with
  | Ret _ => False
  | BeginTx k => exists r, p' = k r
  | Exec _ _ k => exists r, p' = k r
  | Commit k => exists r, p' = k r
  | Rollback k => p' = k
  | Ask _ k => exists r, p' = k r
  | Emit _ k => p' = k
  end.

Lemma child_wf {A} : well_founded (@child A).
Proof.
  intros p. induction p as [a|k IH|R c q k IH|k IH|k IH|R q k IH|os k IH]; constructor; intros p' Hc; simpl in Hc;
    first [destruct Hc as [r ->]; apply IH | subst p'; exact IH | destruct Hc].
Qed.

(** A step goes to a child of the program, and within a transaction to a later
    stage. *)
Lemma stage_step {A} others tk (th th' : thread A) d e os b :
  ordered b (th_prog th) None -> at_stage b (th_tx th) d ->
  thread_step others tk th d = Some (th', e, os) ->
  child (th_prog th') (th_prog th) /\
  exists b', ordered b' (th_prog th') None /\ at_stage b' (th_tx th') (apply_eff e d) /\
    (th_tx th <> None -> th_tx th' = None \/ weaker b b').
Proof.
  destruct th as [p tx log]. intros Hp Hb Hs. unfold thread_step in Hs. simpl in *.
  destruct p; simpl in Hp; [done|..].
  - destruct Hp as [Hn He]. unfold begin_step in Hs.
    repeat case_match; simplify_eq; (split; [by eexists|]).
    all: first [exists b; split_and!; [by apply He|done|right; by apply weaker_refl]
               |exists (Some 0); split_and!; [done|by apply held_below_nil|done]].
  - destruct Hp as (o & Hq & Hm & Hk). destruct (exec_step _ _ _ _ _ _) as [[[r tx'] e']|] eqn:E; [|done].
    simplify_eq. split; [by eexists|]. exists (stage_after c o b).
    split_and!; [by apply Hk|by eapply at_stage_exec|right; by apply after_grows].
  - destruct (commit_step tk tx) as [[r tx'] e'] eqn:E. simplify_eq. split; [by eexists|].
    assert (tx' = None) as -> by (unfold commit_step in E; repeat case_match; by simplify_eq).
    exists None. split_and!; [by apply Hp|done|by left].
  - simplify_eq. split; [done|]. exists None. split_and!; [done|done|by left].
  - simplify_eq. split; [by eexists|]. exists b. split_and!; [by apply Hp|done|right; by apply weaker_refl].
  - simplify_eq. split; [done|]. exists b. split_and!; [done|done|right; by apply weaker_refl].
Qed.

Lemma pool_ok_step {A} (P P' : pool A) : pool_ok P -> pool_step any_tick P P' -> pool_ok P'.
Proof. intros [d0 HP] Hs. exists d0. by eapply pool_inv_step. Qed.

Lemma calm_any {A} (P P' : pool A) : pool_step calm P P' -> pool_step any_tick P P'.
Proof. intros [d ths hist i th tk th' e os Hi _ Hs]. by eapply PoolStep. Qed.

(** A move of goroutine [i]: what it did, and what it left alone. *)
Record moves {A} (P P' : pool A) (i : nat) : Prop := Moves {
  mv_disciplined : disciplined P';
  mv_step : pool_step calm P P';
  mv_threads : exists th th', p_threads P !! i = Some th /\ p_threads P' = <[i:=th']> (p_threads P);
  mv_frame : forall j th, j <> i -> p_threads P !! j = Some th -> frame (locks_of (th_tx th)) (p_db P) (p_db P')
}.

Lemma disciplined_next {A} d ths hist i (th th' : thread A) tk e os :
  let P' := Pool (apply_eff e d) (<[i:=th']> ths) (add_hist i e d hist) in
  disciplined (Pool d ths hist) -> ths !! i = Some th ->
  thread_step (others_locks ths i) tk th d = Some (th', e, os) ->
  disciplined P' /\
  forall j thj, j <> i -> ths !! j = Some thj -> frame (locks_of (th_tx thj)) d (apply_eff e d).
Proof.
  intros P' [HP Ho] Hi Hs. simpl in *.
  assert (Hf : forall j thj, j <> i -> ths !! j = Some thj -> frame (locks_of (th_tx thj)) d (apply_eff e d)).
  { intros j thj Hne Hj. destruct HP as [d0 HP].
    eapply pool_step_frame; [exact HP|exact Hi|exact I|exact Hs|exact Hne|exact Hj]. }
  split; [split|done].
  - eapply pool_ok_step; [exact HP|]. by eapply PoolStep.
  - simpl. intros j thj [(<- & -> & _)|(Hne & Hj)]%list_lookup_insert_Some.
    + destruct (Ho i th Hi) as (b & Hp & Hb). destruct (stage_step _ _ _ _ _ _ _ _ Hp Hb Hs) as (_ & b' & ? & ? & _).
      by exists b'.
    + destruct (Ho j thj Hj) as (b & Hp & Hb). exists b. split; [done|]. eapply at_stage_frame; [done|]. by apply (Hf j).
Qed.

Lemma disciplined_step {A} d ths hist i (th th' : thread A) tk e os :
  disciplined (Pool d ths hist) -> ths !! i = Some th -> calm d tk ->
  thread_step (others_locks ths i) tk th d = Some (th', e, os) ->
  moves (Pool d ths hist) (Pool (apply_eff e d) (<[i:=th']> ths) (add_hist i e d hist)) i.
Proof.
  intros HP Hi Htk Hs. destruct (disciplined_next _ _ _ _ _ _ _ _ _ HP Hi Hs) as [HP' Hf].
  split; simpl; [done|by eapply PoolStep|by exists th, th'|done].
Qed.

(** ** Either it moves, or it waits for a transaction at a higher stage *)

Lemma fresh_identifier (L : list lock) : exists u, forall t, LRow t u ∉ L.
Proof.
  set (ids := (fun l => match l with LRow _ i => i | LUnique _ _ _ => 0%N end) <$> L).
  exists (fresh ids). intros t Hin. apply (infinite_is_fresh ids), list_elem_of_fmap. by exists (LRow t (fresh ids)).
Qed.

Definition calm_tick (u : uuid) : tick := Tick NoFault 0 u None None (HttpStatus 200).

(** Goroutine [j] holds a visible lock of rank at least [s]. *)
Definition holder {A} (P : pool A) (s : nat) (j : nat) : Prop :=
  exists th l, p_threads P !! j = Some th /\ l ∈ locks_of (th_tx th) /\ visible (p_db P) l /\ s <= rank l.

Lemma not_free (L others : list lock) : locks_free L others = false -> exists l, l ∈ L /\ l ∈ others.
Proof.
  unfold locks_free. intros E. destruct (Exists_dec (fun l => l ∈ others) L) as [(l & Hl & Ho)%Exists_exists|Hn].
  - by exists l.
  - exfalso. rewrite (proj2 (forallb_forall _ L)) in E; [done|]. intros l Hl%list_elem_of_In.
    apply bool_decide_eq_true. intros Ho. apply Hn, Exists_exists. by exists l.
Qed.

(** Visible inside a transaction but not outside: its own row. *)
Lemma visible_seen ws d l : visible (apply_writes ws d) l -> visible d l \/ l ∈ (lock_of <$> ws).
Proof.
  revert d. induction ws as [|w ws IH]; intros d; [by left|]. rewrite apply_writes_cons. intros Hv.
  destruct (IH _ Hv) as [Hv'|?]; [|right; by right]. destruct l as [t i|]; [|by left].
  destruct (decide (LRow t i = lock_of w)) as [->|Hne]; [right; left|left].
  intros Ha. apply Hv'. clear Hv Hv' IH. destruct w, t; simpl in *; rewrite ?lookup_insert_ne; congruence.
Qed.

Section waiting.
Context {A : Type}.

Lemma lock_holder (P : pool A) i s th l ws :
  disciplined P -> p_threads P !! i = Some th -> l ∈ others_locks (p_threads P) i ->
  visible (apply_writes ws (p_db P)) l -> (forall w, w ∈ ws -> lock_of w ∈ locks_of (th_tx th)) -> s <= rank l ->
  exists j, j <> i /\ holder P s j.
Proof.
  intros [[d0 HP] _] Hi (j & thj & Hne & Hj & Hl)%elem_of_others_locks Hv Hws Hs.
  exists j. split; [done|]. exists thj, l. split_and!; [done|done| |done].
  destruct (visible_seen _ _ _ Hv) as [?|Hw]; [done|]. exfalso.
  apply list_elem_of_fmap in Hw as (w & -> & Hw). eapply (pi_locks _ _ _ _ _ HP j i); eauto.
Qed.

(** A database call without a fault that cannot be made. *)
Lemma exec_blocked {R} others u c (q : stmt R) tx d o b :
  waits o q -> may_wait o b -> (forall t, LRow t u ∉ others) ->
  exec_step others (calm_tick u) c q tx d = None ->
  exists l ws, l ∈ others /\ visible (apply_writes ws d) l /\ default 0 b <= rank l /\
    (forall w, w ∈ ws -> forall t, tx = Some t -> w ∈ tx_writes t) /\ (ws <> [] -> tx <> None).
Proof.
  intros Hq Hm Hu.
  assert (Hl : forall l ev d', l ∈ needed (q others ev d') -> l ∈ others -> e_uuid ev = u ->
    visible d' l /\ default 0 b <= rank l).
  { intros l ev d' Hn Ho <-. destruct (Hq _ _ _ _ Hn) as [(t & -> & _)|[-> Hv]]; [by destruct (Hu t)|].
    split; [done|]. destruct b; simpl in *; lia. }
  unfold exec_step. destruct c; simpl.
  - destruct (locks_free _ (locks_of tx)); [|done]. destruct (locks_free _ others) eqn:E; [done|]. intros _.
    apply not_free in E as (l & Hn & Ho). destruct (Hl _ _ _ Hn Ho eq_refl). exists l, [].
    split_and!; try done. intros w Hw. by apply not_elem_of_nil in Hw.
  - destruct tx as [t|]; [|done]. destruct (tx_aborted t); [done|].
    destruct (locks_free _ others) eqn:E; [by case_match|]. intros _.
    apply not_free in E as (l & Hn & Ho). destruct (Hl _ _ _ Hn Ho eq_refl). exists l, (tx_writes t).
    split_and!; try done. by intros w Hw ? [= <-].
Qed.

(** Either goroutine [i] moves, or another one holds a lock it waits for. *)
Lemma moves_or_waits (P : pool A) i th b :
  disciplined P -> p_threads P !! i = Some th -> ordered b (th_prog th) None -> at_stage b (th_tx th) (p_db P) ->
  (exists a, th_prog th = Ret a) \/
  (exists P' th', moves P P' i /\ p_threads P' = <[i:=th']> (p_threads P) /\ child (th_prog th') (th_prog th) /\
     exists b', ordered b' (th_prog th') None /\ at_stage b' (th_tx th') (p_db P') /\
       (th_tx th <> None -> th_tx th' = None \/ weaker b b')) \/
  exists j, j <> i /\ holder P (default 0 b) j.
Proof.
  intros HP Hi Hp Hb. destruct P as [d ths hist]. simpl in *.
  destruct (fresh_identifier (others_locks ths i)) as [u Hu].
  destruct (thread_step (others_locks ths i) (calm_tick u) th d) as [[[th' e] os]|] eqn:Hs.
  - right. left. eexists _, th'. split; [eapply disciplined_step; [exact HP|exact Hi| |exact Hs]; reflexivity|].
    split; [reflexivity|]. destruct (stage_step _ _ _ _ _ _ _ _ Hp Hb Hs) as [? Hb']. by split.
  - unfold thread_step in Hs. destruct (th_prog th) as [a|k|R c q k|k|k|R q k|os k] eqn:Ep; try done.
    + left. by exists a.
    + repeat case_match; done.
    + right. right. destruct (exec_step _ _ _ _ _ _) as [[[? ?] ?]|] eqn:E; [done|].
      destruct Hp as (o & Hq & Hm & _).
      destruct (exec_blocked _ _ _ _ _ _ _ _ Hq Hm Hu E) as (l & ws & Hl & Hv & Hr & Hws & Hne).
      eapply (lock_holder (Pool d ths hist)); [exact HP|exact Hi|exact Hl|exact Hv| |exact Hr].
      intros w Hw. destruct (th_tx th) as [t|] eqn:Et; [|by destruct ws; [apply not_elem_of_nil in Hw|destruct (Hne ltac:(done))]].
      destruct HP as [[d0 HP] _]. destruct (pi_wp _ _ _ _ _ HP i th Hi) as [Hc _].
      rewrite Et in Hc. eapply Hc; [done|]. by eapply Hws.
    + repeat case_match; done.
Qed.
End waiting.

(** ** Running to the end *)

(** How many transactions are open. *)
Definition opened {A} (P : pool A) : nat := length (filter (fun th => is_Some (th_tx th)) (p_threads P)).

Section progress.
Context {A : Type}.

Lemma opened_move (P P' : pool A) i th th' :
  p_threads P !! i = Some th -> p_threads P' = <[i:=th']> (p_threads P) -> is_Some (th_tx th) ->
  opened P = (if decide (is_Some (th_tx th')) then opened P' else S (opened P')).
Proof.
  unfold opened. intros Hi -> Ht. pose proof (lookup_lt_Some _ _ _ Hi) as Hlt.
  rewrite (insert_take_drop _ _ _ Hlt). rewrite <- (take_drop_middle _ _ _ Hi) at 1.
  rewrite !filter_app, !filter_cons, !length_app. rewrite decide_True by done.
  case_decide; simpl; lia.
Qed.

(** Goroutine [j] and its rows have been left alone. *)
Definition untouched (P P' : pool A) (j : nat) : Prop :=
  forall th, p_threads P !! j = Some th ->
    p_threads P' !! j = Some th /\ frame (locks_of (th_tx th)) (p_db P) (p_db P').

Lemma untouched_trans P1 P2 P3 j : untouched P1 P2 j -> untouched P2 P3 j -> untouched P1 P3 j.
Proof.
  intros H1 H2 th Hj. destruct (H1 th Hj) as [Hj2 F1]. destruct (H2 th Hj2) as [Hj3 F2].
  split; [done|]. by etransitivity.
Qed.

Lemma moves_untouched (P P' : pool A) i j : moves P P' i -> j <> i -> untouched P P' j.
Proof.
  intros [_ _ (th & th' & _ & E) Hf] Hne thj Hj. split; [|by apply (Hf j)]. rewrite E. by rewrite list_lookup_insert_ne.
Qed.

(** Goroutine [j] holds nothing at stage [s] or above. *)
Definition low (P : pool A) (s j : nat) : Prop :=
  forall th, p_threads P !! j = Some th -> held_below s (th_tx th) (p_db P).

Lemma low_untouched P P' s s' j :
  low P s j -> s <= s' -> is_Some (p_threads P !! j) -> untouched P P' j -> low P' s' j.
Proof.
  intros Hl Hs [th Hj] Hu th' Hj'. destruct (Hu th Hj) as [E F]. assert (th' = th) as -> by congruence.
  eapply held_below_mono; [exact Hs|]. eapply held_below_frame; [exact (Hl th Hj)|exact F].
Qed.

(** The holder of a lock is inside a transaction at a higher stage. *)
Lemma holder_stage (P : pool A) s j :
  disciplined P -> holder P s j ->
  ~ low P s j /\ exists th s', p_threads P !! j = Some th /\ is_Some (th_tx th) /\ s < s' /\ s < 3 /\
    ordered (Some s') (th_prog th) None /\ held_below s' (th_tx th) (p_db P).
Proof.
  intros [_ Ho] (th & l & Hj & Hl & Hv & Hr).
  assert (Hab : forall s', held_below s' (th_tx th) (p_db P) -> rank l < s').
  { intros s' Hh. destruct (Hh l Hl) as [?|(t & i & -> & Ha)]; [done|]. by destruct Hv. }
  assert (rank l <= 2) by (destruct l as [[]|]; simpl; lia).
  split; [intros Hlow; specialize (Hab s (Hlow th Hj)); lia|].
  destruct (Ho j th Hj) as ([s'|] & Hp & Hb); simpl in Hb; [|rewrite Hb in Hl; by apply not_elem_of_nil in Hl].
  exists th, s'. split_and!; try done.
  - destruct (th_tx th); [done|by apply not_elem_of_nil in Hl].
  - specialize (Hab s' Hb). lia.
  - lia.
Qed.

(** A transaction at stage [s] can be ended by moving, besides its goroutine,
    only goroutines that hold locks of rank [s] or above. *)
Lemma release n : forall m p s (P : pool A) i th,
  disciplined P -> opened P <= n -> 3 - s <= m -> p_threads P !! i = Some th -> th_prog th = p ->
  is_Some (th_tx th) -> ordered (Some s) p None -> held_below s (th_tx th) (p_db P) ->
  exists P', rtc (pool_step calm) P P' /\ disciplined P' /\ opened P' < opened P /\
    forall j, j <> i -> low P s j -> untouched P P' j.
Proof.
  induction (lt_wf n) as [n _ IHn]. intros m. induction (lt_wf m) as [m _ IHm].
  intros p. induction (child_wf p) as [p _ IHp]. intros s P i th HP Hn Hm Hi <- Ht Ho Hb.
  destruct (moves_or_waits P i th (Some s) HP Hi Ho Hb) as
    [[a Ea]|[(P1 & th1 & Hmv & E & Hc & b1 & Ho1 & Hb1 & Hw)|(j & Hj & Hh)]]; [by rewrite Ea in Ho|..].
  - assert (Hi1 : p_threads P1 !! i = Some th1)
      by (rewrite E; apply list_lookup_insert_eq; by eapply lookup_lt_Some).
    pose proof (opened_move P P1 i th th1 Hi E Ht) as Hop.
    pose proof (fun j Hne => moves_untouched P P1 i j Hmv Hne) as Hu.
    destruct Hmv as [HP1 Hs1 _ _]. case_decide as Hd.
    + destruct (Hw ltac:(intros E'; rewrite E' in Ht; by destruct Ht)) as [Hnone|Hle];
        [rewrite Hnone in Hd; by destruct Hd|].
      destruct b1 as [s1|]; [|done]. simpl in Hle.
      destruct (IHp _ Hc s1 P1 i th1 HP1 ltac:(lia) ltac:(lia) Hi1 eq_refl Hd Ho1 Hb1) as (P2 & Hr & HP2 & Hlt & Hu2).
      exists P2. split; [by eapply rtc_l|]. split; [done|]. split; [lia|]. intros j Hne Hlow.
      destruct (p_threads P !! j) as [thj|] eqn:Hj; [|intros ? ?; congruence].
      eapply untouched_trans; [by apply Hu|]. apply Hu2; [done|]. eapply low_untouched; [done|done|by eexists|by apply Hu].
    + exists P1. split; [by apply rtc_once|]. split; [done|]. split; [lia|]. intros j Hne _. by apply Hu.
  - destruct (holder_stage P s j HP Hh) as (Hnl & thj & sj & Hjj & Htj & Hlt & H3 & Hoj & Hbj).
    destruct (IHm (3 - sj) ltac:(lia) _ sj P j thj HP Hn ltac:(lia) Hjj eq_refl Htj Hoj Hbj) as (P1 & Hr1 & HP1 & Hlt1 & Hu1).
    assert (Hui : untouched P P1 i).
    { apply Hu1; [done|]. intros th' Hi'. assert (th' = th) as -> by congruence. eapply held_below_mono; [|done]. lia. }
    destruct (Hui th Hi) as [Hi1 F1].
    destruct (IHn (opened P1) ltac:(lia) (3 - s) _ s P1 i th HP1 ltac:(lia) ltac:(lia) Hi1 eq_refl Ht Ho
      (held_below_frame _ _ _ _ Hb F1)) as (P2 & Hr2 & HP2 & Hlt2 & Hu2).
    exists P2. split; [by etransitivity|]. split; [done|]. split; [lia|]. intros k Hne Hlow.
    assert (Hkj : k <> j) by (intros ->; done).
    destruct (p_threads P !! k) as [thk|] eqn:Hk; [|intros ? ?; congruence].
    assert (Huk : untouched P P1 k).
    { apply Hu1; [done|]. intros th' Hk'. eapply held_below_mono; [|by apply Hlow]. lia. }
    eapply untouched_trans; [done|]. apply Hu2; [done|]. eapply low_untouched; [done|done|by eexists|done].
Qed.

(** Any goroutine can be run to its end. *)
Lemma finish p : forall n (P : pool A) i th,
  disciplined P -> opened P <= n -> p_threads P !! i = Some th -> th_prog th = p ->
  exists P' th' a, rtc (pool_step calm) P P' /\ disciplined P' /\ p_threads P' !! i = Some th' /\
    th_prog th' = Ret a /\ th_tx th' = None.
Proof.
  induction (child_wf p) as [p _ IHp]. intros n. induction (lt_wf n) as [n _ IHn].
  intros P i th HP Hn Hi <-. destruct (dc_orderly _ HP i th Hi) as (b & Ho & Hb).
  destruct (moves_or_waits P i th b HP Hi Ho Hb) as
    [[a Ea]|[(P1 & th1 & Hmv & E & Hc & _)|(j & Hj & Hh)]].
  - exists P, th, a. split_and!; try done. rewrite Ea in Ho. by destruct b.
  - assert (Hi1 : p_threads P1 !! i = Some th1)
      by (rewrite E; apply list_lookup_insert_eq; by eapply lookup_lt_Some).
    destruct Hmv as [HP1 Hs1 _ _].
    destruct (IHp _ Hc (opened P1) P1 i th1 HP1 ltac:(lia) Hi1 eq_refl) as (P' & th' & a & Hr & Hrest).
    exists P', th', a. split; [by eapply rtc_l|done].
  - destruct (holder_stage P _ j HP Hh) as (Hnl & thj & sj & Hjj & Htj & Hlt & _ & Hoj & Hbj).
    destruct (release (opened P) (3 - sj) _ sj P j thj HP ltac:(lia) ltac:(lia) Hjj eq_refl Htj Hoj Hbj)
      as (P1 & Hr1 & HP1 & Hlt1 & Hu1).
    assert (Hui : untouched P P1 i).
    { apply Hu1; [done|]. intros th' Hi'. assert (th' = th) as -> by congruence.
      destruct b as [s|]; simpl in *; [eapply held_below_mono; [|done]; lia|rewrite Hb; by apply held_below_nil]. }
    destruct (Hui th Hi) as [Hi1 _].
    destruct (IHn (opened P1) ltac:(lia) P1 i th HP1 ltac:(lia) Hi1 eq_refl) as (P' & th' & a & Hr & Hrest).
    exists P', th', a. split; [by etransitivity|done].
Qed.
End progress.
