(* ===== verification/Concrete.v ===== *)
(** * Concrete instances and sample data

    Instances of the third-party parameters, and small databases, on which the
    examples of the property files are evaluated. *)

From Stdlib Require Import DecimalString DecimalN DecimalFacts DecimalPos.
From S2P Require Import Prelude GoBase Db Prog ProgFacts Interfaces Ledger LedgerSpec.
From S2P Require Import LedgerFacts Worker WorkerWp System.
From S2P Require Auth Http Handlers Router Webhook.

(** ** Instances *)

(** Identifiers written in decimal. *)
Definition demo_String (u : uuid) : string := NilZero.string_of_uint (N.to_uint u).
Definition demo_Parse (s : string) : option uuid := N.of_uint <$> NilZero.uint_of_string s.

Lemma demo_Parse_String u : demo_Parse (demo_String u) = Some u.
Proof.
  unfold demo_Parse, demo_String. rewrite NilZero.usu.
  - simpl. f_equal. apply DecimalN.Unsigned.of_to.
  - destruct u; [done|]. apply DecimalPos.Unsigned.to_uint_nonnil.
Qed.

Definition demo_uuid : UuidLib :=
  {| uuid_String := demo_String; uuid_Parse := demo_Parse; uuid_Parse_String := demo_Parse_String |}.

Definition demo_text : DriverText :=
  {| sqlerr_text := fun _ => "driver error"%string; scan_text := fun _ => "scan error"%string |}.

(** A toy digest: the text itself. *)
Definition demo_crypto : Crypto :=
  {| sha256_hex := fun s => s; hmac_sha256_hex := fun k s => (k +:+ "|" +:+ s)%string |}.

Definition demo_json : JsonText := {| json_text := fun _ => "{}"%string |}.

Lemma micro_mono a b : (a <= b -> a / 1000 * 1000 <= b / 1000 * 1000)%Z.
Proof. intros H. pose proof (Z.div_le_mono a b 1000). lia. Qed.

Lemma micro_idem a : (a / 1000 * 1000 / 1000 * 1000 = a / 1000 * 1000)%Z.
Proof. by rewrite Z.div_mul. Qed.

(** Whole microseconds. *)
Definition demo_time : PgTime :=
  {| pg_time := fun t => (t / 1000 * 1000)%Z; pg_time_mono := micro_mono; pg_time_idem := micro_idem |}.

Definition demo_lower : SqlLower := {| sql_lower := fun s => s |}.

(** A toy password hash: the password itself. *)
Lemma demo_compare (salt password hash : string) :
  @inr goerr string password = inr hash -> bool_decide (hash = password) = true.
Proof. intros [= ->]. by apply bool_decide_true. Qed.

Definition demo_bcrypt : Auth.Bcrypt :=
  {| Auth.bcrypt_Generate := fun _ password => inr password;
     Auth.bcrypt_Compare := fun hash password => bool_decide (hash = password);
     Auth.bcrypt_Compare_Generate := demo_compare |}.

(** A toy token: the tenant and user claims in clear. *)
Definition demo_jwt : Auth.Jwt :=
  {| Auth.jwt_NewNumericDate := fun t => (t / 1000000000 * 1000000000)%Z;
     Auth.jwt_SignedString := fun _ c => inr (Auth.cl_UserID c);
     Auth.jwt_ParseWithClaims := fun now s keyfunc =>
       match keyfunc true "HS256"%string with
       | inl e => inl e
       | inr _ => inr (Auth.Build_Claims s "1" "7" s (now + 1) now, true)
       end |}.

Lemma demo_float_spec z : fits64 z = false ->
  int64_min = int64_min \/ int64_min = (if (z <? 0)%Z then int64_min else int64_max).
Proof. by left. Qed.

(** The amd64 conversion. *)
Definition demo_float : Webhook.FloatConv :=
  {| Webhook.float_to_int_out := fun _ => int64_min; Webhook.float_to_int_out_spec := demo_float_spec |}.

Definition demo_http : Webhook.HttpLib := {| Webhook.NewRequest_error := fun _ => None |}.

Definition demo_decoder : Handlers.Decoder :=
  {| Handlers.decode_register := fun _ => None; Handlers.decode_login := fun _ => None;
     Handlers.decode_refresh := fun s => Some {| Handlers.ref_RefreshToken := s |};
     Handlers.decode_transfer := fun _ => Some {| Handlers.trr_Entries :=
       [ {| Handlers.ter_AccountID := "10"; Handlers.ter_AmountMinor := -300 |};
         {| Handlers.ter_AccountID := "11"; Handlers.ter_AmountMinor := 300 |} ] |};
     Handlers.decode_account := fun s => Some {| Handlers.car_Name := s |} |}.

Definition demo_encoder : Handlers.Encoder :=
  {| Handlers.json_encode := fun _ => "{}"%string; Handlers.time_text := fun _ => "t"%string;
     Handlers.time_RFC3339 := fun _ => "t"%string |}.

Definition demo_chi : Router.Chi := {| Router.unrouted := fun _ => (404%Z, "404 page not found"%string) |}.

(** ** An environment without faults *)

Definition demo_tick (n : nat) : tick :=
  Tick NoFault (1000000 * Z.of_nat n) (1000 + N.of_nat n) (Some "raw") (Some 0%Z) (HttpStatus 200).

Lemma demo_faultless : no_faults demo_tick.
Proof. intros n. reflexivity. Qed.

(** Threads 0 .. [n]-1 in turn, [rounds] times each. *)
Definition round_robin (n rounds : nat) : list (nat * tick) :=
  (fun k => (k mod n, demo_tick k)%nat) <$> seq 0 (n * rounds).

Lemma round_robin_steps {A} (d : db) (ps : list (prog A)) n rounds :
  rtc (pool_step any_tick) (pool_start d ps) (pool_exec (pool_start d ps) (round_robin n rounds)).
Proof. by apply pool_exec_steps. Qed.

(** In which, too, the endpoint of every tenant answers 200. *)
Lemma round_robin_http {A} (d : db) (ps : list (prog A)) n rounds :
  rtc (pool_step (fun _ tk => tk_http tk = HttpStatus 200)) (pool_start d ps)
    (pool_exec (pool_start d ps) (round_robin n rounds)).
Proof. apply pool_exec_steps. intros _ i tk (k & E & _)%list_elem_of_fmap. by injection E as -> ->. Qed.

(** ** A database *)

Definition event_for `{UuidLib} (t : uuid) (st : txn_status) : event_row :=
  EventRow 1 (event_of_status st)
    (JObject [("transaction_id", JString (uuid_String t)); ("status", JString (status_text st))]%string)
    JobPending 0 0 0 None.

Definition audit_for `{UuidLib} (t : uuid) (st : txn_status) (action : string) : audit_row :=
  AuditRow 1 action "u"
    (JObject [("status", JString (status_text st)); ("transaction_id", JString (uuid_String t))]%string) 0.

(** Two tenants, four accounts of the first and one of the second; transaction
    100 funded account 10 from account 12, transaction 101 is pending. *)
Definition demo_db : db :=
  let _ := demo_uuid in
  {| tenants := {[ 1%N := TenantRow "acme" "k1" (Some "https://hook") (Some "secret");
                   2%N := TenantRow "other" "k2" None None ]};
     accounts := {[ 10%N := AccountRow 1 "cash" 0; 11%N := AccountRow 1 "rent" 0;
                    12%N := AccountRow 1 "treasury" 0; 13%N := AccountRow 1 "fees" 0; 20%N := AccountRow 2 "foreign" 0 ]};
     transactions := {[ 100%N := TransactionRow 1 StatusPosted 0;
                        101%N := TransactionRow 1 StatusPending 0 ]};
     entries := {[ 200%N := EntryRow 1 100 10 1000 0; 201%N := EntryRow 1 100 12 (-1000) 0;
                   202%N := EntryRow 1 101 10 (-300) 0; 203%N := EntryRow 1 101 11 300 0 ]};
     idempotency_keys := ∅;
     webhook_events := {[ 300%N := event_for 100 StatusPosted; 301%N := event_for 101 StatusPending ]};
     dead_letter_events := ∅;
     audit_log := {[ 400%N := audit_for 100 StatusPosted AuditTransactionTransferred;
                     401%N := audit_for 101 StatusPending AuditTransactionPendingCreated ]};
     users := {[ 7%N := UserRow 1 5 "ann" "pw" UserStatusActive 0 ]};
     refresh_tokens := ∅;
     rbac := RbacTables {[ 5%N := "admin"%string ]}
       {[ 6%N := "transactions:write"%string ]} [(5%N, 6%N)] |}.

(** A tenant with an account and no history at all. *)
Definition fresh_db : db :=
  {| tenants := tenants demo_db; accounts := accounts demo_db; transactions := ∅; entries := ∅;
     idempotency_keys := ∅; webhook_events := ∅; dead_letter_events := ∅; audit_log := ∅;
     users := users demo_db; refresh_tokens := ∅; rbac := rbac demo_db |}.

(** A transfer as the idempotency middleware sees it: authenticated. *)
Definition keyed_request : Http.Request :=
  {| Http.rq_Method := "POST"; Http.rq_Path := "/v1/transfers"; Http.rq_Route := Some "/v1/transfers"%string;
     Http.rq_Header := fun _ => "key-1"%string; Http.rq_Body := Some "{}"%string; Http.rq_id := ""; Http.rq_limit := "";
     Http.rq_tenant := Some 1%N; Http.rq_claims := None |}.

(** ** A day of two processes *)

Definition demo_request (path route id key : string) : Http.Request :=
  {| Http.rq_Method := "POST"; Http.rq_Path := path; Http.rq_Route := Some route;
     Http.rq_Header := fun h => if decide (h = "Authorization"%string) then "Bearer 7"%string else key;
     Http.rq_Body := Some "{}"%string; Http.rq_id := id; Http.rq_limit := ""%string;
     Http.rq_tenant := None; Http.rq_claims := None |}.

(** The goroutines from [first] to [first + n - 1] in turn, [rounds] times each. *)
Definition moves (first n rounds : nat) : list (command visitor) :=
  (fun k => Move (first + k mod n)%nat (demo_tick k)) <$> seq 0 (n * rounds).

(** A transfer and a posting over HTTP, a new tenant, and a poll by the worker
    of each process. *)
Definition demo_morning : list (command visitor) :=
  [ Start Router.webhookWorker; Start Router.webhookWorker;
    Arrive (Serve "secret" "abort" (demo_request "/v1/transfers" "/v1/transfers" "" "key-1"));
    Arrive (Serve "secret" "abort" (demo_request "/v1/transactions/101/post" "/v1/transactions/{id}/post" "101" "key-2"));
    Arrive (CreateTenant "new"); TimerFires 0; TimerFires 1 ]%string ++ moves 0 5 60 ++ [Proceed 0; Proceed 1].

(** Then the deliveries. *)
Definition demo_day : list (command visitor) := demo_morning ++ moves 5 4 20 ++ [Proceed 0; Proceed 1].

Section demo_run.
Local Existing Instances demo_uuid demo_text demo_crypto demo_json demo_time demo_lower demo_bcrypt
  demo_jwt demo_float demo_http demo_decoder demo_encoder demo_chi.

Definition system_run (d : db) (cs : list (command visitor)) : fleet visitor :=
  fleet_exec visitor_prog (fleet_start d) cs.

Lemma system_run_reached d cs : system_reached any_tick d (system_run d cs).
Proof. by apply fleet_exec_steps. Qed.

Lemma system_run_app d cs cs' :
  rtc (system_step any_tick) (system_run d cs) (system_run d (cs ++ cs')).
Proof. unfold system_run, fleet_exec. rewrite foldl_app. by apply fleet_exec_steps. Qed.
End demo_run.

(** ** Deciding the invariants of a concrete database *)

(** Reduces a statement about all rows of a concrete table to its rows. *)
Ltac each_row :=
  match goal with
  | |- forall i x, ?m !! i = Some x -> @?P i x =>
      let l := eval vm_compute in (map_to_list m) in
      let E := fresh in
      assert (E : map_to_list m = l) by (vm_compute; reflexivity);
      intros i x Hx; apply elem_of_map_to_list in Hx; rewrite E in Hx; clear E; revert i x Hx;
      intros i x Hx;
      repeat (apply elem_of_cons in Hx as [Hx|Hx]; [injection Hx as -> ->|]);
      [..|by apply not_elem_of_nil in Hx]
  end.

Lemma demo_wf : ledger_wf demo_db.
Proof.
  unfold ledger_wf. each_row; (split; [vm_compute; by eexists|]); eexists;
    (split; [vm_compute; reflexivity|reflexivity]).
Qed.

Lemma demo_balanced : balanced demo_db.
Proof.
  intros t [row Ht]. revert t row Ht. each_row; vm_compute; reflexivity.
Qed.

Lemma demo_isolated : isolated demo_db.
Proof.
  unfold isolated. intros e r t He. revert e r He t. each_row; intros t Ht; vm_compute in Ht;
    injection Ht as <-; intros Hs; try discriminate Hs; eexists; (split; [vm_compute; reflexivity|reflexivity]).
Qed.

Lemma demo_announced : @announced demo_uuid demo_db.
Proof.
  unfold announced. each_row.
  - exists 300%N. eexists. split; [vm_compute; reflexivity|]. vm_compute. done.
  - exists 301%N. eexists. split; [vm_compute; reflexivity|]. vm_compute. done.
Qed.

Lemma demo_audited : @audited demo_uuid demo_db.
Proof.
  unfold audited. each_row.
  - exists 400%N. eexists. split; [vm_compute; reflexivity|]. split; [done|]. split; [by left|].
    by exists [], [].
  - exists 401%N. eexists. split; [vm_compute; reflexivity|]. split; [done|]. split; [done|].
    by exists [], [].
Qed.
