(* ===== verification/LedgerProps.v ===== *)
(** * Properties of the ledger

    First what any number of concurrent ledger calls do (every success is one
    atomic effect), then what the whole program keeps true of the ledger
    (solvency, conservation, isolation, outbox, audit trail), then single calls
    and the arithmetic of entries. *)

From S2P Require Import Prelude GoBase Db Prog ProgFacts Interfaces Ledger LedgerSpec LedgerWp.
From S2P Require Import LedgerFacts LedgerRefine Adapters Worker System Concrete.
From S2P Require Auth Http Handlers Router Webhook.
Local Open Scope Z_scope.

(** ** Helpers *)

(** What NewService is given keeps the promises of Interfaces.v. *)
Definition service_ok (s : Service) : Prop :=
  (forall e, svc_events s = Some e -> EventEnqueuerOk e) /\
  (forall a, svc_audit s = Some a -> AuditRecorderOk a).

Lemma main_service_ok : service_ok Router.ledgerSvc.
Proof. split; [apply events_ok|apply audit_ok]. Qed.

(** A reply that resolved transaction [id]. *)
Definition resolves (id : uuid) (c : call) (r : reply) : Prop :=
  match c, r with
  | PostPending _ id' _, RResolved (inr _) => id' = id
  | FailPending _ id' _, RResolved (inr _) => id' = id
  | _, _ => False
  end.

Lemma resolves_log `{UuidLib} s tick_ok id c r log :
  resolves id c r -> call_result s tick_ok c r log ->
  exists d1 d2 tn an st et ac txn, log = [(d1, d2)] /\ st <> StatusPending /\
    resolved s tn id an st et ac txn d1 d2.
Proof.
  destruct c, r as [|[?|txn]|]; simpl; try done; intros ->.
  - intros (d1 & d2 & -> & _ & Hr). eexists _, _, _, _, _, _, _, _. split; [done|]. by split; [|exact Hr].
  - intros (d1 & d2 & -> & Hr). eexists _, _, _, _, _, _, _, _. split; [done|]. by split; [|exact Hr].
Qed.

(** ** Concurrent ledger calls *)

Section calls.
Context `{UuidLib} (s : Service) (tick_ok : db -> tick -> Prop).

(** C1: Any interleaving of any ledger calls, with any faults of the database,
    is a sequence of steps of the abstract machine, and a call that has
    returned made at most one of them visible: exactly the effect specified
    for its reply when it succeeds, and nothing when it fails (unless the
    answer to its COMMIT was lost). *)
Theorem ledger_linearizable d0 calls P :
  service_ok s -> ledger_wf d0 ->
  rtc (pool_step tick_ok) (pool_start d0 (call_prog s <$> calls)) P ->
  chain d0 (snd <$> p_hist P) (p_db P) /\
  (forall i a b, (i, (a, b)) ∈ p_hist P -> exists L, ledger_step s L a b) /\
  (forall i c th r, calls !! i = Some c -> p_threads P !! i = Some th -> th_prog th = Ret r ->
     call_result s tick_ok c r (hist_of i (p_hist P))).
Proof.
  intros [He Ha] Hwf Hs. destruct (calls_inv s tick_ok He Ha d0 calls P Hwf Hs) as [Hwp _ Hc Hg Hlog].
  split_and!; [done|done|]. intros i c th r Hi Hth Hr.
  destruct (Hwp i th Hth) as [_ Hq]. specialize (Hq (p_db P) (rely_refl _ _ _)).
  rewrite Hr in Hq. simpl in Hq. destruct Hq as [_ Hq]. rewrite <- (Hlog i th Hth). by apply Hq.
Qed.

(** C2: Of all the concurrent attempts to post or fail one pending
    transaction, at most one succeeds. *)
Theorem resolve_at_most_once d0 calls P i j ci cj thi thj ri rj id :
  service_ok s -> ledger_wf d0 ->
  rtc (pool_step tick_ok) (pool_start d0 (call_prog s <$> calls)) P ->
  calls !! i = Some ci -> calls !! j = Some cj ->
  p_threads P !! i = Some thi -> p_threads P !! j = Some thj ->
  th_prog thi = Ret ri -> th_prog thj = Ret rj ->
  resolves id ci ri -> resolves id cj rj -> i = j.
Proof.
  intros [He Ha] Hwf Hs Hci Hcj Hti Htj Hri Hrj Hi Hj.
  destruct (calls_inv s tick_ok He Ha d0 calls P Hwf Hs) as [Hwp _ Hc Hg Hlog].
  assert (Hres : forall k ck thk rk, calls !! k = Some ck -> p_threads P !! k = Some thk ->
    th_prog thk = Ret rk -> resolves id ck rk -> exists d1 d2 tn an st et ac txn,
      (k, (d1, d2)) ∈ p_hist P /\ st <> StatusPending /\ resolved s tn id an st et ac txn d1 d2).
  { intros k ck thk rk Hck Htk Hrk Hk. destruct (Hwp k thk Htk) as [_ Hq].
    specialize (Hq (p_db P) (rely_refl _ _ _)). rewrite Hrk in Hq. simpl in Hq. destruct Hq as [_ Hq].
    destruct (resolves_log _ _ _ _ _ _ Hk (Hq _ Hck)) as (d1 & d2 & tn & an & st & et & ac & txn & El & Hst & Hr).
    exists d1, d2, tn, an, st, et, ac, txn. split_and!; [|done..].
    apply hist_of_in. rewrite <- (Hlog k thk Htk), El. left. }
  destruct (decide (i = j)) as [|Hne]; [done|exfalso].
  destruct (Hres i ci thi ri Hci Hti Hri Hi) as (a & b & tn & an & st & et & ac & txn & Hin & Hst & Hr).
  destruct (Hres j cj thj rj Hcj Htj Hrj Hj) as (a' & b' & tn' & an' & st' & et' & ac' & txn' & Hin' & Hst' & Hr').
  assert (Hsteps : forall h x y, chain x h y -> (forall c, c ∈ h -> c ∈ snd <$> p_hist P) -> ledger_reach s x y).
  { intros h x y Hch Hsub. eapply chain_reach; [exact Hch|]. intros u v Huv.
    apply Hsub in Huv. apply list_elem_of_fmap in Huv as ([k w] & E & Hk). simpl in E. subst w. by eapply Hg. }
  destruct (hist_order _ _ _ _ _ _ _ Hc Hne Hin Hin') as (h1 & h2 & h3 & [(Hc1 & Hc2 & E)|(Hc1 & Hc2 & E)]);
    simpl in Hc1, Hc2.
  - eapply resolved_once; [|exact Hr|exact Hst| |exact Hr'].
    + eapply reach_wf; [|exact Hwf]. eapply Hsteps; [exact Hc1|]. rewrite E. set_solver.
    + eapply Hsteps; [exact Hc2|]. rewrite E. set_solver.
  - eapply resolved_once; [|exact Hr'|exact Hst'| |exact Hr].
    + eapply reach_wf; [|exact Hwf]. eapply Hsteps; [exact Hc1|]. rewrite E. set_solver.
    + eapply Hsteps; [exact Hc2|]. rewrite E. set_solver.
Qed.
End calls.

(** ** The whole program *)

Section system.
Context `{UuidLib, DriverText, Crypto, PgTime, SqlLower, JsonText, Auth.Bcrypt, Auth.Jwt,
          Handlers.Decoder, Handlers.Encoder, Router.Chi, Webhook.FloatConv, Webhook.HttpLib}.
Context (tick_ok : db -> tick -> Prop) (d0 : db) (F : fleet visitor).
Local Abbreviation reached := (system_reached tick_ok d0 F).

(** C3: Whatever requests arrive, workers poll and deliver and tenants are
    created, in any number of processes of which any may be killed at any
    moment, the database only moves by the atomic effects of the ledger's
    operations and by changes that leave the ledger's tables alone. *)
Theorem system_refines_ledger :
  ledger_wf d0 -> reached ->
  chain d0 (snd <$> fl_hist F) (fl_db F) /\
  forall i a b, (i, (a, b)) ∈ fl_hist F -> exists L, ledger_step Router.ledgerSvc L a b.
Proof. intros Hwf Hs. by destruct (system_inv _ _ _ Hwf Hs) as [_ _ Hc Hg _]. Qed.

(** C4: An account whose balance is not negative stays so, as long as the
    amounts ever entered add up to less than 2^63. *)
Theorem no_overdraft a :
  ledger_wf d0 -> reached -> bounded (fl_db F) -> 0 <= posted_sum d0 a -> 0 <= posted_sum (fl_db F) a.
Proof. intros Hwf Hs Hb Ha. eapply reach_nonneg; [by eapply system_reach|done..]. Qed.

(** C5: Money is neither created nor destroyed: the sum of all balances is
    constant modulo 2^64, and exactly so while the amounts entered add up to
    less than 2^63. *)
Theorem money_conserved :
  ledger_wf d0 -> balanced d0 -> reached ->
  balanced (fl_db F) /\ (int64_modulus | supply (fl_db F) - supply d0) /\
  (bounded (fl_db F) -> supply (fl_db F) = supply d0).
Proof.
  intros Hwf Hb Hs. pose proof (system_reach _ _ _ Hwf Hs) as Hr. split_and!.
  - by eapply reach_balanced.
  - by eapply reach_supply.
  - by eapply reach_supply_exact.
Qed.



(** C10: Posted money stays within a tenant: the accounts of every posted
    transaction belong to the transaction's tenant. *)
Theorem tenant_isolation :
  ledger_wf d0 -> isolated d0 -> reached -> isolated (fl_db F).
Proof. intros Hwf Hi Hs. eapply reach_isolated; [by eapply system_reach|done..]. Qed.

(** C11: The outbox is complete: at every moment each transaction has, in the
    same database state, the event that announces its present status. *)
Theorem outbox_complete :
  ledger_wf d0 -> announced d0 -> reached -> announced (fl_db F).
Proof. intros Hwf Ha Hs. apply (reach_announced Router.ledgerSvc d0); [done|by eapply system_reach|done..]. Qed.

(** C12: The audit trail is append-only and complete: no row of it ever
    changes, and each transaction has the row that records its present
    status. *)
Theorem audit_trail :
  ledger_wf d0 -> audited d0 -> reached ->
  audit_log d0 ⊆ audit_log (fl_db F) /\ audited (fl_db F).
Proof.
  intros Hwf Ha Hs. pose proof (system_reach _ _ _ Hwf Hs) as Hr. split.
  - by eapply reach_audit_log.
  - by apply (reach_audited Router.ledgerSvc d0).
Qed.
End system.

(** ** Examples *)

Local Existing Instances demo_uuid demo_text demo_crypto demo_json demo_time demo_lower demo_bcrypt
  demo_jwt demo_float demo_http demo_decoder demo_encoder demo_chi.

(** Three clients: a transfer, and two that race to resolve transaction 101. *)
Definition demo_calls : list call :=
  [ Transfer {| req_TenantID := 1; req_ActorID := "u";
                req_Entries := [ {| in_AccountID := 10; in_AmountMinor := -200 |};
                                 {| in_AccountID := 11; in_AmountMinor := 200 |} ] |};
    PostPending 1 101 "u"; FailPending 1 101 "u" ].

Definition demo_pool : pool reply :=
  pool_exec (pool_start demo_db (call_prog Router.ledgerSvc <$> demo_calls)) (round_robin 3 40).

Example demo_pool_ends :
  (fun th => match th_prog th with
             | Ret (RTransaction (inr _)) => "transferred"%string
             | Ret (RResolved (inr _)) => "resolved"%string
             | Ret (RResolved (inl e)) => if decide (e = ErrTransactionNotPending) then "refused"%string else ""%string
             | _ => ""%string
             end) <$> p_threads demo_pool = ["transferred"; "refused"; "resolved"]%string.
Proof. vm_compute. reflexivity. Qed.

Lemma demo_pool_reached :
  rtc (pool_step any_tick) (pool_start demo_db (call_prog Router.ledgerSvc <$> demo_calls)) demo_pool.
Proof. apply round_robin_steps. Qed.

Lemma ledger_linearizable_witness :
  length (p_hist demo_pool) = 2%nat /\ chain demo_db (snd <$> p_hist demo_pool) (p_db demo_pool).
Proof.
  split; [vm_compute; reflexivity|].
  exact (proj1 (ledger_linearizable Router.ledgerSvc any_tick demo_db demo_calls demo_pool
    main_service_ok demo_wf demo_pool_reached)).
Defined.

Lemma resolve_at_most_once_witness : exists th r,
  p_threads demo_pool !! 2%nat = Some th /\ th_prog th = Ret r /\
  resolves 101 (FailPending 1 101 "u") r /\ 2%nat = 2%nat.
Proof.
  destruct (ends_with_spec demo_pool 2 (fun r => match r with RResolved (inr _) => true | _ => false end))
    as (th & r & E & Er & Hw); [vm_compute; reflexivity|].
  assert (Hr : resolves 101 (FailPending 1 101 "u") r) by (destruct r as [|[]|]; try discriminate Hw; reflexivity).
  exists th, r. split; [exact E|]. split; [exact Er|]. split; [exact Hr|].
  exact (resolve_at_most_once Router.ledgerSvc any_tick demo_db demo_calls demo_pool 2 2 _ _ th th r r 101
    main_service_ok demo_wf demo_pool_reached eq_refl eq_refl E E Er Er Hr Hr).
Defined.

Local Abbreviation demo_system := (system_run demo_db demo_day).

Example demo_system_ends :
  (fun th => match th_prog th with Ret _ => length (th_log th) | _ => 0%nat end) <$>
    fl_threads demo_system = [3; 3; 1; 1; 0; 1; 1]%nat.
Proof. vm_compute. reflexivity. Qed.

Lemma demo_system_reached : system_reached any_tick demo_db demo_system.
Proof. apply system_run_reached. Qed.

Lemma demo_system_bounded : bounded (fl_db demo_system).
Proof. vm_compute. discriminate. Qed.

Lemma system_refines_ledger_witness :
  length (fl_hist demo_system) = 10%nat /\ chain demo_db (snd <$> fl_hist demo_system) (fl_db demo_system).
Proof.
  split; [vm_compute; reflexivity|].
  exact (proj1 (system_refines_ledger any_tick demo_db demo_system demo_wf demo_system_reached)).
Defined.

Lemma no_overdraft_witness :
  posted_sum demo_db 10 = 1000 /\ posted_sum (fl_db demo_system) 10 = 400 /\
  0 <= posted_sum (fl_db demo_system) 10.
Proof.
  split; [vm_compute; reflexivity|]. split; [vm_compute; reflexivity|].
  apply (no_overdraft any_tick demo_db demo_system 10 demo_wf demo_system_reached
    demo_system_bounded). vm_compute. discriminate.
Defined.

Lemma money_conserved_witness : supply (fl_db demo_system) = supply demo_db.
Proof.
  exact (proj2 (proj2 (money_conserved any_tick demo_db demo_system
    demo_wf demo_balanced demo_system_reached)) demo_system_bounded).
Defined.

(** The same requests against a ledger without history. *)
Local Abbreviation fresh_system := (system_run fresh_db demo_day).



Lemma tenant_isolation_witness : isolated (fl_db demo_system).
Proof.
  exact (tenant_isolation any_tick demo_db demo_system demo_wf demo_isolated demo_system_reached).
Defined.

Lemma outbox_complete_witness : announced (fl_db demo_system).
Proof.
  exact (outbox_complete any_tick demo_db demo_system demo_wf demo_announced demo_system_reached).
Defined.

Lemma audit_trail_witness : audit_log demo_db ⊆ audit_log (fl_db demo_system) /\ audited (fl_db demo_system).
Proof.
  exact (audit_trail any_tick demo_db demo_system demo_wf demo_audited demo_system_reached).
Defined.
