(* ===== verification/LedgerSingle.v ===== *)
(** * Properties of single ledger calls, and of the arithmetic of entries *)

From S2P Require Import Prelude GoBase Db Prog ProgFacts Interfaces AuditLog Ledger LedgerSpec.
From S2P Require Import LedgerWp LedgerFacts LedgerRefine Adapters System Concrete.
From S2P Require Auth Handlers Router Webhook.
Local Open Scope Z_scope.

(** ** Helpers *)

(** What a call that ran alone did. *)
Definition call_outcome `{UuidLib} (s : Service) (c : call) (r : reply) (d d' : db) : Prop :=
  match c, r with
  | Transfer req, RTransaction (inr a) => transfer_effect s req a.1 a.2 d d'
  | CreatePending req, RTransaction (inr a) => pending_effect s req a.1 a.2 d d'
  | PostPending tn id an, RResolved (inr txn) => post_effect s tn id an txn d d'
  | FailPending tn id an, RResolved (inr txn) => fail_effect s tn id an txn d d'
  | NewAccount tn n an, RAccount (inr acc) => account_effect s tn n an acc d d'
  | (Transfer _ | CreatePending _), RTransaction (inl _) => d' = d
  | (PostPending _ _ _ | FailPending _ _ _), RResolved (inl _) => d' = d
  | NewAccount _ _ _, RAccount (inl _) => d' = d
  | _, _ => False
  end.

Definition no_lost_answer (_ : db) (tk : tick) : Prop := tk_fault tk <> FailAfter.

Lemma not_lossy : ~ lossy no_lost_answer.
Proof. intros (d & tk & H1 & H2). by apply H1. Qed.

Lemma tx_result_alone {A} (Ok : A -> db -> db -> Prop) r log d d' :
  tx_result no_lost_answer Ok [] r log -> chain d log d' ->
  match r with inl _ => d' = d | inr a => Ok a d d' end.
Proof.
  destruct r as [e|a]; simpl.
  - intros [->|[Hl _]]; [by intros ->|by apply not_lossy in Hl].
  - intros (d1 & d2 & -> & Hok) [-> Hc]. simpl in Hc. by subst.
Qed.

Lemma call_result_alone `{UuidLib} s c r log d d' :
  call_result s no_lost_answer c r log -> chain d log d' -> call_outcome s c r d d'.
Proof.
  destruct c, r as [x|x|x]; simpl; try done; intros Hr Hc;
    pose proof (tx_result_alone _ _ _ _ _ Hr Hc); by destruct x.
Qed.

Section single.
Context `{UuidLib} (s : Service).

Lemma call_alone c d orc r w :
  (forall e, svc_events s = Some e -> EventEnqueuerOk e) ->
  (forall a, svc_audit s = Some a -> AuditRecorderOk a) ->
  ledger_wf d -> (forall n, tk_fault (orc n) <> FailAfter) ->
  run (call_prog s c) orc (world_of d) = Some (r, w) ->
  w_tx w = None /\ call_outcome s c r d (w_db w).
Proof.
  intros He Ha Hwf Hf Hr.
  pose proof (wp_run (ledger_step s) no_lost_answer _ orc (world_of d) r w _ (fun _ n => Hf n)
    (call_wp s no_lost_answer He Ha c d Hwf) Hr) as [Htx Hres].
  split; [done|]. eapply call_result_alone; [done|].
  by eapply (run_chain _ _ (world_of d)).
Qed.

(** C14: A ledger call that runs alone ends, with no transaction left open;
    unless the answer to its COMMIT is lost, it is all or nothing: an error
    means an unchanged database, a success means exactly its effect. *)
Theorem call_all_or_nothing c d orc :
  (forall e, svc_events s = Some e -> EventEnqueuerOk e) ->
  (forall a, svc_audit s = Some a -> AuditRecorderOk a) ->
  ledger_wf d -> (forall n, tk_fault (orc n) <> FailAfter) ->
  exists r w, run (call_prog s c) orc (world_of d) = Some (r, w) /\ w_tx w = None /\
    call_outcome s c r d (w_db w).
Proof.
  intros He Ha Hwf Hf. destruct (run_total (call_prog s c) orc (world_of d)) as [[r w] Hr].
  exists r, w. split; [done|]. by eapply call_alone.
Qed.

(** C15: A transfer moves exactly the requested amounts: every balance
    changes by the total of the request's legs on that account, no account or
    older entry is touched, the transaction is stored as posted, and each leg
    is stored as one entry. *)
Lemma transfer_moves_money req txn rows d d' :
  ledger_wf d -> transfer_effect s req txn rows d d' ->
  accounts d' = accounts d /\
  (forall a, posted_sum d' a = posted_sum d a + net a (input_legs (req_Entries req))) /\
  transactions d' = <[txn_ID txn := TransactionRow (req_TenantID req) StatusPosted (txn_CreatedAt txn)]>
                      (transactions d) /\ transactions d !! txn_ID txn = None /\
  entries d ⊆ entries d' /\
  Forall2 (fun e r => ent_AccountID r = in_AccountID e /\ ent_AmountMinor r = in_AmountMinor e /\
                      entries d' !! ent_ID r = Some (entry_row_of r)) (req_Entries req) rows.
Proof.
  intros Hwf (_ & _ & Hc). pose proof Hc as (_ & _ & Hrows & _).
  apply created_spec in Hc as [Ha Hn Ht Hp _ _ _ Ho Hr _]; [|done]. split_and!; [done| |done|done| |].
  - intros a. by rewrite Hp, decide_True.
  - apply map_subseteq_spec. exact Ho.
  - clear -Hrows Hr. induction Hrows as [|e r es rows (_ & _ & H1 & H2) _ IH]; constructor.
    + split_and!; [done|done|]. apply Hr. left.
    + apply IH. intros r' ?. apply Hr. by right.
Qed.

(** Posting a pending transaction applies exactly its stored entries to
    the balances; failing it moves nothing. *)
Lemma resolution_moves_money tn id actor txn d d' :
  (post_effect s tn id actor txn d d' -> forall a, posted_sum d' a = posted_sum d a + net_of d id a) /\
  (fail_effect s tn id actor txn d d' -> forall a, posted_sum d' a = posted_sum d a).
Proof.
  split.
  - intros [_ Hr] a. apply resolved_spec in Hr. by rewrite (rf_posted_sum _ _ _ _ _ _ Hr), decide_True.
  - intros Hr a. apply resolved_spec in Hr. rewrite (rf_posted_sum _ _ _ _ _ _ Hr), decide_False by done. lia.
Qed.
End single.

(** ** Entries *)

(** validateEntries accepts a request exactly when it has at least two
    entries, none of them zero, whose exact sum is a multiple of 2^64 (the sum
    wraps around); otherwise it reports the first of these that fails. *)
Lemma validateEntries_spec es :
  match validateEntries es with
  | None => (2 <= length es)%nat /\ (forall e, e ∈ es -> in_AmountMinor e <> 0) /\
            (int64_modulus | sumZ (in_AmountMinor <$> es))
  | Some err =>
      err = ErrEmptyEntries /\ (length es < 2)%nat \/
      err = ErrZeroAmountEntry /\ (2 <= length es)%nat /\ (exists e, e ∈ es /\ in_AmountMinor e = 0) \/
      err = ErrUnbalancedEntries /\ (2 <= length es)%nat /\ (forall e, e ∈ es -> in_AmountMinor e <> 0) /\
        ~ (int64_modulus | sumZ (in_AmountMinor <$> es))
  end.
Proof.
  destruct (validateEntries es) as [err|] eqn:E; [|by apply validateEntries_None].
  unfold validateEntries in E. case_decide; [left; by simplify_eq|].
  assert (Hl : (2 <= length es)%nat) by lia. right.
  destruct (existsb _ es) eqn:Ez.
  - left. simplify_eq. apply existsb_exists in Ez as (e & He & Hz). apply list_elem_of_In in He.
    rewrite Z.eqb_eq in Hz. split_and!; eauto.
  - right. assert (Hz : forall e, e ∈ es -> in_AmountMinor e <> 0).
    { intros e He Hz. apply not_true_iff_false in Ez. apply Ez, existsb_exists. exists e.
      rewrite Z.eqb_eq, <- list_elem_of_In. done. }
    destruct (Sum es =? 0) eqn:Es; simpl in E; [done|]. simplify_eq. split_and!; [done..|].
    rewrite <- wrap64_zero, <- Sum_wrap. by apply Z.eqb_neq.
Qed.

(** uniqueAccountIDs lists each account of the entries exactly once. *)
Theorem uniqueAccountIDs_exact es :
  NoDup (uniqueAccountIDs es) /\
  forall a, a ∈ uniqueAccountIDs es <-> a ∈ (in_AccountID <$> es).
Proof.
  destruct (uniqueAccountIDs_spec es) as [Hnd Hin]. split; [done|]. intros a.
  rewrite Hin, list_elem_of_fmap. naive_solver.
Qed.

(** ** Where int64 arithmetic gives way *)

Local Existing Instance demo_uuid.

Definition leg (a : uuid) (x : Z) : EntryInput := {| in_AccountID := a; in_AmountMinor := x |}.

(** Four credits of 2^62 sum to 2^64, which wraps to zero. *)
Definition mint_request : TransferRequest :=
  {| req_TenantID := 1;
     req_Entries := [leg 10 (2 ^ 62); leg 11 (2 ^ 62); leg 12 (2 ^ 62); leg 13 (2 ^ 62)];
     req_ActorID := "u" |}.

(** Two debits of 2^63 cancel in [projected] as well as in the sum. *)
Definition drain_request : TransferRequest :=
  {| req_TenantID := 1; req_Entries := [leg 10 int64_min; leg 10 int64_min]; req_ActorID := "u" |}.

(** Money from nothing: in a ledger without any entry, a transfer of four
    credits of 2^62 is accepted and posted, and the sum of all balances becomes
    2^64. *)
Lemma transfer_can_mint :
  exists txn rows w,
    run (ExecuteTransfer Router.ledgerSvc mint_request) demo_tick (world_of fresh_db) =
      Some (inr (txn, rows), w) /\
    supply fresh_db = 0 /\ supply (w_db w) = 2 ^ 64.
Proof.
  destruct (run (ExecuteTransfer Router.ledgerSvc mint_request) demo_tick (world_of fresh_db))
    as [[[e|[txn rows]] w]|] eqn:E; [vm_compute in E; discriminate E| |vm_compute in E; discriminate E].
  exists txn, rows, w. vm_compute in E. injection E as <- <- <-. vm_compute. done.
Qed.

(** An account can be overdrawn without bound: the check of projected
    balances adds in int64, so two debits of 2^63 on one account pass it. The
    account, whose balance no longer fits an int64, cannot be read any more. *)
Lemma transfer_can_overdraw :
  exists txn rows w,
    run (ExecuteTransfer Router.ledgerSvc drain_request) demo_tick (world_of demo_db) =
      Some (inr (txn, rows), w) /\
    posted_sum demo_db 10 = 1000 /\ posted_sum (w_db w) 10 = 1000 - 2 ^ 64 /\
    exists w', run (GetAccount 1 10) demo_tick (world_of (w_db w)) =
      Some (inl (Wrap "ledger: get account: " (ScanRange (1000 - 2 ^ 64)) ""), w').
Proof.
  destruct (run (ExecuteTransfer Router.ledgerSvc drain_request) demo_tick (world_of demo_db))
    as [[[e|[txn rows]] w]|] eqn:E; [vm_compute in E; discriminate E| |vm_compute in E; discriminate E].
  exists txn, rows, w. vm_compute in E. injection E as <- <- <-. split_and!; [done..|].
  eexists. vm_compute. reflexivity.
Qed.

(** C18: The int64 arithmetic of entries wraps, on both sides of the ledger's
    rules: a transfer of four credits of 2^62 counts as balanced and is posted,
    so that the sum of all balances grows by 2^64; and two debits of 2^63 on one
    account pass the overdraft check, after which the account is overdrawn by
    almost 2^64 and cannot be read any more. *)
Theorem int64_gives_way :
  (exists txn rows w,
     run (ExecuteTransfer Router.ledgerSvc mint_request) demo_tick (world_of fresh_db) =
       Some (inr (txn, rows), w) /\
     supply fresh_db = 0 /\ supply (w_db w) = 2 ^ 64) /\
  (exists txn rows w,
     run (ExecuteTransfer Router.ledgerSvc drain_request) demo_tick (world_of demo_db) =
       Some (inr (txn, rows), w) /\
     posted_sum demo_db 10 = 1000 /\ posted_sum (w_db w) 10 = 1000 - 2 ^ 64 /\
     exists w', run (GetAccount 1 10) demo_tick (world_of (w_db w)) =
       Some (inl (Wrap "ledger: get account: " (ScanRange (1000 - 2 ^ 64)) ""), w')).
Proof. split; [exact transfer_can_mint|exact transfer_can_overdraw]. Qed.

(** ** Tenants and pending transactions *)

(** A request of tenant 1 over account 20, which belongs to tenant 2. *)
Definition foreign_request : TransferRequest :=
  {| req_TenantID := 1; req_Entries := [leg 10 (-5); leg 20 5]; req_ActorID := "u" |}.

(** The same with an account that does not exist. *)
Definition missing_request : TransferRequest :=
  {| req_TenantID := 1; req_Entries := [leg 10 (-5); leg 21 5]; req_ActorID := "u" |}.

(** CreatePendingTransaction does not check the tenant of its accounts: a
    pending transaction of tenant 1 can hold entries on an account of tenant 2,
    and the outcome tells an existing foreign account from a missing one;
    ExecuteTransfer refuses both with the same error. *)
Lemma pending_accepts_foreign_account :
  (exists txn rows w,
     run (CreatePendingTransaction Router.ledgerSvc foreign_request) demo_tick (world_of demo_db) =
       Some (inr (txn, rows), w) /\
     exists e r, entries (w_db w) !! e = Some r /\ en_tenant_id r = 1%N /\
       ac_tenant_id <$> accounts (w_db w) !! en_account_id r = Some 2%N) /\
  (exists w, run (CreatePendingTransaction Router.ledgerSvc missing_request) demo_tick (world_of demo_db) =
     Some (inl (Wrap "ledger: insert entry: " (SqlError (FkViolation "entries_account_id_fkey")) ""), w)) /\
  (exists w w', run (ExecuteTransfer Router.ledgerSvc foreign_request) demo_tick (world_of demo_db) =
     Some (inl (Wrap "" ErrAccountNotFound ": 20"), w) /\
   run (ExecuteTransfer Router.ledgerSvc missing_request) demo_tick (world_of demo_db) =
     Some (inl (Wrap "" ErrAccountNotFound ": 21"), w')).
Proof.
  split_and!.
  - destruct (run (CreatePendingTransaction Router.ledgerSvc foreign_request) demo_tick (world_of demo_db))
      as [[[e|[txn rows]] w]|] eqn:E; [vm_compute in E; discriminate E| |vm_compute in E; discriminate E].
    exists txn, rows, w. split; [done|]. vm_compute in E. injection E as <- <- <-.
    exists 1003%N. eexists. vm_compute. done.
  - eexists. vm_compute. reflexivity.
  - eexists _, _. split; vm_compute; reflexivity.
Qed.

(** ** Examples *)

Definition demo_transfer : TransferRequest :=
  {| req_TenantID := 1; req_Entries := [leg 10 (-200); leg 11 150; leg 13 50]; req_ActorID := "u" |}.

(** A call of the program's service on the sample database. *)
Lemma demo_call c r w :
  run (call_prog Router.ledgerSvc c) demo_tick (world_of demo_db) = Some (r, w) ->
  call_outcome Router.ledgerSvc c r demo_db (w_db w).
Proof.
  intros Hr. apply (call_alone Router.ledgerSvc c demo_db demo_tick r w); [apply events_ok|apply audit_ok| | |done].
  - apply demo_wf.
  - intros n. discriminate.
Qed.

Lemma call_all_or_nothing_witness : exists txn rows w,
  run (call_prog Router.ledgerSvc (Transfer demo_transfer)) demo_tick (world_of demo_db) =
    Some (RTransaction (inr (txn, rows)), w) /\ w_tx w = None /\
  call_outcome Router.ledgerSvc (Transfer demo_transfer) (RTransaction (inr (txn, rows))) demo_db (w_db w).
Proof.
  destruct (call_all_or_nothing Router.ledgerSvc (Transfer demo_transfer) demo_db demo_tick
    events_ok audit_ok demo_wf (fun n => ltac:(discriminate))) as (r & w & Hr & Htx & Ho).
  destruct r as [[e|[txn rows]]|r|r]; try (exfalso; vm_compute in Hr; discriminate Hr).
  exists txn, rows, w. exact (conj Hr (conj Htx Ho)).
Defined.

Lemma transfer_moves_money_witness : exists d',
  posted_sum d' 10 = 800 /\
  forall a, posted_sum d' a = posted_sum demo_db a + net a (input_legs (req_Entries demo_transfer)).
Proof.
  destruct (run (call_prog Router.ledgerSvc (Transfer demo_transfer)) demo_tick (world_of demo_db))
    as [[[[e|[txn rows]]|r|r] w]|] eqn:E; try (exfalso; vm_compute in E; discriminate E).
  exists (w_db w). split.
  - vm_compute in E. injection E as <- <- <-. vm_compute. reflexivity.
  - exact (proj1 (proj2 (transfer_moves_money Router.ledgerSvc demo_transfer txn rows demo_db (w_db w)
      demo_wf (demo_call _ _ _ E)))).
Defined.

Lemma resolution_moves_money_witness : exists d',
  posted_sum d' 10 = 700 /\ forall a, posted_sum d' a = posted_sum demo_db a + net_of demo_db 101 a.
Proof.
  destruct (run (call_prog Router.ledgerSvc (PostPending 1 101 "u")) demo_tick (world_of demo_db))
    as [[[r|[e|txn]|r] w]|] eqn:E; try (exfalso; vm_compute in E; discriminate E).
  exists (w_db w). split.
  - vm_compute in E. injection E as <- <-. vm_compute. reflexivity.
  - exact (proj1 (resolution_moves_money Router.ledgerSvc 1 101 "u" txn demo_db (w_db w)) (demo_call _ _ _ E)).
Defined.
