(* ===== verification/WebhookProps.v ===== *)
(** * Properties of the webhook worker and of the job queue *)

From stdpp Require Import pretty.
From S2P Require Import Prelude GoBase Db Prog ProgFacts Interfaces Queue Metrics Webhook WebhookWp.
From S2P Require Import Concrete.
Local Open Scope Z_scope.

(** ** Backoff *)

Lemma float64_of_int_exact z : Z.abs z < 2 ^ 53 -> float64_of_int z = z.
Proof.
  intros Hz. unfold float64_of_int. rewrite (proj2 (Z.leb_le _ 0)); [done|].
  destruct (decide (z = 0)) as [->|Hne]; [by vm_compute|].
  assert (Z.log2 (Z.abs z) < 53) by (apply Z.log2_lt_pow2; lia). lia.
Qed.

(** Where the exact product does not fit, the conversion gives a value that the
    clipping turns into the maximum. *)
Lemma clipped_backoff_spec `{FloatConv} s a :
  0 < svc_baseBackoff s < 2 ^ 53 -> 0 < svc_maxBackoff s <= int64_max -> 1 <= a <= int64_max ->
  clipped_backoff s a = Z.min (svc_baseBackoff s * 2 ^ (a - 1)) (svc_maxBackoff s).
Proof.
  intros Hb Hm Ha. unfold clipped_backoff, scaled_backoff.
  rewrite wrap64_id by (unfold int64_min; lia). rewrite float64_of_int_exact by lia.
  rewrite (proj2 (Z.leb_le 0 _)) by lia.
  assert (Hp : 0 < svc_baseBackoff s * 2 ^ (a - 1)) by (apply Z.mul_pos_pos; [lia|apply Z.pow_pos_nonneg; lia]).
  destruct (fits64 _) eqn:Ef.
  - destruct (Z.ltb_spec (svc_maxBackoff s) (svc_baseBackoff s * 2 ^ (a - 1))); simpl; [lia|].
    rewrite (proj2 (Z.leb_gt _ 0)) by lia. lia.
  - assert (Hbig : int64_max < svc_baseBackoff s * 2 ^ (a - 1)).
    { apply not_true_iff_false in Ef. rewrite fits64_spec in Ef. unfold int64_min in *. lia. }
    rewrite Z.min_r by lia. destruct (float_to_int_out_spec _ Ef) as [E|E]; rewrite E.
    + destruct (_ || _) eqn:Eo; [done|]. unfold int64_min in Eo. lia.
    + rewrite (proj2 (Z.ltb_ge _ 0)) by lia. destruct (Z.ltb_spec (svc_maxBackoff s) int64_max); simpl; [done|].
      destruct (int64_max <=? 0); lia.
Qed.

Lemma jitter_near d draw :
  5 <= d -> exists b, jitter d draw = Some b /\ 0 < b /\ 5 * Z.abs (b - d) <= d.
Proof.
  intros Hd. unfold jitter. rewrite (proj2 (Z.leb_gt d 0)) by lia.
  assert (d / 5 * 5 <= d < d / 5 * 5 + 5) by (pose proof (Z.div_mod d 5); pose proof (Z.mod_pos_bound d 5); lia).
  rewrite (proj2 (Z.leb_gt (2 * (d / 5)) 0)) by lia. destruct draw as [n|].
  - eexists. split; [done|]. pose proof (Z.mod_pos_bound n (2 * (d / 5))). lia.
  - exists d. split; [done|]. lia.
Qed.

Lemma capped_at_least s a :
  5 <= svc_baseBackoff s < 2 ^ 53 -> 5 <= svc_maxBackoff s <= int64_max -> 1 <= a <= int64_max ->
  5 <= Z.min (svc_baseBackoff s * 2 ^ (a - 1)) (svc_maxBackoff s).
Proof.
  intros Hb Hm Ha. apply Z.min_glb; [|lia]. assert (0 < 2 ^ (a - 1)) by (apply Z.pow_pos_nonneg; lia). nia.
Qed.

(** jitter panics exactly for durations from one to four nanoseconds;
    otherwise it gives nothing for a duration that is not positive, and a
    positive duration within a fifth of [d] for the others, whatever the random
    draw. *)
Theorem jitter_spec d draw :
  (jitter d draw = None <-> 0 < d < 5) /\
  (d <= 0 -> jitter d draw = Some 0) /\
  (5 <= d -> exists b, jitter d draw = Some b /\ 0 < b /\ 5 * Z.abs (b - d) <= d).
Proof.
  split_and!; [| |by apply jitter_near].
  - destruct (decide (5 <= d)) as [Hd|Hd].
    { destruct (jitter_near d draw Hd) as (b & -> & _). split; [done|lia]. }
    unfold jitter. destruct (Z.leb_spec d 0); [split; [done|lia]|].
    rewrite (Z.div_small d 5) by lia. split; [lia|done].
  - intros Hd. unfold jitter. by rewrite (proj2 (Z.leb_le d 0)).
Qed.


(** ** Deliveries *)

Section delivery.
Context `{DriverText, Crypto, PgTime, JsonText, FloatConv, HttpLib}.

End delivery.

(** ** Claims *)

Section claims.
Context (tick_ok : db -> tick -> Prop).

Lemma claims_inv d0 sizes P :
  rtc (pool_step tick_ok) (pool_start d0 (processBatch <$> sizes)) P ->
  pool_inv (fun _ d d' => claim_step d d') tick_ok
    (fun i evs tx log _ => exists n, sizes !! i = Some n /\ tx = None /\ claim_result tick_ok n [] evs log) d0 P.
Proof.
  apply wp_pool. intros i p Hp d _. rewrite list_lookup_fmap in Hp.
  destruct (sizes !! i) as [n|] eqn:En; [|done]. injection Hp as <-.
  eapply wp_mono; [by apply processBatch_wp|]. intros evs tx log d' Hc. by exists n.
Qed.

(** No claim leads back to pending. *)
Lemma claims_keep hist d d' i r :
  chain d hist d' -> (forall a b, (a, b) ∈ hist -> claim_step a b) ->
  webhook_events d !! i = Some r -> ev_status r <> JobPending -> webhook_events d' !! i = Some r.
Proof.
  revert d. induction hist as [|[a b] hist IH]; intros d Hc Hg Hr Hst; simpl in Hc; [by subst|].
  destruct Hc as [-> Hc]. apply (IH b Hc); [intros; apply Hg; by right| |done].
  destruct (Hg d b (list_elem_of_here _ _) i) as [E|(r' & Hr' & Hp & _)]; [by rewrite E|congruence].
Qed.

(** A poll that returned events claimed them in a change of its own. *)
Lemma returned_claimed d0 sizes P k th evs ev :
  rtc (pool_step tick_ok) (pool_start d0 (processBatch <$> sizes)) P ->
  p_threads P !! k = Some th -> th_prog th = Ret evs -> ev ∈ evs ->
  exists n d1 d2, sizes !! k = Some n /\ hist_of k (p_hist P) = [(d1, d2)] /\ claim_effect n evs d1 d2.
Proof.
  intros Hs Hk Hr Hin. destruct (claims_inv d0 sizes P Hs) as [Hwp _ _ _ Hlog].
  destruct (Hwp k th Hk) as [_ Hq]. specialize (Hq (p_db P) (rely_refl _ _ _)). rewrite Hr in Hq. simpl in Hq.
  destruct Hq as (n & Hn & _ & [[-> _]|[[-> _]|(d1 & d2 & El & He)]]); [set_solver|set_solver|].
  exists n, d1, d2. rewrite <- (Hlog k th Hk). done.
Qed.

(** An event claimed by one poll was not claimed by an earlier one. *)
Lemma claimed_before hist d a b a' b' n n' evs evs' h1 h2 h3 i :
  (forall x y, (x, y) ∈ hist -> claim_step x y) -> hist = h1 ++ (a, b) :: h2 ++ (a', b') :: h3 ->
  chain d h1 a -> chain b h2 a' ->
  claim_effect n evs a b -> claim_effect n' evs' a' b' ->
  i ∈ (evt_ID <$> evs) -> i ∈ (evt_ID <$> evs') -> False.
Proof.
  intros Hg -> _ Hc He He' (ev & -> & Hev)%list_elem_of_fmap (ev' & E & Hev')%list_elem_of_fmap.
  destruct (ce_claimed _ _ _ _ He ev Hev) as (r & _ & _ & Hb & _).
  destruct (ce_claimed _ _ _ _ He' ev' Hev') as (r' & Ha' & Hp' & _). rewrite <- E in Ha'.
  rewrite (claims_keep h2 b a' _ (set_status JobProcessing r) Hc) in Ha'; [by simplify_eq| |done|done].
  intros x y Hxy. apply Hg. rewrite !elem_of_app, !elem_of_cons, !elem_of_app. auto.
Qed.

(** However many pollers run, no event is handed out twice: the events
    that two polls return are distinct, and each was pending when it was
    claimed. *)
Lemma events_claimed_once d0 sizes P i j thi thj evsi evsj evi evj :
  rtc (pool_step tick_ok) (pool_start d0 (processBatch <$> sizes)) P ->
  p_threads P !! i = Some thi -> p_threads P !! j = Some thj ->
  th_prog thi = Ret evsi -> th_prog thj = Ret evsj ->
  evi ∈ evsi -> evj ∈ evsj -> evt_ID evi = evt_ID evj -> i = j /\ evi = evj.
Proof.
  intros Hs Hi Hj Hri Hrj Hini Hinj Eid.
  destruct (returned_claimed _ _ _ _ _ _ _ Hs Hi Hri Hini) as (n & a & b & _ & Hh & He).
  destruct (returned_claimed _ _ _ _ _ _ _ Hs Hj Hrj Hinj) as (n' & a' & b' & _ & Hh' & He').
  destruct (claims_inv d0 sizes P Hs) as [_ _ Hc Hg _].
  assert (Hg' : forall x y, (x, y) ∈ snd <$> p_hist P -> claim_step x y).
  { intros x y ([k w] & E & Hk)%list_elem_of_fmap. simpl in E. subst w. by destruct (Hg k x y Hk). }
  destruct (decide (i = j)) as [<-|Hne].
  - split; [done|]. assert (evsj = evsi) as -> by congruence. destruct (ce_claimed _ _ _ _ He evi Hini) as (r & Hr & _ & _ & ->).
    destruct (ce_claimed _ _ _ _ He evj Hinj) as (r' & Hr' & _ & _ & ->).
    rewrite <- Eid in Hr' |- *. congruence.
  - exfalso. assert (Hin : forall k c, hist_of k (p_hist P) = [c] -> (k, c) ∈ p_hist P)
      by (intros k c E; apply hist_of_in; rewrite E; left).
    pose proof (list_elem_of_fmap_2 evt_ID _ _ Hini) as H1. pose proof (list_elem_of_fmap_2 evt_ID _ _ Hinj) as H2.
    rewrite <- Eid in H2.
    destruct (hist_order _ _ _ _ _ _ _ Hc Hne (Hin _ _ Hh) (Hin _ _ Hh'))
      as (h1 & h2 & h3 & [(Hc1 & Hc2 & E)|(Hc1 & Hc2 & E)]); simpl in Hc1, Hc2.
    + by eapply claimed_before.
    + by eapply (claimed_before _ _ a' b' a b).
Qed.

End claims.

(** ** One delivery alone, without faults *)

Section alone.
Context `{DriverText, Crypto, PgTime, JsonText, FloatConv, HttpLib}.
Context (s : Service) (ev : Event) (orc : nat -> tick) (d : db) (r : event_row) (t : tenant_row) (url : string).
Hypotheses (Horc : no_faults orc) (Hrow : webhook_events d !! evt_ID ev = Some r)
  (Ht : tenants d !! evt_TenantID ev = Some t) (Hurl : tn_webhook_url t = Some url) (Hne : url <> ""%string)
  (Hreq : NewRequest_error url = None).

(** The headers of the request, signed at [now]. *)
Definition delivery_headers (now : time) : list (string * string) :=
  [("Content-Type", "application/json"); ("X-Transacta-Event-Type", evt_EventType ev);
   ("X-Transacta-Timestamp", pretty (unix now));
   ("X-Transacta-Signature", "sha256=" +:+ SignPayload (default "" (tn_webhook_secret t)) now
                                            (json_text (evt_Payload ev)))]%string.

Lemma run_deliver code :
  tk_http (orc 3%nat) = HttpStatus code ->
  run (deliver ev) orc (world_of d) =
    Some (if (code <? 200) || (300 <=? code)
          then inl (Wrap "" ErrDeliveryFailed (": received status " +:+ pretty code)) else inr tt,
          World d None [] [OHttp url (delivery_headers (tk_now (orc 1))) (evt_Payload ev)] 4).
Proof.
  intros Hc. unfold deliver, GetTenantWebhookConfig. 
  cbn. rewrite Ht. rewrite (Horc 0%nat). cbn. rewrite Hurl, decide_False by done. cbn. rewrite Hreq. cbn. rewrite Hc.
  by destruct ((code <? 200) || (300 <=? code)).
Qed.

Lemma run_update_event f msg pre1 pre2 os n :
  run (log_failure msg (wrap_err pre1 (wrap_err pre2 (sql_exec OnDb
        (fun _ _ d => Outcome [] (inr tt) (update_event (evt_ID ev) f d)))))) orc (World d None [] os n) =
    Some (Returned, World (event_set (evt_ID ev) f r d) None [(d, event_set (evt_ID ev) f r d)] os (S n)).
Proof.
  unfold log_failure. cbn. unfold effect_of, update_event, needed. cbn. rewrite Hrow, Horc. cbn.
  by rewrite app_nil_r.
Qed.

Lemma run_mark_delivered msg os n :
  run (log_failure msg (repo_MarkDelivered OnDb (evt_ID ev))) orc (World d None [] os n) =
    Some (Returned, let d' := event_set (evt_ID ev) (set_status JobDelivered) r d in
                    World d' None [(d, d')] os (S n)).
Proof. apply (run_update_event (set_status JobDelivered)). Qed.

Lemma run_reschedule msg attempt next err os n :
  run (log_failure msg (repo_ScheduleRetry OnDb (evt_ID ev) attempt next err)) orc (World d None [] os n) =
    Some (Returned, let d' := event_set (evt_ID ev) (retry_row attempt (pg_time next) err) r d in
                    World d' None [(d, d')] os (S n)).
Proof. apply (run_update_event (retry_row _ _ _)). Qed.

Lemma not_missing_endpoint text : errors_Is (Wrap "" ErrDeliveryFailed text) ErrNoEndpointConfigured = false.
Proof. reflexivity. Qed.

(** An answer in 2xx marks the event delivered; the request that the
    endpoint got carries the payload, with a timestamp and a signature that
    VerifySignature accepts for the tenant's secret. *)
Lemma delivery_acknowledged code :
  tk_http (orc 3%nat) = HttpStatus code -> 200 <= code < 300 ->
  exists w now headers signature,
    run (ProcessEvent s ev) orc (world_of d) = Some (Returned, w) /\ w_tx w = None /\
    w_db w = event_set (evt_ID ev) (set_status JobDelivered) r d /\
    OHttp url headers (evt_Payload ev) ∈ w_obs w /\
    ("X-Transacta-Timestamp", pretty (unix now))%string ∈ headers /\
    ("X-Transacta-Signature", "sha256=" +:+ signature)%string ∈ headers /\
    VerifySignature (default "" (tn_webhook_secret t)) now (json_text (evt_Payload ev)) signature = true.
Proof.
  intros Hc Hok. unfold ProcessEvent. rewrite run_bind, (run_deliver code Hc).
  replace ((code <? 200) || (300 <=? code)) with false by lia. cbn [bind Inc emit run w_pos w_tx w_db w_log w_obs].
  rewrite run_mark_delivered.
  eexists _, (tk_now (orc 1%nat)), (delivery_headers (tk_now (orc 1%nat))), _. split_and!; [done|done|done|left| | |].
  - unfold delivery_headers. right. right. left.
  - unfold delivery_headers. do 3 right. left.
  - by apply bool_decide_true.
Qed.

(** Any other answer, while attempts are left, puts the event back to
    pending with one more attempt, due after the capped exponential backoff
    give or take a fifth. *)
Lemma delivery_retried code :
  let attempt := add64 (evt_AttemptCount ev) 1 in
  let c := Z.min (svc_baseBackoff s * 2 ^ (attempt - 1)) (svc_maxBackoff s) in
  tk_http (orc 3%nat) = HttpStatus code -> ~ 200 <= code < 300 ->
  1 <= attempt < svc_maxAttempts s -> svc_maxAttempts s <= int64_max ->
  5 <= svc_baseBackoff s < 2 ^ 53 -> 5 <= svc_maxBackoff s <= int64_max ->
  exists w backoff err,
    run (ProcessEvent s ev) orc (world_of d) = Some (Returned, w) /\ w_tx w = None /\
    5 * Z.abs (backoff - c) <= c /\
    w_db w = event_set (evt_ID ev) (retry_row attempt (pg_time (tk_now (orc 5%nat) + backoff)) err) r d.
Proof.
  intros attempt c Hc Hko Ha Hmax Hb Hm. unfold ProcessEvent. rewrite run_bind, (run_deliver code Hc).
  replace ((code <? 200) || (300 <=? code)) with true by lia.
  rewrite not_missing_endpoint. fold attempt. rewrite (proj2 (Z.leb_gt _ _)) by lia.
  cbn [bind Inc emit time_Now ask run w_pos w_tx w_db w_log w_obs].
  destruct (jitter_near c (tk_int (orc 6%nat))) as (b & Hb' & _ & Hn); [apply capped_at_least; lia|].
  unfold backoffForAttempt. rewrite clipped_backoff_spec by lia. fold c. rewrite Hb'.
  rewrite run_reschedule. eexists _, b, _. done.
Qed.

(** A failure of the last attempt moves the event to the dead letters: in
    one change it is recorded there with its attempts, and marked failed. *)
Lemma delivery_dead_lettered code :
  let attempt := add64 (evt_AttemptCount ev) 1 in
  let j := tk_uuid (orc 6%nat) in
  tk_http (orc 3%nat) = HttpStatus code -> ~ 200 <= code < 300 ->
  svc_maxAttempts s <= attempt -> dead_letter_events d !! j = None ->
  exists w err now,
    run (ProcessEvent s ev) orc (world_of d) = Some (Returned, w) /\ w_tx w = None /\
    w_log w = [(d, w_db w)] /\
    webhook_events (w_db w) = <[evt_ID ev := failed_row err r]> (webhook_events d) /\
    dead_letter_events (w_db w) = <[j := DeadLetterRow (evt_TenantID ev) (evt_ID ev) (evt_EventType ev)
      (evt_Payload ev) attempt (Some err) now]> (dead_letter_events d).
Proof.
  intros attempt j Hc Hko Hmax Hj. unfold ProcessEvent. rewrite run_bind, (run_deliver code Hc).
  replace ((code <? 200) || (300 <=? code)) with true by lia.
  rewrite not_missing_endpoint. fold attempt. rewrite (proj2 (Z.leb_le _ _)) by lia.
  unfold dead_letter. cbn. rewrite (Horc 5%nat). cbn. rewrite (Horc 6%nat).
  unfold has_row, apply_writes. cbn. rewrite bool_decide_false by (fold j; rewrite Hj; apply is_Some_None). cbn.
  rewrite bool_decide_true by by eexists. cbn. rewrite bool_decide_true by apply not_elem_of_nil. cbn.
  rewrite (Horc 7%nat). unfold update_event, apply_writes. cbn. rewrite Hrow. cbn.
  rewrite bool_decide_true by apply not_elem_of_nil.
  cbn. rewrite (Horc 8%nat). cbn. unfold update_event. cbn. rewrite Hrow. by eexists _, _, _.
Qed.
End alone.

(** A poll without faults claims in one change: at most [limit] events, all
    of them due and pending; and it leaves a due event unclaimed only when it has
    claimed [limit] events that were due no later. *)
Lemma claim_earliest_due limit d orc :
  no_faults orc ->
  exists evs w, run (processBatch limit) orc (world_of d) = Some (evs, w) /\ w_tx w = None /\
    claim_effect limit evs d (w_db w) /\
    let now := tk_now (orc 0%nat) in
    (forall ev r, ev ∈ evs -> webhook_events d !! evt_ID ev = Some r -> ev_next_retry_at r <= now) /\
    (forall i r, webhook_events d !! i = Some r -> ev_status r = JobPending -> ev_next_retry_at r <= now ->
       i ∈ (evt_ID <$> evs) \/
       length evs = limit /\ forall ev, ev ∈ evs -> evt_NextRetryAt ev <= ev_next_retry_at r).
Proof.
  intros Horc. set (now := tk_now (orc 0%nat)).
  destruct (claimable_spec [] now limit d) as (Hnd & Hlen & Hin & Hall).
  set (rows := claimable [] now limit d) in *.
  pose (ws := (fun p => WEvent p.1 (set_status JobProcessing p.2)) <$> rows).
  assert (Hrun : exists w, run (processBatch limit) orc (world_of d) = Some (event_of_row <$> rows, w) /\
    w_tx w = None /\ w_db w = apply_writes ws d).
  { unfold processBatch. cbn. rewrite (Horc 0%nat). cbn. rewrite (Horc 1%nat). fold now.
    change (apply_writes [] d) with d. fold rows. rewrite (locks_free_nil _ : forallb _ _ = true). cbn.
    rewrite (Horc 2%nat). change (apply_writes [] d) with d. fold rows.
    rewrite <- !list_fmap_compose. unfold ws. destruct rows as [|p l]; cbn; eexists; split; try done. }
  destruct Hrun as (w & Hw & Htx & Hdb). exists (event_of_row <$> rows), w. split; [done|]. split; [done|]. split.
  { rewrite Hdb. refine (claiming_effect limit rows (Txst ws [] 0 false) d _).
    split_and!; [done..|]. intros i r Hi. destruct (Hin i r Hi) as (? & ? & _). done. }
  assert (Hids : evt_ID <$> (event_of_row <$> rows) = rows.*1).
  { rewrite <- list_fmap_compose. by apply list_fmap_ext. }
  split.
  - intros ev r ([i r'] & -> & Hi)%list_elem_of_fmap Hr. destruct (Hin i r' Hi) as (Hr' & _ & Hdue & _).
    simpl in Hr. simplify_eq. done.
  - intros i r Hr Hp Hdue. rewrite Hids, length_fmap.
    destruct (Hall i r Hr Hp Hdue (not_elem_of_nil _)) as [Hi|[Hl Hle]].
    + left. apply (list_elem_of_fmap_2 fst _ _ Hi).
    + right. split; [done|]. intros ev (p & -> & Hp')%list_elem_of_fmap. by apply (Hle p).
Qed.

(** ** Signatures *)

Definition no_dot : string -> bool := all_chars (fun c => negb (Ascii.eqb c (Ascii.ascii_of_nat 46))).

Lemma all_chars_app p a b : all_chars p (a +:+ b) = all_chars p a && all_chars p b.
Proof. induction a as [|c a IH]; [done|]. simpl. by rewrite IH, andb_assoc. Qed.

Lemma pretty_N_char_no_dot x : Ascii.eqb (pretty_N_char x) (Ascii.ascii_of_nat 46) = false.
Proof. unfold pretty_N_char. by repeat case_match. Qed.

Lemma pretty_N_go_no_dot x s : no_dot s = true -> no_dot (pretty_N_go x s) = true.
Proof.
  revert s. induction (N.lt_wf_0 x) as [x _ IH]; intros s Hs.
  destruct (decide (x = 0)%N) as [->|Hx]; [done|]. rewrite pretty_N_go_step by lia.
  apply IH; [apply N.div_lt; lia|]. unfold no_dot. cbn [all_chars]. by rewrite pretty_N_char_no_dot.
Qed.

Lemma pretty_N_no_dot (x : N) : no_dot (pretty x) = true.
Proof. unfold pretty, pretty_N. case_decide; [done|]. by apply pretty_N_go_no_dot. Qed.

Lemma pretty_Z_no_dot (z : Z) : no_dot (pretty z) = true.
Proof.
  destruct z as [|p|p]; [done|apply pretty_N_no_dot|].
  change (no_dot ("-" +:+ pretty (Npos p)) = true). unfold no_dot. rewrite all_chars_app. simpl. apply pretty_N_no_dot.
Qed.

(** A text is cut in one way at its first dot. *)
Lemma cut_at_dot a b p q :
  no_dot a = true -> no_dot b = true -> a +:+ "." +:+ p = b +:+ "." +:+ q -> a = b /\ p = q.
Proof.
  revert b. induction a as [|c a IH]; intros [|c' b] Ha Hb E; simpl in *; simplify_eq; try done.
  apply andb_prop in Ha as [_ Ha], Hb as [_ Hb]. by destruct (IH b Ha Hb) as [-> ->].
Qed.

(** C25: A signature made for one second and payload is accepted for another only
    by a collision of HMAC-SHA256: the signed text determines both. *)
Theorem signature_binds `{Crypto} secret t t' payload payload' :
  VerifySignature secret t payload (SignPayload secret t' payload') = true ->
  (unix t = unix t' /\ payload = payload') \/
  exists a b, a <> b /\ hmac_sha256_hex secret a = hmac_sha256_hex secret b.
Proof.
  unfold VerifySignature, SignPayload. intros E%bool_decide_eq_true.
  destruct (decide (signed_content t payload = signed_content t' payload')) as [Ec|Hne]; [left|right; eauto].
  unfold signed_content in Ec. apply cut_at_dot in Ec as [Et ->]; [|apply pretty_Z_no_dot..].
  split; [|done]. by apply (inj pretty) in Et.
Qed.

(** ** Lost answers and small durations *)

Local Existing Instances demo_uuid demo_text demo_crypto demo_json demo_time demo_float demo_http.

(** The answer to the third database call, COMMIT, is lost. *)
Definition lost_commit (n : nat) : tick :=
  let tk := demo_tick n in
  if decide (n = 2)%nat then Tick FailAfter (tk_now tk) (tk_uuid tk) (tk_rand tk) (tk_int tk) (tk_http tk) else tk.

(** An event can be stranded: when the answer to the COMMIT of a claim is
    lost, the poll delivers nothing, yet its events are processing, a state in
    which no poll picks them up again. *)
Theorem lost_claim_strands_events :
  exists w, run (processBatch DefaultBatchSize) lost_commit (world_of demo_db) = Some ([], w) /\ w_tx w = None /\
    (ev_status <$> webhook_events demo_db !! 300%N) = Some JobPending /\
    (ev_status <$> webhook_events (w_db w) !! 300%N) = Some JobProcessing /\
    forall others now limit, claimable others now limit (w_db w) = [].
Proof.
  assert (Hnone : forall m : gmap uuid event_row, m = set_status JobProcessing <$> webhook_events demo_db ->
    forall i r, m !! i = Some r -> ev_status r <> JobPending).
  { intros m -> i r. rewrite lookup_fmap. destruct (_ !! i); intros; by simplify_eq/=. }
  destruct (run (processBatch DefaultBatchSize) lost_commit (world_of demo_db)) as [[evs w]|] eqn:E;
    [|vm_compute in E; discriminate E].
  exists w. vm_compute in E. injection E as <- <-. split_and!; [done..|].
  intros others now limit. set (d := w_db _). destruct (claimable_spec others now limit d) as (_ & _ & Hin & _).
  destruct (claimable others now limit d) as [|[i r] l]; [done|]. exfalso.
  destruct (Hin i r (list_elem_of_here _ _)) as (Hi & Hp & _). eapply Hnone; [|exact Hi|exact Hp].
  vm_compute. reflexivity.
Qed.

Definition demo_event : Event := event_of_row (300%N, event_for 100 StatusPosted).

(** A base backoff of one to four nanoseconds makes the first failed
    delivery panic, after the request was sent and with the event still marked
    as it was. *)
Theorem tiny_backoff_panics base :
  0 < base < 5 ->
  exists w, run (ProcessEvent (NewService [WithBaseBackoff base]) demo_event)
    (fun n => let tk := demo_tick n in Tick NoFault (tk_now tk) (tk_uuid tk) (tk_rand tk) (tk_int tk) (HttpStatus 500))
    (world_of demo_db) = Some (Panicked, w) /\ w_db w = demo_db.
Proof.
  intros Hb. assert (base = 1 \/ base = 2 \/ base = 3 \/ base = 4) as Hc by lia.
  destruct Hc as [->|[->|[->| ->]]]; eexists; (split; [vm_compute; reflexivity|reflexivity]).
Qed.

(** ** Examples *)

Local Abbreviation demo_service := (NewService []).


(** A delivery while a poll runs. *)
Definition demo_delivery : list (prog ended) :=
  [ ProcessEvent demo_service demo_event; bind (processBatch 10) (fun _ => Ret Returned) ].

Definition demo_delivered : pool ended := pool_exec (pool_start demo_db demo_delivery) (round_robin 2 20).


(** Two polls. *)
Definition demo_polls : pool (list Event) :=
  pool_exec (pool_start demo_db (processBatch <$> [1%nat; 10%nat])) (round_robin 2 10).

Lemma demo_polls_reached :
  rtc (pool_step any_tick) (pool_start demo_db (processBatch <$> [1%nat; 10%nat])) demo_polls.
Proof. apply round_robin_steps. Qed.

Example demo_polls_share :
  (fun th => match th_prog th with Ret evs => evt_ID <$> evs | _ => [] end) <$> p_threads demo_polls =
    [[300]; [301]]%N.
Proof. vm_compute. reflexivity. Qed.

Lemma events_claimed_once_witness : exists th ev,
  p_threads demo_polls !! 0%nat = Some th /\ th_prog th = Ret [ev] /\ 0%nat = 0%nat /\ ev = ev.
Proof.
  destruct (ends_with_spec demo_polls 0 (fun r => match r with [_] => true | _ => false end))
    as (th & r & E & Er & Hw); [vm_compute; reflexivity|].
  destruct r as [|ev []]; try discriminate Hw.
  exists th, ev. split; [exact E|]. split; [exact Er|].
  exact (events_claimed_once any_tick demo_db [1%nat; 10%nat] demo_polls 0 0 th th [ev] [ev] ev ev
    demo_polls_reached E E Er Er (list_elem_of_here _ _) (list_elem_of_here _ _) eq_refl).
Defined.

Lemma demo_no_faults : no_faults demo_tick.
Proof. intros n. reflexivity. Qed.

(** An environment whose endpoints answer 503. *)
Definition failing_tick (n : nat) : tick :=
  let tk := demo_tick n in Tick NoFault (tk_now tk) (tk_uuid tk) (tk_rand tk) (tk_int tk) (HttpStatus 503).

Lemma failing_no_faults : no_faults failing_tick.
Proof. intros n. reflexivity. Qed.

Local Abbreviation demo_row := (event_for 100 StatusPosted).
Local Abbreviation demo_tenant := (TenantRow "acme" "k1" (Some "https://hook"%string) (Some "secret"%string)).

Lemma delivery_acknowledged_witness : exists w,
  run (ProcessEvent demo_service demo_event) demo_tick (world_of demo_db) = Some (Returned, w) /\
  ev_status <$> webhook_events (w_db w) !! 300%N = Some JobDelivered.
Proof.
  destruct (delivery_acknowledged demo_service demo_event demo_tick demo_db demo_row demo_tenant "https://hook"
    demo_no_faults eq_refl eq_refl eq_refl ltac:(discriminate) eq_refl 200 eq_refl ltac:(lia))
    as (w & now & headers & signature & Hw & _ & Hdb & _).
  exists w. split; [exact Hw|]. rewrite Hdb. vm_compute. reflexivity.
Defined.

Lemma delivery_retried_witness : exists w,
  run (ProcessEvent demo_service demo_event) failing_tick (world_of demo_db) = Some (Returned, w) /\
  ev_attempt_count <$> webhook_events (w_db w) !! 300%N = Some 1.
Proof.
  destruct (delivery_retried demo_service demo_event failing_tick demo_db demo_row demo_tenant "https://hook"
    failing_no_faults eq_refl eq_refl eq_refl ltac:(discriminate) eq_refl 503 eq_refl ltac:(lia))
    as (w & backoff & err & Hw & _ & _ & Hdb); try (vm_compute; split; congruence).
  - vm_compute. congruence.
  - exists w. split; [exact Hw|]. rewrite Hdb. vm_compute. reflexivity.
Defined.

(** The same event at its last attempt. *)
Definition last_attempt : Event :=
  {| evt_ID := evt_ID demo_event; evt_TenantID := evt_TenantID demo_event;
     evt_EventType := evt_EventType demo_event; evt_Payload := evt_Payload demo_event;
     evt_Status := evt_Status demo_event; evt_AttemptCount := 4;
     evt_NextRetryAt := evt_NextRetryAt demo_event; evt_CreatedAt := evt_CreatedAt demo_event;
     evt_LastError := evt_LastError demo_event |}.

Lemma delivery_dead_lettered_witness : exists w,
  run (ProcessEvent demo_service last_attempt) failing_tick (world_of demo_db) = Some (Returned, w) /\
  ev_status <$> webhook_events (w_db w) !! 300%N = Some JobFailed /\
  dl_attempt_count <$> dead_letter_events (w_db w) !! 1006%N = Some 5.
Proof.
  destruct (delivery_dead_lettered demo_service last_attempt failing_tick demo_db demo_row demo_tenant "https://hook"
    failing_no_faults eq_refl eq_refl eq_refl ltac:(discriminate) eq_refl 503 eq_refl ltac:(lia))
    as (w & err & now & Hw & _ & _ & He & Hd); [vm_compute; congruence|reflexivity|].
  exists w. split; [exact Hw|]. rewrite He, Hd. split; vm_compute; reflexivity.
Defined.

Lemma claim_earliest_due_witness : exists evs w,
  run (processBatch 1) demo_tick (world_of demo_db) = Some (evs, w) /\ w_tx w = None /\
  claim_effect 1 evs demo_db (w_db w).
Proof.
  destruct (claim_earliest_due 1 demo_db demo_tick demo_no_faults) as (evs & w & Hw & Htx & He & _).
  exists evs, w. split; [exact Hw|]. split; [exact Htx|exact He].
Defined.

Lemma signature_binds_witness :
  (unix 5 = unix 6 /\ "{}"%string = "{}"%string) \/
  exists a b, a <> b /\ hmac_sha256_hex "secret" a = hmac_sha256_hex "secret" b.
Proof. apply (signature_binds "secret" 5 6 "{}" "{}"). vm_compute. reflexivity. Defined.

Lemma tiny_backoff_panics_witness : exists w,
  run (ProcessEvent (NewService [WithBaseBackoff 2]) demo_event)
    (fun n => let tk := demo_tick n in Tick NoFault (tk_now tk) (tk_uuid tk) (tk_rand tk) (tk_int tk) (HttpStatus 500))
    (world_of demo_db) = Some (Panicked, w) /\ w_db w = demo_db.
Proof. apply (tiny_backoff_panics 2). lia. Defined.
