(* ===== verification/IdempotencyWp.v ===== *)
(** * Claims of idempotency keys under concurrency

    The calls the middleware makes on the store of keys, the changes they can
    make, and that each makes at most one of them whatever other calls run. *)

From S2P Require Import Prelude GoBase Db Prog ProgFacts Auth Http Idempotency.
Local Open Scope Z_scope.

(** ** The store of keys *)

(** The unique index on (tenant_id, key). *)
Definition keys_unique (d : db) : Prop :=
  forall i j r r', idempotency_keys d !! i = Some r -> idempotency_keys d !! j = Some r' ->
    ik_tenant_id r = ik_tenant_id r' -> ik_key r = ik_key r' -> i = j.

Lemma find_key_Some d tn key i r :
  find_key d tn key = Some (i, r) -> idempotency_keys d !! i = Some r /\ ik_tenant_id r = tn /\ ik_key r = key.
Proof.
  unfold find_key, rows_where. intros E.
  assert (Hin : (i, r) ∈ filter (fun p : uuid * idempotency_row => ik_tenant_id p.2 = tn /\ ik_key p.2 = key)
    (map_to_list (idempotency_keys d))) by (destruct (filter _ _) as [|x l]; simplify_eq/=; left).
  apply list_elem_of_filter in Hin as [[Ht Hk] Hin]. by apply elem_of_map_to_list in Hin.
Qed.

Lemma find_key_None d tn key i r :
  find_key d tn key = None -> idempotency_keys d !! i = Some r -> ik_tenant_id r = tn -> ik_key r <> key.
Proof.
  unfold find_key, rows_where. intros E Hr Ht Hk.
  assert (Hin : (i, r) ∈ filter (fun p : uuid * idempotency_row => ik_tenant_id p.2 = tn /\ ik_key p.2 = key)
    (map_to_list (idempotency_keys d))) by (by apply list_elem_of_filter; rewrite elem_of_map_to_list).
  destruct (filter _ _) as [|x l]; [by apply not_elem_of_nil in Hin|done].
Qed.

Lemma find_key_unique d tn key i r :
  keys_unique d -> idempotency_keys d !! i = Some r -> ik_tenant_id r = tn -> ik_key r = key ->
  find_key d tn key = Some (i, r).
Proof.
  intros Hu Hr Ht Hk. destruct (find_key d tn key) as [[j r']|] eqn:E.
  - apply find_key_Some in E as (Hr' & Ht' & Hk'). assert (i = j) as -> by (eapply Hu; eauto; congruence).
    congruence.
  - exfalso. by eapply find_key_None.
Qed.

(** ** Changes *)

Definition set_key (i : uuid) (r : idempotency_row) (d : db) : db := set_idempotency_keys (<[i:=r]>) d.

Definition completed_row (code : Z) (body : string) (expiresAt : time) (r : idempotency_row) : idempotency_row :=
  IdempotencyRow (ik_tenant_id r) (ik_key r) (ik_request_hash r) (Some code) (Some body)
    StatusCompleted (ik_created_at r) expiresAt.

(** The key is free, or its row has expired before [now]; the claim stores its
    own row under [i]. *)
Definition claimed (tn : uuid) (key hash : string) (now expiresAt : time) (i : uuid) (d d' : db) : Prop :=
  ((find_key d tn key = None /\ idempotency_keys d !! i = None) \/
   (exists r, find_key d tn key = Some (i, r) /\ ik_expires_at r < now)) /\
  d' = set_key i (claim_row tn key hash now expiresAt) d.

(** The row still carries the token of the claim; it gets the response. *)
Definition completed (tn : uuid) (key : string) (code : Z) (body : string) (expiresAt claimedAt : time)
    (d d' : db) : Prop :=
  exists i r, find_key d tn key = Some (i, r) /\ ik_created_at r = claimedAt /\
    d' = set_key i (completed_row code body expiresAt r) d.

Inductive key_call :=
  | Claim (tenantID : uuid) (key requestHash : string) (leaseTTL : duration)
  | Finish (tenantID : uuid) (key : string) (code : Z) (body : string) (retentionTTL : duration) (claimedAt : time).

(** What the clock can show. *)
Definition clock (tick_ok : db -> tick -> Prop) (now : time) : Prop := exists d tk, tick_ok d tk /\ tk_now tk = now.

(** The change a call makes when it makes one. *)
Definition key_effect `{PgTime} (tick_ok : db -> tick -> Prop) (c : key_call) (d d' : db) : Prop :=
  match c with
  | Claim tn key hash lease => exists now i, clock tick_ok now /\
      claimed tn key hash (pg_time now) (pg_time (now + lease)) i d d'
  | Finish tn key code body ttl claimedAt => exists now, clock tick_ok now /\
      completed tn key code body (pg_time (now + ttl)) (pg_time claimedAt) d d'
  end.

Lemma set_key_unique i r d :
  keys_unique d ->
  (forall j r', idempotency_keys d !! j = Some r' -> ik_tenant_id r' = ik_tenant_id r -> ik_key r' = ik_key r -> j = i) ->
  keys_unique (set_key i r d).
Proof.
  intros Hu Hi j k rj rk. simpl. rewrite !lookup_insert_Some.
  intros [[<- <-]|[Hj Hrj]] [[<- <-]|[Hk Hrk]] Ht Hk'; [done| | |by eauto].
  - symmetry. by eapply Hi.
  - by eapply Hi.
Qed.

Lemma key_effect_unique `{PgTime} tick_ok c d d' : key_effect tick_ok c d d' -> keys_unique d -> keys_unique d'.
Proof.
  destruct c as [tn key hash lease|tn key code body ttl cl]; simpl.
  - intros (now & i & _ & Hc & ->) Hu. apply set_key_unique; [done|]. simpl. intros j r' Hj Ht Hk.
    destruct Hc as [[Hn _]|(r & Hf & _)]; [by destruct (find_key_None _ _ _ _ _ Hn Hj Ht)|].
    apply find_key_Some in Hf as (Hr & Htr & Hkr). eapply Hu; [exact Hj|exact Hr|congruence|congruence].
  - intros (now & _ & i & r & Hf & _ & ->) Hu. apply set_key_unique; [done|]. simpl. intros j r' Hj Ht Hk.
    apply find_key_Some in Hf as (Hr & Htr & Hkr). eapply Hu; [exact Hj|exact Hr|congruence|congruence].
Qed.

Inductive key_reply :=
  | RClaim (r : goerr + (IdemRecord * bool))
  | RFinish (r : goerr + unit).

Section calls.
Context `{PgTime} (tick_ok : db -> tick -> Prop).

Definition key_prog (c : key_call) : prog key_reply :=
  match c with
  | Claim tn key hash lease => bind (ClaimOrGet tn key hash lease) (fun r => Ret (RClaim r))
  | Finish tn key code body ttl claimedAt =>
      bind (Complete tn key code body ttl claimedAt) (fun r => Ret (RFinish r))
  end.

(** What a finished call did. A claim that reports success stored its row in
    one change, at a moment when the key was free or expired; one that reports
    an existing record saw it in the table, and changed nothing. A completion
    that reports success found the token of its claim and stored the response;
    one that reports a superseded claim changed nothing. Any other error
    changed nothing, unless an answer was lost. *)
Definition key_result (c : key_call) (r : key_reply) (log : list (db * db)) : Prop :=
  match c, r with
  | Claim tn key hash lease, RClaim (inr (rec, true)) => exists now i d1 d2, log = [(d1, d2)] /\
      claimed tn key hash (pg_time now) (pg_time (now + lease)) i d1 d2 /\
      rec = scanRecord (i, claim_row tn key hash (pg_time now) (pg_time (now + lease)))
  | Claim tn key _ _, RClaim (inr (rec, false)) => log = [] /\
      exists d i r, find_key d tn key = Some (i, r) /\ rec = scanRecord (i, r)
  | Claim tn key hash lease, RClaim (inl _) =>
      log = [] \/ exists d1 d2, log = [(d1, d2)] /\ key_effect tick_ok c d1 d2
  | Finish tn key code body ttl claimedAt, RFinish (inr _) =>
      exists d1 d2, log = [(d1, d2)] /\ key_effect tick_ok c d1 d2
  | Finish tn key code body ttl claimedAt, RFinish (inl e) =>
      if decide (e = ErrClaimSuperseded) then log = [] else
      log = [] \/ exists d1 d2, log = [(d1, d2)] /\ key_effect tick_ok c d1 d2
  | _, _ => False
  end.

Context (calls : list key_call).
Local Abbreviation guar := (fun (_ : list lock) d d' => exists c, c ∈ calls /\ key_effect tick_ok c d d').
Local Abbreviation wp := (wp guar tick_ok).

Lemma q_claim_cases tn key hash now ex others ev d :
  let o := q_claim tn key hash now ex others ev d in
  (exists i, o = o /\ oc_res o = inr (Some (i, claim_row tn key hash now ex)) /\
     oc_writes o = [WIdempotency i (claim_row tn key hash now ex)] /\
     claimed tn key hash now ex i d (set_key i (claim_row tn key hash now ex) d)) \/
  (oc_res o = inr None /\ oc_writes o = []) \/ (exists e, oc_res o = inl e /\ oc_writes o = []).
Proof.
  unfold q_claim. destruct (find_key d tn key) as [[i r]|] eqn:Ef.
  - destruct (Z.ltb_spec (ik_expires_at r) now); [left|by right; left].
    exists i. split_and!; [done|done|done|]. split; [right; eauto|done].
  - destruct (guarded _ _) as [ls res ws] eqn:E. cbn [guarded] in E.
    destruct (negb (has_row (idempotency_keys d) (e_uuid ev))) eqn:Eh;
      [destruct (has_row (tenants d) tn); [left|]|]; simplify_eq; [|by right; right; eexists..].
    exists (e_uuid ev). split_and!; [done|done|done|]. split; [left|done]. split; [done|].
    unfold has_row in Eh. by apply negb_true_iff, bool_decide_eq_false, eq_None_not_Some in Eh.
Qed.

Lemma ClaimOrGet_wp tn key hash lease d :
  Claim tn key hash lease ∈ calls ->
  wp (ClaimOrGet tn key hash lease) None [] d (fun r tx log _ => tx = None /\
    key_result (Claim tn key hash lease) (RClaim r) log).
Proof.
  intros Hl. unfold ClaimOrGet. cbn [time_Now ask bind]. intros tk d1 Htk _.
  cbn [sql_row bind]. apply wp_exec_db; [intros; simpl; split; [done|by left]|].
  intros others tk' _ o.
  destruct (q_claim_cases tn key hash (pg_time (tk_now tk)) (pg_time (tk_now tk + lease)) others
    (Env (tk_now tk') (tk_uuid tk')) d1) as [(i & _ & Hres & Hws & Hc)|[[Hres Hws]|(e & Hres & Hws)]];
    fold o in Hres, Hws; unfold effect_of; rewrite Hres, ?Hws.
  - cbn. split.
    + eexists. split; [exact Hl|]. eexists _, i. split; [|exact Hc]. by exists d, tk.
    + intros r d' [->| ->] _; cbn; (split; [done|]); [by eexists _, i, _, _|right].
      eexists _, _. split; [done|]. eexists _, i. split; [|exact Hc]. by exists d, tk.
  - cbn. split; [done|]. intros r d' [->| ->] _; cbn; [|split; [done|by left]].
    apply wp_select_db; [intros; cbn; split; [done|by left]|]. intros d2 _.
    destruct (find_key d' tn key) as [[i r]|] eqn:Ef; cbn; (split; [done|]); [|by left].
    split; [done|]. by exists d', i, r.
  - cbn. split; [done|]. intros r d' [->| ->] _; cbn; (split; [done|by left]).
Qed.

Lemma Complete_wp tn key code body ttl claimedAt d :
  Finish tn key code body ttl claimedAt ∈ calls ->
  wp (Complete tn key code body ttl claimedAt) None [] d (fun r tx log _ => tx = None /\
    key_result (Finish tn key code body ttl claimedAt) (RFinish r) log).
Proof.
  intros Hl. unfold Complete. cbn [time_Now ask bind]. intros tk d1 Htk _.
  cbn [ebind wrap_err sql_exec bind]. apply wp_exec_db; [intros; cbn; split; [done|by left]|].
  intros others tk' _. unfold effect_of, q_complete.
  destruct (find_key d1 tn key) as [[i r]|] eqn:Ef; [case_decide as Ec|]; cbn.
  - assert (Hc : completed tn key code body (pg_time (tk_now tk + ttl)) (pg_time claimedAt) d1
      (set_key i (completed_row code body (pg_time (tk_now tk + ttl)) r) d1)) by by exists i, r.
    assert (He : key_effect tick_ok (Finish tn key code body ttl claimedAt) d1
      (set_key i (completed_row code body (pg_time (tk_now tk + ttl)) r) d1))
      by (eexists; split; [by exists d, tk|exact Hc]).
    split; [by eexists|].
    intros x d' [->| ->] _; cbn; (split; [done|]); [|right]; by eexists _, _.
  - split; [done|]. intros x d' [->| ->] _; cbn; (split; [done|]); [done|by left].
  - split; [done|]. intros x d' [->| ->] _; cbn; (split; [done|]); [done|by left].
Qed.

Lemma key_call_wp c d :
  c ∈ calls -> wp (key_prog c) None [] d (fun r tx log _ => tx = None /\ key_result c r log).
Proof.
  destruct c; intros Hc; cbn [key_prog]; apply wp_bind; (eapply wp_mono; [|by intros r tx log d'; eapply id]).
  - by apply ClaimOrGet_wp.
  - by apply Complete_wp.
Qed.

(** Any number of calls at once. *)
Lemma key_calls_inv d0 P :
  rtc (pool_step tick_ok) (pool_start d0 (key_prog <$> calls)) P ->
  pool_inv guar tick_ok (fun i r tx log _ => exists c, calls !! i = Some c /\ tx = None /\ key_result c r log) d0 P.
Proof.
  apply wp_pool. intros i p Hp d _. rewrite list_lookup_fmap in Hp.
  destruct (calls !! i) as [c|] eqn:Ec; [|done]. injection Hp as <-.
  eapply wp_mono; [apply key_call_wp; by eapply list_elem_of_lookup_2|]. intros r tx log d' [? ?]. by exists c.
Qed.
End calls.
