(* ===== verification/IdempotencyProps.v ===== *)
(** * Properties of the idempotency middleware *)

From S2P Require Import Prelude GoBase Db Prog ProgFacts LedgerSpec Auth Http Idempotency.
From S2P Require Import IdempotencyWp Statements Writes HandlerFacts System Concrete.
From S2P Require Handlers Router.
Local Open Scope Z_scope.

(** ** Claims and completions under concurrency *)

Section keys.
Context `{PgTime} (tick_ok : db -> tick -> Prop).

(** A change made on behalf of another key leaves a key's row alone. *)
Lemma set_other_key d i (r : idempotency_row) tn key j rj :
  keys_unique d -> keys_unique (set_key j rj d) -> find_key d tn key = Some (i, r) -> j <> i ->
  find_key (set_key j rj d) tn key = Some (i, r).
Proof.
  intros Hu Hu' Hf Hne. apply find_key_Some in Hf as (Hr & Ht & Hk). apply find_key_unique; try done.
  simpl. by rewrite lookup_insert_ne.
Qed.

Lemma set_same_key d i r' tn key :
  keys_unique (set_key i r' d) -> ik_tenant_id r' = tn -> ik_key r' = key ->
  find_key (set_key i r' d) tn key = Some (i, r').
Proof. intros Hu Ht Hk. apply find_key_unique; try done. simpl. by rewrite lookup_insert_eq. Qed.

(** What a change does to a key that has a row: nothing, a claim after the
    row's expiry, or a completion with the row's token. *)
Lemma key_effect_row c d d' tn key i r :
  keys_unique d -> key_effect tick_ok c d d' -> find_key d tn key = Some (i, r) ->
  find_key d' tn key = Some (i, r) \/
  (exists hash lease now, c = Claim tn key hash lease /\ clock tick_ok now /\ ik_expires_at r < pg_time now /\
     find_key d' tn key = Some (i, claim_row tn key hash (pg_time now) (pg_time (now + lease)))) \/
  (exists code body ttl claimedAt now, c = Finish tn key code body ttl claimedAt /\
     ik_created_at r = pg_time claimedAt /\
     find_key d' tn key = Some (i, completed_row code body (pg_time (now + ttl)) r)).
Proof.
  intros Hu He Hf. pose proof (key_effect_unique _ _ _ _ He Hu) as Hu'.
  destruct c as [tn' key' hash lease|tn' key' code body ttl cl]; simpl in He.
  - destruct He as (now & j & Hnow & Hc & ->). destruct Hc as [[Hn Hj]|(r0 & Hf0 & Hexp)].
    + left. apply set_other_key; [done..|]. apply find_key_Some in Hf as (Hr & _). congruence.
    + destruct (decide (j = i)) as [->|Hne]; [|left; by apply set_other_key].
      assert (r0 = r /\ tn' = tn /\ key' = key) as (-> & -> & ->).
      { apply find_key_Some in Hf as (Hr & ? & ?), Hf0 as (Hr0 & ? & ?). assert (r0 = r) by congruence.
        subst. done. }
      right. left. exists hash, lease, now. split_and!; [done..|]. by apply set_same_key.
  - destruct He as (now & _ & j & r0 & Hf0 & Hcr & ->).
    destruct (decide (j = i)) as [->|Hne]; [|left; by apply set_other_key].
    assert (r0 = r /\ tn' = tn /\ key' = key) as (-> & -> & ->).
    { apply find_key_Some in Hf as (Hr & ? & ?), Hf0 as (Hr0 & ? & ?). assert (r0 = r) by congruence.
      subst. done. }
    right. right. exists code, body, ttl, cl, now. split_and!; [done..|]. apply find_key_Some in Hf as (_ & ? & ?).
    by apply set_same_key.
Qed.

(** A property of a key's row that every change preserves holds along a history. *)
Lemma key_chain (Q : idempotency_row -> Prop) (calls : list key_call) tn key i r hist d d' :
  (forall c d1 d2 i r r', c ∈ calls -> keys_unique d1 -> key_effect tick_ok c d1 d2 ->
     find_key d1 tn key = Some (i, r) -> Q r -> find_key d2 tn key = Some (i, r') -> Q r') ->
  keys_unique d -> chain d hist d' ->
  (forall x y, (x, y) ∈ hist -> exists c, c ∈ calls /\ key_effect tick_ok c x y) ->
  find_key d tn key = Some (i, r) -> Q r -> exists r', find_key d' tn key = Some (i, r') /\ Q r'.
Proof.
  intros HQ. revert d r. induction hist as [|[x y] hist IH]; intros d r Hu Hc Hg Hf Hr; simpl in Hc.
  - subst. eauto.
  - destruct Hc as [-> Hc]. destruct (Hg d y (list_elem_of_here _ _)) as (c & Hin & He).
    pose proof (key_effect_unique _ _ _ _ He Hu) as Hu'.
    assert (exists r', find_key y tn key = Some (i, r')) as [r' Hf'].
    { destruct (key_effect_row _ _ _ _ _ _ _ Hu He Hf) as [?|[(?&?&?&_&_&_&?)|(?&?&?&?&?&_&_&?)]]; eauto. }
    apply (IH y r'); [done|done| |done|by eapply (HQ c d y)]. intros ? ? ?. apply Hg. by right.
Qed.

Lemma chain_unique (calls : list key_call) hist d d' :
  keys_unique d -> chain d hist d' ->
  (forall x y, (x, y) ∈ hist -> exists c, c ∈ calls /\ key_effect tick_ok c x y) -> keys_unique d'.
Proof.
  revert d. induction hist as [|[x y] hist IH]; intros d Hu Hc Hg; simpl in Hc; [by subst|].
  destruct Hc as [-> Hc]. destruct (Hg d y (list_elem_of_here _ _)) as (c & _ & He).
  apply (IH y); [by eapply key_effect_unique|done|]. intros ? ? ?. apply Hg. by right.
Qed.

Context (calls : list key_call) (d0 : db) (P : pool key_reply).
Local Abbreviation reached := (rtc (pool_step tick_ok) (pool_start d0 (key_prog <$> calls)) P).


(** The leases of claims without a completion of their key. *)
Definition leases (tn : uuid) (key : string) : Prop :=
  (forall tn' key' hash lease, Claim tn' key' hash lease ∈ calls -> 0 <= lease) /\
  (forall code body ttl claimedAt, Finish tn key code body ttl claimedAt ∉ calls).

Lemma lease_over tn key hash lease hash' lease' now now' k k' a b a' b' hist d h1 h2 h3 :
  leases tn key -> keys_unique d -> chain d h1 a -> chain b h2 a' ->
  hist = h1 ++ (a, b) :: h2 ++ (a', b') :: h3 ->
  (forall x y, (x, y) ∈ hist -> exists c, c ∈ calls /\ key_effect tick_ok c x y) ->
  claimed tn key hash (pg_time now) (pg_time (now + lease)) k a b ->
  claimed tn key hash' (pg_time now') (pg_time (now' + lease')) k' a' b' ->
  pg_time (now + lease) < pg_time now'.
Proof.
  intros [Hl Hnf] Hu Hc1 Hc2 -> Hg Hcl Hcl'.
  assert (Hua : keys_unique a) by (eapply chain_unique; [exact Hu|exact Hc1|]; intros x y Hxy; apply Hg, elem_of_app; by left).
  assert (Hub : keys_unique b).
  { destruct (Hg a b) as (c & _ & He); [apply elem_of_app; right; left|]. by eapply key_effect_unique. }
  destruct Hcl as [_ Eb].
  assert (Hfb : find_key b tn key = Some (k, claim_row tn key hash (pg_time now) (pg_time (now + lease)))).
  { subst b. by apply set_same_key. }
  destruct (key_chain (fun r => pg_time (now + lease) <= ik_expires_at r) calls tn key k
      (claim_row tn key hash (pg_time now) (pg_time (now + lease))) h2 b a')
    as (r' & Hfa & Hle); [|done|done| |exact Hfb|done|].
  - intros c d1 d2 i r r' Hin Hud He Hf Hq Hf'.
    destruct (key_effect_row _ _ _ _ _ _ _ Hud He Hf) as [E|[(?&l&n&->&_&?&E)|(?&?&?&?&?&->&_)]].
    + by simplify_eq.
    + simplify_eq. simpl. etransitivity; [exact Hq|]. transitivity (pg_time n); [lia|]. apply pg_time_mono.
      apply Hl in Hin. lia.
    + by apply Hnf in Hin.
  - intros x y Hxy. apply Hg. rewrite !elem_of_app, !elem_of_cons, !elem_of_app. auto.
  - destruct Hcl' as [[[Hn _]|(r & Hf & Hexp)] _]; [congruence|]. simplify_eq. lia.
Qed.


(** C29: The fencing token holds: once a key carries the token of a later
    claim, the completion of the earlier one is discarded, whatever other
    claims and completions run; it reports an error and changes nothing. *)
Theorem stale_completion_discarded tn key code body ttl claimedAt i th r k row :
  (forall now, clock tick_ok now -> pg_time claimedAt < pg_time now) ->
  keys_unique d0 -> reached ->
  find_key d0 tn key = Some (k, row) -> ik_created_at row <> pg_time claimedAt ->
  calls !! i = Some (Finish tn key code body ttl claimedAt) ->
  p_threads P !! i = Some th -> th_prog th = Ret r ->
  hist_of i (p_hist P) = [] /\ exists e, r = RFinish (inl e).
Proof.
  intros Hclock Hu Hs Hf Hrow Hi Hth Hr. destruct (key_calls_inv tick_ok calls d0 P Hs) as [Hwp _ Hc Hg Hlog].
  destruct (Hwp i th Hth) as [_ Hq]. specialize (Hq (p_db P) (rely_refl _ _ _)). rewrite Hr in Hq. simpl in Hq.
  destruct Hq as (c & Hci & _ & Hq). simplify_eq. simpl in Hq. rewrite (Hlog i th Hth) in Hq.
  assert (Hno : forall d1 d2, hist_of i (p_hist P) = [(d1, d2)] ->
    key_effect tick_ok (Finish tn key code body ttl claimedAt) d1 d2 -> False).
  { intros d1 d2 Eh (now & _ & k' & r' & Hf' & Ht & _).
    assert (Hin : (i, (d1, d2)) ∈ p_hist P) by (apply hist_of_in; rewrite Eh; left).
    apply list_elem_of_split in Hin as (h1 & h2 & Eq). rewrite Eq in Hc, Hg. rewrite fmap_app, fmap_cons in Hc.
    apply chain_split in Hc as [Hc _].
    destruct (key_chain (fun r => ik_created_at r <> pg_time claimedAt) calls tn key k row (snd <$> h1) d0 d1)
      as (r'' & Hf'' & Hne); [|done|done| |exact Hf|exact Hrow|congruence].
    - intros c e1 e2 i' x x' Hin Hud He Hfx Hx Hfx'.
      destruct (key_effect_row _ _ _ _ _ _ _ Hud He Hfx) as [E|[(?&l&n&->&Hn&?&E)|(?&?&?&?&?&->&_&E)]];
        simplify_eq; [done| |done]. simpl. apply Hclock in Hn. lia.
    - intros x y ([m w] & E & Hm)%list_elem_of_fmap. simpl in E. subst w.
      destruct (Hg m x y) as [_ ?]; [apply elem_of_app; by left|done]. }
  destruct r as [|[e|u]]; [done| |].
  - case_decide; [by eauto|]. destruct Hq as [->|(d1 & d2 & Eh & He)]; [by eauto|]. by destruct (Hno d1 d2 Eh He).
  - destruct Hq as (d1 & d2 & Eh & He). by destruct (Hno d1 d2 Eh He).
Qed.
End keys.

(** ** Requests one after the other *)

Section replay.
Context `{UuidLib, DriverText, Crypto, PgTime, SqlLower, JsonText, Auth.Bcrypt, Auth.Jwt,
          Handlers.Decoder, Handlers.Encoder, Router.Chi, Webhook.FloatConv, Webhook.HttpLib}.

Lemma run_claim tn key hash lease orc d :
  no_faults orc -> find_key d tn key = None -> idempotency_keys d !! tk_uuid (orc 1%nat) = None ->
  is_Some (tenants d !! tn) ->
  let now := tk_now (orc 0%nat) in
  let i := tk_uuid (orc 1%nat) in
  let row := claim_row tn key hash (pg_time now) (pg_time (now + lease)) in
  run (ClaimOrGet tn key hash lease) orc (world_of d) =
    Some (inr (scanRecord (i, row), true), World (set_key i row d) None [(d, set_key i row d)] [] 2).
Proof.
  intros Hf Hk Hi Ht now i row. unfold ClaimOrGet. cbn. rewrite !locks_free_nil, (Hf 1%nat).
  assert (Ho : q_claim tn key hash (pg_time now) (pg_time (now + lease)) [] (Env (tk_now (orc 1%nat)) i) d =
    Outcome [LUnique T_idempotency_keys tn key] (inr (Some (i, row))) [WIdempotency i row]).
  { unfold q_claim. rewrite Hk. cbn [guarded e_uuid]. unfold has_row.
    by rewrite (bool_decide_false _ (proj1 (eq_None_not_Some _) Hi)), (bool_decide_true _ Ht). }
  unfold now, i in Ho. by rewrite Ho.
Qed.

Lemma run_refused tn key hash lease orc d i r :
  no_faults orc -> find_key d tn key = Some (i, r) -> pg_time (tk_now (orc 0%nat)) <= ik_expires_at r ->
  run (ClaimOrGet tn key hash lease) orc (world_of d) =
    Some (inr (scanRecord (i, r), false), World d None [] [] 3).
Proof.
  intros Hf Hk Hexp. unfold ClaimOrGet. cbn. rewrite !locks_free_nil, (Hf 1%nat). unfold effect_of, q_claim.
  rewrite Hk, (proj2 (Z.ltb_ge _ _) Hexp). cbn -[errors_Is]. rewrite errors_Is_refl. cbn.
  rewrite (Hf 2%nat), Hk. done.
Qed.

Lemma run_complete tn key code body ttl claimedAt orc w i r :
  no_faults orc -> w_tx w = None -> find_key (w_db w) tn key = Some (i, r) -> ik_created_at r = pg_time claimedAt ->
  exists w', run (completeWithRetry tn key code body ttl claimedAt) orc w = Some (tt, w') /\ w_tx w' = None /\
    w_db w' = set_key i (completed_row code body (pg_time (tk_now (orc (w_pos w)) + ttl)) r) (w_db w).
Proof.
  intros Hf Htx Hk Hc. destruct w as [d tx log os n]. simpl in *. subst tx.
  unfold completeWithRetry, completeRetryAttempts. cbn. rewrite !locks_free_nil, (Hf (S n)).
  unfold effect_of, q_complete. rewrite Hk, decide_True by done. cbn. by eexists.
Qed.

(** A handler behind the middleware, run alone. *)
Lemma run_mutating h r orc w :
  h ∈ mutating_handlers -> ledger_wf (w_db w) -> w_tx w = None ->
  exists s w', run (h r) orc w = Some (s, w') /\ answers s /\ w_tx w' = None /\
    idempotency_keys (w_db w') = idempotency_keys (w_db w).
Proof.
  intros Hh Hwf Htx. destruct (run_total (h r) orc w) as [[s w'] Hr]. exists s, w'. split_and!; [done| | |].
  - eapply leaves_run; [|exact Hr]. by apply mutating_answer.
  - assert (Hs : safe_handler any_tick h).
    { pose proof (handlers_safe any_tick ""%string) as Hs. rewrite !Forall_cons in Hs. destruct_and?.
      unfold mutating_handlers in Hh. rewrite !elem_of_cons in Hh.
      destruct Hh as [->|[->|[->|[->|[->|Hn]]]]]; [done..|by apply not_elem_of_nil in Hn]. }
    eapply (wp_run (ledger_step Router.ledgerSvc) any_tick _ orc w s w' (fun _ tx _ d => tx = None /\ ledger_wf d));
      [done| |exact Hr]. rewrite Htx. by apply Hs.
  - destruct (writes_in_run not_key _ _ _ _ _ (mutating_keep h r Hh) ltac:(rewrite Htx; by intros ?) Hr)
      as (ws & Hws & ->). by apply not_key_kept.
Qed.

Lemma find_key_same d d' tn key :
  idempotency_keys d' = idempotency_keys d -> find_key d' tn key = find_key d tn key.
Proof. unfold find_key. by intros ->. Qed.


End replay.

(** ** Examples *)

Local Existing Instances demo_uuid demo_text demo_crypto demo_json demo_time demo_lower demo_bcrypt
  demo_jwt demo_float demo_http demo_decoder demo_encoder demo_chi.

Lemma demo_keys_unique : keys_unique demo_db.
Proof. intros i j r r' Hi. by vm_compute in Hi. Qed.

(** Three claims of one key, the last under another request. *)
Definition demo_key_calls : list key_call :=
  [ Claim 1 "key" "hash" 30000000000; Claim 1 "key" "hash" 30000000000; Claim 1 "key" "other" 30000000000 ]%string.

Definition demo_keys : pool key_reply :=
  pool_exec (pool_start demo_db (key_prog <$> demo_key_calls)) (round_robin 3 10).

Lemma demo_keys_reached : rtc (pool_step any_tick) (pool_start demo_db (key_prog <$> demo_key_calls)) demo_keys.
Proof. apply round_robin_steps. Qed.


(** Two claims of one key with leases of a millisecond, one after the other. *)
Definition short_calls : list key_call := [ Claim 1 "key" "hash" 1000000; Claim 1 "key" "hash" 1000000 ]%string.

Definition short_schedule : list (nat * tick) :=
  [(0, demo_tick 0); (0, demo_tick 1); (1, demo_tick 5); (1, demo_tick 6)]%nat.

Definition short_leases : pool key_reply := pool_exec (pool_start demo_db (key_prog <$> short_calls)) short_schedule.


(** A key whose first claim, at 0, was superseded by one at five milliseconds. *)
Definition superseded_row : idempotency_row := claim_row 1 "key" "hash" 5000000 35000000000.
Definition superseded_db : db := set_key 500 superseded_row demo_db.

Definition late_schedule : list (nat * tick) := [(0, demo_tick 6); (0, demo_tick 7)]%nat.
Definition late_calls : list key_call := [ Finish 1 "key" 201 "late" 86400000000000 0 ]%string.
Definition late : pool key_reply := pool_exec (pool_start superseded_db (key_prog <$> late_calls)) late_schedule.

Lemma stale_completion_discarded_witness : exists th,
  p_threads late !! 0%nat = Some th /\ th_prog th = Ret (RFinish (inl ErrClaimSuperseded)) /\
  hist_of 0 (p_hist late) = [].
Proof.
  pose (after := fun (_ : db) tk => 0 < pg_time (tk_now tk)).
  assert (Hs : rtc (pool_step after) (pool_start superseded_db (key_prog <$> late_calls)) late).
  { apply pool_exec_steps. intros d i tk. unfold late_schedule. rewrite !elem_of_cons.
    intros [E|[E|E]]; [injection E as -> ->; vm_compute; reflexivity..|by apply not_elem_of_nil in E]. }
  destruct (ends_with_spec late 0 (fun r => match r with RFinish (inl e) => bool_decide (e = ErrClaimSuperseded) | _ => false end))
    as (th & r & E & Er & Hw); [vm_compute; reflexivity|].
  destruct r as [|[e|u]]; try discriminate Hw. apply bool_decide_eq_true in Hw. subst e.
  exists th. split; [exact E|]. split; [exact Er|].
  refine (proj1 (stale_completion_discarded after late_calls superseded_db late 1 "key" 201 "late" 86400000000000 0
    0 th _ 500 superseded_row _ _ Hs _ _ eq_refl E Er)).
  - intros now (d & tk & Htk & <-). exact Htk.
  - apply set_key_unique; [apply demo_keys_unique|]. intros j r' Hj. by vm_compute in Hj.
  - vm_compute. reflexivity.
  - discriminate.
Defined.

Local Abbreviation keyed_transfer := (Idempotency.Middleware DefaultTTL [] (Handlers.transferHandler Router.ledgerSvc)).


