(* ===== verification/AuthProps.v ===== *)
(** * Properties of the authentication service

    Any number of registrations, logins, refreshes and logouts at once, beside
    programs that do not write users or tokens; and one call alone. *)

From S2P Require Import Prelude GoBase Db Prog ProgFacts Interfaces AuditLog Auth Adapters AuthWp.
From S2P Require Import Statements Writes HandlerFacts Concrete.
From stdpp Require Import pretty.
From S2P Require Ledger Handlers Router.
Local Open Scope Z_scope.

(** ** Concurrent calls *)

Inductive auth_call :=
  | DoRegister (tn role : uuid) (email password : string)
  | DoLogin (tn : uuid) (email password : string)
  | DoRefresh (raw : string)
  | DoLogout (raw : string)
  | Beside (p : prog unit).

Inductive auth_reply :=
  | RRegister (r : goerr + User)
  | RSession (r : goerr + AuthResult)
  | RLogout (r : goerr + unit)
  | RBeside.

(** Neither a user nor a token. *)
Definition not_auth (w : write) : Prop :=
  match w with WUser _ _ | WRefreshToken _ _ => False | _ => True end.

Lemma not_auth_kept ws d :
  Forall not_auth ws -> users (apply_writes ws d) = users d /\ refresh_tokens (apply_writes ws d) = refresh_tokens d.
Proof.
  intros Hws. revert d. induction Hws as [|w ws Hw _ IH]; intros d; [done|].
  rewrite apply_writes_cons. destruct (IH (apply_write w d)) as [-> ->]. by destruct w.
Qed.

Section calls.
Context `{UuidLib, Crypto, PgTime, SqlLower, Bcrypt, Jwt}.
Context (tick_ok : db -> tick -> Prop) (s : Service).

Definition auth_prog (c : auth_call) : prog auth_reply :=
  match c with
  | DoRegister tn role email password => bind (Register s tn role email password) (fun r => Ret (RRegister r))
  | DoLogin tn email password => bind (Login s tn email password) (fun r => Ret (RSession r))
  | DoRefresh raw => bind (Refresh s raw) (fun r => Ret (RSession r))
  | DoLogout raw => bind (Logout s raw) (fun r => Ret (RLogout r))
  | Beside p => bind p (fun _ => Ret RBeside)
  end.

(** What a finished call did. *)
Definition auth_result (c : auth_call) (r : auth_reply) (log : list (db * db)) : Prop :=
  match c, r with
  | DoRegister tn role email password, RRegister r =>
      tx_result tick_ok (registered tn role email password) [] r log
  | DoLogin tn email password, RSession r => tx_result tick_ok (logged_in tn email password) [] r log
  | DoRefresh raw, RSession r => refresh_result raw r log
  | DoLogout raw, RLogout r => tx_result tick_ok (logged_out raw) [] r log
  | Beside _, RBeside => True
  | _, _ => False
  end.

(** As main builds it: with an audit recorder. *)
Definition audited_service : Prop := exists a, svc_audit s = Some a /\ AuditRecorderOk a.

Definition harmless (calls : list auth_call) : Prop := forall p, Beside p ∈ calls -> writes_in not_auth p.

Local Abbreviation wp := (wp auth_step tick_ok).

Lemma auth_call_wp calls c d :
  audited_service -> harmless calls -> c ∈ calls ->
  wp (auth_prog c) None [] d (fun r tx log _ => auth_result c r log).
Proof.
  intros (a & Ea & Ha) Hh Hc.
  assert (Haudit : forall b, svc_audit s = Some b -> AuditRecorderOk b) by (intros b; rewrite Ea; by intros [= <-]).
  destruct c as [tn role email password|tn email password|raw|raw|p]; cbn [auth_prog]; apply wp_bind.
  - eapply wp_mono; [by apply Register_wp|]. by intros r tx log d' [_ Hr].
  - eapply wp_mono; [by apply Login_wp|]. by intros r tx log d' [_ Hr].
  - eapply wp_mono; [by apply Refresh_wp|]. by intros r tx log d' [_ Hr].
  - eapply wp_mono; [apply Logout_wp; [done|by rewrite Ea]|]. by intros r tx log d' [_ Hr].
  - eapply wp_mono; [|by intros r tx log d'; exact id].
    apply (wp_writes_in _ _ not_auth); [|by apply Hh|by intros ?].
    intros L ws d' Hws. destruct (not_auth_kept ws d' Hws). by apply step_same.
Qed.

Lemma auth_calls_inv calls d0 P :
  audited_service -> harmless calls ->
  rtc (pool_step tick_ok) (pool_start d0 (auth_prog <$> calls)) P ->
  pool_inv auth_step tick_ok (fun i r tx log _ => exists c, calls !! i = Some c /\ auth_result c r log) d0 P.
Proof.
  intros Hs Hh. apply wp_pool. intros i p Hp d _. rewrite list_lookup_fmap in Hp.
  destruct (calls !! i) as [c|] eqn:Ec; [|done]. injection Hp as <-.
  eapply wp_mono; [apply (auth_call_wp calls); [done|done|by eapply list_elem_of_lookup_2]|].
  intros r tx log d' Hr. by exists c.
Qed.

(** What every step preserves holds along a chain of steps. *)
Lemma auth_chain (Inv : db -> Prop) hist d d' :
  (forall L d1 d2, auth_step L d1 d2 -> Inv d1 -> Inv d2) ->
  chain d hist d' -> (forall x y, (x, y) ∈ hist -> exists L, auth_step L x y) -> Inv d -> Inv d'.
Proof.
  intros HI. revert d. induction hist as [|[x y] hist IH]; intros d Hc Hg Hd; simpl in Hc; [by subst|].
  destruct Hc as [-> Hc]. destruct (Hg d y (list_elem_of_here _ _)) as [L Hs].
  apply (IH y); [done| |by eapply HI]. intros ? ? ?. apply Hg. by right.
Qed.

Context (calls : list auth_call) (d0 : db) (P : pool auth_reply).
Local Abbreviation reached := (rtc (pool_step tick_ok) (pool_start d0 (auth_prog <$> calls)) P).

(** C31: However registrations, logins, refreshes and logouts interleave with
    each other and with programs that leave users and tokens alone, each that
    has ended did what it reported, in at most one change: a registration
    stored its user under an address that was free; a login found an active
    user whose password matches; a refresh replaced an active, unexpired token;
    a logout revoked the token. No two users of a tenant ever share an address
    (up to case), and no two tokens a hash. *)
Theorem auth_linearizable :
  audited_service -> harmless calls -> emails_unique d0 -> hashes_unique d0 -> reached ->
  chain d0 (snd <$> p_hist P) (p_db P) /\ emails_unique (p_db P) /\ hashes_unique (p_db P) /\
  forall i c th r, calls !! i = Some c -> p_threads P !! i = Some th -> th_prog th = Ret r ->
    auth_result c r (hist_of i (p_hist P)).
Proof.
  intros Hs Hh He Hu Hr. destruct (auth_calls_inv calls d0 P Hs Hh Hr) as [Hwp _ Hc Hg Hlog].
  assert (Hsteps : forall x y, (x, y) ∈ snd <$> p_hist P -> exists L, auth_step L x y).
  { intros x y ([k w] & E & Hk)%list_elem_of_fmap. simpl in E. subst w. by eapply Hg. }
  split; [done|]. split; [|split].
  - eapply auth_chain; [|exact Hc|exact Hsteps|exact He]. intros L d1 d2 Hst. apply (as_emails _ _ _ Hst).
  - eapply auth_chain; [|exact Hc|exact Hsteps|exact Hu]. intros L d1 d2 Hst. apply (as_hashes _ _ _ Hst).
  - intros i c th r Hi Hth Hp. destruct (Hwp i th Hth) as [_ Hq]. specialize (Hq (p_db P) (rely_refl _ _ _)).
    rewrite Hp in Hq. simpl in Hq. destruct Hq as (c' & Hc' & Hq). rewrite <- (Hlog i th Hth). by simplify_eq.
Qed.

(** A token that can never be used again. *)
Definition spent (hash : string) (d : db) : Prop :=
  exists old r, refresh_tokens d !! old = Some r /\ rt_token_hash r = hash /\ rt_status r <> TokenActive.

Lemma spent_step L hash d1 d2 : auth_step L d1 d2 -> spent hash d1 -> spent hash d2.
Proof.
  intros Hs (old & r & Hr & Hh & Ha). apply (as_tokens _ _ _ Hs) in Hr as (r' & Hr' & Hle).
  apply token_le_inactive in Hle; [|done]. subst r'. by exists old, r.
Qed.

Lemma rotated_spends raw newraw expires d d' :
  rotated raw newraw expires d d' -> spent (hashToken raw) d'.
Proof.
  intros (old & r & id & u & row & start & _ & Hh & _ & _ & _ & _ & _ & _ & _ & _ & _ & Et).
  exists old, (rotated_row id r). by rewrite Et, lookup_insert_eq.
Qed.

Lemma logged_out_spends raw x d d' : logged_out raw x d d' -> spent (hashToken raw) d'.
Proof.
  intros (old & r & Hr & Hh & _ & Et). specialize (Et old). rewrite Hr in Et. simpl in Et. unfold revoke_if in Et.
  case_decide as Ha; [by eexists _, _|]. exists old, r. split; [done|]. split; [done|]. intros ?. by apply Ha.
Qed.

Lemma rotated_unspent raw newraw expires d d' :
  hashes_unique d -> rotated raw newraw expires d d' -> ~ spent (hashToken raw) d.
Proof.
  intros Hu (old & r & id & u & row & start & Hr & Hh & Ha & _) (old' & r' & Hr' & Hh' & Ha').
  assert (old = old') as <- by (eapply Hu; [done|done|congruence]). congruence.
Qed.

(** A change made by the call of thread [i], which reported success. *)
Lemma succeeded i c th r :
  audited_service -> harmless calls -> reached ->
  calls !! i = Some c -> p_threads P !! i = Some th -> th_prog th = Ret r ->
  auth_result c r (hist_of i (p_hist P)).
Proof.
  intros Hs Hh Hr Hi Hth Hp. destruct (auth_calls_inv calls d0 P Hs Hh Hr) as [Hwp _ _ _ Hlog].
  destruct (Hwp i th Hth) as [_ Hq]. specialize (Hq (p_db P) (rely_refl _ _ _)).
  rewrite Hp in Hq. simpl in Hq. destruct Hq as (c' & Hc' & Hq). rewrite <- (Hlog i th Hth). by simplify_eq.
Qed.

(** Nothing that spends a token comes before a rotation of it. *)
Lemma no_spending_before raw newraw expires a b h1 h2 c h3 :
  audited_service -> harmless calls -> hashes_unique d0 -> reached ->
  rotated raw newraw expires a b -> spent (hashToken raw) c.2 ->
  chain c.2 h2 a -> snd <$> p_hist P = h1 ++ c :: h2 ++ (a, b) :: h3 -> False.
Proof.
  intros Hs Hh Hu Hr Hrot Hsp Hch E. destruct (auth_calls_inv calls d0 P Hs Hh Hr) as [_ _ Hc Hg _].
  assert (Hsteps : forall x y, (x, y) ∈ h1 ++ c :: h2 -> exists L, auth_step L x y).
  { intros x y Hin. assert (Hin' : (x, y) ∈ snd <$> p_hist P).
    { rewrite E. apply elem_of_app. apply elem_of_app in Hin as [?|Hin]; [by left|right].
      rewrite app_comm_cons. apply elem_of_app. by left. }
    apply list_elem_of_fmap in Hin' as ([k w] & Ew & Hk). simpl in Ew. subst w. by eapply Hg. }
  assert (Hca : chain d0 (h1 ++ c :: h2) a).
  { rewrite E in Hc. rewrite app_comm_cons, app_assoc in Hc. by apply chain_split in Hc as [? _]. }
  apply (rotated_unspent _ _ _ a b) in Hrot; [|eapply auth_chain; [|exact Hca|exact Hsteps|exact Hu]].
  - apply Hrot. eapply auth_chain; [|exact Hch| |exact Hsp].
    + intros L d1 d2. apply spent_step.
    + intros x y Hin. apply Hsteps. apply elem_of_app. right. by right.
  - intros L d1 d2 Hst. apply (as_hashes _ _ _ Hst).
Qed.

(** C32: A refresh token is used at most once: of all the concurrent refreshes
    with one token, at most one succeeds. *)
Theorem refresh_at_most_once raw i j thi thj resi resj :
  audited_service -> harmless calls -> hashes_unique d0 -> reached ->
  calls !! i = Some (DoRefresh raw) -> calls !! j = Some (DoRefresh raw) ->
  p_threads P !! i = Some thi -> p_threads P !! j = Some thj ->
  th_prog thi = Ret (RSession (inr resi)) -> th_prog thj = Ret (RSession (inr resj)) -> i = j.
Proof.
  intros Hs Hh Hu Hr Hci Hcj Hti Htj Hri Hrj.
  destruct (auth_calls_inv calls d0 P Hs Hh Hr) as [_ _ Hc _ _].
  destruct (succeeded i _ _ _ Hs Hh Hr Hci Hti Hri) as (a & b & Ei & Roti).
  destruct (succeeded j _ _ _ Hs Hh Hr Hcj Htj Hrj) as (a' & b' & Ej & Rotj).
  destruct (decide (i = j)) as [|Hne]; [done|exfalso].
  assert (Hini : (i, (a, b)) ∈ p_hist P) by (apply hist_of_in; rewrite Ei; left).
  assert (Hinj : (j, (a', b')) ∈ p_hist P) by (apply hist_of_in; rewrite Ej; left).
  destruct (hist_order _ _ _ _ _ _ _ Hc Hne Hini Hinj) as (h1 & h2 & h3 & [(Hc1 & Hc2 & E)|(Hc1 & Hc2 & E)]).
  - by eapply no_spending_before, E; [..|exact Rotj|by eapply rotated_spends|].
  - by eapply no_spending_before, E; [..|exact Roti|by eapply rotated_spends|].
Qed.

(** C33: A logout is final: if a refresh and a logout of one token both
    succeed, the refresh took effect first. *)
Theorem logout_is_final raw i j thi thj res :
  audited_service -> harmless calls -> hashes_unique d0 -> reached ->
  calls !! i = Some (DoRefresh raw) -> calls !! j = Some (DoLogout raw) ->
  p_threads P !! i = Some thi -> p_threads P !! j = Some thj ->
  th_prog thi = Ret (RSession (inr res)) -> th_prog thj = Ret (RLogout (inr tt)) ->
  exists refresh logout h1 h2 h3, hist_of i (p_hist P) = [refresh] /\ hist_of j (p_hist P) = [logout] /\
    snd <$> p_hist P = h1 ++ refresh :: h2 ++ logout :: h3.
Proof.
  intros Hs Hh Hu Hr Hci Hcj Hti Htj Hri Hrj.
  destruct (auth_calls_inv calls d0 P Hs Hh Hr) as [_ _ Hc _ _].
  destruct (succeeded i _ _ _ Hs Hh Hr Hci Hti Hri) as (a & b & Ei & Roti).
  destruct (succeeded j _ _ _ Hs Hh Hr Hcj Htj Hrj) as (a' & b' & Ej & Rotj).
  assert (Hini : (i, (a, b)) ∈ p_hist P) by (apply hist_of_in; rewrite Ei; left).
  assert (Hinj : (j, (a', b')) ∈ p_hist P) by (apply hist_of_in; rewrite Ej; left).
  assert (Hne : i <> j) by (intros ->; congruence).
  destruct (hist_order _ _ _ _ _ _ _ Hc Hne Hini Hinj) as (h1 & h2 & h3 & [(Hc1 & Hc2 & E)|(Hc1 & Hc2 & E)]).
  - by exists (a, b), (a', b'), h1, h2, h3.
  - exfalso. by eapply no_spending_before, E; [..|exact Roti|by eapply logged_out_spends|].
Qed.
End calls.

(** ** One call alone *)

Section single.
Context `{UuidLib, Crypto, PgTime, SqlLower, Bcrypt, Jwt}.
Context (s : Service).

Lemma head_rows_where {V} (Q : uuid * V -> Prop) `{!forall p, Decision (Q p)} (m : gmap uuid V) i v :
  m !! i = Some v -> Q (i, v) -> (forall j w, m !! j = Some w -> Q (j, w) -> j = i) ->
  head (rows_where Q m) = Some (i, v).
Proof.
  intros Hi HQ Hu. unfold rows_where. destruct (filter Q (map_to_list m)) as [|[j w] l] eqn:E.
  - exfalso. apply (not_elem_of_nil (i, v)). rewrite <- E. apply list_elem_of_filter. split; [done|].
    by apply elem_of_map_to_list.
  - assert (Hin : (j, w) ∈ filter Q (map_to_list m)) by (rewrite E; left).
    apply list_elem_of_filter in Hin as [HQj Hj%elem_of_map_to_list].
    assert (j = i) as -> by by eapply Hu. simpl. congruence.
Qed.


End single.

(** ** The hypotheses hold on the sample database *)

Section examples.
Local Existing Instances demo_uuid demo_text demo_crypto demo_json demo_time demo_lower demo_bcrypt
  demo_jwt demo_decoder demo_encoder.

(** Every step draws other random bytes. *)
Definition auth_tick (n : nat) : tick :=
  Tick NoFault (1000000 * Z.of_nat n) (1000 + N.of_nat n) (Some (pretty n)) (Some 0) (HttpStatus 200).

(** The session of user 7. *)
Definition demo_token (st : token_status) : refresh_token_row :=
  RefreshTokenRow 7 1 "tok" st None 0 1000000000000000.

Definition session_db (st : token_status) : db := set_refresh_tokens (<[600%N := demo_token st]>) demo_db.

Definition one_transfer : prog unit :=
  bind (Handlers.transferHandler Router.ledgerSvc keyed_request) (fun _ => Ret tt).

(** Two refreshes and a logout of that session, a registration and a login,
    beside a transfer. *)
Definition demo_sessions : list auth_call :=
  [ DoRefresh "tok"; DoRefresh "tok"; DoLogout "tok"; DoRegister 1 5 "bob" "pw2"; DoLogin 1 "ann" "pw";
    Beside one_transfer ]%string.

Definition auth_schedule : list (nat * tick) :=
  (fun k => ((k / 30) mod 6, auth_tick k)%nat) <$> seq 0 180.

Local Abbreviation svc := (Router.authSvc "secret").

Definition auth_pool : pool auth_reply :=
  pool_exec (pool_start (session_db TokenActive) (auth_prog svc <$> demo_sessions)) auth_schedule.

Lemma auth_pool_reached :
  rtc (pool_step any_tick) (pool_start (session_db TokenActive) (auth_prog svc <$> demo_sessions)) auth_pool.
Proof. by apply pool_exec_steps. Qed.

Lemma main_audited : audited_service svc.
Proof. exists Recorder. split; [done|apply Recorder_ok]. Qed.

Lemma demo_harmless : harmless demo_sessions.
Proof.
  intros p. unfold demo_sessions. rewrite !elem_of_cons.
  intros [E|[E|[E|[E|[E|[E|E]]]]]]; [discriminate E..| |by apply not_elem_of_nil in E].
  assert (p = one_transfer) as -> by congruence. apply issues_bind; [|done].
  apply (writes_in_mono ledger_write); [by intros ? []|].
  eapply issues_mono; [apply @ledger_stmt_writes|apply mutating_sends].
  apply elem_of_cons. right. apply elem_of_cons. by left.
Qed.

Lemma session_emails st : emails_unique (session_db st).
Proof.
  intros i j u v. unfold session_db, set_refresh_tokens. cbn [users demo_db].
  by intros [<- _]%lookup_singleton_Some [<- _]%lookup_singleton_Some.
Qed.

Lemma session_hashes st : hashes_unique (session_db st).
Proof.
  intros i j u v. unfold session_db, set_refresh_tokens. cbn [refresh_tokens demo_db].
  rewrite insert_empty. by intros [<- _]%lookup_singleton_Some [<- _]%lookup_singleton_Some.
Qed.

(** What came of it: the first refresh wins, and everything else that can
    succeed does. *)
Example demo_sessions_end :
  (fun th => match th_prog th with
             | Ret (RRegister (inr _)) | Ret (RSession (inr _)) | Ret (RLogout (inr _)) | Ret RBeside => true
             | _ => false
             end) <$> p_threads auth_pool = [true; false; true; true; true; true] /\ length (p_hist auth_pool) = 6%nat.
Proof. vm_compute. done. Qed.

Lemma auth_linearizable_witness :
  length (p_hist auth_pool) = 6%nat /\ chain (session_db TokenActive) (snd <$> p_hist auth_pool) (p_db auth_pool).
Proof.
  split; [vm_compute; reflexivity|].
  exact (proj1 (auth_linearizable any_tick svc demo_sessions (session_db TokenActive) auth_pool
    main_audited demo_harmless (session_emails _) (session_hashes _) auth_pool_reached)).
Defined.

Lemma refresh_at_most_once_witness : exists th res,
  p_threads auth_pool !! 0%nat = Some th /\ th_prog th = Ret (RSession (inr res)) /\ 0%nat = 0%nat.
Proof.
  destruct (ends_with_spec auth_pool 0 (fun r => match r with RSession (inr _) => true | _ => false end))
    as (th & r & E & Er & Hw); [vm_compute; reflexivity|].
  destruct r as [|[e|res]| |]; try discriminate Hw. exists th, res. split; [exact E|]. split; [exact Er|].
  exact (refresh_at_most_once any_tick svc demo_sessions (session_db TokenActive) auth_pool "tok" 0 0 th th res res
    main_audited demo_harmless (session_hashes _) auth_pool_reached eq_refl eq_refl E E Er Er).
Defined.

Lemma logout_is_final_witness : exists refresh logout h1 h2 h3,
  hist_of 0 (p_hist auth_pool) = [refresh] /\ hist_of 2 (p_hist auth_pool) = [logout] /\
  snd <$> p_hist auth_pool = h1 ++ refresh :: h2 ++ logout :: h3.
Proof.
  destruct (ends_with_spec auth_pool 0 (fun r => match r with RSession (inr _) => true | _ => false end))
    as (th & r & E & Er & Hw); [vm_compute; reflexivity|].
  destruct r as [|[e|res]| |]; try discriminate Hw.
  destruct (ends_with_spec auth_pool 2 (fun r => match r with RLogout (inr tt) => true | _ => false end))
    as (th' & r' & E' & Er' & Hw'); [vm_compute; reflexivity|].
  destruct r' as [| |[e|[]]|]; try discriminate Hw'.
  exact (logout_is_final any_tick svc demo_sessions (session_db TokenActive) auth_pool "tok" 0 2 th th' res
    main_audited demo_harmless (session_hashes _) auth_pool_reached eq_refl eq_refl E E' Er Er').
Defined.

Lemma auth_tick_faultless : no_faults auth_tick.
Proof. intros n. reflexivity. Qed.


End examples.
