(* ===== verification/HttpProps.v ===== *)
(** * Properties of the HTTP side: who may do what, and what is reported

    The gate of every route that needs a permission, and the agreement between
    the answer a client gets and what the log and the metrics say of it. *)

From stdpp Require Import pretty.
From S2P Require Import Prelude GoBase Db Prog ProgFacts Auth Http AuthMw HandlerFacts Concrete.
From S2P Require Handlers Router.
Local Open Scope Z_scope.

Section gate.
Context `{UuidLib, DriverText, Crypto, PgTime, SqlLower, Bcrypt, Jwt, Handlers.Decoder, Handlers.Encoder, Router.Chi}.
Context (jwtSecret : string).
Local Abbreviation svc := (Router.authSvc jwtSecret).

(** The permission each protected route asks for (docs/API.md). *)
Definition required_permissions : list (string * string * string) :=
  [ ("POST", "/v1/accounts", "accounts:write"); ("GET", "/v1/accounts/{id}", "accounts:read");
    ("GET", "/v1/transactions/{id}", "transactions:read"); ("POST", "/v1/transfers", "transactions:write");
    ("POST", "/v1/transactions/pending", "transactions:write");
    ("POST", "/v1/transactions/{id}/post", "transactions:write");
    ("POST", "/v1/transactions/{id}/fail", "transactions:write");
    ("GET", "/v1/audit-log", "audit:read") ]%string.

(** The request carries a bearer token that the jwt package accepts under the
    service's key, and the user it names has the permission in its tenant. *)
Definition authorized_by (r : Request) (perm : string) (d : db) : Prop :=
  exists token claims now tn uid,
    strip_prefix "Bearer " (rq_Header r "Authorization") = Some token /\ token <> ""%string /\
    jwt_ParseWithClaims now token (access_key svc) = inr (claims, true) /\
    uuid_Parse (cl_TenantID claims) = Some tn /\ uuid_Parse (cl_UserID claims) = Some uid /\
    perm ∈ user_permissions d tn uid.

(** A refusal: an error status, and nothing done. *)
Definition refused (s : served) (w w' : world) : Prop :=
  w_db w' = w_db w /\ w_log w' = w_log w /\ sv_ending s = Finished /\
  client_status (sv_calls s) ∈ [401; 403; 500].

Lemma refuse msg code orc w w1 s w' :
  code ∈ [401; 403; 500] -> w_db w1 = w_db w -> w_log w1 = w_log w ->
  run (done_with (http_Error msg code)) orc w1 = Some (s, w') -> refused s w w'.
Proof. intros Hc Hd Hl [= <- <-]. split; [exact Hd|]. split; [exact Hl|]. by split. Qed.

Lemma hasPermission_spec perms want : hasPermission perms want = true <-> want ∈ perms.
Proof.
  unfold hasPermission. rewrite existsb_exists. split.
  - intros (p & Hp & E%bool_decide_eq_true). subst. by apply list_elem_of_In.
  - intros Hp. exists want. split; [by apply list_elem_of_In|by apply bool_decide_eq_true].
Qed.

(** The permission check, for a request with claims and a tenant. *)
Lemma permission_gate_run perm h r tn claims orc w1 w s w' :
  w_tx w1 = None -> w_db w1 = w_db w -> w_log w1 = w_log w ->
  run (RequirePermission perm h (WithClaims (WithTenantID r tn) claims)) orc w1 = Some (s, w') ->
  (exists uid, uuid_Parse (cl_UserID claims) = Some uid /\ perm ∈ user_permissions (w_db w) tn uid) \/
  refused s w w'.
Proof.
  intros Htx Hd Hl. unfold RequirePermission. cbn [ClaimsFromContext WithClaims rq_claims].
  destruct (uuid_Parse (cl_UserID claims)) as [uid|]; [|intros Hr; right; eapply refuse; [|exact Hd|exact Hl|exact Hr]; set_solver].
  cbn [FromContext WithTenantID WithClaims rq_tenant]. unfold GetUserPermissions, repo_GetUserPermissions, wrap_err.
  rewrite !run_bind. unfold q_user_permissions.
  destruct (run_select_db (fun d => user_permissions d tn uid) orc w1 Htx) as (r' & w2 & -> & Hd2 & Hl2 & _ & Hr').
  rewrite Hd in Hd2. rewrite Hl in Hl2.
  assert (Hperm : forall msg code, code ∈ [401; 403; 500] ->
    run (done_with (http_Error msg code)) orc w2 = Some (s, w') -> refused s w w')
    by (intros msg code Hc; by apply refuse).
  destruct Hr' as [->|[e ->]]; cbn [run]; [|intros Hr; right; eapply Hperm, Hr; set_solver].
  destruct (hasPermission _ perm) eqn:Ep; cbn [negb]; [|intros Hr; right; eapply Hperm, Hr; set_solver].
  intros _. left. exists uid. split; [done|]. apply hasPermission_spec in Ep. by rewrite <- Hd.
Qed.

Lemma authorized_gate perm h r orc w s w' :
  w_tx w = None -> run (Router.authorized jwtSecret perm h r) orc w = Some (s, w') ->
  authorized_by r perm (w_db w) \/ refused s w w'.
Proof.
  intros Htx. unfold Router.authorized, AuthMw.Middleware.
  assert (Hrefuse : forall msg code w1, code ∈ [401; 403; 500] -> w_db w1 = w_db w -> w_log w1 = w_log w ->
    run (done_with (http_Error msg code)) orc w1 = Some (s, w') -> refused s w w')
    by (intros msg code w1; by apply refuse).
  destruct (strip_prefix "Bearer " _) as [[|c token]|] eqn:Et;
    [intros Hr; right; eapply Hrefuse, Hr; [set_solver|done..]| |
     intros Hr; right; eapply Hrefuse, Hr; [set_solver|done..]].
  unfold ValidateAccessToken, time_Now. rewrite run_bind, run_ask.
  set (now := tk_now _). set (w1 := advance w _).
  destruct (jwt_ParseWithClaims now (String c token) (access_key svc)) as [e|[claims []]] eqn:Ej; cbn [run negb];
    [intros Hr; right; eapply Hrefuse, Hr; [set_solver|done..]| |
     intros Hr; right; eapply Hrefuse, Hr; [set_solver|done..]].
  destruct (uuid_Parse (cl_TenantID claims)) as [tn|] eqn:Etn;
    [|intros Hr; right; eapply Hrefuse, Hr; [set_solver|done..]].
  intros Hr. eapply (permission_gate_run perm h r tn claims orc w1 w) in Hr as [(uid & Hu & Hp)|Hr]; [|by right|done..].
  left. exists (String c token), claims, now, tn, uid. by split_and!.
Qed.

(** Every protected route is behind the gate, with its permission. *)
Lemma dispatch_protected r m p perm :
  (m, p, perm) ∈ required_permissions -> rq_Method r = m -> rq_Route r = Some p ->
  exists h, Router.dispatch jwtSecret r = Router.authorized jwtSecret perm h r.
Proof.
  intros Hin Hm Hp. unfold Router.dispatch. unfold Router.routes.
  unfold required_permissions in Hin. rewrite !elem_of_cons in Hin.
  repeat (destruct Hin as [Hin|Hin]; [injection Hin as -> -> ->; cbn [find fst snd];
    rewrite Hm, Hp; repeat (rewrite bool_decide_false by (by intros [? ?])); rewrite bool_decide_true by done;
    by eexists|]).
  by apply not_elem_of_nil in Hin.
Qed.

(** C36: A protected route serves only those who may use it: unless the request
    carries a valid bearer token whose user has the route's permission in the
    token's tenant, the answer is 401, 403 or 500 and the database does not
    change. *)
Theorem permission_gate r m p perm orc w s w' :
  (m, p, perm) ∈ required_permissions -> rq_Method r = m -> rq_Route r = Some p ->
  w_tx w = None -> run (Router.dispatch jwtSecret r) orc w = Some (s, w') ->
  authorized_by r perm (w_db w) \/ refused s w w'.
Proof.
  intros Hin Hm Hp Htx. destruct (dispatch_protected r m p perm Hin Hm Hp) as [h ->].
  by apply authorized_gate.
Qed.

(** ** What is reported *)

(** The outer middlewares around a handler, as the router mounts them. *)
Definition outer (abortHandler : string) (next : Handler) : Handler :=
  logging_Middleware (metrics_Middleware (recovery_Middleware abortHandler next)).

(** The log line and the metrics of a request that got a status. *)
Definition reports (r : Request) (status : Z) : list obs :=
  [ OMetric "transacta_http_requests_total"
      [("method", rq_Method r); ("route", routePattern r); ("status", pretty status)];
    OMetric "transacta_http_request_duration_seconds" [("method", rq_Method r); ("route", routePattern r)];
    OLog "INFO" ("request " +:+ rq_Method r +:+ " " +:+ rq_Path r +:+ " " +:+ pretty status) ]%string.

(** A handler that has answered, or panicked before it wrote anything. *)
Definition settles (abortHandler : string) (s : served) : Prop :=
  answers s \/
  exists v, sv_ending s = PanickedWith v /\ v <> abortHandler /\
    Forall (fun c => exists k x, c = SetHeader k x) (sv_calls s).

Lemma headers_only calls rest :
  Forall (fun c => exists k x, c = SetHeader k x) calls ->
  orderly (calls ++ rest) = orderly rest /\ client_status (calls ++ rest) = client_status rest.
Proof. induction 1 as [|c cs (k & x & ->) _ IH]; [done|]. simpl. exact IH. Qed.

(** What recovery makes of it: an orderly answer, 500 after a panic. *)
Lemma recovery_settles abort next r orc w s w' :
  leaves (settles abort) (next r) -> run (recovery_Middleware abort next r) orc w = Some (s, w') ->
  answers s /\ exists s0 w0, run (next r) orc w = Some (s0, w0) /\
    ((exists v, sv_ending s0 = PanickedWith v) -> client_status (sv_calls s) = 500).
Proof.
  intros Hl. unfold recovery_Middleware. rewrite run_bind.
  destruct (run_total (next r) orc w) as [[s0 w0] E]. rewrite E. pose proof (leaves_run _ _ _ _ _ _ Hl E) as Hs.
  destruct Hs as [[Hend Hord]|(v & Hend & Hv & Hh)]; rewrite Hend.
  - intros [= <- <-]. split; [by split|]. exists s0, w0. split; [done|]. intros [v Hv]. congruence.
  - rewrite decide_False by done. intros [= <- <-].
    destruct (headers_only _ [SetHeader "Content-Type" "application/json"; WriteHeader 500;
      Write (json_member "error" "internal server error")] Hh) as [Ho Hc].
    split; [split; [done|]|].
    + cbn [sv_calls]. rewrite Ho. simpl. repeat constructor. by intros [].
    + exists s0, w0. split; [done|]. intros _. cbn [sv_calls]. by rewrite Hc.
Qed.

Lemma outer_observed abort next r orc w s w' :
  leaves (settles abort) (next r) -> run (outer abort next r) orc w = Some (s, w') ->
  sv_ending s = Finished /\
  (exists before, w_obs w' = before ++ reports r (client_status (sv_calls s))) /\
  exists s0 w0 w1, w_db w0 = w_db w /\ run (next r) orc w0 = Some (s0, w1) /\
    ((exists v, sv_ending s0 = PanickedWith v) -> client_status (sv_calls s) = 500).
Proof.
  intros Hl. unfold outer, logging_Middleware, time_Now. rewrite run_ask. cbn [bind].
  unfold metrics_Middleware, time_Now. rewrite run_bind, run_ask, run_bind.
  set (w2 := advance _ _). destruct (run_total (recovery_Middleware abort next r) orc w2) as [[s1 w3] E].
  rewrite E. destruct (recovery_settles _ _ _ _ _ _ _ Hl E) as ([Hend Hord] & s0 & w0 & E0 & H500).
  destruct (status_observed _ Hord) as [Hlog Hcount]. rewrite Hend. cbv zeta.
  rewrite Metrics.requests_labelled, Metrics.duration_labelled. cbn -[logged_status counted_status pretty].
  rewrite Hend. cbn -[logged_status counted_status pretty]. intros [= <- <-]. rewrite Hlog, Hcount. split; [exact Hend|]. split.
  - exists (w_obs w3). cbn [w_obs]. rewrite !app_nil_r, <- !app_assoc. reflexivity.
  - exists s0, w2, w0. by split_and!.
Qed.

End gate.

(** ** Examples *)

Section examples.
Local Existing Instances demo_uuid demo_text demo_crypto demo_json demo_time demo_lower demo_bcrypt
  demo_jwt demo_decoder demo_encoder demo_chi.

(** User 7 may write transactions, but not accounts. *)
Definition account_request : Request :=
  {| rq_Method := "POST"; rq_Path := "/v1/accounts"; rq_Route := Some "/v1/accounts"%string;
     rq_Header := fun _ => "Bearer 7"%string; rq_Body := Some "{}"%string; rq_id := ""; rq_limit := "";
     rq_tenant := None; rq_claims := None |}.

Lemma permission_gate_witness : exists s w',
  run (Router.dispatch "secret" account_request) demo_tick (world_of demo_db) = Some (s, w') /\
  refused s (world_of demo_db) w' /\ client_status (sv_calls s) = 403.
Proof.
  destruct (run_total (Router.dispatch "secret" account_request) demo_tick (world_of demo_db)) as [[s w'] Hr].
  exists s, w'. split; [exact Hr|]. split.
  - destruct (permission_gate "secret" account_request "POST" "/v1/accounts" "accounts:write" demo_tick
      (world_of demo_db) s w' (list_elem_of_here _ _) eq_refl eq_refl eq_refl Hr) as [Ha|]; [exfalso|done].
    destruct Ha as (token & claims & now & tn & uid & Et & _ & Ej & Etn & Eu & Hp).
    vm_compute in Et. injection Et as <-. vm_compute in Ej. injection Ej as <-.
    vm_compute in Etn, Eu. injection Etn as <-. injection Eu as <-. vm_compute in Hp.
    inversion Hp as [|? ? ? Hn]. by apply not_elem_of_nil in Hn.
  - vm_compute in Hr. injection Hr as <- _. reflexivity.
Defined.

End examples.
