(* ===== verification/WorkerProps.v ===== *)
(** * Properties of events in the whole program

    What holds of the webhook events while any number of processes poll, deliver
    and serve requests, and are killed (Worker.v, System.v). *)

From S2P Require Import Prelude GoBase Db Prog ProgFacts Interfaces Queue Webhook Adapters.
From S2P Require Import WebhookWp Worker WorkerWp System Concrete.
From S2P Require Auth Http Handlers Router Tenants.

Section processes.
Context `{UuidLib, DriverText, Crypto, PgTime, SqlLower, JsonText, Auth.Bcrypt, Auth.Jwt,
          Handlers.Decoder, Handlers.Encoder, Router.Chi, FloatConv, HttpLib}.
Context (tick_ok : db -> tick -> Prop) (d0 : db).

Lemma delivery_owns F i s ev th :
  system_reached tick_ok d0 F -> fl_tasks F !! i = Some (Deliver s ev) -> fl_threads F !! i = Some th -> th_log th = [] ->
  owns F i (evt_ID ev) (row_of_event ev) /\
  webhook_events (fl_db F) !! evt_ID ev = Some (row_of_event ev) /\ evt_Status ev = JobProcessing.
Proof.
  intros HF%system_events_inv Ht Hi Hl.
  assert (Ho : owns F i (evt_ID ev) (row_of_event ev)) by by eapply OwnsDelivery.
  by destruct (fi_own _ _ _ _ HF _ _ _ Ho).
Qed.

(** C21: An event is in the hands of one goroutine at a time: while a delivery
    has not recorded an outcome, whatever workers poll and requests run, its
    event is still as it was claimed, and no other delivery of that event is
    pending. *)
Theorem exclusive_delivery F i s ev th :
  system_reached tick_ok d0 F -> fl_tasks F !! i = Some (Deliver s ev) -> fl_threads F !! i = Some th -> th_log th = [] ->
  webhook_events (fl_db F) !! evt_ID ev = Some (row_of_event ev) /\ evt_Status ev = JobProcessing /\
  forall j s' ev' th', fl_tasks F !! j = Some (Deliver s' ev') -> fl_threads F !! j = Some th' ->
    th_log th' = [] -> evt_ID ev' = evt_ID ev -> j = i.
Proof.
  intros HF Ht Hi Hl. destruct (delivery_owns _ _ _ _ _ HF Ht Hi Hl) as (Ho & Hr & Hst).
  split_and!; [done|done|]. intros j s' ev' th' Ht' Hj Hl' E.
  destruct (delivery_owns _ _ _ _ _ HF Ht' Hj Hl') as [Ho' _]. rewrite E in Ho'.
  by eapply (fi_disjoint _ _ _ _ (system_events_inv _ _ _ HF)).
Qed.


(** A goroutine that has ended stays so. *)
Lemma ended_stays F F' i t th r :
  system_step tick_ok F F' -> fl_tasks F !! i = Some t -> fl_threads F !! i = Some th -> th_prog th = Ret r ->
  fl_tasks F' !! i = Some t /\ exists th' r', fl_threads F' !! i = Some th' /\ th_prog th' = Ret r' /\
    th_log th' = th_log th.
Proof.
  intros [c _ Hc] Ht Hi Hr.
  assert (Hkeep : forall F1, fl_tasks F1 !! i = Some t -> fl_threads F1 !! i = Some th ->
    fl_tasks F1 !! i = Some t /\ exists th' r', fl_threads F1 !! i = Some th' /\ th_prog th' = Ret r' /\
      th_log th' = th_log th) by (intros F1 Ht1 Hi1; split; [done|]; by exists th, r).
  assert (Hspawn : forall ts, fl_tasks (spawn visitor_prog ts F) !! i = Some t /\
    fl_threads (spawn visitor_prog ts F) !! i = Some th) by (intros ts; split; by apply lookup_app_l_Some).
  destruct c as [w|k|k|k|j tk|j|g]; simpl in Hc.
  - injection Hc as <-. by apply Hkeep.
  - unfold on_tick in Hc. repeat case_match; simplify_eq. by apply Hkeep; apply (Hspawn [Poll _]).
  - unfold on_done in Hc. repeat case_match; simplify_eq. by apply Hkeep.
  - unfold proceed in Hc. repeat case_match; simplify_eq;
      first [by apply Hkeep | by apply Hkeep; apply (Hspawn (Deliver _ <$> _))].
  - unfold move in Hc. destruct (fl_threads F !! j) as [thj|] eqn:Hj; [|done].
    destruct (decide (j = i)) as [->|Hne].
    + rewrite Hi in Hj. injection Hj as <-. unfold thread_step in Hc. by rewrite Hr in Hc.
    + repeat case_match; simplify_eq. apply Hkeep; [done|]. simpl. unfold fl_threads. simpl. by rewrite list_lookup_insert_ne.
  - unfold kill in Hc. destruct (fl_threads F !! j) as [thj|] eqn:Hj; simplify_eq.
    destruct (decide (j = i)) as [->|Hne]; [|apply Hkeep; [done|unfold fl_threads; simpl; by rewrite list_lookup_insert_ne]].
    assert (thj = th) as -> by congruence. split; [done|]. exists (Thread (Ret Killed) None (th_log th)), Killed.
    split; [|done]. apply list_lookup_insert_eq. by eapply lookup_lt_Some.
  - injection Hc as <-. by apply Hkeep; apply (Hspawn [Guest _]).
Qed.

(** C26: An event can be stranded: a delivery that ends without having recorded
    an outcome - killed with its process, panicked, or its UPDATE failed -
    leaves its event processing for ever, whatever workers poll and requests
    run afterwards. *)
Theorem unrecorded_delivery_strands_event F F' i s ev th r :
  system_reached tick_ok d0 F -> fl_tasks F !! i = Some (Deliver s ev) -> fl_threads F !! i = Some th ->
  th_prog th = Ret r -> th_log th = [] -> rtc (system_step tick_ok) F F' ->
  webhook_events (fl_db F') !! evt_ID ev = Some (row_of_event ev) /\ evt_Status ev = JobProcessing.
Proof.
  intros HF Ht Hi Hr Hl Hs. revert th r HF Ht Hi Hr Hl.
  induction Hs as [F|F1 F2 F3 Hs _ IH]; intros th r HF Ht Hi Hr Hl.
  - by destruct (delivery_owns _ _ _ _ _ HF Ht Hi Hl).
  - destruct (ended_stays _ _ _ _ _ _ Hs Ht Hi Hr) as (Ht' & th' & r' & Hi' & Hr' & Hl').
    eapply IH; [|done..|by rewrite Hl']. by eapply rtc_r.
Qed.

End processes.

(** ** Examples *)

Local Existing Instances demo_uuid demo_text demo_crypto demo_json demo_time demo_lower demo_bcrypt
  demo_jwt demo_float demo_http demo_decoder demo_encoder demo_chi.

Local Abbreviation started := (system_run demo_db demo_morning).

(** Event 300 as it was claimed. *)
Definition claimed_event : Event := event_of_row (300%N, event_for 100 StatusPosted).

Lemma exclusive_delivery_witness : exists s th,
  fl_tasks started !! 5%nat = Some (Deliver s claimed_event) /\ fl_threads started !! 5%nat = Some th /\
  webhook_events (fl_db started) !! 300%N = Some (row_of_event claimed_event).
Proof.
  exists Router.webhookSvc, (goroutine visitor_prog (Deliver Router.webhookSvc claimed_event)).
  assert (Ht : fl_tasks started !! 5%nat = Some (Deliver Router.webhookSvc claimed_event)) by (vm_compute; reflexivity).
  assert (Hi : fl_threads started !! 5%nat = Some (goroutine visitor_prog (Deliver Router.webhookSvc claimed_event)))
    by reflexivity.
  split; [exact Ht|]. split; [exact Hi|].
  exact (proj1 (exclusive_delivery any_tick demo_db started 5 Router.webhookSvc claimed_event _
    (system_run_reached demo_db demo_morning) Ht Hi eq_refl)).
Defined.

(** The [k]-th change was made by goroutine [i], and event [id] was there. *)
Definition changed_by (F : fleet visitor) (k i : nat) (id : uuid) : bool :=
  match fl_hist F !! k with
  | Some (j, (a, _)) => bool_decide (j = i) && match webhook_events a !! id with Some _ => true | None => false end
  | None => false
  end.

Lemma changed_by_spec F k i id : changed_by F k i id = true ->
  exists a b r, (i, (a, b)) ∈ fl_hist F /\ webhook_events a !! id = Some r.
Proof.
  unfold changed_by. destruct (fl_hist F !! k) as [[j [a b]]|] eqn:E; [|done]. intros [Hj He]%andb_prop.
  apply bool_decide_eq_true in Hj as ->. destruct (webhook_events a !! id) as [r|] eqn:Er; [|done].
  exists a, b, r. split; [by eapply list_elem_of_lookup_2|done].
Qed.

Local Abbreviation evening := (system_run demo_db demo_day).


(** The process of the first worker is killed before it delivers event 300;
    the other worker goes on. *)
Definition killed_morning : list (command visitor) := demo_morning ++ [Kill 5].
Definition killed_day : list (command visitor) :=
  killed_morning ++ moves 5 4 20 ++ [Proceed 0; TimerFires 1] ++ moves 5 4 20 ++ [Proceed 1].

Example other_worker_goes_on :
  snd <$> fl_workers (system_run demo_db killed_day) = [Crashed; Selecting].
Proof. vm_compute. reflexivity. Qed.

Lemma unrecorded_delivery_strands_event_witness :
  webhook_events (fl_db (system_run demo_db killed_day)) !! 300%N = Some (row_of_event claimed_event) /\
  evt_Status claimed_event = JobProcessing.
Proof.
  assert (Ht : fl_tasks (system_run demo_db killed_morning) !! 5%nat =
    Some (Deliver Router.webhookSvc claimed_event)) by (vm_compute; reflexivity).
  assert (Hi : fl_threads (system_run demo_db killed_morning) !! 5%nat = Some (Thread (Ret Killed) None []))
    by (vm_compute; reflexivity).
  exact (unrecorded_delivery_strands_event any_tick demo_db _ (system_run demo_db killed_day) 5 Router.webhookSvc
    claimed_event _ Killed (system_run_reached demo_db killed_morning) Ht Hi eq_refl eq_refl
    (system_run_app demo_db killed_morning _)).
Defined.
