(* ===== verification/LivenessProps.v ===== *)
(** * The program always goes on

    No goroutine of the whole program (System.v) can be stuck: from every state
    that any number of processes reach, whatever faults and kills there have been,
    any goroutine can be run to its end, and any worker's loop back to where it
    waits for the next tick (Order.v, Progress.v). *)

From S2P Require Import Prelude GoBase Db Prog ProgFacts Interfaces Queue Webhook.
From S2P Require Import Worker WorkerWp System Order Progress Concrete.
From S2P Require Auth Http Handlers Router Tenants.

Section processes.
Context `{UuidLib, DriverText, Crypto, PgTime, SqlLower, JsonText, Auth.Bcrypt, Auth.Jwt,
          Handlers.Decoder, Handlers.Encoder, Router.Chi, FloatConv, HttpLib}.
Context (d0 : db).

Local Abbreviation reached := (system_reached any_tick d0).

Lemma system_mono tick_ok F : system_reached tick_ok d0 F -> reached F.
Proof.
  intros Hs. unfold system_reached in *. induction Hs as [|F1 F2 F3 [c _ Hc] _ IH]; [done|].
  eapply rtc_l; [|exact IH]. eapply FleetStep; [|exact Hc]. by destruct c.
Qed.

(** ** What holds of every goroutine and loop *)

(** The result a goroutine can end with. *)
Definition result_fits (t : task visitor) (r : task_result) : Prop :=
  match t, r with
  | _, Killed | Poll _, Polled _ | Deliver _ _, Ended _ | Guest _, Served => True
  | _, _ => False
  end.

Record going (F : fleet visitor) : Prop := Going {
  go_leaves : forall i th, fl_threads F !! i = Some th ->
    exists t, fl_tasks F !! i = Some t /\ leaves (result_fits t) (th_prog th);
  go_gs : forall k w gs i, fl_workers F !! k = Some (w, Delivering gs) -> i ∈ gs ->
    exists s ev th, fl_tasks F !! i = Some (Deliver s ev) /\ fl_threads F !! i = Some th
}.

Lemma task_leaves t : leaves (result_fits t) (task_prog visitor_prog t).
Proof. destruct t; cbn [task_prog]; apply leaves_bind, leaves_any; by intros. Qed.

Lemma leaves_step {A} (Q : A -> Prop) others tk (th th' : thread A) d e os :
  leaves Q (th_prog th) -> thread_step others tk th d = Some (th', e, os) -> leaves Q (th_prog th').
Proof.
  destruct th as [[] tx log]; unfold thread_step; simpl; intros Hl Hs; repeat case_match; simplify_eq; simpl; auto.
Qed.

Lemma going_spawn F ts : going F -> length (fl_tasks F) = length (fl_threads F) ->
  going (spawn visitor_prog ts F).
Proof.
  intros [Hl Hg] Hlen. unfold spawn. split; unfold fl_threads, fl_db; simpl.
  - intros i th [Hi|[Hle Hi]]%lookup_app_Some.
    + destruct (Hl i th Hi) as (t & Ht & Hp). exists t. split; [by apply lookup_app_l_Some|done].
    + apply list_lookup_fmap_Some in Hi as (t & -> & Ht). exists t. split; [|apply task_leaves].
      unfold fl_threads in *. rewrite lookup_app_r; [by rewrite Hlen|lia].
  - intros k w gs i Hk Hi. destruct (Hg k w gs i Hk Hi) as (s & ev & th & Ht & Hth).
    exists s, ev, th. split; by apply lookup_app_l_Some.
Qed.

Lemma going_loop F k w l : going F ->
  (forall gs i, l = Delivering gs -> i ∈ gs ->
     exists s ev th, fl_tasks F !! i = Some (Deliver s ev) /\ fl_threads F !! i = Some th) ->
  going (set_loop k w l F).
Proof.
  intros [Hl Hg] Hn. split; [exact Hl|]. simpl. intros k' w' gs i Hk Hi.
  apply list_lookup_insert_Some in Hk as [(<- & [= -> ->] & _)|[_ Hk]]; [by eapply Hn|by eapply Hg].
Qed.

(** A goroutine is replaced. *)
Lemma going_thread F i th th' d' hist :
  going F -> fl_threads F !! i = Some th ->
  (forall t, leaves (result_fits t) (th_prog th) -> leaves (result_fits t) (th_prog th')) ->
  going (set_pool (Pool d' (<[i:=th']> (fl_threads F)) hist) F).
Proof.
  intros [Hl Hg] Hi Hl'. split; unfold fl_threads, fl_db; simpl.
  - intros j thj [(<- & -> & _)|[_ Hj]]%list_lookup_insert_Some; [|by apply Hl].
    destruct (Hl i th Hi) as (t & Ht & Hp). exists t. auto.
  - intros k w gs j Hk Hj. destruct (Hg k w gs j Hk Hj) as (s & ev & thj & Ht & Hth).
    exists s, ev. destruct (decide (i = j)) as [->|Hne].
    + exists th'. split; [done|]. apply list_lookup_insert_eq. by eapply lookup_lt_Some.
    + exists thj. by rewrite list_lookup_insert_ne.
Qed.

Lemma spawned_thread (F : fleet visitor) ts j t :
  length (fl_tasks F) = length (fl_threads F) -> ts !! j = Some t ->
  fl_tasks (spawn visitor_prog ts F) !! (length (fl_threads F) + j) = Some t /\
  fl_threads (spawn visitor_prog ts F) !! (length (fl_threads F) + j) = Some (goroutine visitor_prog t).
Proof.
  intros Hlen Hj. unfold spawn, fl_threads in *. cbn [fl_tasks fl_pool p_threads].
  rewrite !lookup_app_r by lia. rewrite Hlen.
  replace (length (p_threads (fl_pool F)) + j - length (p_threads (fl_pool F))) with j by lia.
  split; [done|]. by rewrite list_lookup_fmap, Hj.
Qed.

Lemma going_proceed F F' k : going F -> length (fl_tasks F) = length (fl_threads F) ->
  proceed visitor_prog k F = Some F' -> going F'.
Proof.
  intros HF Hlen. unfold proceed. destruct (fl_workers F !! k) as [[w l]|]; [|done].
  assert (Hs : forall l, (forall gs, l <> Delivering gs) -> going (set_loop k w l F))
    by (intros l' Hl'; apply going_loop; [done|]; intros gs i ->; by destruct (Hl' gs)).
  destruct l as [|i|gs| |]; [done| | |done|done].
  - destruct (result_of F i) as [[evs|e| |]|]; simpl; try done; [|by repeat case_match; intros; simplify_eq; apply Hs..].
    destruct evs as [|ev evs]; [by intros [= <-]; apply Hs|]. intros [= <-].
    apply going_loop; [by apply going_spawn|].
    intros gs j [= <-] Hj. assert (Hr : j ∈ seq (length (fl_threads F)) (length (ev :: evs))) by exact Hj.
    apply elem_of_seq in Hr as [Hle Hlt].
    destruct (lookup_lt_is_Some_2 (ev :: evs) (j - length (fl_threads F))) as [ev' Hev]; [lia|].
    exists (wk_svc w), ev', (goroutine visitor_prog (Deliver (wk_svc w) ev')).
    destruct (spawned_thread F (Deliver (wk_svc w) <$> ev :: evs) (j - length (fl_threads F)) (Deliver (wk_svc w) ev') Hlen)
      as [Ht Hth]; [by rewrite list_lookup_fmap, Hev|].
    by replace (length (fl_threads F) + (j - length (fl_threads F))) with j in Ht, Hth by lia.
  - repeat case_match; intros; simplify_eq; by apply Hs.
Qed.

Lemma going_step F F' : reached F -> going F -> system_step any_tick F F' -> going F'.
Proof.
  intros HR HF [c _ Hc]. pose proof (fi_len _ _ _ _ (system_events_inv _ _ _ HR)) as Hlen.
    destruct c as [w|k|k|k|i tk|i|g]; simpl in Hc.
  - injection Hc as <-. destruct HF as [Hl Hg]. split; [exact Hl|]. simpl. intros k w' gs i Hk.
    apply lookup_app_Some in Hk as [Hk|[_ Hk]]; [by eapply Hg|].
    apply list_lookup_singleton_Some in Hk as [_ Hk]. by case_match.
  - unfold on_tick in Hc. repeat case_match; simplify_eq.
    apply going_loop; [by apply (going_spawn F [Poll _])|done].
  - unfold on_done in Hc. repeat case_match; simplify_eq. by apply going_loop.
  - by eapply going_proceed.
  - unfold move in Hc. destruct (fl_threads F !! i) as [th|] eqn:Hi; [|done].
    destruct (thread_step _ _ _ _) as [[[th' e] os]|] eqn:Hs; [|done]. injection Hc as <-.
    apply (going_thread F i th); [done|done|]. intros t Hl. by eapply leaves_step.
  - unfold kill in Hc. destruct (fl_threads F !! i) as [th|] eqn:Hi; [|done]. injection Hc as <-.
    apply (going_thread F i th); [done|done|]. intros [] _; exact I.
  - injection Hc as <-. by apply going_spawn.
Qed.

Lemma reached_going F : reached F -> going F.
Proof.
  revert F. refine (rtc_ind_r going _ _ _).
  - split; unfold fleet_start, fl_threads; simpl; intros *; by rewrite lookup_nil.
  - intros F1 F2 HR Hs IH. by eapply going_step.
Qed.

Lemma reached_disciplined F : reached F -> disciplined (fl_pool F).
Proof.
  intros HR. split; [by exists d0; apply (reached_ok any_tick)|].
  refine (goroutine_inv any_tick d0 orderly F _ _ _ _ HR).
  - intros t d. exists None. split; [apply task_ordered|done].
  - intros others tk th th' d e os (b & Hp & Hb) Hs. destruct (stage_step _ _ _ _ _ _ _ _ Hp Hb Hs) as (_ & b' & ? & ? & _).
    by exists b'.
  - intros th d d' (b & Hp & Hb) Hf. exists b. split; [done|]. by eapply at_stage_frame.
  - intros log d. by exists None.
Qed.

(** ** Going on *)

(** A goroutine moves, and its database call does not fail. *)
Inductive moves_on (F F' : fleet visitor) : Prop :=
  | MovesOn i tk : tk_fault tk = NoFault -> move i tk F = Some F' -> moves_on F F'.

Lemma moves_on_reached F F' : reached F -> rtc moves_on F F' -> reached F'.
Proof.
  intros HR Hs. unfold system_reached in *. etransitivity; [exact HR|]. clear HR.
  induction Hs as [|F1 F2 F3 [i tk _ Hm] _ IH]; [done|]. eapply rtc_l; [|exact IH]. by apply (FleetStep _ _ _ _ (Move i tk)).
Qed.

Lemma moves_on_pool F P :
  rtc (pool_step calm) (fl_pool F) P ->
  rtc moves_on F (set_pool P F).
Proof.
  remember (fl_pool F) as P0 eqn:E. intros Hs. revert F E.
  induction Hs as [P|P1 P2 P3 Hs _ IH]; intros F ->; [by destruct F|].
  eapply rtc_l; [|apply (IH (set_pool P2 F) eq_refl)]. inversion Hs as [d ths hist i th tk th' e os Hi Htk Hst E E'].
  apply (MovesOn _ _ i tk); [done|]. unfold move, fl_threads, fl_db, fl_hist. rewrite <- E. simpl.
  by rewrite Hi, Hst.
Qed.

Lemma goroutine_ends F i th :
  reached F -> fl_threads F !! i = Some th ->
  exists F' th' a, rtc moves_on F F' /\ fl_tasks F' = fl_tasks F /\ fl_workers F' = fl_workers F /\
    fl_threads F' !! i = Some th' /\ th_prog th' = Ret a /\ th_tx th' = None.
Proof.
  intros HR Hi. pose proof (reached_disciplined F HR) as HP.
  destruct (finish (th_prog th) _ (fl_pool F) i th HP (le_n _) Hi eq_refl) as (P' & th' & a & Hs & _ & Hi' & Ha & Hn).
  exists (set_pool P' F), th', a. split; [by apply moves_on_pool|done].
Qed.


(** ** The loop of a worker *)

(** What has ended stays ended while the others move. *)
Lemma ended_kept F F' i th a :
  rtc moves_on F F' -> fl_threads F !! i = Some th -> th_prog th = Ret a -> fl_threads F' !! i = Some th.
Proof.
  intros Hs Hi Ha. revert Hi. induction Hs as [|F1 F2 F3 [j tk _ Hm] _ IH]; [done|]. intros Hi. apply IH.
  unfold move in Hm. destruct (fl_threads F1 !! j) as [thj|] eqn:Hj; [|done].
  destruct (decide (j = i)) as [->|Hne].
  - unfold thread_step in Hm. assert (thj = th) as -> by congruence. by rewrite Ha in Hm.
  - repeat case_match; simplify_eq. unfold fl_threads. simpl. by rewrite list_lookup_insert_ne.
Qed.

Definition has_ended (F : fleet visitor) (i : nat) : Prop := exists a, result_of F i = Some a.

Lemma has_ended_kept F F' i : rtc moves_on F F' -> has_ended F i -> has_ended F' i.
Proof.
  intros Hs [a Ha]. unfold result_of in Ha. destruct (fl_threads F !! i) as [th|] eqn:Hi; [|done].
  destruct (th_prog th) eqn:Ep; simplify_eq. exists a. unfold result_of.
  by rewrite (ended_kept _ _ _ _ _ Hs Hi Ep), Ep.
Qed.

(** A whole batch can be run to its end. *)
Lemma batch_ends F (gs : list nat) :
  reached F -> (forall i, i ∈ gs -> is_Some (fl_threads F !! i)) ->
  exists F', rtc moves_on F F' /\ fl_tasks F' = fl_tasks F /\ fl_workers F' = fl_workers F /\
    forall i, i ∈ gs -> has_ended F' i.
Proof.
  revert F. induction gs as [|g gs IH]; intros F HR Hg.
  - exists F. split_and!; try done. intros i Hi. by apply not_elem_of_nil in Hi.
  - destruct (Hg g ltac:(left)) as [th Hi].
    destruct (goroutine_ends F g th HR Hi) as (F1 & th1 & a & Hs & Ht & Hw & Hi1 & Ha & _).
    assert (HR1 : reached F1) by by eapply moves_on_reached.
    destruct (IH F1 HR1) as (F2 & Hs2 & Ht2 & Hw2 & He).
    { intros j Hj. apply lookup_lt_is_Some. pose proof (fi_len _ _ _ _ (system_events_inv _ _ _ HR)) as L0.
      pose proof (fi_len _ _ _ _ (system_events_inv _ _ _ HR1)) as L1. rewrite <- L1, Ht, L0.
      apply lookup_lt_is_Some, Hg. by right. }
    exists F2. split; [by etransitivity|]. split_and!; [congruence..|]. intros j [->|Hj]%elem_of_cons; [|by apply He].
    eapply has_ended_kept; [exact Hs2|]. exists a. unfold result_of. by rewrite Hi1, Ha.
Qed.

(** Goroutines move, and the loop of worker [k] takes the steps of processBatch. *)
Inductive runs_on (k : nat) (F F' : fleet visitor) : Prop :=
  | RunsMove : moves_on F F' -> runs_on k F F'
  | RunsProceed : proceed visitor_prog k F = Some F' -> runs_on k F F'.

Lemma runs_moves k F F' : rtc moves_on F F' -> rtc (runs_on k) F F'.
Proof. intros Hs. induction Hs; [done|]. eapply rtc_l; [by apply RunsMove|done]. Qed.

(** Where a loop is not in the middle of processBatch. *)
Definition at_rest (F : fleet visitor) (l : loop) : Prop :=
  match l with
  | Selecting | Stopped => True
  | Crashed => exists i, is_fatal (result_of F i) = true
  | _ => False
  end.

Lemma result_fits_of F i t r :
  reached F -> fl_tasks F !! i = Some t -> result_of F i = Some r -> result_fits t r.
Proof.
  intros HR Ht Hr. unfold result_of in Hr. destruct (fl_threads F !! i) as [th|] eqn:Hi; [|done].
  destruct (go_leaves _ (reached_going F HR) i th Hi) as (t' & Ht' & Hl).
  assert (t' = t) as -> by congruence. destruct (th_prog th); by simplify_eq.
Qed.

Lemma set_loop_worker k w l l' (F : fleet visitor) :
  fl_workers F !! k = Some (w, l') -> fl_workers (set_loop k w l F) !! k = Some (w, l).
Proof. intros Hk. simpl. apply list_lookup_insert_eq. by eapply lookup_lt_Some. Qed.

(** The goroutines of the batch are waited for. *)
Lemma delivering_returns F k w gs :
  reached F -> fl_workers F !! k = Some (w, Delivering gs) ->
  exists F' l', rtc (runs_on k) F F' /\ fl_workers F' !! k = Some (w, l') /\ at_rest F' l'.
Proof.
  intros HR Hk. destruct (batch_ends F gs HR) as (F1 & Hs & Ht & Hw & He).
  { intros i Hi. destruct (go_gs _ (reached_going F HR) k w gs i Hk Hi) as (s & ev & th & _ & Hth). by exists th. }
  assert (HR1 : reached F1) by by eapply moves_on_reached. rewrite <- Hw in Hk.
  assert (Hp : exists l, proceed visitor_prog k F1 = Some (set_loop k w l F1) /\ at_rest F1 l).
  { unfold proceed. rewrite Hk. destruct (existsb _ gs) eqn:Ef.
    - exists Crashed. split; [done|]. apply existsb_exists in Ef as (i & _ & Hf). by exists i.
    - exists Selecting. split; [|done]. rewrite (proj2 (forallb_forall _ gs)); [done|].
      intros i Hin. apply list_elem_of_In in Hin. destruct (He i Hin) as [a Ha].
      destruct (go_gs _ (reached_going F1 HR1) k w gs i Hk Hin) as (s & ev & th & Hti & _).
      pose proof (result_fits_of F1 i _ a HR1 Hti Ha) as Hfit.
      assert (Hnf : is_fatal (result_of F1 i) = false).
      { destruct (is_fatal (result_of F1 i)) eqn:Hb; [|done]. rewrite <- Ef. symmetry. apply existsb_exists.
        exists i. split; [by apply list_elem_of_In|done]. }
      rewrite Ha in *. by destruct a as [|[]| |]. }
  destruct Hp as (l & Hp & Hl). exists (set_loop k w l F1), l.
  split; [eapply rtc_r; [by apply runs_moves|by apply RunsProceed]|]. split; [by eapply set_loop_worker|].
  destruct l; done.
Qed.

(** C22: The loop of a worker always gets back to its select: from any state
    that any number of processes reach, a poll in progress and the deliveries it
    has started can be run to their ends, and processBatch then returns, unless
    a goroutine of its own has panicked or was killed, which ends the process. *)
Theorem worker_returns tick_ok F k w l :
  system_reached tick_ok d0 F -> fl_workers F !! k = Some (w, l) -> l <> Crashed ->
  exists F' l', rtc (runs_on k) F F' /\ fl_workers F' !! k = Some (w, l') /\ at_rest F' l'.
Proof.
  intros HR%system_mono Hk Hl. destruct l as [|i|gs| |]; [by exists F, Selecting| | |by exists F, Stopped|done].
  - pose proof (system_events_inv _ _ _ HR) as HI. pose proof (fi_polls _ _ _ _ HI _ _ _ Hk) as Ht.
    destruct (lookup_lt_is_Some_2 (fl_threads F) i) as [th Hi].
    { rewrite <- (fi_len _ _ _ _ HI). by eapply lookup_lt_Some. }
    destruct (goroutine_ends F i th HR Hi) as (F1 & th1 & a & Hs & Ht1 & Hw & Hi1 & Ha & _).
    assert (HR1 : reached F1) by by eapply moves_on_reached. rewrite <- Hw in Hk. rewrite <- Ht1 in Ht.
    assert (Hr : result_of F1 i = Some a) by (unfold result_of; by rewrite Hi1, Ha).
    pose proof (result_fits_of F1 i _ a HR1 Ht Hr) as Hfit.
    destruct a as [evs|e| |]; try done.
    + assert (Hp : exists F2 l2, proceed visitor_prog k F1 = Some F2 /\ fl_workers F2 !! k = Some (w, l2) /\
        (l2 = Selecting \/ exists gs, l2 = Delivering gs)).
      { unfold proceed. rewrite Hk, Hr. destruct evs as [|ev evs]; do 2 eexists; (split; [done|]);
          (split; [by eapply set_loop_worker|]); [by left|right; by eexists]. }
      destruct Hp as (F2 & l2 & Hp & Hk2 & Hl2).
      assert (Hs2 : rtc (runs_on k) F F2) by (eapply rtc_r; [by apply runs_moves|by apply RunsProceed]).
      destruct Hl2 as [->|[gs ->]]; [by exists F2, Selecting|].
      assert (HR2 : reached F2) by (eapply rtc_r; [exact HR1|by apply (FleetStep _ _ _ _ (Proceed k))]).
      destruct (delivering_returns F2 k w gs HR2 Hk2) as (F3 & l3 & Hs3 & Hrest). exists F3, l3.
      split; [by etransitivity|done].
    + exists (set_loop k w Crashed F1), Crashed. split; [|split; [by eapply set_loop_worker|exists i; change (is_fatal (result_of F1 i) = true); by rewrite Hr]].
      eapply rtc_r; [by apply runs_moves|]. apply RunsProceed. unfold proceed. by rewrite Hk, Hr.
  - by eapply delivering_returns.
Qed.
End processes.

(** ** Examples *)

Local Existing Instances demo_uuid demo_text demo_crypto demo_json demo_time demo_lower demo_bcrypt
  demo_jwt demo_float demo_http demo_decoder demo_encoder demo_chi.

(** Two transfers on the same accounts: the first has locked them, the second
    waits. *)
Definition rush : list (command visitor) :=
  [ Start Router.webhookWorker; TimerFires 0;
    Arrive (Serve "secret" "abort" (demo_request "/v1/transfers" "/v1/transfers" "" "key-1"));
    Arrive (Serve "secret" "abort" (demo_request "/v1/transfers" "/v1/transfers" "" "key-2")) ]%string
  ++ ((fun k => Move 1 (demo_tick k)) <$> seq 0 14) ++ ((fun k => Move 2 (demo_tick k)) <$> seq 20 40).

Local Abbreviation rushing := (system_run demo_db rush).

Example second_waits : move 2 (demo_tick 100) rushing = None.
Proof. vm_compute. reflexivity. Qed.

Definition waiting_thread : thread task_result :=
  default (Thread (Ret Killed) None []) (fl_threads rushing !! 2%nat).


Lemma worker_returns_witness : exists F' l',
  rtc (runs_on 0) rushing F' /\ fl_workers F' !! 0%nat = Some (Router.webhookWorker, l') /\ at_rest F' l'.
Proof.
  exact (worker_returns demo_db any_tick rushing 0 Router.webhookWorker (Polling 0)
    (system_run_reached demo_db rush) eq_refl ltac:(discriminate)).
Defined.
