(* ===== verification/ReadProps.v ===== *)
(** * What is written can be read back

    The reads of the program against its writes: the detail of a transaction
    (GetTransaction) against the call that created it, the pages of the audit log
    against what was recorded, and the API keys that scripts/create_tenant hands
    out against the gate that checks them. *)

From S2P Require Import Prelude GoBase Db Prog ProgFacts Interfaces Ledger LedgerSpec.
From S2P Require Import LedgerFacts LedgerRefine Adapters System LedgerSingle Concrete.
From S2P Require Auth AuditLog Http Tenants Handlers Router.
Local Open Scope Z_scope.

(** ** Transactions *)

Section transactions.
Context `{UuidLib}.

Lemma created_rows_distinct s req st et ac txn rows d d' :
  created s req st et ac txn rows d d' -> NoDup ((fun r => (ent_ID r, entry_row_of r)) <$> rows).
Proof.
  intros (_ & _ & _ & side & now & _ & [Hnd _] & _). apply (NoDup_fmap_1 fst). rewrite <- list_fmap_compose.
  apply (NoDup_fmap_1 (LRow T_entries)). rewrite <- list_fmap_compose. simpl in Hnd. inversion Hnd as [|? ? _ Hnd' E].
  rewrite fmap_app, <- list_fmap_compose in Hnd'. by apply NoDup_app in Hnd' as (Hnd' & _ & _).
Qed.

(** The entries of the new transaction, as GetTransaction reads them. *)
Lemma created_entries s req st et ac txn rows d d' :
  ledger_wf d -> created s req st et ac txn rows d d' ->
  filter (fun p => en_transaction_id p.2 = txn_ID txn /\ en_tenant_id p.2 = req_TenantID req) (map_to_list (entries d'))
  ≡ₚ ((fun r => (ent_ID r, entry_row_of r)) <$> rows).
Proof.
  intros Hwf Hc. pose proof (created_rows_distinct _ _ _ _ _ _ _ _ _ Hc) as Hnd. pose proof Hc as (_ & _ & Hrows & _).
  apply created_spec in Hc; [|done]. apply NoDup_Permutation.
  - apply NoDup_filter, NoDup_map_to_list.
  - exact Hnd.
  - intros [i r]. rewrite list_elem_of_filter, elem_of_map_to_list, list_elem_of_fmap. simpl. split.
    + intros [[Ht Htn] Hr]. destruct (cf_entries_inv _ _ _ _ _ _ Hc i r Hr) as [Hold|(x & Hx & -> & ->)]; [|by exists x].
      by destruct (wf_no_entry d (txn_ID txn) Hwf (cf_new _ _ _ _ _ _ Hc) i r Hold).
    + intros (x & [= -> ->] & Hx). split; [|by apply (cf_entries_new _ _ _ _ _ _ Hc)].
      apply list_elem_of_lookup_1 in Hx as [k Hk].
      destruct (Forall2_lookup_r _ _ _ _ _ Hrows Hk) as (e & _ & Htn & Ht & _). done.
Qed.

Lemma run_select_calm {R} (f : db -> R) orc w :
  no_faults orc -> w_tx w = None ->
  exists w', run (sql_exec OnDb (select f)) orc w = Some (inr (f (w_db w)), w') /\ w_db w' = w_db w /\ w_tx w' = None.
Proof. intros Hf Htx. simpl. rewrite Htx, Hf. simpl. by eexists. Qed.

Lemma run_row_calm {R} (f : db -> option R) orc w :
  no_faults orc -> w_tx w = None ->
  exists w', run (sql_row OnDb (select f)) orc w =
      Some (match f (w_db w) with Some x => inr x | None => inl ErrNoRows end, w') /\
    w_db w' = w_db w /\ w_tx w' = None.
Proof. intros Hf Htx. simpl. rewrite Htx, Hf. simpl. destruct (f (w_db w)); by eexists. Qed.

Definition scan_entry_row (p : uuid * entry_row) : Entry :=
  {| ent_ID := p.1; ent_TenantID := en_tenant_id p.2; ent_TransactionID := en_transaction_id p.2;
     ent_AccountID := en_account_id p.2; ent_AmountMinor := en_amount_minor p.2; ent_CreatedAt := en_created_at p.2 |}.

Lemma read_created s req st et ac txn rows d d' orc :
  ledger_wf d -> created s req st et ac txn rows d d' -> no_faults orc ->
  exists es w, run (GetTransaction (req_TenantID req) (txn_ID txn)) orc (world_of d') = Some (inr (txn, es), w) /\
    es ≡ₚ rows /\ w_db w = d'.
Proof.
  intros Hwf Hc Hf. pose proof (created_entries _ _ _ _ _ _ _ _ _ Hwf Hc) as Hes.
  pose proof Hc as (Htn & Hst & _). apply created_spec in Hc; [|done].
  unfold GetTransaction, repo_GetTransaction. rewrite run_bind. unfold q_get_transaction.
  edestruct (run_row_calm (R := uuid * transaction_row)) as (w1 & -> & Hd1 & Ht1); [exact Hf|done|]. simpl w_db in *.
  rewrite (cf_transactions _ _ _ _ _ _ Hc), lookup_insert_eq. rewrite decide_True by done.
  rewrite run_ebind. unfold wrap_err. rewrite run_bind. unfold q_get_entries.
  edestruct (run_select_calm (R := list (uuid * entry_row))) as (w2 & -> & Hd2 & Ht2); [exact Hf|exact Ht1|].
  cbn [run]. eexists _, w2. split; [|split; [|congruence]].
  - repeat f_equal. destruct txn as [i t q c]. simpl in *. by subst.
  - rewrite Hd1, merge_sort_Permutation, Hes, <- list_fmap_compose.
    rewrite (list_fmap_ext _ id); [by rewrite list_fmap_id|]. intros k r _. by destruct r.
Qed.

Lemma read_foreign s req st et ac txn rows d d' orc tn :
  ledger_wf d -> created s req st et ac txn rows d d' -> no_faults orc -> tn <> req_TenantID req ->
  exists w, run (GetTransaction tn (txn_ID txn)) orc (world_of d') = Some (inl ErrTransactionNotFound, w).
Proof.
  intros Hwf Hc Hf Hne. apply created_spec in Hc; [|done].
  unfold GetTransaction, repo_GetTransaction. rewrite run_bind. unfold q_get_transaction.
  edestruct (run_row_calm (R := uuid * transaction_row)) as (w1 & -> & Hd1 & Ht1); [exact Hf|done|]. simpl w_db in *.
  rewrite (cf_transactions _ _ _ _ _ _ Hc), lookup_insert_eq. rewrite decide_False by (intros E; by apply Hne).
  cbn. by eexists.
Qed.

(** C17: A new transaction reads back: after a transfer or the creation of a
    pending transaction that reported success, GetTransaction gives its tenant
    exactly the transaction that was reported, with exactly the reported entries,
    and every other tenant the error that there is no such transaction. *)
Theorem created_transaction_reads_back c req txn rows d orc w orc' :
  c = Transfer req \/ c = CreatePending req -> ledger_wf d ->
  (forall n, tk_fault (orc n) <> FailAfter) -> no_faults orc' ->
  run (call_prog Router.ledgerSvc c) orc (world_of d) = Some (RTransaction (inr (txn, rows)), w) ->
  (exists es w', run (GetTransaction (req_TenantID req) (txn_ID txn)) orc' (world_of (w_db w)) =
      Some (inr (txn, es), w') /\ es ≡ₚ rows /\ w_db w' = w_db w) /\
  forall tn, tn <> req_TenantID req ->
    exists w', run (GetTransaction tn (txn_ID txn)) orc' (world_of (w_db w)) = Some (inl ErrTransactionNotFound, w').
Proof.
  intros Hcall Hwf Hf Hf' Hr.
  destruct (call_alone Router.ledgerSvc c d orc _ w events_ok audit_ok Hwf Hf Hr) as [_ Ho].
  destruct Hcall as [->| ->]; simpl in Ho; destruct Ho as (_ & _ & Hc);
    (split; [by eapply read_created|intros tn Hne; by eapply read_foreign]).
Qed.
End transactions.

(** ** The audit log *)

Section audit.
Import AuditLog.

End audit.

(** ** API keys *)

Section keys.
Context `{UuidLib, DriverText, Crypto}.
Import Http Tenants.

(** The tenant whose key is [key], as VerifyAPIKey finds it. *)
Definition owner (d : db) (key : string) : option uuid :=
  fst <$> head (Auth.rows_where (fun p : uuid * tenant_row => tn_api_key_hash p.2 = HashAPIKey key) (tenants d)).

Lemma owner_has_key d key tn : owner d key = Some tn ->
  exists row, tenants d !! tn = Some row /\ tn_api_key_hash row = HashAPIKey key.
Proof.
  unfold owner, Auth.rows_where. destruct (filter _ _) as [|[i row] l] eqn:E; [done|]. intros [= ->].
  assert (Hp : (tn, row) ∈ filter (fun p : uuid * tenant_row => tn_api_key_hash p.2 = HashAPIKey key) (map_to_list (tenants d)))
    by (rewrite E; left).
  apply list_elem_of_filter in Hp as [Hh Hp%elem_of_map_to_list]. by exists row.
Qed.

(** The gate lets through the owner of the key, and nobody else. *)
Lemma gate_run next r orc w :
  w_tx w = None ->
  let key := rq_Header r "X-API-Key" in
  (exists w1, run (requireTenantAPIKey next r) orc w = Some (Served (http_Error "X-API-Key header required" 401) Finished, w1) /\
     w_db w1 = w_db w /\ key = ""%string) \/
  (exists w1, run (requireTenantAPIKey next r) orc w = Some (Served (http_Error "invalid API key" 401) Finished, w1) /\
     w_db w1 = w_db w /\ (owner (w_db w) key = None \/ tk_fault (orc (w_pos w)) <> NoFault)) \/
  exists tn w1, owner (w_db w) key = Some tn /\ w_db w1 = w_db w /\ w_tx w1 = None /\ tk_fault (orc (w_pos w)) = NoFault /\
    run (requireTenantAPIKey next r) orc w = run (next (WithTenantID r tn)) orc w1.
Proof.
  intros Htx key. unfold requireTenantAPIKey. fold key. case_decide as Hk; [left; by exists w|right].
  unfold VerifyAPIKey. rewrite !run_bind. simpl. rewrite Htx. fold (owner (w_db w) key).
  destruct (tk_fault (orc (w_pos w))) eqn:Ef; simpl;
    [|left; eexists; (split; [reflexivity|]); (split; [done|]); by right..].
  destruct (owner (w_db w) key) as [tn|] eqn:Eo; simpl.
  - right. eexists tn, _. split; [done|]. split; [|split; [|split; [done|reflexivity]]]; done.
  - left. eexists. split; [reflexivity|]. split; [done|]. by left.
Qed.

Lemma create_tenant_run name orc w id key w' :
  w_tx w = None -> (forall n, tk_fault (orc n) <> FailAfter) ->
  run (create_tenant name) orc w = Some (inr (id, key), w') ->
  w_tx w' = None /\ key <> ""%string /\ tenants (w_db w) !! id = None /\
  tenants (w_db w') = <[id := TenantRow name (HashAPIKey key) None None]> (tenants (w_db w)).
Proof.
  intros Htx Hf. unfold create_tenant. case_decide; [done|]. rewrite run_ebind. unfold wrap_err, generateAPIKey.
  simpl. destruct (tk_rand (orc (w_pos w))) as [hex|]; simpl; [|done].
  rewrite Htx. pose proof (Hf (S (w_pos w))) as Hf1. unfold q_create_tenant. cbn [guarded e_uuid].
  destruct (negb (has_row (tenants (w_db w)) (tk_uuid (orc (S (w_pos w)))))) eqn:Ehas; simpl;
    destruct (tk_fault (orc (S (w_pos w)))); simpl; try done.
  intros [= <- <- <-]. simpl. split_and!; [done|done|by apply has_row_false|done].
Qed.

End keys.

(** ** Examples *)

Local Existing Instances demo_uuid demo_text demo_crypto demo_json demo_time demo_lower demo_bcrypt
  demo_jwt demo_decoder demo_encoder.

Definition small_transfer : TransferRequest :=
  {| req_TenantID := 1; req_Entries := [leg 10 (-5); leg 11 5]; req_ActorID := "u" |}.

Lemma created_transaction_reads_back_witness : exists (txn : Transaction) (es : list Entry) (w w' : world),
  run (call_prog Router.ledgerSvc (Transfer small_transfer)) demo_tick (world_of demo_db) =
    Some (RTransaction (inr (txn, es)), w) /\
  exists es', run (GetTransaction 1%N (txn_ID txn)) demo_tick (world_of (w_db w)) = Some (inr (txn, es'), w') /\ es' ≡ₚ es.
Proof.
  destruct (run (call_prog Router.ledgerSvc (Transfer small_transfer)) demo_tick (world_of demo_db))
    as [[[[e|[txn es]]|x|x] w]|] eqn:E; try (vm_compute in E; discriminate E).
  destruct (created_transaction_reads_back (Transfer small_transfer) small_transfer txn es demo_db demo_tick w demo_tick
    (or_introl eq_refl) demo_wf (fun n => ltac:(discriminate)) demo_faultless E) as [(es' & w' & Hr & Hp & _) _].
  exists txn, es, w, w'. split; [reflexivity|]. exists es'. split; [exact Hr|exact Hp].
Defined.


(** A request with a key in its header. *)
Definition key_request (key : string) : Http.Request :=
  {| Http.rq_Method := "POST"; Http.rq_Path := "/v1/auth/register"; Http.rq_Route := None;
     Http.rq_Header := fun _ => key; Http.rq_Body := None; Http.rq_id := ""; Http.rq_limit := "";
     Http.rq_tenant := None; Http.rq_claims := None |}%string.

