(* ===== verification/LedgerAnswer.v ===== *)
(** * What the ledger answers

    [refusal d c] decides from the database alone whether a call is to be
    refused, and why; [call_answer] shows that the service decides in the same
    way: when nothing else fails, a call succeeds exactly when there is no reason
    to refuse it. Two-phase transfers are compared with direct ones. *)

From S2P Require Import Prelude GoBase Db Prog ProgFacts Interfaces Ledger LedgerSpec.
From S2P Require Import LedgerWp LedgerFacts LedgerRefine Adapters System LedgerSingle ReadProps Schema Alone Concrete.
From S2P Require AuditLog Router Webhook.
Local Open Scope Z_scope.

(** ** The reference *)

(** The rules for the entries of a request; the sum counts modulo 2^64. *)
Definition malformed (es : list EntryInput) : option goerr :=
  if decide (length es < 2)%nat then Some ErrEmptyEntries
  else if decide (Exists (fun e => in_AmountMinor e = 0) es) then Some ErrZeroAmountEntry
  else if decide (sumZ (in_AmountMinor <$> es) mod int64_modulus = 0) then None
  else Some ErrUnbalancedEntries.

Definition tenant_of_account (d : db) (a : uuid) : option uuid := ac_tenant_id <$> accounts d !! a.

(** The legs of a posting: every account is one of the tenant, and none ends
    with a negative balance. *)
Definition unfunded (d : db) (tn : uuid) (legs : list (uuid * Z)) : option goerr :=
  if decide (Exists (fun l => tenant_of_account d l.1 <> Some tn) legs) then Some ErrAccountNotFound
  else if decide (Exists (fun l => wrap64 (posted_sum d l.1 + net l.1 legs) < 0) legs) then Some ErrInsufficientFunds
  else None.

(** The legs of a stored transaction. *)
Definition stored_legs (d : db) (id : uuid) : list (uuid * Z) :=
  (fun p => (en_account_id p.2, en_amount_minor p.2)) <$>
    filter (fun p => en_transaction_id p.2 = id) (map_to_list (entries d)).

(** A transaction that can be resolved by the tenant; then what [k] says. *)
Definition unresolvable (d : db) (tn id : uuid) (k : option goerr) : option goerr :=
  match transactions d !! id with
  | None => Some ErrTransactionNotFound
  | Some row =>
      if decide (tr_tenant_id row <> tn) then Some ErrTransactionNotFound
      else if decide (tr_status row <> StatusPending) then Some ErrTransactionNotPending
      else k
  end.

Definition first_reason (r k : option goerr) : option goerr := match r with Some e => Some e | None => k end.

Definition refusal (d : db) (c : call) : option goerr :=
  match c with
  | Transfer req =>
      first_reason (malformed (req_Entries req)) (unfunded d (req_TenantID req) (input_legs (req_Entries req)))
  | CreatePending req =>
      first_reason (malformed (req_Entries req))
        (if decide (Exists (fun e => accounts d !! in_AccountID e = None) (req_Entries req))
         then Some (SqlError (FkViolation "entries_account_id_fkey")) else None)
  | PostPending tn id _ => unresolvable d tn id (unfunded d tn (stored_legs d id))
  | FailPending tn id _ => unresolvable d tn id None
  | NewAccount _ _ _ => None
  end.

Definition call_tenant (c : call) : uuid :=
  match c with
  | Transfer req | CreatePending req => req_TenantID req
  | PostPending tn _ _ | FailPending tn _ _ | NewAccount tn _ _ => tn
  end.

(** The error of a reply. *)
Definition reply_error (r : reply) : option goerr :=
  match r with
  | RTransaction (inl e) | RResolved (inl e) | RAccount (inl e) => Some e
  | _ => None
  end.

(** ** The reference and the code's own checks *)

Lemma validateEntries_malformed es : validateEntries es = malformed es.
Proof.
  unfold validateEntries, malformed. case_decide; [done|].
  destruct (existsb _ es) eqn:Ez.
  - rewrite decide_True; [done|]. apply existsb_exists in Ez as (e & He & Hz%Z.eqb_eq).
    apply Exists_exists. exists e. by rewrite list_elem_of_In.
  - rewrite decide_False.
    + rewrite Sum_wrap. assert (E : (wrap64 (sumZ (in_AmountMinor <$> es)) =? 0) = bool_decide (sumZ (in_AmountMinor <$> es) mod int64_modulus = 0)).
      { apply eq_true_iff_eq. rewrite Z.eqb_eq, bool_decide_eq_true, wrap64_zero, Z.mod_divide by done. done. }
      rewrite E. by case_bool_decide; [rewrite decide_True|rewrite decide_False].
    + intros (e & He & Hz)%Exists_exists. apply not_true_iff_false in Ez. apply Ez, existsb_exists.
      exists e. by rewrite <- list_elem_of_In, Z.eqb_eq.
Qed.

Lemma validateEntries_cause es e : validateEntries es = Some e -> cause e = e.
Proof. unfold validateEntries. intros He. repeat case_match; by simplify_eq. Qed.

Lemma decide_perm {A B} (P : A -> Prop) `{forall x, Decision (P x)} (l l' : list A) (b c : B) :
  l ≡ₚ l' -> (if decide (Exists P l) then b else c) = (if decide (Exists P l') then b else c).
Proof. intros Hl. apply decide_ext. by rewrite Hl. Qed.

Lemma net_perm a legs legs' : legs ≡ₚ legs' -> net a legs = net a legs'.
Proof. intros Hl. unfold net. by rewrite Hl. Qed.

#[export] Instance unfunded_perm d tn : Proper (Permutation ==> eq) (unfunded d tn).
Proof.
  intros legs legs' Hl. unfold unfunded. rewrite (decide_perm _ legs legs') by done.
  case_decide; [done|]. apply decide_ext. rewrite Hl. apply Exists_proper; [|done].
  intros l. by rewrite (net_perm _ _ _ Hl).
Qed.

Lemma unfunded_None d tn legs :
  unfunded d tn legs = None <->
  forall l, l ∈ legs -> tenant_of_account d l.1 = Some tn /\ 0 <= wrap64 (posted_sum d l.1 + net l.1 legs).
Proof.
  unfold unfunded. split.
  - repeat case_decide; [done..|]. intros _ l Hl. rewrite Exists_exists in *. split.
    + destruct (decide (tenant_of_account d l.1 = Some tn)); [done|]. naive_solver.
    + apply Z.nlt_ge. naive_solver.
  - intros Hl. rewrite !decide_False; [done|..]; rewrite Exists_exists; intros (l & Hin & Hn);
      destruct (Hl l Hin); [lia|done].
Qed.

(** The entries of a transaction are those of its tenant. *)
Lemma own_entries d id row :
  ledger_wf d -> transactions d !! id = Some row ->
  filter (fun p => en_transaction_id p.2 = id /\ en_tenant_id p.2 = tr_tenant_id row) (map_to_list (entries d))
  ≡ₚ filter (fun p => en_transaction_id p.2 = id) (map_to_list (entries d)).
Proof.
  intros Hwf Hrow. apply NoDup_Permutation; [apply NoDup_filter, NoDup_map_to_list..|].
  intros [e r]. rewrite !list_elem_of_filter, elem_of_map_to_list. simpl. split; [naive_solver|].
  intros [Ht Hr]. destruct (Hwf e r Hr) as (_ & row' & Hrow' & E). rewrite Ht in Hrow'. split; [split|]; congruence.
Qed.

(** ** Projected balances *)

Lemma project_other balances legs a : a ∉ legs.*1 -> project balances legs !! a = balances !! a.
Proof.
  unfold project. revert balances. induction legs as [|[b x] legs IH]; intros m Ha; csimpl in *; [done|].
  rewrite IH by set_solver. apply lookup_insert_ne. set_solver.
Qed.

Lemma first_negative_spec d tn (m : gmap uuid Account) legs :
  (forall l, l ∈ legs -> tenant_of_account d l.1 = Some tn) ->
  (forall a, a ∈ legs.*1 -> acc_Balance <$> m !! a = Some (posted_sum d a)) ->
  (forall a, is_Some (m !! a) -> a ∈ legs.*1) ->
  match first_negative (project (acc_Balance <$> m) legs) with
  | Some _ => unfunded d tn legs = Some ErrInsufficientFunds
  | None => unfunded d tn legs = None
  end.
Proof.
  intros Hown Hb Hd.
  assert (Hp : forall a, a ∈ legs.*1 ->
    project (acc_Balance <$> m) legs !! a = Some (wrap64 (posted_sum d a + net a legs))).
  { intros a Ha. rewrite project_spec by done. by rewrite lookup_fmap, Hb. }
  destruct (first_negative _) as [i|] eqn:E.
  - unfold unfunded. rewrite decide_False, decide_True; [done| |].
    + destruct (decide (Exists (fun l => wrap64 (posted_sum d l.1 + net l.1 legs) < 0) legs)) as [|Hn]; [done|].
      enough (first_negative (project (acc_Balance <$> m) legs) = None) by congruence.
      apply first_negative_None. intros a b Hab. destruct (decide (a ∈ legs.*1)) as [Ha|Ha].
      * rewrite (Hp a Ha) in Hab. injection Hab as <-. apply list_elem_of_fmap in Ha as (l & -> & Hl).
        rewrite Exists_exists in Hn. apply Z.nlt_ge. intros Hlt. apply Hn. by exists l.
      * rewrite project_other, lookup_fmap in Hab by done. exfalso. apply Ha, Hd.
        destruct (m !! a); [by eexists|done].
    + rewrite Exists_exists. intros (l & Hl & Hn). by apply Hn, Hown.
  - apply unfunded_None. intros l Hl. split; [by apply Hown|].
    rewrite first_negative_None in E. apply (E l.1), Hp. by apply list_elem_of_fmap_2.
Qed.

Lemma scan_sums_fit rows out :
  (forall p, p ∈ rows -> fits64 p.2 = true) ->
  exists m, scan_sums rows out = inr m /\ forall a, is_Some (m !! a) -> is_Some (out !! a).
Proof.
  revert out. induction rows as [|[b sum] rows IH]; intros out Hf; simpl; [by exists out|].
  assert (Hs : fits64 sum = true) by (apply (Hf (b, sum)); left). rewrite Hs. edestruct IH as (m & Hm & Hd); [intros p Hp; apply Hf; by right|].
  exists m. split; [exact Hm|]. intros a Ha%Hd. destruct (decide (b = a)) as [->|].
  - rewrite lookup_alter_eq in Ha. by apply fmap_is_Some in Ha.
  - by rewrite lookup_alter_ne in Ha.
Qed.

(** ** The repository, when nothing fails *)

Section answers.
Context `{UuidLib} (orc : nat -> tick) (Horc : calm orc) (why : option goerr).
Local Abbreviation alone := (alone orc).
Local Abbreviation inside := (inside orc).
Local Abbreviation decided := (decided why).

Lemma LockAccountsForUpdate_alone tn ids v w Q :
  inside v w -> (forall a, fits64 (posted_sum v a) = true) ->
  (forall a, a ∈ ids -> tenant_of_account v a <> Some tn -> why = Some ErrAccountNotFound) ->
  (forall m w', inside v w' ->
     (forall a, a ∈ ids -> tenant_of_account v a = Some tn /\ acc_Balance <$> m !! a = Some (posted_sum v a)) ->
     (forall a, is_Some (m !! a) -> a ∈ ids) -> Q m w') ->
  alone (LockAccountsForUpdate tn ids) w (decided Q).
Proof.
  intros Hin Hfit Hwhy HQ. unfold LockAccountsForUpdate. destruct ids as [|i0 ids0].
  { apply alone_ret. apply HQ; [done|set_solver|]. intros a. rewrite lookup_empty. by intros [? ?]. }
  set (ids := i0 :: ids0) in *. apply alone_ebind, alone_wrap. eapply (alone_exec _ Horc); [done|].
  intros ev _. split; [simpl; intros x Hx; by apply not_elem_of_nil in Hx|].
  cbn [oc_res oc_writes q_lock_accounts]. set (rows := merge_sort _ _). intros w1 Hin1. change (inside v w1) in Hin1.
  apply alone_ret. cbn beta iota zeta delta [lift_sql Alone.decided].
  set (out := (list_to_map _ : gmap uuid Account)). pose proof (lock_rows_spec ids tn v rows eq_refl) as Hout. fold out in Hout.
  assert (Hrow : forall p, p ∈ rows <-> (p.1 ∈ ids /\ ac_tenant_id p.2 = tn) /\ accounts v !! p.1 = Some p.2).
  { intros [a row]. unfold rows. rewrite merge_sort_Permutation, list_elem_of_filter, elem_of_map_to_list. by rewrite in_id_strings. }
  assert (Hnone : forall a, a ∈ ids -> out !! a = None -> tenant_of_account v a <> Some tn).
  { intros a Ha Hn%not_elem_of_list_to_map_2 Ht. apply Hn. unfold tenant_of_account in Ht.
    destruct (accounts v !! a) as [row|] eqn:Er; [|done]. injection Ht as Ht.
    rewrite <- list_fmap_compose. apply list_elem_of_fmap. exists (a, row). split; [done|]. by apply Hrow. }
  destruct (head _) as [i|] eqn:Eh.
  { apply alone_err. apply head_Some_elem_of, list_elem_of_filter in Eh as [Hn Hi].
    rewrite merge_sort_Permutation in Hi. by apply (Hwhy i), Hnone. }
  assert (Hall : forall a, a ∈ ids -> is_Some (out !! a)).
  { intros a Ha. apply not_eq_None_Some. intros Hn. apply head_None in Eh.
    apply (not_elem_of_nil a). rewrite <- Eh. apply list_elem_of_filter. by rewrite merge_sort_Permutation. }
  apply alone_ebind, alone_wrap. unfold sql_exec, q_sum_balances. eapply (alone_select _ Horc); [done|].
  intros w2 Hin2. apply alone_ret. cbn beta iota delta [lift_sql Alone.decided]. set (sums := _ <$> _).
  edestruct (scan_sums_fit sums out) as (m & Hm & Hd).
  { intros p (a & -> & _)%list_elem_of_fmap. apply Hfit. }
  apply alone_ret. rewrite Hm. apply HQ; [done| |].
  - intros a Ha. destruct (Hall a Ha) as [acc Hacc]. destruct (Hout a acc Hacc) as (Hz & row & _ & Er & Ht).
    split; [unfold tenant_of_account; by rewrite Er, <- Ht|].
    destruct (sum_rows_spec ids v out m a acc Hm Ha Hacc Hz) as (acc' & -> & Hb & _). by rewrite <- Hb.
  - intros a [acc Hacc]%Hd. destruct (Hout a acc Hacc) as (_ & row & Hr & _). by apply Hrow in Hr as [[? _] _].
Qed.

(** The conditions of an INSERT, one by one. *)
Ltac insert_conditions :=
  let b := fresh in let e := fresh in
  intros b e; set_unfold; intros Hcond; repeat destruct Hcond as [[= -> _]|Hcond]; try done;
  first [by apply absent_row | by apply present_row].

Lemma insert_entries_alone tn x es v w Q :
  inside v w -> is_Some (tenants v !! tn) -> is_Some (transactions v !! x) ->
  (forall e, e ∈ es -> in_AmountMinor e <> 0) ->
  (forall e, e ∈ es -> accounts v !! in_AccountID e = None ->
     why = Some (SqlError (FkViolation "entries_account_id_fkey"))) ->
  (forall rows v' w', inside v' w' -> tenants v' = tenants v ->
     (forall e, e ∈ es -> is_Some (accounts v !! in_AccountID e)) -> Q rows w') ->
  alone (insert_entries tn x es) w (decided Q).
Proof.
  revert v w Q. induction es as [|e es IH]; intros v w Q Hin Htn Hx Hnz Hwhy HQ; cbn [insert_entries].
  { apply alone_ret. eapply HQ; [done..|]. set_solver. }
  apply alone_ebind, alone_wrap. destruct (accounts v !! in_AccountID e) as [acc|] eqn:Ea.
  - unfold sql_row, q_insert_entry. eapply (alone_insert _ Horc (fun _ _ => _)); [done|by eexists|].
    intros ev Hev. split.
    + assert (in_AmountMinor e =? 0 = false) as -> by (apply Z.eqb_neq, Hnz; left).
      pose proof (dr_unused _ _ _ Hev T_entries). assert (is_Some (accounts v !! in_AccountID e)) by (rewrite Ea; by eexists).
      insert_conditions.
    + intros w1 Hin1. apply alone_ret. cbn beta iota delta [Alone.decided]. apply alone_ebind.
      eapply IH; [exact Hin1|done..| | |].
      * intros e' ?. apply Hnz. by right.
      * intros e' ?. apply (Hwhy e'). by right.
      * intros rows v' w' Hin' Ht Hacc. apply alone_ret. eapply HQ; [done..|].
        intros e' [->|?]%elem_of_cons; [rewrite Ea; by eexists|by apply Hacc].
  - eapply (alone_exec _ Horc); [done|]. intros ev Hev. unfold q_insert_entry.
    rewrite (absent_row (entries v)), !present_row by (done || apply (dr_unused _ _ _ Hev T_entries)).
    assert (in_AmountMinor e =? 0 = false) as -> by (apply Z.eqb_neq, Hnz; left).
    unfold has_row. rewrite bool_decide_eq_false_2 by (rewrite Ea; by intros [? ?]). simpl.
    split; [intros y Hy; by apply not_elem_of_nil in Hy|]. intros w'. apply alone_err. eapply Hwhy; [left|done].
Qed.

Lemma InsertTransactionWithEntries_alone tn st es v w Q :
  inside v w -> is_Some (tenants v !! tn) -> (forall e, e ∈ es -> in_AmountMinor e <> 0) ->
  (forall e, e ∈ es -> accounts v !! in_AccountID e = None ->
     why = Some (SqlError (FkViolation "entries_account_id_fkey"))) ->
  (forall r v' w', inside v' w' -> tenants v' = tenants v ->
     (forall e, e ∈ es -> is_Some (accounts v !! in_AccountID e)) -> Q r w') ->
  alone (InsertTransactionWithEntries tn st es) w (decided Q).
Proof.
  intros Hin Htn Hnz Hwhy HQ. unfold InsertTransactionWithEntries. apply alone_ebind, alone_wrap.
  unfold sql_row, q_insert_transaction. eapply (alone_insert _ Horc (fun _ _ => _)); [done|by eexists|].
  intros ev Hev. split; [pose proof (dr_unused _ _ _ Hev T_transactions); insert_conditions|].
  intros w1 Hin1. apply alone_ret. cbn beta iota delta [Alone.decided]. apply alone_ebind.
  eapply insert_entries_alone; [exact Hin1|done| |done|exact Hwhy|].
  - simpl. rewrite lookup_insert_eq. by eexists.
  - intros rows v' w' Hin' Ht Hacc. apply alone_ret. by eapply HQ.
Qed.

Lemma repo_GetTransaction_alone tn id v w Q :
  ledger_wf v -> inside v w ->
  ((forall k, unresolvable v tn id k = Some ErrTransactionNotFound) -> why = Some ErrTransactionNotFound) ->
  (forall row ents w', inside v w' -> transactions v !! id = Some row -> tr_tenant_id row = tn ->
     entry_legs ents ≡ₚ stored_legs v id ->
     Q ({| txn_ID := id; txn_TenantID := tr_tenant_id row; txn_Status := tr_status row;
           txn_CreatedAt := tr_created_at row |}, ents) w') ->
  alone (repo_GetTransaction OnTx tn id) w (decided Q).
Proof.
  intros Hwf Hin Hwhy HQ. unfold repo_GetTransaction. apply alone_bind. unfold sql_row, q_get_transaction.
  eapply (alone_select _ Horc); [done|]. intros w1 Hin1. apply alone_ret. unfold unresolvable in Hwhy.
  destruct (transactions v !! id) as [row|] eqn:Er; [|apply alone_err; by apply Hwhy].
  destruct (decide (tr_tenant_id row = tn)) as [Htn|Htn].
  2:{ apply alone_err, Hwhy. intros k. by rewrite decide_True. }
  clear Hwhy. apply alone_ebind, alone_wrap. unfold sql_exec, q_get_entries. eapply (alone_select _ Horc); [done|].
  intros w2 Hin2. apply alone_ret. apply alone_ret. apply HQ; [done..|].
  unfold entry_legs, stored_legs. rewrite <- list_fmap_compose, merge_sort_Permutation. cbn [compose ent_AccountID ent_AmountMinor].
  subst tn. by rewrite own_entries.
Qed.

Lemma UpdateTransactionStatusGuarded_alone tn id st new v w Q :
  inside v w -> tr_tenant_id <$> transactions v !! id = Some tn -> tr_status <$> transactions v !! id = Some st ->
  (forall v' w', inside v' w' -> tenants v' = tenants v -> Q tt w') ->
  alone (UpdateTransactionStatusGuarded tn id st new) w (decided Q).
Proof.
  intros Hin Htn Hst HQ. unfold UpdateTransactionStatusGuarded. apply alone_ebind, alone_wrap.
  destruct (transactions v !! id) as [row|] eqn:Er; [|done]. injection Htn as Htn. injection Hst as Hst.
  eapply (alone_exec _ Horc); [done|]. intros ev _. unfold q_update_status. rewrite Er, decide_True by done.
  cbn [oc_writes oc_res]. split.
  - intros x ->%list_elem_of_singleton. exists T_transactions, id. split; [done|]. right. simpl. by rewrite Er.
  - intros w1 Hin1. apply alone_ret. cbn beta iota delta [Alone.decided lift_sql]. apply alone_ret. by eapply HQ.
Qed.

(** *** The use cases *)

Context (s : Service).
Context (events_answer : forall e, svc_events s = Some e -> EventEnqueuerAnswers e).
Context (audit_answers : forall a, svc_audit s = Some a -> AuditRecorderAnswers a).

Lemma emitEvent_alone tn et txn v w Q :
  inside v w -> is_Some (tenants v !! tn) -> (forall v' w', inside v' w' -> tenants v' = tenants v -> Q tt w') ->
  alone (emitEvent s tn et txn) w (decided Q).
Proof.
  intros Hin Htn HQ. unfold emitEvent. destruct (svc_events s) as [e|] eqn:E in |- *; [|apply alone_ret; by eapply HQ].
  apply alone_wrap. by eapply (events_answer e E).
Qed.

Lemma recordAudit_alone tn actor action pl v w Q :
  inside v w -> is_Some (tenants v !! tn) -> (forall v' w', inside v' w' -> tenants v' = tenants v -> Q tt w') ->
  alone (recordAudit s tn actor action pl) w (decided Q).
Proof.
  intros Hin Htn HQ. unfold recordAudit. destruct (svc_audit s) as [a|] eqn:E in |- *; [|apply alone_ret; by eapply HQ].
  by eapply (audit_answers a E).
Qed.

(** Accepted: there is no reason to refuse the call. *)
Local Abbreviation accepted := (decided (fun _ _ => why = None)).

(** Audit row and COMMIT; with the event before them. *)
Lemma close_alone {A} tn actor action pl pre1 pre2 (x : A) v w :
  inside v w -> is_Some (tenants v !! tn) -> why = None ->
  alone (ebind (wrap_err pre1 (recordAudit s tn actor action pl)) (fun _ =>
    ebind (wrap_err pre2 sql_commit) (fun _ => Ret (inr x)))) w accepted.
Proof.
  intros Hin Htn Hw. apply alone_ebind, alone_wrap. eapply recordAudit_alone; [done..|]. intros v1 w1 Hin1 Ht1.
  apply alone_ebind, alone_wrap. eapply alone_commit; [done..|]. intros w2. by apply alone_ret.
Qed.

Lemma finish_alone {A} tn et txn actor action pl pre1 pre2 (x : A) v w :
  inside v w -> is_Some (tenants v !! tn) -> why = None ->
  alone (ebind (emitEvent s tn et txn) (fun _ =>
    ebind (wrap_err pre1 (recordAudit s tn actor action pl)) (fun _ =>
    ebind (wrap_err pre2 sql_commit) (fun _ => Ret (inr x))))) w accepted.
Proof.
  intros Hin Htn Hw. apply alone_ebind. eapply emitEvent_alone; [done..|]. intros v1 w1 Hin1 Ht1.
  eapply close_alone; [done| |done]. by rewrite Ht1.
Qed.

Context (d : db) (unused : unused_from orc 0 d).

(** The accounts of some legs are locked and their projected balances checked. *)
Lemma funds_alone {A} tn ids legs (k : prog (goerr + A)) w Q :
  inside d w -> (forall a, fits64 (posted_sum d a) = true) -> (forall a, a ∈ ids <-> a ∈ legs.*1) ->
  (unfunded d tn legs <> None -> why = unfunded d tn legs) ->
  (forall w', inside d w' -> unfunded d tn legs = None -> alone k w' (decided Q)) ->
  alone (ebind (LockAccountsForUpdate tn ids) (fun accounts =>
    match first_negative (project (acc_Balance <$> accounts) legs) with
    | Some i => Ret (inl (Wrap "" ErrInsufficientFunds (": account " +:+ uuid_String i)))
    | None => k
    end)) w (decided Q).
Proof.
  intros Hin Hfit Hids Hwhy Hk. apply alone_ebind. eapply LockAccountsForUpdate_alone; [done|done| |].
  - intros a (l & -> & Hl)%Hids%list_elem_of_fmap Hn.
    assert (E : unfunded d tn legs = Some ErrAccountNotFound); [|by rewrite Hwhy, E by by rewrite E].
    unfold unfunded. rewrite decide_True; [done|]. apply Exists_exists. by exists l.
  - intros m w1 Hin1 Hacc Hdom.
    assert (Hf : match first_negative (project (acc_Balance <$> m) legs) with
      Some _ => unfunded d tn legs = Some ErrInsufficientFunds | None => unfunded d tn legs = None end).
    { apply first_negative_spec.
      - intros l Hl. by apply Hacc, Hids, list_elem_of_fmap_2.
      - intros a Ha. by apply Hacc, Hids.
      - intros a Ha. by apply Hids, Hdom. }
    destruct (first_negative _) as [i|]; [|by apply Hk].
    apply alone_err. change (why = Some ErrInsufficientFunds). rewrite <- Hf. apply Hwhy. by rewrite Hf.
Qed.

Lemma ExecuteTransfer_alone req :
  why = refusal d (Transfer req) -> is_Some (tenants d !! req_TenantID req) ->
  (forall a, fits64 (posted_sum d a) = true) ->
  alone (ExecuteTransfer s req) (world_of d) accepted.
Proof.
  intros Hw Htn Hfit. simpl in Hw. unfold ExecuteTransfer. destruct (validateEntries _) as [e|] eqn:Ev;
    rewrite <- validateEntries_malformed, Ev in Hw; simpl in Hw.
  { apply alone_err. by rewrite (validateEntries_cause _ _ Ev). }
  apply validateEntries_None in Ev as (_ & Hnz & _). set (legs := input_legs (req_Entries req)) in *.
  apply (alone_transaction _ Horc _ _ _ d); [by apply idle_start|]. intros w Hin. eapply funds_alone; [done|done| |done|].
  { intros a. rewrite (proj2 (uniqueAccountIDs_spec _)). unfold legs, input_legs.
    rewrite <- list_fmap_compose, list_elem_of_fmap. naive_solver. }
  intros w1 Hin1 Hfunded. apply alone_ebind. eapply InsertTransactionWithEntries_alone; [done|done|done| |].
  - intros e He Hn. rewrite unfunded_None in Hfunded. destruct (Hfunded (in_AccountID e, in_AmountMinor e)) as [Ht _].
    + apply list_elem_of_fmap. by exists e.
    + unfold tenant_of_account in Ht. simpl in Ht. by rewrite Hn in Ht.
  - intros [txn rows] v' w2 Hin2 Ht2 _. eapply finish_alone; [done|by rewrite Ht2|congruence].
Qed.

Lemma CreatePendingTransaction_alone req :
  why = refusal d (CreatePending req) -> is_Some (tenants d !! req_TenantID req) ->
  alone (CreatePendingTransaction s req) (world_of d) accepted.
Proof.
  intros Hw Htn. simpl in Hw. unfold CreatePendingTransaction. destruct (validateEntries _) as [e|] eqn:Ev;
    rewrite <- validateEntries_malformed, Ev in Hw; simpl in Hw.
  { apply alone_err. by rewrite (validateEntries_cause _ _ Ev). }
  apply validateEntries_None in Ev as (_ & Hnz & _).
  apply (alone_transaction _ Horc _ _ _ d); [by apply idle_start|]. intros w Hin. apply alone_ebind.
  eapply InsertTransactionWithEntries_alone; [done..| |].
  - intros e He Hn. rewrite Hw, decide_True; [done|]. apply Exists_exists. by exists e.
  - intros [txn rows] v' w2 Hin2 Ht2 Hacc. eapply finish_alone; [done|by rewrite Ht2|].
    rewrite Hw, decide_False; [done|]. intros (e & He & Hn)%Exists_exists. destruct (Hacc e He). congruence.
Qed.

(** What GetTransaction found decides, up to the check of the status. *)
Lemma resolve_alone {A} tn id k (body : Transaction -> list Entry -> prog (goerr + A)) w Q :
  ledger_wf d -> inside d w -> why = unresolvable d tn id k ->
  (forall row ents w', inside d w' -> transactions d !! id = Some row -> tr_tenant_id row = tn ->
     tr_status row = StatusPending -> entry_legs ents ≡ₚ stored_legs d id -> why = k ->
     alone (body {| txn_ID := id; txn_TenantID := tr_tenant_id row; txn_Status := tr_status row;
                    txn_CreatedAt := tr_created_at row |} ents) w' (decided Q)) ->
  alone (ebind (repo_GetTransaction OnTx tn id) (fun '(txn, ents) =>
    if decide (txn_Status txn <> StatusPending) then Ret (inl ErrTransactionNotPending) else body txn ents)) w (decided Q).
Proof.
  intros Hwf Hin Hwhy Hb. apply alone_ebind. eapply repo_GetTransaction_alone; [done|done| |].
  - intros Hn. by rewrite Hwhy, Hn.
  - intros row ents w1 Hin1 Er Htn Hlegs. unfold unresolvable in Hwhy. rewrite Er, decide_False in Hwhy by naive_solver.
    simpl. case_decide as Hst; [by apply alone_err|]. by apply Hb.
Qed.

Lemma PostPendingTransaction_alone tn id actor :
  why = refusal d (PostPending tn id actor) -> ledger_wf d -> is_Some (tenants d !! tn) ->
  (forall a, fits64 (posted_sum d a) = true) ->
  alone (PostPendingTransaction s tn id actor) (world_of d) accepted.
Proof.
  intros Hw Hwf Htn Hfit. apply (alone_transaction _ Horc _ _ _ d); [by apply idle_start|]. intros w Hin.
  eapply (resolve_alone tn id); [done|done|exact Hw|]. intros row ents w1 Hin1 Er Htr Hst Hlegs Hwhy.
  rewrite <- Hlegs in Hwhy. eapply funds_alone; [done|done| |done|].
  { intros a. unfold entry_legs. by rewrite <- list_fmap_compose. }
  intros w2 Hin2 Hfunded. apply alone_ebind. eapply UpdateTransactionStatusGuarded_alone; [done|..].
  1, 2: simpl; rewrite Er; simpl; congruence.
  intros v' w3 Hin3 Ht3. eapply finish_alone; [done|by rewrite Ht3|congruence].
Qed.

Lemma FailPendingTransaction_alone tn id actor :
  why = refusal d (FailPending tn id actor) -> ledger_wf d -> is_Some (tenants d !! tn) ->
  alone (FailPendingTransaction s tn id actor) (world_of d) accepted.
Proof.
  intros Hw Hwf Htn. apply (alone_transaction _ Horc _ _ _ d); [by apply idle_start|]. intros w Hin.
  eapply (resolve_alone tn id None (fun txn _ => _)); [done|done|exact Hw|]. intros row ents w1 Hin1 Er Htr Hst _ Hwhy.
  apply alone_ebind. eapply UpdateTransactionStatusGuarded_alone; [done|..].
  1, 2: simpl; rewrite Er; simpl; congruence.
  intros v' w3 Hin3 Ht3. eapply finish_alone; [done|by rewrite Ht3|done].
Qed.

Lemma CreateAccount_alone tn name actor :
  why = None -> is_Some (tenants d !! tn) -> alone (CreateAccount s tn name actor) (world_of d) accepted.
Proof.
  intros Hw Htn. apply (alone_transaction _ Horc _ _ _ d); [by apply idle_start|]. intros w Hin. apply alone_ebind.
  unfold repo_CreateAccount. apply alone_ebind, alone_wrap. unfold sql_row, q_create_account.
  eapply (alone_insert _ Horc (fun _ _ => _)); [done|by eexists|].
  intros ev Hev. split; [pose proof (dr_unused _ _ _ Hev T_accounts); insert_conditions|].
  intros w1 Hin1. do 2 (apply alone_ret; cbn beta iota delta [Alone.decided]). by eapply close_alone.
Qed.
End answers.

(** ** Theorems *)

Lemma reply_alone orc {A} (mk : goerr + A -> reply) p w why :
  (forall r, reply_error (mk r) = match r with inl e => Some e | inr _ => None end) ->
  alone orc p w (decided why (fun _ _ => why = None)) ->
  alone orc (bind p (fun r => Ret (mk r))) w (fun r _ => cause <$> reply_error r = why).
Proof.
  intros Hmk Hp. apply alone_bind. eapply alone_mono; [exact Hp|]. intros r w' Hr. apply alone_ret.
  rewrite Hmk. by destruct r.
Qed.

Section theorems.
Context `{UuidLib} (s : Service).
Context (events_ok : forall e, svc_events s = Some e -> EventEnqueuerOk e).
Context (audit_ok : forall a, svc_audit s = Some a -> AuditRecorderOk a).
Context (events_answer : forall e, svc_events s = Some e -> EventEnqueuerAnswers e).
Context (audit_answers : forall a, svc_audit s = Some a -> AuditRecorderAnswers a).

Lemma call_answered orc c d :
  calm orc -> unused_from orc 0 d -> ledger_wf d -> is_Some (tenants d !! call_tenant c) ->
  (forall a, fits64 (posted_sum d a) = true) ->
  alone orc (call_prog s c) (world_of d) (fun r _ => cause <$> reply_error r = refusal d c).
Proof.
  intros Horc Hu Hwf Htn Hfit. destruct c; cbn [call_prog call_tenant] in *; apply reply_alone; try (by intros []).
  - by eapply ExecuteTransfer_alone.
  - by eapply CreatePendingTransaction_alone.
  - by eapply PostPendingTransaction_alone.
  - by eapply FailPendingTransaction_alone.
  - by eapply CreateAccount_alone.
Qed.

(** C15: The service decides as the specification does: alone, when no database
    call fails, no identifier comes twice and the balances fit an int64, a ledger
    call of an existing tenant succeeds, with exactly its effect, if the database
    gives no reason to refuse it; otherwise it reports that reason and changes
    nothing. *)
Theorem call_answer c d orc :
  calm orc -> unused_from orc 0 d -> ledger_wf d -> is_Some (tenants d !! call_tenant c) ->
  (forall a, fits64 (posted_sum d a) = true) ->
  exists r w, run (call_prog s c) orc (world_of d) = Some (r, w) /\ w_tx w = None /\
    cause <$> reply_error r = refusal d c /\ call_outcome s c r d (w_db w).
Proof.
  intros Horc Hu Hwf Htn Hfit.
  destruct (call_answered orc c d Horc Hu Hwf Htn Hfit) as (r & w & Hr & Hans).
  exists r, w. split; [exact Hr|].
  destruct (call_alone s c d orc r w events_ok audit_ok Hwf) as [Htx Ho]; [intros n; by rewrite (calm_faults _ Horc)|exact Hr|].
  by split_and!.
Qed.

(** *** Two-phase transfers *)

Lemma created_tenants req st et ac txn rows d d' i :
  created s req st et ac txn rows d d' -> is_Some (tenants d !! i) -> is_Some (tenants d' !! i).
Proof.
  intros (_ & _ & _ & side & now & _ & _ & ->). generalize (entry_write <$> rows). intros ws. apply tenant_kept.
Qed.

Lemma created_legs req st et ac txn rows d d' :
  ledger_wf d' -> ledger_wf d -> created s req st et ac txn rows d d' ->
  stored_legs d' (txn_ID txn) ≡ₚ input_legs (req_Entries req).
Proof.
  intros Hwf' Hwf Hc. assert (Hrows : Forall2 (row_for (req_TenantID req) (txn_ID txn)) (req_Entries req) rows) by apply Hc.
  pose proof (created_entries _ _ _ _ _ _ _ _ _ Hwf Hc) as Hes. apply created_spec in Hc; [|done].
  unfold stored_legs. rewrite <- own_entries; [|exact Hwf'|by rewrite (cf_transactions _ _ _ _ _ _ Hc), lookup_insert_eq].
  simpl. rewrite Hes, <- list_fmap_compose. clear -Hrows. unfold input_legs.
  induction Hrows as [|e r es rows (_ & _ & Ha & Hm) _ IH]; [done|]. csimpl. by rewrite Ha, Hm, IH.
Qed.

(** A pending transaction waits for exactly what the direct transfer needs. *)
Lemma pending_refusal req txn rows d d' actor :
  ledger_wf d -> pending_effect s req txn rows d d' ->
  refusal d' (PostPending (req_TenantID req) (txn_ID txn) actor) = refusal d (Transfer req).
Proof.
  intros Hwf Hp. assert (Hwf' : ledger_wf d') by (eapply (step_wf s []); [by eapply LPending|exact Hwf]).
  destruct Hp as (Hv & _ & Hc). pose proof (created_legs _ _ _ _ _ _ _ _ Hwf' Hwf Hc) as Hlegs.
  apply created_spec in Hc; [|done]. simpl. unfold unresolvable.
  rewrite (cf_transactions _ _ _ _ _ _ Hc), lookup_insert_eq. simpl. rewrite !decide_False by naive_solver.
  rewrite <- validateEntries_malformed, Hv, Hlegs. simpl. unfold unfunded, tenant_of_account.
  rewrite (cf_accounts _ _ _ _ _ _ Hc). case_decide; [done|]. apply decide_ext, Exists_proper; [|done].
  intros l. by rewrite (cf_posted_sum _ _ _ _ _ _ Hc), decide_False, Z.add_0_r by done.
Qed.

(** C16: A transfer in two phases is the same transfer: posting a pending
    transaction right after it was created is refused for the same reason as
    executing it directly, or both succeed and give every account the same
    balance. *)
Theorem two_phase_transfer req txn rows actor d d1 orc1 orc2 :
  ledger_wf d -> is_Some (tenants d !! req_TenantID req) -> (forall a, fits64 (posted_sum d a) = true) ->
  pending_effect s req txn rows d d1 ->
  calm orc1 -> unused_from orc1 0 d1 -> calm orc2 -> unused_from orc2 0 d ->
  exists r1 w1 r2 w2,
    run (call_prog s (PostPending (req_TenantID req) (txn_ID txn) actor)) orc1 (world_of d1) = Some (r1, w1) /\
    run (call_prog s (Transfer req)) orc2 (world_of d) = Some (r2, w2) /\
    match reply_error r1, reply_error r2 with
    | None, None => forall a, posted_sum (w_db w1) a = posted_sum (w_db w2) a
    | Some e1, Some e2 => cause e1 = cause e2 /\ (cause e1 = ErrAccountNotFound \/ cause e1 = ErrInsufficientFunds) /\
        w_db w1 = d1 /\ w_db w2 = d
    | _, _ => False
    end.
Proof.
  intros Hwf Htn Hfit Hp Horc1 Hu1 Horc2 Hu2. pose proof (pending_refusal req txn rows d d1 actor Hwf Hp) as Hsame.
  assert (Hwf1 : ledger_wf d1) by (eapply (step_wf s []); [by eapply LPending|exact Hwf]).
  pose proof Hp as (Hv & _ & Hc). pose proof (created_spec _ _ _ _ _ _ _ _ _ Hwf Hc) as Hcf.
  assert (Hsum : forall a, posted_sum d1 a = posted_sum d a).
  { intros a. by rewrite (cf_posted_sum _ _ _ _ _ _ Hcf), decide_False, Z.add_0_r. }
  destruct (call_answered orc1 (PostPending (req_TenantID req) (txn_ID txn) actor) d1) as (r1 & w1 & Hr1 & E1); [done..| | |].
  { by eapply created_tenants. }
  { intros a. by rewrite Hsum. }
  destruct (call_answered orc2 (Transfer req) d) as (r2 & w2 & Hr2 & E2); [done..|].
  assert (Hf : forall orc, calm orc -> forall n, tk_fault (orc n) <> FailAfter) by (intros orc Horc n; by rewrite (calm_faults _ Horc)).
  destruct (call_alone s _ _ _ _ _ events_ok audit_ok Hwf1 (Hf _ Horc1) Hr1) as [_ H1].
  destruct (call_alone s _ _ _ _ _ events_ok audit_ok Hwf (Hf _ Horc2) Hr2) as [_ H2].
  exists r1, w1, r2, w2. split; [exact Hr1|]. split; [exact Hr2|]. rewrite Hsame, <- E2 in E1.
  destruct r1 as [|[e1|txn1]|], r2 as [[e2|[txn2 rows2]]| |]; try done; simpl in *.
  - injection E1 as E1. split; [done|]. split; [|done]. rewrite E1.
    rewrite <- validateEntries_malformed, Hv in E2. simpl in E2. unfold unfunded in E2. repeat case_decide; simplify_eq; auto.
  - intros a. destruct H1 as [_ Hres%resolved_spec], H2 as (_ & _ & Hc2). apply created_spec in Hc2; [|done].
    rewrite (rf_posted_sum _ _ _ _ _ _ Hres), (cf_posted_sum _ _ _ _ _ _ Hc2), !decide_True by done.
    by rewrite Hsum, (cf_net_of_new _ _ _ _ _ _ Hcf).
Qed.
End theorems.

(** ** Examples *)

#[local] Existing Instance demo_uuid.

(** The sample environment from its [k]-th answer on. *)
Definition demo_from (k n : nat) : tick := demo_tick (k + n).

Lemma demo_calm k : calm (demo_from k).
Proof. split; [intros n; reflexivity|]. intros m n. simpl. lia. Qed.

Lemma demo_unused k d : ids_below (1000 + N.of_nat k) d = true -> unused_from (demo_from k) 0 d.
Proof. intros Hb. apply (ids_below_unused _ _ _ Hb). intros n. simpl. lia. Qed.

Lemma demo_fits a : fits64 (posted_sum demo_db a) = true.
Proof.
  apply fits64_spec. pose proof (posted_sum_bound demo_db a) as Hb.
  assert (Hv : volume demo_db = 2600) by (vm_compute; reflexivity). rewrite Hv in Hb.
  unfold int64_min, int64_max. lia.
Qed.

Lemma events_answer e : svc_events Router.ledgerSvc = Some e -> EventEnqueuerAnswers e.
Proof. intros [= <-]. apply _. Qed.

Lemma audit_answers a : svc_audit Router.ledgerSvc = Some a -> AuditRecorderAnswers a.
Proof. intros [= <-]. apply _. Qed.

(** An accepted transfer. *)
Lemma call_answer_witness : exists r w,
  run (call_prog Router.ledgerSvc (Transfer demo_transfer)) (demo_from 0) (world_of demo_db) = Some (r, w) /\
  reply_error r = None /\ call_outcome Router.ledgerSvc (Transfer demo_transfer) r demo_db (w_db w).
Proof.
  assert (Hu : unused_from (demo_from 0) 0 demo_db) by (apply demo_unused; vm_compute; reflexivity).
  destruct (call_answer Router.ledgerSvc events_ok audit_ok events_answer audit_answers (Transfer demo_transfer) demo_db (demo_from 0)
    (demo_calm 0) Hu demo_wf (ltac:(by eexists)) demo_fits) as (r & w & Hr & _ & Hd & Ho).
  assert (E : refusal demo_db (Transfer demo_transfer) = None) by (vm_compute; reflexivity).
  rewrite E in Hd. exists r, w. split; [exact Hr|]. split; [|exact Ho]. destruct (reply_error r); [discriminate Hd|reflexivity].
Defined.

(** Moves of an amount between two accounts of tenant 1. *)
Definition demo_move (amount : Z) : TransferRequest :=
  {| req_TenantID := 1; req_Entries := [leg 10 (- amount); leg 11 amount]; req_ActorID := "u" |}.

(** Refusals, by the reference. A pending transaction may name the account of
    another tenant, and only a missing one is refused. *)
Example refusals :
  refusal demo_db <$> [Transfer (demo_move 5000); Transfer foreign_request; Transfer missing_request;
                       CreatePending foreign_request; CreatePending missing_request; CreatePending (demo_move 0);
                       PostPending 1 100 "u"; PostPending 2 101 "u"; PostPending 1 101 "u"] =
  [Some ErrInsufficientFunds; Some ErrAccountNotFound; Some ErrAccountNotFound;
   None; Some (SqlError (FkViolation "entries_account_id_fkey")); Some ErrZeroAmountEntry;
   Some ErrTransactionNotPending; Some ErrTransactionNotFound; None].
Proof. vm_compute. reflexivity. Qed.

(** A move of 300 in two phases. *)
Lemma two_phase_transfer_witness : exists txn d1 r1 w1 r2 w2,
  run (call_prog Router.ledgerSvc (PostPending 1 (txn_ID txn) "u")) (demo_from 1000) (world_of d1) = Some (r1, w1) /\
  run (call_prog Router.ledgerSvc (Transfer (demo_move 300))) (demo_from 0) (world_of demo_db) = Some (r2, w2) /\
  posted_sum (w_db w2) 10 = 700 /\ forall a, posted_sum (w_db w1) a = posted_sum (w_db w2) a.
Proof.
  destruct (run (call_prog Router.ledgerSvc (CreatePending (demo_move 300))) demo_tick (world_of demo_db))
    as [[[[e|[txn rows]]|r|r] w]|] eqn:E; try (exfalso; vm_compute in E; discriminate E).
  pose proof (demo_call _ _ _ E : pending_effect _ _ _ _ _ _) as Hp.
  assert (Hu1 : unused_from (demo_from 1000) 0 (w_db w)).
  { apply demo_unused. vm_compute in E. injection E as <- <- <-. vm_compute. reflexivity. }
  assert (Hu2 : unused_from (demo_from 0) 0 demo_db) by (apply demo_unused; vm_compute; reflexivity).
  destruct (two_phase_transfer Router.ledgerSvc events_ok audit_ok events_answer audit_answers (demo_move 300) txn rows "u"
    demo_db (w_db w) (demo_from 1000) (demo_from 0) demo_wf (ltac:(by eexists)) demo_fits Hp (demo_calm 1000) Hu1 (demo_calm 0) Hu2)
    as (r1 & w1 & r2 & w2 & Hr1 & Hr2 & Hd).
  assert (E2 : posted_sum (w_db w2) 10 = 700 /\ reply_error r2 = None).
  { vm_compute in Hr2. injection Hr2 as <- <-. split; vm_compute; reflexivity. }
  exists txn, (w_db w), r1, w1, r2, w2. split; [exact Hr1|]. split; [exact Hr2|]. split; [exact (proj1 E2)|].
  rewrite (proj2 E2) in Hd. destruct (reply_error r1); [destruct Hd|exact Hd].
Defined.
