(* ===== verification/AuthAnswer.v ===== *)
(** * What the authentication service answers

    [auth_refusal] decides from the database, the clock and the salt whether a
    registration, login, refresh or logout is to be refused, and why;
    [auth_answer] shows that the service decides in the same way when nothing
    else fails. Registration then login is a corollary. *)

From S2P Require Import Prelude GoBase Db Prog ProgFacts Interfaces AuditLog Webhook Auth.
From S2P Require Import AuthWp Schema Alone LedgerSingle Concrete AuthProps.
From stdpp Require Import pretty.
From S2P Require Router.
Local Open Scope Z_scope.

(** ** The reference *)

Section reference.
Context `{Crypto, SqlLower, Bcrypt}.

Definition token_by_hash (d : db) (hash : string) : option (uuid * refresh_token_row) :=
  head (rows_where (fun p : uuid * refresh_token_row => rt_token_hash p.2 = hash) (refresh_tokens d)).

(** Addresses are compared up to case, within the tenant. *)
Definition user_by_email (d : db) (tn : uuid) (email : string) : option (uuid * user_row) :=
  head (rows_where (fun p : uuid * user_row => us_tenant_id p.2 = tn /\ sql_lower (us_email p.2) = sql_lower email) (users d)).

Definition auth_refusal (now : time) (salt : string) (d : db) (c : auth_call) : option goerr :=
  match c with
  | DoRegister tn role email password =>
      match bcrypt_Generate salt password with
      | inl e => Some (cause e)
      | inr _ =>
          if decide (is_Some (user_by_email d tn email)) then Some ErrEmailAlreadyExists
          else if decide (is_Some (roles (rbac d) !! role)) then None
          else Some (SqlError (FkViolation "users_role_id_fkey"))
      end
  | DoLogin tn email password =>
      match user_by_email d tn email with
      | None => Some ErrInvalidCredentials
      | Some (_, u) =>
          if negb (bcrypt_Compare (us_password_hash u) password) then Some ErrInvalidCredentials
          else if decide (us_status u = UserStatusDisabled) then Some ErrUserDisabled
          else None
      end
  | DoRefresh raw =>
      match token_by_hash d (hashToken raw) with
      | None => Some ErrRefreshTokenNotFound
      | Some (_, r) =>
          if decide (rt_status r <> TokenActive) then Some ErrRefreshTokenInvalid
          else if (rt_expires_at r <? now) then Some ErrRefreshTokenInvalid
          else if decide (us_status <$> users d !! rt_user_id r = Some UserStatusDisabled) then Some ErrUserDisabled
          else None
      end
  | DoLogout raw => if decide (is_Some (token_by_hash d (hashToken raw))) then None else Some ErrRefreshTokenNotFound
  | Beside _ => None
  end.
End reference.

(** The error of a reply. *)
Definition auth_error (r : auth_reply) : option goerr :=
  match r with RRegister (inl e) | RSession (inl e) | RLogout (inl e) => Some e | _ => None end.

(** ** The environment *)

Section environment.
Context `{Crypto} (orc : nat -> tick) (d : db).

(** The random bytes are there and are those of no stored token. *)
Definition new_secrets : Prop := forall n, exists raw, tk_rand (orc n) = Some raw /\ no_hash (hashToken raw) d.

(** No token expires while the call runs. *)
Definition settled : Prop := forall i r, refresh_tokens d !! i = Some r ->
  (forall n, tk_now (orc n) < rt_expires_at r) \/ (forall n, rt_expires_at r < tk_now (orc n)).
End environment.

(** ** The repository and the helpers of the service, when nothing fails *)

Section answers.
Context `{UuidLib, Crypto, PgTime, SqlLower, Bcrypt, Jwt}.
Context (orc : nat -> tick) (Horc : calm orc) (why : option goerr).
Context (s : Service).
Context (audit_answers : forall a, svc_audit s = Some a -> AuditRecorderAnswers a).
Context (signing : forall key claims, exists token, jwt_SignedString key claims = inr token).
Context (d : db) (typed : well_typed d) (secrets : new_secrets orc d).
Local Abbreviation alone := (alone orc).
Local Abbreviation idle := (idle orc).
Local Abbreviation inside := (inside orc).
Local Abbreviation decided := (decided why).

Lemma user_tenant u row : users d !! u = Some row -> is_Some (tenants d !! us_tenant_id row).
Proof. intros Hu. by apply (wt_rows d typed (WUser u row) Hu). Qed.

Lemma token_user i r : refresh_tokens d !! i = Some r -> us_tenant_id <$> users d !! rt_user_id r = Some (rt_tenant_id r).
Proof. intros Hr. apply (wt_rows d typed (WRefreshToken i r) Hr). Qed.

Lemma found_token hash i r : token_by_hash d hash = Some (i, r) -> refresh_tokens d !! i = Some r /\ rt_token_hash r = hash.
Proof.
  intros Hin%head_Some_elem_of. by apply list_elem_of_filter in Hin as [Hh Hin%elem_of_map_to_list].
Qed.

Lemma found_user tn email u row :
  user_by_email d tn email = Some (u, row) -> users d !! u = Some row /\ us_tenant_id row = tn.
Proof.
  intros Hin%head_Some_elem_of. by apply list_elem_of_filter in Hin as [[Ht _] Hin%elem_of_map_to_list].
Qed.

Lemma GetRefreshTokenByHash_alone hash w Q :
  idle d w -> (token_by_hash d hash = None -> why = Some ErrRefreshTokenNotFound) ->
  (forall p w', token_by_hash d hash = Some p -> idle d w' -> Q (scan_token p) w') ->
  alone (GetRefreshTokenByHash OnDb hash) w (decided Q).
Proof.
  intros Hid Hwhy HQ. unfold GetRefreshTokenByHash, sql_row, q_get_refresh_token. apply alone_bind.
  eapply (alone_query _ Horc); [done|]. intros w1 Hid1. apply alone_ret. fold (token_by_hash d hash).
  destruct (token_by_hash d hash) as [p|]; [apply alone_ret; by apply HQ|]. by apply alone_err, Hwhy.
Qed.

Lemma GetUserByEmail_alone tn email w Q :
  idle d w ->
  (forall w', idle d w' -> Q (match user_by_email d tn email with Some p => inr (scan_user p) | None => inl ErrUserNotFound end) w') ->
  alone (GetUserByEmail OnDb tn email) w Q.
Proof.
  intros Hid HQ. unfold GetUserByEmail, scanUser, sql_row, q_get_user_by_email. apply alone_bind.
  eapply (alone_query _ Horc); [done|]. intros w1 Hid1. apply alone_ret. fold (user_by_email d tn email).
  destruct (user_by_email d tn email) as [p|]; apply alone_ret; by apply HQ.
Qed.

Lemma GetUserByID_alone tn u row w Q :
  idle d w -> users d !! u = Some row -> us_tenant_id row = tn ->
  (forall w', idle d w' -> Q (scan_user (u, row)) w') -> alone (GetUserByID OnDb tn u) w (decided Q).
Proof.
  intros Hid Hu Ht HQ. unfold GetUserByID, scanUser, sql_row, q_get_user_by_id. apply alone_bind.
  eapply (alone_query _ Horc); [done|]. intros w1 Hid1. apply alone_ret. rewrite Hu, decide_True by done.
  apply alone_ret. by apply HQ.
Qed.

Lemma auth_audit_alone tn actor action pl v w Q :
  inside v w -> is_Some (tenants v !! tn) -> (forall v' w', inside v' w' -> Q tt w') ->
  alone (recordAudit s tn actor action pl) w (decided Q).
Proof.
  intros Hin Htn HQ. unfold recordAudit. destruct (svc_audit s) as [a|] eqn:E in |- *; [|apply alone_ret; by eapply HQ].
  eapply (audit_answers a E); [done..|]. intros v' w' Hin' _. by eapply HQ.
Qed.

(** Audit row and COMMIT, then [k]. *)
Lemma auth_close_alone {A} tn actor action pl pre1 pre2 (k : prog (goerr + A)) v w Q :
  inside v w -> is_Some (tenants v !! tn) -> (forall w', alone k w' (decided Q)) ->
  alone (ebind (wrap_err pre1 (recordAudit s tn actor action pl)) (fun _ => ebind (wrap_err pre2 sql_commit) (fun _ => k)))
    w (decided Q).
Proof.
  intros Hin Htn Hk. apply alone_ebind, alone_wrap. eapply auth_audit_alone; [done..|]. intros v1 w1 Hin1.
  apply alone_ebind, alone_wrap. eapply alone_commit; [done..|]. intros w2. apply Hk.
Qed.

(** Signing asks the clock twice; nothing else can go wrong. *)
Lemma generateAccessToken_alone user w Q :
  (forall x w', Q x w') -> alone (generateAccessToken s user) w (decided Q).
Proof.
  intros HQ. unfold generateAccessToken, time_Now, ask. cbn [bind]. do 2 (apply alone_ask; intros).
  match goal with |- context [jwt_SignedString ?k ?c] => destruct (signing k c) as [token ->] end. apply alone_ret. apply HQ.
Qed.

Lemma generateAccessToken_inside user v w Q :
  inside v w -> (forall x w', inside v w' -> Q x w') -> alone (generateAccessToken s user) w (decided Q).
Proof.
  intros Hin HQ. unfold generateAccessToken, time_Now, ask. cbn [bind].
  eapply alone_ask_inside; [exact Hin|]. intros m1 w1 Hin1. eapply alone_ask_inside; [exact Hin1|]. intros m2 w2 Hin2.
  match goal with |- context [jwt_SignedString ?k ?c] => destruct (signing k c) as [token ->] end. apply alone_ret. by apply HQ.
Qed.

Lemma generateRawToken_inside v w Q :
  inside v w -> (forall raw w', inside v w' -> no_hash (hashToken raw) d -> Q (raw, hashToken raw) w') ->
  alone generateRawToken w (decided Q).
Proof.
  intros Hin HQ. unfold generateRawToken, ask. cbn [bind]. eapply alone_ask_inside; [exact Hin|].
  intros m w1 Hin1. destruct (secrets m) as (raw & -> & Hno). apply alone_ret. by apply HQ.
Qed.

Lemma CreateRefreshToken_inside u tn hash ttl w Q :
  inside d w -> no_hash hash d -> us_tenant_id <$> users d !! u = Some tn ->
  (forall rt row w', inside (apply_write (WRefreshToken (rtk_ID rt) row) d) w' -> refresh_tokens d !! rtk_ID rt = None -> Q rt w') ->
  alone (CreateRefreshToken OnTx u tn hash ttl) w (decided Q).
Proof.
  intros Hin Hno Hu HQ. unfold CreateRefreshToken, time_Now, ask. cbn [bind]. eapply alone_ask_inside; [exact Hin|].
  intros m w1 Hin1. apply alone_ebind, alone_wrap. unfold sql_row, q_create_refresh_token.
  eapply (alone_insert _ Horc (fun _ _ => _) (fun _ => _)); [exact Hin1|by eexists|]. intros ev Hev.
  pose proof (dr_unused _ _ _ Hev T_refresh_tokens) as Hfree. split.
  - intros b e. set_unfold. intros [[= -> _]|[[= -> _]|[[= -> _]|[]]]]; [by apply absent_row| |by apply bool_decide_eq_true].
    apply bool_decide_eq_true, elem_of_nil_inv. intros [k r] [Hk Hr%elem_of_map_to_list]%list_elem_of_filter. by eapply Hno.
  - intros w2 Hin2. apply alone_ret. cbn beta iota delta [Alone.decided]. apply alone_ret. by eapply HQ.
Qed.

(** ** The calls *)

Local Abbreviation accepted := (decided (fun _ _ => why = None)).

Lemma Register_alone now tn role email password salt w :
  tk_rand (orc (w_pos w)) = Some salt -> idle d w -> is_Some (tenants d !! tn) ->
  why = auth_refusal now salt d (DoRegister tn role email password) ->
  alone (Register s tn role email password) w accepted.
Proof.
  intros Hsalt Hid Htn Hw. simpl in Hw. unfold Register, ask. cbn [bind]. eapply alone_ask_idle; [done|].
  intros w1 Hid1. rewrite Hsalt. cbv zeta. destruct (bcrypt_Generate salt password) as [e|hash]; [by apply alone_err|].
  apply (alone_transaction _ Horc _ _ _ d); [done|]. intros w2 Hin2. apply alone_ebind.
  unfold CreateUser. apply alone_bind. unfold sql_row. eapply (alone_exec _ Horc); [done|]. intros ev Hev. unfold q_create_user.
  cbn [guarded]. rewrite (absent_row (users d)) by apply (dr_unused _ _ _ Hev T_users).
  assert (Hmail : bool_decide (rows_where (fun p : uuid * user_row => us_tenant_id p.2 = tn /\
      sql_lower (us_email p.2) = sql_lower email) (users d) = []) = bool_decide (~ is_Some (user_by_email d tn email))).
  { apply bool_decide_ext. unfold user_by_email. destruct (rows_where _ _); simpl.
    - split; [intros _; by intros [? [=]]|done].
    - split; [done|]. intros Hn. destruct Hn. by eexists. }
  rewrite Hmail. destruct (decide (is_Some (user_by_email d tn email))) as [Hs|Hs];
    [rewrite bool_decide_eq_false_2 by tauto|rewrite bool_decide_eq_true_2 by done].
  { split; [intros x Hx; by apply not_elem_of_nil in Hx|]. intros w3. apply alone_ret. by apply alone_err. }
  rewrite (present_row (tenants d)) by done.
  destruct (decide (is_Some (roles (rbac d) !! role))) as [Hr|Hr];
    [rewrite (present_row (roles (rbac d))) by done|].
  2:{ unfold has_row. rewrite (bool_decide_eq_false_2 (is_Some (roles (rbac d) !! role))) by done.
      split; [intros x Hx; by apply not_elem_of_nil in Hx|]. intros w3. apply alone_ret. by apply alone_err. }
  split.
  - intros x ->%list_elem_of_singleton. exists T_users, (e_uuid ev). auto.
  - intros w3 Hin3. apply alone_ret. apply alone_ret. cbn beta iota delta [Alone.decided].
    eapply auth_close_alone; [exact Hin3|done|]. intros w4. by apply alone_ret.
Qed.

Lemma Login_alone now salt tn email password w :
  idle d w -> why = auth_refusal now salt d (DoLogin tn email password) -> alone (Login s tn email password) w accepted.
Proof.
  intros Hid Hw. simpl in Hw. unfold Login. apply alone_bind. eapply GetUserByEmail_alone; [done|]. intros w1 Hid1.
  destruct (user_by_email d tn email) as [[u row]|] eqn:Eu; [|by apply alone_err].
  apply found_user in Eu as [Hu <-]. cbn [scan_user usr_PasswordHash usr_Status].
  destruct (bcrypt_Compare _ _); simpl in Hw |- *; [|by apply alone_err].
  destruct (decide (us_status row = UserStatusDisabled)); [by apply alone_err|].
  apply (alone_transaction _ Horc _ _ _ d); [done|]. intros w2 Hin2. apply alone_ebind.
  unfold issueTokenPair. apply alone_ebind. eapply generateAccessToken_inside; [done|]. intros [access expires] w3 Hin3.
  apply alone_ebind. eapply generateRawToken_inside; [done|]. intros raw w4 Hin4 Hno.
  apply alone_ebind. eapply CreateRefreshToken_inside; [done|done|cbn; by rewrite Hu|]. intros rt r w5 Hin5 _.
  apply alone_ret. eapply auth_close_alone; [exact Hin5|simpl; by eapply user_tenant|]. intros w6. by apply alone_ret.
Qed.

Lemma Logout_alone now salt raw w :
  idle d w -> why = auth_refusal now salt d (DoLogout raw) -> alone (Logout s raw) w accepted.
Proof.
  intros Hid Hw. simpl in Hw. unfold Logout. apply alone_ebind. eapply GetRefreshTokenByHash_alone; [done| |].
  { intros E. rewrite Hw, E. rewrite decide_False; [done|]. by intros [? [=]]. }
  intros [i r] w1 Ht Hid1. rewrite Ht, decide_True in Hw by by eexists.
  apply (alone_transaction _ Horc _ _ _ d); [done|]. intros w2 Hin2. apply alone_ebind.
  apply alone_wrap. eapply (alone_exec _ Horc); [done|]. intros ev _. cbn [oc_res oc_writes q_revoke]. split.
  - intros x ([j t] & -> & Hj)%list_elem_of_fmap. apply list_elem_of_filter in Hj as [_ Hj%elem_of_map_to_list].
    exists T_refresh_tokens, j. split; [done|]. right. simpl. by rewrite Hj.
  - intros w3 Hin3. apply alone_ret. cbn beta iota delta [Alone.decided lift_sql]. apply found_token in Ht as [Hr _].
    eapply auth_close_alone; [exact Hin3| |intros w4; by apply alone_ret].
    simpl. pose proof (token_user _ _ Hr) as Hu. destruct (users d !! rt_user_id r) as [row|] eqn:Eu; [|done].
    injection Hu as <-. apply tenant_kept. by eapply user_tenant.
Qed.

Lemma Refresh_alone salt raw w :
  settled orc d -> idle d w -> why = auth_refusal (tk_now (orc 0%nat)) salt d (DoRefresh raw) -> alone (Refresh s raw) w accepted.
Proof.
  intros Hset Hid Hw. simpl in Hw. unfold Refresh. apply alone_ebind. eapply GetRefreshTokenByHash_alone; [done| |].
  { intros E. by rewrite Hw, E. }
  intros [i r] w1 Ht Hid1. rewrite Ht in Hw. apply found_token in Ht as [Hr _]. cbn [scan_token rtk_Status rtk_ID rtk_UserID rtk_TenantID rtk_ExpiresAt].
  destruct (decide (rt_status r <> TokenActive)) as [Hst|Hst].
  { rewrite decide_True by (destruct (rt_status r); tauto). apply alone_ebind, alone_wrap.
    eapply (alone_update _ Horc); [done|by intros ev|]. intros w2. apply alone_ret. by apply alone_err. }
  assert (Hact : rt_status r = TokenActive) by by destruct (rt_status r); [|destruct Hst..]. clear Hst.
  rewrite decide_False by (rewrite Hact; by intros [|]). unfold time_Now, ask. cbn [bind].
  eapply alone_ask_idle; [done|]. intros w2 Hid2. destruct (Hset i r Hr) as [Hexp|Hexp].
  2:{ assert (E : forall n, (rt_expires_at r <? tk_now (orc n)) = true) by (intros n; apply Z.ltb_lt, Hexp).
      rewrite E in Hw |- *. by apply alone_err. }
  assert (E : forall n, (rt_expires_at r <? tk_now (orc n)) = false) by (intros n; apply Z.ltb_ge, Z.lt_le_incl, Hexp).
  rewrite E in Hw |- *.
  pose proof (token_user _ _ Hr) as Hu. destruct (users d !! rt_user_id r) as [row|] eqn:Eu; [|done]. injection Hu as Hu.
  apply alone_ebind. eapply GetUserByID_alone; [done|exact Eu|exact Hu|]. intros w3 Hid3. cbn [scan_user usr_Status usr_TenantID usr_ID].
  destruct (decide (us_status row = UserStatusDisabled)) as [Hd|Hd].
  { apply alone_err. rewrite Hw. cbn [fmap option_fmap option_map]. by rewrite Hd. }
  assert (Hok : why = None) by (rewrite Hw, decide_False; [done|]; simpl; congruence). clear Hw.
  apply (alone_transaction _ Horc _ _ _ d); [done|]. intros w4 Hin4.
  apply alone_ebind. eapply generateRawToken_inside; [done|]. intros new w5 Hin5 Hno.
  apply alone_ebind. eapply CreateRefreshToken_inside; [done|done|by rewrite Eu|]. intros rt newrow w6 Hin6 Hfree.
  assert (Hne : i <> rtk_ID rt) by congruence.
  apply alone_ebind. unfold RotateRefreshToken. apply alone_ebind, alone_wrap. eapply (alone_exec _ Horc); [exact Hin6|].
  intros ev [_ [m Hnow]]. unfold q_rotate. simpl. rewrite lookup_insert_ne, Hr, decide_True by (done || by rewrite Hnow).
  rewrite present_row by (rewrite lookup_insert_eq; by eexists). simpl. split.
  - intros x ->%list_elem_of_singleton. exists T_refresh_tokens, i. split; [done|]. right. simpl.
    rewrite lookup_insert_ne by done. by rewrite Hr.
  - intros w7 Hin7. apply alone_ret. cbn beta iota delta [Alone.decided lift_sql]. apply alone_ret.
    eapply auth_close_alone; [exact Hin7|simpl; by eapply user_tenant|]. intros w8.
    apply alone_ebind, generateAccessToken_alone. intros [access expires] w9. by apply alone_ret.
Qed.
End answers.

(** ** Theorems *)

(** What a call that ran alone did; what a refused refresh does to the sessions
    of the user is the matter of [reuse_ends_sessions]. *)
Definition auth_outcome `{UuidLib, Crypto, SqlLower, Bcrypt} (c : auth_call) (r : auth_reply) (d d' : db) : Prop :=
  match c, r with
  | DoRegister tn role email password, RRegister (inr user) => registered tn role email password user d d'
  | DoLogin tn email password, RSession (inr res) => logged_in tn email password res d d'
  | DoRefresh raw, RSession (inr res) => rotated raw (res_RefreshToken res) (res_RefreshExpiresAt res) d d'
  | DoLogout raw, RLogout (inr x) => logged_out raw x d d'
  | DoRegister _ _ _ _, RRegister (inl _) | DoLogin _ _ _, RSession (inl _) | DoLogout _, RLogout (inl _) => d' = d
  | DoRefresh _, RSession (inl _) => users d' = users d
  | _, _ => False
  end.

Definition tenant_known (d : db) (c : auth_call) : Prop :=
  match c with
  | DoRegister tn _ _ _ => is_Some (tenants d !! tn)
  | Beside _ => False
  | _ => True
  end.

Section theorems.
Context `{UuidLib, Crypto, PgTime, SqlLower, Bcrypt, Jwt} (s : Service).
Context (audited : audited_service s).
Context (audit_answers : forall a, svc_audit s = Some a -> AuditRecorderAnswers a).
Context (signing : forall key claims, exists token, jwt_SignedString key claims = inr token).

Lemma auth_reply_alone orc {A} (mk : goerr + A -> auth_reply) p w why :
  (forall r, auth_error (mk r) = match r with inl e => Some e | inr _ => None end) ->
  alone orc p w (decided why (fun _ _ => why = None)) ->
  alone orc (bind p (fun r => Ret (mk r))) w (fun r _ => cause <$> auth_error r = why).
Proof.
  intros Hmk Hp. apply alone_bind. eapply alone_mono; [exact Hp|]. intros r w' Hr. apply alone_ret. rewrite Hmk. by destruct r.
Qed.

Lemma auth_answered (orc : nat -> tick) salt c d :
  calm orc -> unused_from orc 0 d -> well_typed d -> new_secrets orc d -> settled orc d -> tk_rand (orc 0%nat) = Some salt ->
  tenant_known d c ->
  alone orc (auth_prog s c) (world_of d) (fun r _ => cause <$> auth_error r = auth_refusal (tk_now (orc 0%nat)) salt d c).
Proof.
  intros Horc Hu Hd Hs Hset Hsalt Htn. pose proof (idle_start orc d Hu) as Hid.
  destruct c; cbn [auth_prog tenant_known] in *; [..|done]; apply auth_reply_alone; try (by intros []).
  - by eapply Register_alone.
  - by eapply Login_alone.
  - by eapply Refresh_alone.
  - by eapply Logout_alone.
Qed.

Lemma auth_alone c d orc r w :
  (forall n, tk_fault (orc n) <> FailAfter) -> (forall p, c <> Beside p) ->
  run (auth_prog s c) orc (world_of d) = Some (r, w) -> auth_outcome c r d (w_db w).
Proof.
  intros Hf Hb Hr.
  assert (Hres : auth_result no_lost_answer c r (w_log w)).
  { assert (Hwp : wp auth_step no_lost_answer (auth_prog s c) None [] d (fun r tx log _ => auth_result no_lost_answer c r log)).
    { apply (auth_call_wp no_lost_answer s [c]); [done| |left]. intros p Hp%list_elem_of_singleton. by destruct (Hb p). }
    exact (wp_run auth_step no_lost_answer _ orc (world_of d) r w _ (fun _ n => Hf n) Hwp Hr). }
  assert (Hc : chain d (w_log w) (w_db w)) by (eapply (run_chain _ _ (world_of d)); [|exact Hr]; done).
  destruct c, r as [x|x|x|]; simpl in Hres; try done; try (exfalso; by eapply Hb); try (by pose proof (tx_result_alone _ _ _ _ _ Hres Hc); destruct x).
  destruct x as [e|res]; simpl in *.
  - destruct Hres as [E|(d1 & d2 & E & Hcase)]; rewrite E in Hc; simpl in Hc; [by subst|]. destruct Hc as [-> <-].
    destruct Hcase as [(old & r & _ & _ & _ & Eu & _)|(newraw & ex & old & r & id & u & row & st & Hrot)]; [done|]. tauto.
  - destruct Hres as (d1 & d2 & E & Hrot). rewrite E in Hc. destruct Hc as [-> <-]. exact Hrot.
Qed.


(** Who registers can log in, in whatever case the address is written. *)
Lemma register_then_login tn role email email' password user d0 d orc salt :
  registered tn role email password user d0 d -> sql_lower email' = sql_lower email ->
  calm orc -> unused_from orc 0 d -> well_typed d -> new_secrets orc d -> settled orc d -> tk_rand (orc 0%nat) = Some salt ->
  exists res w, run (auth_prog s (DoLogin tn email' password)) orc (world_of d) = Some (RSession (inr res), w) /\
    logged_in tn email' password res d (w_db w).
Proof.
  intros (salt' & hash & now & Hg & Euser & _ & _ & Eu & _) Hem Horc Hu Hd Hs Hset Hsalt.
  set (row := UserRow tn role email hash UserStatusActive now) in *. set (u := usr_ID user) in *.
  assert (Hrow : users d !! u = Some row) by by rewrite Eu, lookup_insert_eq.
  assert (Hfind : user_by_email d tn email' = Some (u, row)).
  { apply head_rows_where; [done|done|]. intros j v Hj [Htn Hlow]. simpl in Htn, Hlow.
    assert (lock_of (WUser j v) = lock_of (WUser u row)) as [= ->]; [|done].
    apply (wt_unique d Hd (WUser j v) (WUser u row) (LUnique T_users tn (sql_lower email)) Hj Hrow); simpl; congruence. }
  destruct (auth_answered orc salt (DoLogin tn email' password) d Horc Hu Hd Hs Hset Hsalt I) as (r & w & Hr & Hans).
  unfold auth_refusal in Hans. rewrite Hfind in Hans. unfold row in Hans. cbn [us_password_hash us_status] in Hans.
  rewrite (bcrypt_Compare_Generate _ _ _ Hg), decide_False in Hans by done. simpl in Hans.
  assert (Ho : auth_outcome (DoLogin tn email' password) r d (w_db w)).
  { apply (auth_alone _ d orc); [intros n; by rewrite (calm_faults _ Horc)|by intros p|exact Hr]. }
  destruct r as [|[e|res]| |]; try done. by exists res, w.
Qed.
End theorems.

(** ** Examples *)

Section examples.
Local Existing Instances demo_uuid demo_text demo_crypto demo_json demo_time demo_lower demo_bcrypt
  demo_jwt demo_decoder demo_encoder.
Local Abbreviation svc := (Router.authSvc "secret").

(** Every step draws other random bytes; the clock stands still. *)
Definition secret_tick (n : nat) : tick :=
  Tick NoFault 5 (1000 + N.of_nat n) (Some ("r" +:+ pretty n)%string) (Some 0) (HttpStatus 200).

Lemma secret_calm : calm secret_tick.
Proof. split; [intros n; reflexivity|]. intros m n. simpl. lia. Qed.

(** Accepted and refused, for users 7, active, and 8, disabled. *)
Definition answer_db : db :=
  set_users (<[8%N := UserRow 1 5 "eve" "pw" UserStatusDisabled 0]>) (session_db TokenActive).

Example auth_refusals :
  auth_refusal 5 "salt" answer_db <$>
    [DoRegister 1 5 "bob" "pw"; DoRegister 1 5 "ann" "pw"; DoRegister 1 9 "bob" "pw"; DoLogin 1 "ann" "pw";
     DoLogin 1 "ann" "no"; DoLogin 2 "ann" "pw"; DoLogin 1 "eve" "pw"; DoRefresh "tok"; DoRefresh "other"; DoLogout "tok"]%string =
  [None; Some ErrEmailAlreadyExists; Some (SqlError (FkViolation "users_role_id_fkey")); None;
   Some ErrInvalidCredentials; Some ErrInvalidCredentials; Some ErrUserDisabled; None; Some ErrRefreshTokenNotFound; None].
Proof. vm_compute. reflexivity. Qed.

Lemma main_answers a : svc_audit svc = Some a -> AuditRecorderAnswers a.
Proof. intros [= <-]. apply _. Qed.

Lemma answer_typed : well_typed answer_db.
Proof. apply schema_check_spec. vm_compute. reflexivity. Qed.

Lemma answer_unused : unused_from secret_tick 0 answer_db.
Proof. apply (ids_below_unused 1000); [vm_compute; reflexivity|]. intros n. simpl. lia. Qed.

Lemma answer_token i r : refresh_tokens answer_db !! i = Some r -> r = demo_token TokenActive.
Proof.
  unfold answer_db, session_db, set_users, set_refresh_tokens. cbn [refresh_tokens demo_db].
  by intros [[_ <-]|[_ Hn%lookup_empty_Some]]%lookup_insert_Some.
Qed.

End examples.
