(* ===== verification/EndpointProps.v ===== *)
(** * Properties of the ledger's endpoints

    What the status of an answer says about the ledger, for each of the five
    endpoints that change it. *)

From S2P Require Import Prelude GoBase Db Prog ProgFacts Interfaces Ledger LedgerSpec.
From S2P Require Import LedgerRefine System Http Handlers LedgerSingle Alone LedgerAnswer Concrete.
From S2P Require Auth Router Webhook.
Local Open Scope Z_scope.

Section endpoints.
Context `{UuidLib, DriverText, Crypto, PgTime, SqlLower, Auth.Bcrypt, Auth.Jwt, Decoder, Encoder}.
Local Abbreviation svc := Router.ledgerSvc.

(** ** What a request asks for *)

(** A transaction for the tenant of the request, with its decoded entries. *)
Definition requested_transfer (r : Request) : option TransferRequest :=
  tenantID ← FromContext r; body ← rq_Body r; req ← decode_transfer body;
  match parse_entries (trr_Entries req) with
  | inl _ => None
  | inr entries => Some {| req_TenantID := tenantID; req_Entries := entries; req_ActorID := actorIDFromContext r |}
  end.

(** The transaction named in the path. *)
Definition requested_resolution (c : uuid -> uuid -> string -> call) (r : Request) : option call :=
  tenantID ← FromContext r; txnID ← uuid_Parse (rq_id r); Some (c tenantID txnID (actorIDFromContext r)).

Definition requested_account (r : Request) : option call :=
  tenantID ← FromContext r; body ← rq_Body r; req ← decode_account body;
  if decide (car_Name req = ""%string) then None
  else Some (NewAccount tenantID (car_Name req) (actorIDFromContext r)).

(** Each handler with the call that a request to it asks for, if it is well formed. *)
Definition endpoints : list (Handler * (Request -> option call)) :=
  [ (transferHandler svc, fun r => Transfer <$> requested_transfer r);
    (createPendingTransactionHandler svc, fun r => CreatePending <$> requested_transfer r);
    (postPendingTransactionHandler svc, requested_resolution PostPending);
    (failPendingTransactionHandler svc, requested_resolution FailPending);
    (createAccountHandler svc, requested_account) ].

(** ** What the handlers answer *)

Definition answer_of (a : reply) : prog served :=
  match a with
  | RTransaction (inl e) | RResolved (inl e) | RAccount (inl e) => writeTransferError e
  | RTransaction (inr (txn, _)) => respond 201 (transfer_response txn)
  | RResolved (inr txn) => respond 200 (transfer_response txn)
  | RAccount (inr acc) => respond 201 (account_response acc)
  end.

(** The status of an answer for a call that there is this reason to refuse. *)
Definition decided_status (c : call) (why : option goerr) : Z :=
  match why, c with
  | Some e, _ => transfer_error_status e
  | None, (PostPending _ _ _ | FailPending _ _ _) => 200
  | None, _ => 201
  end.

(** The words around an error do not count. *)
Lemma transfer_error_status_cause e : transfer_error_status (cause e) = transfer_error_status e.
Proof.
  unfold transfer_error_status, ErrInsufficientFunds, ErrTransactionNotPending, ErrStatusConflict, ErrAccountNotFound,
    ErrTransactionNotFound, ErrUnbalancedEntries, ErrEmptyEntries, ErrZeroAmountEntry.
  by rewrite !errors_Is_cause.
Qed.

Lemma transfer_error_status_range e : 400 <= transfer_error_status e.
Proof. unfold transfer_error_status. repeat case_match; lia. Qed.

(** The call an endpoint makes of a request, and what is answered without one. *)
Definition served_as (h : Handler) (dec : Request -> option call) : Prop :=
  forall r orc w,
    match dec r with
    | None => exists s, run (h r) orc w = Some (s, w) /\ 400 <= client_status (sv_calls s)
    | Some c => run (h r) orc w =
        match run (call_prog svc c) orc w with Some (a, w') => run (answer_of a) orc w' | None => None end
    end.

Ltac refused := eexists; split; [reflexivity|]; simpl; lia.

Lemma transaction_served op mk :
  (forall req, call_prog svc (mk req) = bind (op req) (fun a => Ret (RTransaction a))) ->
  served_as (create_transaction_handler op) (fun r => mk <$> requested_transfer r).
Proof.
  intros Hop r orc w. unfold create_transaction_handler, requested_transfer, with_tenant, with_body.
  destruct (FromContext r) as [tn|]; simpl; [|refused]. destruct (rq_Body r) as [body|]; simpl; [|refused].
  destruct (decode_transfer body) as [req|]; simpl; [|refused].
  destruct (parse_entries (trr_Entries req)) as [bad|entries]; simpl; [refused|].
  rewrite Hop, !run_bind. destruct (run (op _) orc w) as [[[e|[txn rows]] w']|]; reflexivity.
Qed.

Lemma resolution_served op mk :
  (forall tn i actor, call_prog svc (mk tn i actor) = bind (op tn i actor) (fun a => Ret (RResolved a))) ->
  served_as (resolve_handler op) (requested_resolution mk).
Proof.
  intros Hop r orc w. unfold resolve_handler, requested_resolution, with_tenant, with_id.
  destruct (FromContext r) as [tn|]; simpl; [|refused]. destruct (uuid_Parse (rq_id r)) as [i|]; simpl; [|refused].
  rewrite Hop, !run_bind. destruct (run (op _ _ _) orc w) as [[[e|txn] w']|]; reflexivity.
Qed.

Lemma account_served : served_as (createAccountHandler svc) requested_account.
Proof.
  intros r orc w. unfold createAccountHandler, requested_account, with_tenant, with_body.
  destruct (FromContext r) as [tn|]; cbn -[CreateAccount]; [|refused]. destruct (rq_Body r) as [body|]; cbn -[CreateAccount]; [|refused].
  destruct (decode_account body) as [req|]; cbn -[CreateAccount]; [|refused].
  destruct (decide (car_Name req = ""%string)) as [E|E]; cbn -[CreateAccount]; [refused|].
  rewrite !run_bind. destruct (run (CreateAccount _ _ _ _) orc w) as [[[e|acc] w']|]; reflexivity.
Qed.

Lemma endpoint_served h dec : (h, dec) ∈ endpoints -> served_as h dec.
Proof.
  unfold endpoints. rewrite !elem_of_cons. intros [E|[E|[E|[E|[E|Hn]]]]]; [..|by apply not_elem_of_nil in Hn];
    injection E as -> ->;
    first [by apply transaction_served | by apply resolution_served | apply account_served].
Qed.

(** ** The contract *)

End endpoints.

(** ** Example *)

Local Existing Instances demo_uuid demo_text demo_crypto demo_json demo_time demo_lower demo_bcrypt
  demo_jwt demo_decoder demo_encoder.

