(* ===== verification/LifecycleProps.v ===== *)
(** * History is never rewritten

    In the whole program (System.v) every stored row is either final when it is
    inserted, or changes only along its life cycle (History.v). *)

From S2P Require Import Prelude GoBase Db Prog ProgFacts Interfaces Queue Webhook Adapters Quiet History.
From S2P Require Import Statements Writes Schema Worker WorkerWp System Concrete.
From S2P Require Auth Http Handlers Router Tenants.

(** ** The whole program *)

Section processes.
Context `{UuidLib, DriverText, Crypto, PgTime, SqlLower, JsonText, Auth.Bcrypt, Auth.Jwt,
          Handlers.Decoder, Handlers.Encoder, Router.Chi, FloatConv, HttpLib}.
Context (tick_ok : db -> tick -> Prop) (d0 : db).

Lemma task_evolves t : writes_when evolves (task_prog visitor_prog t).
Proof.
  eapply issues_mono; [apply @program_stmt_evolves|apply task_sends].
Qed.

Lemma reached_evolves F i th :
  system_reached tick_ok d0 F -> fl_threads F !! i = Some th ->
  writes_when evolves (th_prog th) /\ tx_when evolves (th_tx th) (fl_db F).
Proof.
  intros HR. revert i th. refine (goroutine_inv tick_ok d0 (fun th d => writes_when evolves (th_prog th) /\
    tx_when evolves (th_tx th) d) F _ _ _ _ HR).
  - intros t d. split; [apply task_evolves|by intros ?].
  - intros others tk th th' d e os [Hp Ht] Hs. by destruct (thread_step_when _ _ _ _ _ _ _ _ Hp Ht Hs) as (? & ? & _).
  - intros th d d' [Hp Ht] F'. split; [done|]. by eapply tx_when_frame; [apply _|..].
  - intros log d. split; [done|by intros ?].
Qed.

Lemma step_evolution F F' :
  system_reached tick_ok d0 F -> system_step tick_ok F F' -> evolution (fl_db F) (fl_db F').
Proof.
  intros HR Hs. destruct (step_changes _ _ _ Hs) as [->|(i & th & tk & th' & e & os & Hi & Hst & ->)]; [reflexivity|].
  destruct (reached_evolves F i th HR Hi) as [Hp Ht].
  destruct (thread_step_when _ _ _ _ _ _ _ _ Hp Ht Hst) as (_ & _ & He). destruct e as [|L ws]; [reflexivity|].
  by apply evolution_writes.
Qed.

(** C8: History is never rewritten. Whatever any number of processes do from one
    moment to a later one, every tenant, account, ledger entry, audit record,
    dead letter and user that was stored is still stored, unchanged; a
    transaction changes only its status and only while it is pending; an event
    keeps its tenant, type, payload and time; a refresh token keeps its
    identity and, once rotated or revoked, does not change any more; and an
    idempotency key changes hands only after its claim has expired. *)
Theorem history_is_kept F F' :
  system_reached tick_ok d0 F -> rtc (system_step tick_ok) F F' -> evolution (fl_db F) (fl_db F').
Proof.
  intros HR Hs. induction Hs as [F|F1 F2 F3 Hs _ IH]; [reflexivity|].
  transitivity (fl_db F2); [by apply step_evolution|]. apply IH. by eapply rtc_r.
Qed.

Lemma task_typed t : issues (fun R q => stmt_when evolves q /\ typed_stmt q) (task_prog visitor_prog t).
Proof. eapply issues_mono; [|apply task_sends]. intros R q Hq. split; [by apply program_stmt_evolves|by apply program_stmt_typed]. Qed.

(** C9: The database keeps its schema, whatever any number of processes do at
    once and whatever fails: every foreign key refers to a stored row (and the
    user of a refresh token to one of the same tenant), no entry has amount
    zero, a completed idempotency key has its response, only a rotated token has
    a successor, and no two rows share a value of a unique index: an
    idempotency key of a tenant, an e-mail address (up to case) of a tenant, the
    hash of a refresh token. So does the database that any open transaction sees. *)
Theorem schema_is_kept F :
  well_typed d0 -> system_reached tick_ok d0 F ->
  well_typed (fl_db F) /\
  forall i th t, fl_threads F !! i = Some th -> th_tx th = Some t -> well_typed (apply_writes (tx_writes t) (fl_db F)).
Proof.
  intros Hd0 HR.
  destruct (database_inv tick_ok d0 well_typed typed_thread sound_eff) with (F := F) as [Hd HI]; [..|done|done|].
  - intros t d _. split; [apply task_typed|apply sound_tx_none].
  - intros others tk th th' d e os Hd Hth Hs. destruct (typed_step _ _ _ _ _ _ _ Hd Hth Hs) as [Hth' He].
    split_and!; [by apply sound_result|done..].
  - intros th d e Hd [Hp Ht] He Hwf. split; [done|]. intros t Et. rewrite Et in Hwf. destruct e as [|L ws]; [by apply Ht|].
    destruct Hwf as [HL _]. eapply sound_merge; [done|by apply Ht|exact He|]. intros l Hl HlL. by eapply HL.
  - intros log d _. split; [done|apply sound_tx_none].
  - split; [done|]. intros i th t Hi Et. destruct (HI i th Hi) as [_ Ht]. by apply (sd_result _ _ _ (Ht t Et)).
Qed.
End processes.

(** ** Example *)

Local Existing Instances demo_uuid demo_text demo_crypto demo_json demo_time demo_lower demo_bcrypt
  demo_jwt demo_float demo_http demo_decoder demo_encoder demo_chi.

Lemma history_is_kept_witness :
  evolution (fl_db (system_run demo_db demo_morning)) (fl_db (system_run demo_db (demo_morning ++ moves 5 4 20))) /\
  transactions (fl_db (system_run demo_db demo_morning)) <> transactions demo_db.
Proof.
  split; [|vm_compute; discriminate].
  exact (history_is_kept any_tick demo_db _ _ (system_run_reached demo_db demo_morning)
    (system_run_app demo_db demo_morning (moves 5 4 20))).
Defined.

Lemma schema_is_kept_witness :
  well_typed demo_db /\ well_typed (fl_db (system_run demo_db demo_day)) /\
  users (fl_db (system_run demo_db demo_day)) <> ∅ /\ entries (fl_db (system_run demo_db demo_day)) <> entries demo_db.
Proof.
  assert (Hd : well_typed demo_db) by (apply schema_check_spec; vm_compute; reflexivity).
  split; [exact Hd|]. split; [|split; vm_compute; discriminate].
  exact (proj1 (schema_is_kept any_tick demo_db _ Hd (system_run_reached demo_db demo_day))).
Defined.
